(* ===== verification/_CoqProject ===== *)
-Q . S2P
Prelude.v
CMem.v
MemOps.v
Console.v
Schema.v
Capnp.v
Validate.v
ValidateSpec.v
CapnpList.v
Cap.v
CapProps.v
CapInvoke.v
CapType.v
CapBoot.v
CapSmp.v
CapRefine.v
CapSmpBoot.v
Fdt.v
FdtSafe.v
FdtTotal.v
FdtTree.v
FdtPath.v
FdtBlob.v
FdtSearch.v
FdtReg.v
FdtEdge.v
FdtTest.v
Uart.v
UartTree.v
Macho.v
MachoProps.v
Efi.v
EfiProps.v
SmpLayout.v
CLayout.v
CapRecord.v
PageTables.v
BootProtocol.v
EntryX86.v
EntryX86Steps.v
EntryArm64.v
Boot.v
BootProps.v
BootService.v
BootBsp.v
BootConsole.v
EntryX86Boot.v
EntryArm64Boot.v
ApCores.v
