(* ===== verification/Prelude.v ===== *)
(** * saski: a verification development

    saski is a small capability kernel in C for x86_64 and AArch64.  It is
    loaded by firmware, finds out what machine it runs on, loads a user
    program ("init") from an image embedded in it, and from then on offers
    exactly one system call, [kernel_invoke]: send a Cap'n Proto message to
    the object a capability names.  Its parts, and how they use each other:

    - kernel/boot.S and arch/boot_aarch64.S are where a core starts: they
      keep what the loader left in registers, set up the stack and, on
      x86_64, the page tables and 64-bit mode, and call into C;
    - kernel/kernel.c and kernel/kernel_boot_aarch64.c boot the first core
      and every further one.  They read what the boot loader left
      (kernel/xnu_boot_args.h, the EFI tables, a device tree through
      lib/fdt.c), load init with kernel/macho.c into memory laid out by
      include/smp_layout.h, bring up the factory with kernel/cap.c, and
      enter init with the block of include/init_abi.h; the objects of the
      newer handoff, which the kernel passes on, are those of
      include/boot_protocol.h;
    - kernel/cap.c keeps the capability records.  [kernel_invoke] looks a
      record up under a spin lock, finds the method in the object's schema
      (kernel/schema.h), has the request checked by
      kernel/capnp_validate.c, calls the object's handler, and has the
      response checked.  Its own object, the factory, creates and destroys
      records;
    - kernel/capnp_validate.c decides whether bytes can be read as a struct
      type, on top of the pointer decoder of kernel/capnp.h;
      include/capnp_list.h builds and reads one particular message shape;
    - kernel/serial.c formats console output and sends it through the
      UART driver of the target, kernel/serial_x86_64.c or
      kernel/serial_aarch64.c; the second asks the device tree which UART
      there is.  lib/freestanding_mem.c is what compiled code needs of a C
      library.

    ** The files

    Prelude.v (this file): outcomes of C code, machine integers, loops, the
    tactics and the hint database [saski].
    CMem.v: byte objects that are read ([reader]), physical memory that is
    written ([memory]), byte orders.
    MemOps.v: lib/freestanding_mem.c.
    Console.v: kernel/serial.c, and calls of it as values.
    Schema.v: kernel/schema.h.  Capnp.v: kernel/capnp.h.
    Validate.v: kernel/capnp_validate.c, its safety and termination.
    ValidateSpec.v: the declarative meaning of "this message has that type",
    and the refinement of the validator to it.
    CapnpList.v: include/capnp_list.h.
    Cap.v: kernel/cap.c and kernel/cap.h on one core.  CapProps.v and
    CapInvoke.v: its theorems.  CapType.v: the machine types at the system
    call.  CapBoot.v: the bootstrap, and where the contract of the layer has
    holes.
    CapSmp.v: the critical sections of kernel/cap.c as a step relation, on
    any number of cores and with interrupts.  CapRefine.v: a system call of
    Cap.v is a run of one core of CapSmp.v.  CapSmpBoot.v:
    [kernel_cap_bootstrap] access by access on that machine, beside system
    calls.  CapRecord.v: the records as bytes in their callers' storage.
    Fdt.v: lib/fdt.c, all of it.  FdtSafe.v and FdtTotal.v: its behaviour on
    arbitrary bytes.  FdtTree.v, FdtPath.v, FdtBlob.v: its behaviour on the
    encoding of a tree.  FdtSearch.v: the search by compatible string.
    FdtReg.v: memory banks and register translation.  FdtEdge.v: examples,
    and where it misbehaves.  FdtTest.v: the project's test program,
    tests/fdt_test.c, on the tree of tests/fdt_test.dts.
    Uart.v: kernel/serial_x86_64.c and kernel/serial_aarch64.c, with a class
    per device.  UartTree.v: the console of a machine given by its tree.
    Macho.v and MachoProps.v: kernel/macho.c.
    Efi.v and EfiProps.v: kernel/xnu_boot_args.h and the readers of the
    loader's and the firmware's tables in kernel/kernel.c.
    SmpLayout.v: include/smp_layout.h.
    CLayout.v: the compiler's layout of the structs that others read or
    write, and the static assertions of the sources.
    PageTables.v: [build_ap_page_tables] of kernel/kernel.c, and the walk
    the processor makes.
    BootProtocol.v: include/boot_protocol.h, with the boot allocator's code
    behind the class [BootAllocator].
    EntryX86.v: kernel/boot.S.  EntryX86Steps.v: its steps, from the
    identity map to the call of C.  EntryArm64.v: arch/boot_aarch64.S.
    Boot.v: [kernel_boot], [kernel_boot_ap] and
    kernel/kernel_boot_aarch64.c.  BootProps.v: the further cores.
    BootBsp.v: the first core.  BootConsole.v: what each of them prints, and
    the text of the diagnostics of Cap.v.
    EntryX86Boot.v and EntryArm64Boot.v: the entry code and the C code
    together, from the first instruction to init.  ApCores.v: all further
    cores of an AArch64 machine, one after another.  BootService.v: from the
    boot of one core to a service that another core uses.

    ** How C is represented

    A C function is a Rocq function with the same name that returns an
    [outcome]: a value, or [Fault p] when it touches storage that is not
    there, or [Hang] when it spins on something nothing will change, or
    [NoFuel] when the model's bound on a loop runs out.  An unsigned integer
    is a [Z] with the wrap-around of its type written at each operation that
    can wrap ([u16], [u32], [u64]), a signed conversion is [s32] or [s64].
    State that C keeps in globals or behind pointers is passed explicitly:
    [kstate] (records, schema tables, lock word, interrupt flag, log) for
    kernel/cap.c, [memory] for what is written byte by byte.  A handle is
    the address of its record, so a stale, reused or forged handle is just
    an address, as in the code.  Handlers of objects other than the factory
    are not part of the kernel; they are an argument, [code], a program tree
    that may invoke objects again, store records, and keep state of its own,
    and no theorem restricts it further unless it says so.  What such a
    program cannot do is rewrite the schema tables, the lock word or the
    request it was sent; object code of the real system runs at the kernel's
    privilege and could.  The devices behind the console are arguments too: a state and
    its register accesses, with the documented behaviour the drivers rely on
    as the classes [NS16550], [PL011] and [CadenceUart].  Each discharges
    [Transport], which is what the formatter's theorem is proved against,
    and the witnesses give a device that satisfies them.

    Assembly is represented by instructions: functions from the processor's
    state (registers, control registers, descriptor table, memory) to an
    outcome, under their mnemonics, and code is a list of them.  What the
    processor checks on the way is part of the instruction, so a general
    protection fault, a page fault or a return to the wrong place is a
    [Fault].  A console message is the call of [kprintf], [kcall]: the format
    and the arguments; [transcript] is the bytes a list of them sends.

    ** Bounds

    - The validator recurses with fuel [VALIDATE_FUEL], 18.  The C code
      rejects beyond depth [CAPNP_MAX_DEPTH], 16; [validator_memory_safe]
      shows that the fuel never runs out, for any input.
    - The walks over a device tree use [walk_fuel], the length of the
      structure block plus two; each iteration moves forward by at least
      one, and the theorems of FdtTotal.v show that it never runs out.  The
      search by compatible string takes its fuel as an argument ([search]
      in Boot.v), because there are blobs on which the C code does not
      terminate ([compatible_search_diverges]); on trees of at most sixteen
      levels the number of nodes is enough ([device_tree_search]).
    - A polling loop of a UART driver takes its fuel as an argument; the
      theorems give a bound from which on every fuel gives the same result.
    - The loops of the entry code take as fuel the number of times they go
      round: the 512 entries of a page directory, the bytes of .bss and one.
      Their theorems say that the code reaches C.
    - The fuel of [kernel_invoke] is the depth of invocations that handlers
      nest.  Results about a call that returns quantify over every fuel, and
      the results that say a call returns show it for fuel that is given.
    - The lock of Cap.v is taken on one core: on a held lock the model says
      [Hang].  CapSmp.v has the contended lock, without any fuel.

    ** What the theorems show

    - Messages: the validator accepts exactly the messages that conform to
      the schema; reading an accepted message as its type stays inside it;
      on any bytes it neither faults nor loops; the decoder inverts the
      wire format; the list encoder and reader are inverse, but the
      validator rejects what the encoder builds.
    - Capabilities: a call returns success only for a live object, a
      declared method, a conforming request and a conforming response;
      everything else, a record that was never made or is destroyed
      included, is refused before the object runs, or its response
      cleared; CREATE and DESTROY do exactly what they say; a destroyed
      handle is dead; the lock and the interrupt flag are balanced through
      nested calls; records keep the types of [cap_record_t] and stay in
      the storage there was.  On many cores the critical sections are atomic
      in the order the lock is released, and a held lock is always
      released; the one-core system call is a run of that machine.  A core
      that bootstraps while others make system calls joins them without
      disturbing the lock, as long as nobody creates an object in the
      factory's own record; if somebody does, the lock can be broken, and a
      run that does so is given.  The records may be thought of as a map
      because, as bytes in storage of their callers, they refine one.
    - Device trees: on any blob with readable blocks every operation returns
      (with the stated exceptions), reads nothing else, and reports only
      offsets inside the structure block; on the encoding
      of a tree, navigation, property access, path lookup, the search by
      compatible string, the memory banks and the translated registers are
      those of the tree; the reservation block round-trips; a truncated
      blob is rejected; the project's own test passes.
    - Loading and booting: the loader puts every segment's bytes and zero
      fill in place, and nothing else; the memory-map scan and the search
      for the ACPI root compute what they should; the memory layout has no
      overlaps; the page tables of a further core map what they should.
      The first core, on either target and from its first instruction,
      enters init inside the memory init was linked for and hands over what
      firmware said about the machine: on x86_64 in 64-bit mode with
      interrupts off, on page tables that map exactly the first 4 GiB to
      themselves, and init is told of those very tables; on AArch64 with
      .bss cleared and on the console the device tree names.  The newer
      boot protocol passes the loader's registers on, and every core that
      joins on it shares the first core's capabilities, writing only its own
      two fields of the handoff block behind x0: an object one core
      creates is served to another, until that one destroys it.  Further cores on
      AArch64, in any number and order, boot inside their own slots.  On
      x86_64 a further core loads its init into another core's slot, which
      is shown too.
    - Console and support: the formatter prints what the format says; the
      drivers set their UART up and deliver exactly those bytes; the UART
      is the one the device tree names; every message of every boot path
      prints, and a core says so, once and last, when it gives up; the
      memory routines copy correctly under overlap.

    Where the code does not do what its comments promise, the theorem states
    what it does, on a concrete input where that is shorter.

    ** What is not modelled

    The compile-time annotations (include/ownership.h,
    include/memory_tokens.h, kernel/mode.h): macros that expand to nothing in
    the compiled program, and whose meaning is in a checker that is not part
    of these sources.  The freestanding headers, which are type definitions.
    The build and the tools; of the tests, the scripts around the program of
    FdtTest.v.  And arch/dt_blob.S, an included binary nothing refers to.
    The rest of the C sources is modelled.

    [halt_forever] ends a run, and so does init, which never returns.  The
    init image is part of the kernel's own binary and is read as it was
    before the load began: a segment loaded over the image being read is
    outside the model.  The loader's stores to where a segment goes are not
    checked against the memory there is, since the loader has no such check
    and the images of the theorems stay in spans the layout reserves; every
    other store of the kernel to memory faults where there is none.  The
    kernel's own static variables and its stack are kept outside that
    memory, so a statement that memory is unchanged does not speak of
    them.  The encodings of the instructions, and so their
    addresses, are the assembler's and are parameters.  Memory is
    sequentially consistent and caches are invisible; loads and stores of a
    field are single steps, and an access that is not aligned is not a
    fault.  On the many-core machine only the kernel writes record storage:
    a caller that rewrites the storage of a live record itself, which the
    sources leave to the caller, is in the one-core model ([HStore]) only.
    The trampoline that brings an x86_64 application processor to
    [kernel_boot_ap] belongs to init. *)
From stdpp Require Export base numbers list gmap.
From stdpp Require Import options.
From Stdlib Require Export Lia.
#[export] Unset Default Proof Using.

#[global] Open Scope Z_scope.

(** * Outcomes of C code *)

(** What a run of a C function can end in.  [Ret a]: it returned [a].
    [Fault p]: it touched address (or buffer offset) [p], which the object
    it was reading or writing does not contain.  [Hang]: it spins for ever
    on a condition nothing can change.  [NoFuel]: the bound the model puts
    on a loop ran out; the termination theorems show when it cannot. *)
Inductive outcome (A : Type) : Type :=
| Ret (a : A)
| Fault (addr : Z)
| Hang
| NoFuel.
Arguments Ret {A} a.
Arguments Fault {A} addr.
Arguments Hang {A}.
Arguments NoFuel {A}.

#[export] Instance outcome_ret : MRet outcome := fun A a => Ret a.
#[export] Instance outcome_bind : MBind outcome := fun A B f o =>
  match o with
  | Ret a => f a
  | Fault p => Fault p
  | Hang => Hang
  | NoFuel => NoFuel
  end.

#[export] Instance outcome_eq_dec {A} `{EqDecision A} : EqDecision (outcome A).
Proof. solve_decision. Defined.

(** Total correctness: the run returns, and what it returns satisfies [P]. *)
Definition wp {A} (o : outcome A) (P : A -> Prop) : Prop :=
  match o with Ret a => P a | _ => False end.

(** Partial correctness without deadlock: the run does not spin for ever,
    and if it returns, what it returns satisfies [P]. *)
Definition wlp {A} (o : outcome A) (P : A -> Prop) : Prop :=
  match o with Ret a => P a | Hang => False | _ => True end.

(** A C [for (;;)] or [while] loop: [step] is one iteration of the body,
    [inl] goes round again with the new values of the loop's variables and
    [inr] leaves the loop. *)
Fixpoint iterM {S R : Type} (fuel : nat) (step : S -> outcome (S + R)) (s : S)
    : outcome R :=
  match fuel with
  | O => NoFuel
  | Datatypes.S f =>
      r ← step s;
      match r with
      | inl s' => iterM f step s'
      | inr x => Ret x
      end
  end.

(** [for (i = start; n more times; i++) if (!body(i)) return 0; return 1;] *)
Fixpoint for_all (n : nat) (i : Z) (body : Z -> outcome bool) : outcome bool :=
  match n with
  | O => Ret true
  | Datatypes.S n' =>
      b ← body i;
      if b : bool then for_all n' (i + 1) body else Ret false
  end.

(** The two targets the kernel is built for. *)
Inductive arch := X86_64 | AARCH64.

(** * Machine integers *)

(** The conversions C makes to a fixed-width type: the unsigned ones reduce
    modulo [2^w], the signed ones are two's complement. *)
Definition u8 (z : Z) : Z := z mod 2 ^ 8.
Definition u16 (z : Z) : Z := z mod 2 ^ 16.
Definition u32 (z : Z) : Z := z mod 2 ^ 32.
Definition u64 (z : Z) : Z := z mod 2 ^ 64.
Definition s32 (z : Z) : Z :=
  let w := u32 z in if w <? 2 ^ 31 then w else w - 2 ^ 32.
Definition s64 (z : Z) : Z :=
  let w := u64 z in if w <? 2 ^ 63 then w else w - 2 ^ 64.

#[global] Arguments u8 _ : simpl never.
#[global] Arguments u16 _ : simpl never.
#[global] Arguments u32 _ : simpl never.
#[global] Arguments u64 _ : simpl never.
#[global] Arguments s32 _ : simpl never.
#[global] Arguments s64 _ : simpl never.

Definition is_u8 (z : Z) : Prop := 0 <= z < 2 ^ 8.
Definition is_u16 (z : Z) : Prop := 0 <= z < 2 ^ 16.
Definition is_u32 (z : Z) : Prop := 0 <= z < 2 ^ 32.
Definition is_u64 (z : Z) : Prop := 0 <= z < 2 ^ 64.

#[export] Instance is_u8_dec z : Decision (is_u8 z).
Proof. unfold is_u8. apply _. Defined.
#[export] Instance is_u16_dec z : Decision (is_u16 z).
Proof. unfold is_u16. apply _. Defined.
#[export] Instance is_u32_dec z : Decision (is_u32 z).
Proof. unfold is_u32. apply _. Defined.
#[export] Instance is_u64_dec z : Decision (is_u64 z).
Proof. unfold is_u64. apply _. Defined.

(** * The development's tactics and hint databases *)

Create HintDb saski discriminated.
#[export] Hint Constants Opaque : saski.

(** Splits every hypothesis that is a conjunction or an existential. *)
Ltac deconj :=
  repeat match goal with
    | H : _ /\ _ |- _ => destruct H
    | H : exists _, _ |- _ => destruct H
    end.

(** Turns boolean tests of the code into the propositions they decide. *)
Ltac breflect :=
  repeat match goal with
    | H : (_ && _)%bool = true |- _ => apply andb_true_iff in H; destruct H
    | H : (_ || _)%bool = false |- _ => apply orb_false_iff in H; destruct H
    | H : (_ && _)%bool = false |- _ => apply andb_false_iff in H
    | H : (_ || _)%bool = true |- _ => apply orb_true_iff in H
    | H : negb _ = true |- _ => apply negb_true_iff in H
    | H : negb _ = false |- _ => apply negb_false_iff in H
    | H : (_ =? _) = true |- _ => apply Z.eqb_eq in H
    | H : (_ =? _) = false |- _ => apply Z.eqb_neq in H
    | H : (_ <? _) = true |- _ => apply Z.ltb_lt in H
    | H : (_ <? _) = false |- _ => apply Z.ltb_ge in H
    | H : (_ <=? _) = true |- _ => apply Z.leb_le in H
    | H : (_ <=? _) = false |- _ => apply Z.leb_gt in H
    | H : (_ >? _) = true |- _ => apply Z.gtb_lt in H
    | H : (_ >? _) = false |- _ => rewrite Z.gtb_ltb in H; apply Z.ltb_ge in H
    | H : (_ >=? _) = true |- _ => apply Z.geb_le in H
    | H : (_ >=? _) = false |- _ => rewrite Z.geb_leb in H; apply Z.leb_gt in H
    end.

(** Case analysis on the [if] the goal is blocked on, with the tested
    condition reflected into the context. *)
Ltac case_if :=
  match goal with
  | |- context [if ?b then _ else _] =>
      let E := fresh "E" in
      lazymatch type of b with
      | bool => destruct b eqn:E; breflect
      | sumbool _ _ => destruct b as [E|E]
      end
  end.

(** Proves a decidable closed statement by evaluating its decision. *)
Ltac by_compute :=
  match goal with |- ?P => refine (bool_decide_unpack P _) end; vm_compute; exact I.

Ltac unfold_ints :=
  unfold is_u8, is_u16, is_u32, is_u64 in *.

(** Linear arithmetic with the width predicates unfolded. *)
Ltac ulia := unfold_ints; lia.

(** * Lemmas on outcomes *)

Lemma wp_ret {A} (a : A) P : P a -> wp (Ret a) P.
Proof. done. Qed.

Lemma ret_bind {A B} (a : A) (k : A -> outcome B) : Ret a ≫= k = k a.
Proof. done. Qed.

Lemma wp_bind {A B} (o : outcome A) (k : A -> outcome B) P :
  wp o (fun a => wp (k a) P) -> wp (o ≫= k) P.
Proof. by destruct o. Qed.

Lemma wp_bind_inv {A B} (o : outcome A) (k : A -> outcome B) P :
  wp (o ≫= k) P -> exists a, o = Ret a /\ wp (k a) P.
Proof. destruct o; [eauto|done..]. Qed.

Lemma wp_mono {A} (o : outcome A) (P Q : A -> Prop) :
  wp o P -> (forall a, P a -> Q a) -> wp o Q.
Proof. destruct o; simpl; auto. Qed.

Lemma wp_conj {A} (o : outcome A) (P Q : A -> Prop) :
  wp o P -> wp o Q -> wp o (fun a => P a /\ Q a).
Proof. destruct o; simpl; auto. Qed.

Lemma wp_inv {A} (o : outcome A) P : wp o P -> exists a, o = Ret a /\ P a.
Proof. destruct o; [eauto|done..]. Qed.

Lemma wp_of_eq {A} (o : outcome A) a P : o = Ret a -> P a -> wp o P.
Proof. by intros ->. Qed.

Lemma bind_ret_inv {A B} (o : outcome A) (k : A -> outcome B) b :
  o ≫= k = Ret b -> exists a, o = Ret a /\ k a = Ret b.
Proof. destruct o; [eauto|done..]. Qed.

#[export] Instance wp_proper {A} (o : outcome A) :
  Proper (pointwise_relation A impl ==> impl) (wp o).
Proof. intros P Q HPQ H. eapply wp_mono; [exact H|exact HPQ]. Qed.

Lemma wlp_bind {A B} (o : outcome A) (k : A -> outcome B) P :
  wlp o (fun a => wlp (k a) P) -> wlp (o ≫= k) P.
Proof. by destruct o. Qed.

Lemma wlp_mono {A} (o : outcome A) (P Q : A -> Prop) :
  wlp o P -> (forall a, P a -> Q a) -> wlp o Q.
Proof. destruct o; simpl; auto. Qed.

Lemma wp_wlp {A} (o : outcome A) P : wp o P -> wlp o P.
Proof. by destruct o. Qed.

(** The while rule: an invariant and a measure give total correctness. *)
Lemma wp_iter {S R} (step : S -> outcome (S + R)) (I : S -> Prop)
    (measure : S -> nat) (P : R -> Prop) :
  (forall s, I s ->
    wp (step s) (fun r => match r with
                          | inl s' => I s' /\ (measure s' < measure s)%nat
                          | inr x => P x
                          end)) ->
  forall fuel s, I s -> (measure s < fuel)%nat -> wp (iterM fuel step s) P.
Proof.
  intros Hstep. induction fuel as [|fuel IH]; intros s Hs Hf; [lia|].
  simpl. apply wp_bind. eapply wp_mono; [by apply Hstep|].
  intros [s'|x] Hr; [|done]. destruct Hr. apply IH; [done|lia].
Qed.

(** A loop that returned does so with any larger bound. *)
Lemma iterM_fuel_mono {S R} (step : S -> outcome (S + R)) n m s r :
  iterM n step s = Ret r -> (n <= m)%nat -> iterM m step s = Ret r.
Proof.
  revert m s. induction n as [|n IH]; intros m s Hn Hle; [done|].
  destruct m as [|m]; [lia|]. simpl in *.
  destruct (step s) as [[s'|x]| | |]; simpl in *; try done.
  apply IH; [done|lia].
Qed.

(** [k] iterations that do not leave the loop. *)
Fixpoint stepsM {S R : Type} (k : nat) (step : S -> outcome (S + R)) (s : S)
    : option S :=
  match k with
  | O => Some s
  | Datatypes.S k' =>
      match step s with
      | Ret (inl s') => stepsM k' step s'
      | _ => None
      end
  end.

Lemma stepsM_app {S R} (step : S -> outcome (S + R)) k1 k2 s s1 s2 :
  stepsM k1 step s = Some s1 -> stepsM k2 step s1 = Some s2 -> stepsM (k1 + k2) step s = Some s2.
Proof.
  revert s. induction k1 as [|k1 IH]; intros s H1 H2; simpl in *; [by simplify_eq|].
  destruct (step s) as [[s'|x]| | |]; simplify_eq/=. by apply IH.
Qed.

Lemma stepsM_one {S R} (step : S -> outcome (S + R)) s s' :
  step s = Ret (inl s') -> stepsM 1 step s = Some s'.
Proof. intros H. simpl. by rewrite H. Qed.

(** A loop that leaves after [k] rounds does so with any bound above [k]. *)
Lemma iterM_leaves {S R} (step : S -> outcome (S + R)) k fuel s s' r :
  stepsM k step s = Some s' -> step s' = Ret (inr r) -> (k < fuel)%nat -> iterM fuel step s = Ret r.
Proof.
  revert fuel s. induction k as [|k IH]; intros fuel s Hk Hr Hf; (destruct fuel as [|fuel]; [lia|]);
    simpl in *; [simplify_eq; by rewrite Hr|].
  destruct (step s) as [[s1|x]| | |]; simplify_eq/=. apply IH; [done|done|lia].
Qed.

Lemma iterM_stepsM {S R} (step : S -> outcome (S + R)) k s s' n :
  stepsM k step s = Some s' -> iterM (k + n) step s = iterM n step s'.
Proof.
  revert s. induction k as [|k IH]; intros s H; simpl in *; [by simplify_eq|].
  destruct (step s) as [[s1|x]| | |]; simplify_eq/=. by apply IH.
Qed.

Lemma iterM_stepsM_short {S R} (step : S -> outcome (S + R)) k s s' n :
  stepsM k step s = Some s' -> (n <= k)%nat -> iterM n step s = NoFuel.
Proof.
  revert s n. induction k as [|k IH]; intros s n H Hn; simpl in *.
  - by destruct n; [|lia].
  - destruct n as [|n]; [done|]. simpl.
    destruct (step s) as [[s1|x]| | |]; simplify_eq/=. apply IH; [done|lia].
Qed.

(** A loop whose state recurs never leaves, whatever the bound. *)
Lemma iterM_cycle {S R} (step : S -> outcome (S + R)) k s :
  stepsM (Datatypes.S k) step s = Some s -> forall n, iterM n step s = NoFuel.
Proof.
  intros Hk n. induction n as [n IH] using lt_wf_ind.
  destruct (decide (n <= Datatypes.S k)%nat) as [Hle|Hgt].
  - by eapply iterM_stepsM_short.
  - replace n with (Datatypes.S k + (n - Datatypes.S k))%nat by lia.
    rewrite (iterM_stepsM _ _ _ _ _ Hk). apply IH. lia.
Qed.

(** The loop gets from [s] to [s'] without leaving. *)
Definition reaches {S R} (step : S -> outcome (S + R)) (s s' : S) : Prop :=
  exists k, stepsM k step s = Some s'.

Lemma reaches_refl {S R} (step : S -> outcome (S + R)) s : reaches step s s.
Proof. by exists 0%nat. Qed.

Lemma reaches_trans {S R} (step : S -> outcome (S + R)) s1 s2 s3 :
  reaches step s1 s2 -> reaches step s2 s3 -> reaches step s1 s3.
Proof.
  intros [k1 H1] [k2 H2]. exists (k1 + k2)%nat. revert s1 H1.
  induction k1 as [|k1 IH]; intros s1 H1; simpl in *; [by simplify_eq|].
  destruct (step s1) as [[s'|x]| | |]; simplify_eq/=. by apply IH.
Qed.

Lemma reaches_step {S R} (step : S -> outcome (S + R)) s1 s2 s3 :
  step s1 = Ret (inl s2) -> reaches step s2 s3 -> reaches step s1 s3.
Proof. intros H. apply reaches_trans. exists 1%nat. simpl. by rewrite H. Qed.

Lemma reaches_one {S R} (step : S -> outcome (S + R)) s1 s2 :
  step s1 = Ret (inl s2) -> reaches step s1 s2.
Proof. intros H. eapply reaches_step; [exact H|apply reaches_refl]. Qed.

#[export] Instance reaches_preorder {S R} (step : S -> outcome (S + R)) :
  PreOrder (reaches step).
Proof. split; [intros s; apply reaches_refl|intros s1 s2 s3; apply reaches_trans]. Qed.

(** A loop that returns within its bound returns what the run that reaches
    its exit returns. *)
Lemma reaches_ret {S R} (step : S -> outcome (S + R)) fuel s s' r (P : R -> Prop) :
  wp (iterM fuel step s) P -> reaches step s s' -> step s' = Ret (inr r) ->
  iterM fuel step s = Ret r.
Proof.
  intros Hw [k Hk] Hr. apply wp_inv in Hw as (r' & Hr' & _). rewrite Hr'.
  assert (iterM (k + 1) step s = Ret r) as Hkr.
  { rewrite (iterM_stepsM _ _ _ _ _ Hk). simpl. by rewrite Hr. }
  apply (iterM_fuel_mono _ _ (Nat.max fuel (k + 1))) in Hr'; [|lia].
  apply (iterM_fuel_mono _ _ (Nat.max fuel (k + 1))) in Hkr; [|lia]. congruence.
Qed.

Lemma for_all_true n i body :
  for_all n i body = Ret true <->
  (forall j, i <= j < i + Z.of_nat n -> body j = Ret true).
Proof.
  revert i. induction n as [|n IH]; intros i; simpl.
  - split; [lia|done].
  - split.
    + intros H j Hj. apply bind_ret_inv in H as ([] & Hb & H); [|done].
      destruct (decide (j = i)) as [->|]; [done|].
      apply (proj1 (IH (i + 1)) H). lia.
    + intros H. rewrite (H i) by lia. simpl. apply IH. intros. apply H. lia.
Qed.

Lemma wp_for_all n i body :
  (forall j, i <= j < i + Z.of_nat n -> wp (body j) (fun _ => True)) ->
  wp (for_all n i body) (fun _ => True).
Proof.
  revert i. induction n as [|n IH]; intros i H; simpl; [done|].
  apply wp_bind. eapply wp_mono; [apply H; lia|].
  intros [] _; [|done]. apply IH. intros. apply H. lia.
Qed.

(** * Lemmas on machine integers *)

Lemma u8_range z : is_u8 (u8 z).
Proof. apply Z.mod_pos_bound. lia. Qed.
Lemma u16_range z : is_u16 (u16 z).
Proof. apply Z.mod_pos_bound. lia. Qed.
Lemma u32_range z : is_u32 (u32 z).
Proof. apply Z.mod_pos_bound. lia. Qed.
Lemma u64_range z : is_u64 (u64 z).
Proof. apply Z.mod_pos_bound. lia. Qed.
#[export] Hint Resolve u8_range u16_range u32_range u64_range : saski.

Lemma u8_small z : is_u8 z -> u8 z = z.
Proof. apply Z.mod_small. Qed.
Lemma u16_small z : is_u16 z -> u16 z = z.
Proof. apply Z.mod_small. Qed.
Lemma u32_small z : is_u32 z -> u32 z = z.
Proof. apply Z.mod_small. Qed.
Lemma u64_small z : is_u64 z -> u64 z = z.
Proof. apply Z.mod_small. Qed.

Lemma s32_small z : - 2 ^ 31 <= z < 2 ^ 31 -> s32 z = z.
Proof.
  intros H. unfold s32, u32. cbv zeta.
  destruct (Z.ltb_spec (z mod 2 ^ 32) (2 ^ 31)); Z.to_euclidean_division_equations; lia.
Qed.
Lemma s64_small z : - 2 ^ 63 <= z < 2 ^ 63 -> s64 z = z.
Proof.
  intros H. unfold s64, u64. cbv zeta.
  destruct (Z.ltb_spec (z mod 2 ^ 64) (2 ^ 63)); Z.to_euclidean_division_equations; lia.
Qed.
Lemma s32_range z : - 2 ^ 31 <= s32 z < 2 ^ 31.
Proof.
  unfold s32. pose proof (u32_range z). cbv zeta.
  destruct (Z.ltb_spec (u32 z) (2 ^ 31)); ulia.
Qed.

(** Masking with [2^n - 1] and shifting right, as arithmetic. *)
Lemma land_mask z n : 0 <= n -> Z.land z (2 ^ n - 1) = z mod 2 ^ n.
Proof.
  intros. replace (2 ^ n - 1) with (Z.ones n) by (rewrite Z.ones_equiv; lia).
  by apply Z.land_ones.
Qed.

Lemma shiftr_div z n : 0 <= n -> Z.shiftr z n = z / 2 ^ n.
Proof. apply Z.shiftr_div_pow2. Qed.

(** A bit field: [(z >> k) & (2^n - 1)]. *)
Lemma land_shiftr z k n :
  0 <= k -> 0 <= n -> Z.land (Z.shiftr z k) (2 ^ n - 1) = (z / 2 ^ k) mod 2 ^ n.
Proof. intros. by rewrite land_mask, shiftr_div. Qed.

(** A masked field left in place. *)
Lemma land_field z lo n :
  0 <= lo -> 0 <= n -> Z.land z ((2 ^ n - 1) * 2 ^ lo) = (z / 2 ^ lo) mod 2 ^ n * 2 ^ lo.
Proof.
  intros Hlo Hn. rewrite <- !Z.shiftl_mul_pow2 by done. rewrite <- land_shiftr by done.
  apply Z.bits_inj'. intros i Hi. rewrite Z.land_spec.
  destruct (Z.ltb_spec i lo).
  - rewrite !Z.shiftl_spec_low by done. apply andb_false_r.
  - rewrite !Z.shiftl_spec_high, Z.land_spec, Z.shiftr_spec by lia.
    by replace (i - lo + lo) with i by lia.
Qed.

(** [hi << n | lo] is [hi * 2^n + lo] when [lo] fits in [n] bits. *)
Lemma land_bound a b n : 0 <= a < 2 ^ n -> 0 <= b -> 0 <= Z.land a b < 2 ^ n.
Proof.
  intros Ha Hb. split; [apply Z.land_nonneg; lia|].
  assert (0 <= n) by (destruct (Z.le_gt_cases 0 n); [done|rewrite Z.pow_neg_r in Ha by done; lia]).
  replace (Z.land a b) with (Z.land a b mod 2 ^ n); [apply Z.mod_pos_bound; lia|].
  apply Z.bits_inj'. intros i Hi. destruct (Z.lt_ge_cases i n).
  - rewrite Z.mod_pow2_bits_low by lia. done.
  - rewrite Z.mod_pow2_bits_high, Z.land_spec by lia.
    replace a with (a mod 2 ^ n) by (apply Z.mod_small; lia).
    rewrite Z.mod_pow2_bits_high by lia. done.
Qed.
Lemma lor_bound a b n : 0 <= a < 2 ^ n -> 0 <= b < 2 ^ n -> 0 <= Z.lor a b < 2 ^ n.
Proof.
  intros Ha Hb. split; [apply Z.lor_nonneg; lia|].
  assert (0 <= n) by (destruct (Z.le_gt_cases 0 n); [done|rewrite Z.pow_neg_r in Ha by done; lia]).
  replace (Z.lor a b) with (Z.lor a b mod 2 ^ n); [apply Z.mod_pos_bound; lia|].
  apply Z.bits_inj'. intros i Hi. destruct (Z.lt_ge_cases i n).
  - rewrite Z.mod_pow2_bits_low by lia. done.
  - rewrite Z.mod_pow2_bits_high, Z.lor_spec by lia.
    rewrite <- (Z.mod_small a (2 ^ n)), <- (Z.mod_small b (2 ^ n)) by lia.
    rewrite !Z.mod_pow2_bits_high by lia. done.
Qed.

Lemma lor_shiftl hi lo n :
  0 <= n -> 0 <= lo < 2 ^ n -> Z.lor (Z.shiftl hi n) lo = hi * 2 ^ n + lo.
Proof.
  intros Hn Hlo.
  assert (Z.land (Z.shiftl hi n) lo = 0) as Hdisj.
  { apply Z.bits_inj'. intros i Hi. rewrite Z.land_spec, Z.bits_0.
    destruct (Z.ltb_spec i n).
    - by rewrite Z.shiftl_spec_low.
    - rewrite <- (Z.mod_small lo (2 ^ n)) by done.
      by rewrite Z.mod_pow2_bits_high, andb_false_r. }
  rewrite <- Z.shiftl_mul_pow2, Z.add_nocarry_lxor by done.
  symmetry. by apply Z.lxor_lor.
Qed.
