(* ===== verification/CMem.v ===== *)
(** Byte objects and byte order.

    A C object that a function only reads (a device-tree blob, a message, an
    image) is a [reader]: offset in, byte out, with [Fault] for an offset
    the object does not contain, so that "never reads out of bounds" is a
    statement about the definitions and not an assumption.  [holds rd p bs]
    says the object contains the bytes [bs] from offset [p] on; it is how
    the round-trip and layout theorems describe memory contents.  The loads
    of the two byte orders the code uses are defined on top: the explicit
    big-endian shifts of lib/fdt.c and kernel/macho.c, and the native
    little-endian load both target ABIs make for a [uint64_t *]. *)
From S2P Require Import Prelude.

(** * Readers *)

Definition reader : Type := Z -> outcome Z.

(** The object whose contents are exactly [l]. *)
Definition of_bytes (l : list Z) : reader := fun p =>
  if 0 <=? p then
    match l !! Z.to_nat p with Some b => Ret b | None => Fault p end
  else Fault p.

(** Objects at fixed addresses, nothing else mapped. *)
Definition of_regions (rs : list (Z * list Z)) : reader := fun p =>
  match list_find (fun r => r.1 <= p < r.1 + Z.of_nat (length r.2)) rs with
  | Some (_, (q, bs)) => of_bytes bs (p - q)
  | None => Fault p
  end.

(** The same object addressed from [k] on: [q = p + k]. *)
Definition shift_rd (rd : reader) (k : Z) : reader := fun p => rd (k + p).

Definition readable (rd : reader) (lo hi : Z) : Prop :=
  forall p, lo <= p < hi -> wp (rd p) is_u8.

Definition holds (rd : reader) (p : Z) (bs : list Z) : Prop :=
  forall i b, bs !! i = Some b -> rd (p + Z.of_nat i) = Ret b.

Definition bytes_ok (bs : list Z) : Prop := Forall is_u8 bs.

(** The [n] bytes from [p] on, in address order. *)
Fixpoint rd_bytes (rd : reader) (p : Z) (n : nat) : outcome (list Z) :=
  match n with
  | O => Ret []
  | S n' => b ← rd p; bs ← rd_bytes rd (p + 1) n'; Ret (b :: bs)
  end.

(** Memory that is also written: a finite map from addresses to bytes.  An
    address it does not contain has no object behind it. *)
Abbreviation memory := (gmap Z Z).

Definition mem_rd (m : memory) : reader := fun p =>
  match m !! p with Some b => Ret b | None => Fault p end.

Definition mem_wr (m : memory) (p b : Z) : outcome memory :=
  match m !! p with Some _ => Ret (<[p := b]> m) | None => Fault p end.

(** Every address of [[p, p + n)] has storage behind it. *)
Definition mapped (m : memory) (p n : Z) : Prop :=
  forall q, p <= q < p + n -> is_Some (m !! q).

(** [m'] differs from [m] at most in [[p, p + n)]. *)
Definition same_outside (p n : Z) (m m' : memory) : Prop :=
  forall q, ~ (p <= q < p + n) -> m' !! q = m !! q.

(** Memory with [n] bytes of value [b] at [p] and nothing else. *)
Definition filled (p n b : Z) : memory := gset_to_gmap b (list_to_set (seqZ p n)).

(** [m] with [bs] placed at [p]. *)
Fixpoint place (p : Z) (bs : list Z) (m : memory) : memory :=
  match bs with
  | [] => m
  | b :: bs' => <[p := b]> (place (p + 1) bs' m)
  end.

(** After a write of [bs] at [p]: memory holds it, nothing else changed. *)
Definition written (m m' : memory) (p : Z) (bs : list Z) : Prop :=
  holds (mem_rd m') p bs /\ same_outside p (Z.of_nat (length bs)) m m'.

(** [m'] differs from [m] only at addresses in [P], and no storage went
    away. *)
Record frame (P : Z -> Prop) (m m' : memory) : Prop := {
  fr_out : forall q, ~ P q -> m' !! q = m !! q;
  fr_map : forall q, is_Some (m !! q) -> is_Some (m' !! q) }.

(** A store of several bytes. *)
Fixpoint wr_bytes (m : memory) (p : Z) (bs : list Z) : outcome memory :=
  match bs with
  | [] => Ret m
  | b :: bs' => m ← mem_wr m p b; wr_bytes m (p + 1) bs'
  end.

(** * Byte order *)

(** The value of a little-endian byte sequence. *)
Fixpoint le_val (bs : list Z) : Z :=
  match bs with
  | [] => 0
  | b :: bs' => b + 256 * le_val bs'
  end.

(** The value of a big-endian byte sequence. *)
Definition be_val (bs : list Z) : Z := le_val (rev bs).

(** The [n] low bytes of [z], least significant first. *)
Fixpoint le_bytes (n : nat) (z : Z) : list Z :=
  match n with
  | O => []
  | S n' => z mod 256 :: le_bytes n' (z / 256)
  end.

Definition be_bytes (n : nat) (z : Z) : list Z := rev (le_bytes n z).

(** An array of [uint64_t], as stored. *)
Definition words_bytes (ws : list Z) : list Z := concat (le_bytes 8 <$> ws).

(** The native loads of the two little-endian targets. *)
Definition rd_le16 (rd : reader) (p : Z) : outcome Z := bs ← rd_bytes rd p 2; Ret (le_val bs).
Definition rd_le32 (rd : reader) (p : Z) : outcome Z := bs ← rd_bytes rd p 4; Ret (le_val bs).
Definition rd_le64 (rd : reader) (p : Z) : outcome Z := bs ← rd_bytes rd p 8; Ret (le_val bs).

Definition wr_le64 (m : memory) (p z : Z) : outcome memory := wr_bytes m p (le_bytes 8 z).

(** [rd_be32] of lib/fdt.c: four single-byte reads and explicit shifts. *)
Definition rd_be32 (rd : reader) (p : Z) : outcome Z :=
  b0 ← rd p; b1 ← rd (p + 1); b2 ← rd (p + 2); b3 ← rd (p + 3);
  Ret (Z.lor (Z.lor (Z.lor (Z.shiftl b0 24) (Z.shiftl b1 16)) (Z.shiftl b2 8)) b3).

(** [rd_be64] of lib/fdt.c. *)
Definition rd_be64 (rd : reader) (p : Z) : outcome Z :=
  hi ← rd_be32 rd p; lo ← rd_be32 rd (p + 4);
  Ret (Z.lor (Z.shiftl hi 32) lo).

(** Byte lists written out element by element. *)
Ltac solve_bytes :=
  unfold bytes_ok; repeat (apply List.Forall_cons; [first [done | ulia]|]); apply List.Forall_nil.

(** * Lemmas on readers *)

Lemma of_bytes_lookup l p b :
  of_bytes l p = Ret b <-> 0 <= p /\ l !! Z.to_nat p = Some b.
Proof.
  unfold of_bytes. destruct (Z.leb_spec 0 p); [|split; [done|lia]].
  destruct (l !! Z.to_nat p); split; intros; deconj; by simplify_eq.
Qed.

Lemma of_bytes_nat l (i : nat) b : l !! i = Some b -> of_bytes l (Z.of_nat i) = Ret b.
Proof. intros. apply of_bytes_lookup. rewrite Nat2Z.id. split; [lia|done]. Qed.

Lemma of_bytes_out l p : Z.of_nat (length l) <= p -> of_bytes l p = Fault p.
Proof.
  intros. unfold of_bytes. destruct (Z.leb_spec 0 p); [|lia].
  by rewrite (lookup_ge_None_2 l) by lia.
Qed.

Lemma readable_of_bytes l : bytes_ok l -> readable (of_bytes l) 0 (Z.of_nat (length l)).
Proof.
  intros Hok p Hp. unfold of_bytes. destruct (Z.leb_spec 0 p); [|lia].
  destruct (lookup_lt_is_Some_2 l (Z.to_nat p)) as [b Hb]; [lia|].
  rewrite Hb. simpl. eapply Forall_lookup_1; eauto.
Qed.

Lemma readable_mono rd lo hi lo' hi' :
  readable rd lo hi -> lo <= lo' -> hi' <= hi -> readable rd lo' hi'.
Proof. intros H ?? p ?. apply H. lia. Qed.

Lemma readable_shift rd k lo hi :
  readable rd lo hi -> readable (shift_rd rd k) (lo - k) (hi - k).
Proof. intros H p Hp. apply H. lia. Qed.

Lemma holds_of_bytes pre bs post :
  holds (of_bytes (pre ++ bs ++ post)) (Z.of_nat (length pre)) bs.
Proof.
  intros i b Hb. rewrite <- Nat2Z.inj_add. apply of_bytes_nat.
  rewrite lookup_app_r by lia. replace (_ + i - _)%nat with i by lia.
  by apply lookup_app_l_Some.
Qed.

Lemma holds_app rd p a b :
  holds rd p (a ++ b) <-> holds rd p a /\ holds rd (p + Z.of_nat (length a)) b.
Proof.
  split.
  - intros H. split; intros i x Hx.
    + apply H. by apply lookup_app_l_Some.
    + replace (p + _ + _) with (p + Z.of_nat (length a + i)) by lia. apply H.
      rewrite lookup_app_r by lia. by replace (length a + i - _)%nat with i by lia.
  - intros [Ha Hb] i x Hx. apply lookup_app_Some in Hx as [Hx|[Hi Hx]].
    + by apply Ha.
    + replace (p + Z.of_nat i) with (p + Z.of_nat (length a) + Z.of_nat (i - length a)) by lia.
      by apply Hb.
Qed.

Lemma holds_cons rd p x bs :
  holds rd p (x :: bs) <-> rd p = Ret x /\ holds rd (p + 1) bs.
Proof.
  change (x :: bs) with ([x] ++ bs). rewrite holds_app. simpl. split.
  - intros [H ?]. split; [|done]. specialize (H 0%nat x eq_refl).
    by rewrite Z.add_0_r in H.
  - intros [H ?]. split; [|done]. intros i b Hb.
    destruct i; [|done]. simplify_eq/=. by rewrite Z.add_0_r.
Qed.

Lemma holds_nil rd p : holds rd p [].
Proof. by intros i b Hb. Qed.

Lemma holds_readable rd p bs :
  bytes_ok bs -> holds rd p bs -> readable rd p (p + Z.of_nat (length bs)).
Proof.
  intros Hok Hh q Hq. destruct (lookup_lt_is_Some_2 bs (Z.to_nat (q - p))) as [b Hb]; [lia|].
  specialize (Hh _ _ Hb). rewrite Z2Nat.id in Hh by lia. replace (p + (q - p)) with q in Hh by lia.
  rewrite Hh. simpl. by eapply Forall_lookup_1.
Qed.

Lemma holds_shift rd k p bs : holds (shift_rd rd k) p bs <-> holds rd (k + p) bs.
Proof.
  unfold holds, shift_rd. split; intros H i b Hb;
    specialize (H i b Hb); by rewrite ?Z.add_assoc in *.
Qed.

Lemma rd_bytes_holds rd p bs : holds rd p bs -> rd_bytes rd p (length bs) = Ret bs.
Proof.
  revert p. induction bs as [|b bs IH]; intros p H; [done|].
  apply holds_cons in H as [Hb Hbs]. simpl. rewrite Hb. simpl. by rewrite IH.
Qed.

Lemma rd_bytes_holds_inv rd p bs : rd_bytes rd p (length bs) = Ret bs -> holds rd p bs.
Proof.
  revert p. induction bs as [|b bs IH]; intros p H; [apply holds_nil|]. simpl in H.
  apply bind_ret_inv in H as (x & Hx & H). apply bind_ret_inv in H as (xs & Hxs & H).
  simplify_eq. apply holds_cons. auto.
Qed.

Lemma wp_rd_bytes rd p n :
  readable rd p (p + Z.of_nat n) ->
  wp (rd_bytes rd p n) (fun bs => length bs = n /\ bytes_ok bs).
Proof.
  revert p. induction n as [|n IH]; intros p H; simpl; [by repeat constructor|].
  apply wp_bind. eapply wp_mono; [apply H; lia|]. intros b Hb.
  apply wp_bind. eapply wp_mono; [apply IH; eapply readable_mono; eauto; lia|].
  intros bs [<- ?]. simpl. split; [done|]. by constructor.
Qed.

(** * Lemmas on memory *)

Lemma mem_rd_Some m p b : mem_rd m p = Ret b <-> m !! p = Some b.
Proof. unfold mem_rd. destruct (m !! p); split; intros; by simplify_eq. Qed.

Lemma mem_wr_mapped m p n q b :
  mapped m p n -> p <= q < p + n -> mem_wr m q b = Ret (<[q := b]> m).
Proof. intros Hm Hq. destruct (Hm q Hq) as [x Hx]. unfold mem_wr. by rewrite Hx. Qed.

Lemma mapped_insert m p n q b : mapped m p n -> mapped (<[q := b]> m) p n.
Proof. intros Hm r Hr. rewrite lookup_insert_is_Some. destruct (decide (q = r)); auto. Qed.

Lemma mapped_mono m p n p' n' :
  mapped m p n -> p <= p' -> p' + n' <= p + n -> mapped m p' n'.
Proof. intros Hm ?? q ?. apply Hm. lia. Qed.

Lemma holds_insert_out m p bs q b :
  holds (mem_rd m) p bs -> ~ (p <= q < p + Z.of_nat (length bs)) ->
  holds (mem_rd (<[q := b]> m)) p bs.
Proof.
  intros H Hq i x Hi. pose proof (lookup_lt_Some _ _ _ Hi). apply mem_rd_Some.
  rewrite lookup_insert_ne by lia. by apply mem_rd_Some, H.
Qed.

Lemma holds_same_outside m m' p n q bs :
  same_outside p n m m' -> holds (mem_rd m) q bs ->
  q + Z.of_nat (length bs) <= p \/ p + n <= q -> holds (mem_rd m') q bs.
Proof.
  intros Hs H Hd i x Hi. pose proof (lookup_lt_Some _ _ _ Hi). apply mem_rd_Some.
  rewrite Hs by lia. by apply mem_rd_Some, H.
Qed.

Lemma holds_mapped m p bs : holds (mem_rd m) p bs -> mapped m p (Z.of_nat (length bs)).
Proof.
  intros H q Hq. destruct (lookup_lt_is_Some_2 bs (Z.to_nat (q - p))) as [b Hb]; [lia|].
  exists b. specialize (H _ _ Hb). apply mem_rd_Some in H. by rewrite Z2Nat.id, Zplus_minus in H by lia.
Qed.

#[export] Instance same_outside_preorder p n : PreOrder (same_outside p n).
Proof.
  split; [by intros m q Hq|]. intros m1 m2 m3 H1 H2 q Hq. by rewrite H2, H1.
Qed.

Lemma same_outside_mono m m' p n p' n' :
  same_outside p n m m' -> p' <= p -> p + n <= p' + n' -> same_outside p' n' m m'.
Proof. intros H ?? q Hq. apply H. lia. Qed.

Lemma same_outside_insert m q b : same_outside q 1 m (<[q := b]> m).
Proof. intros r Hr. apply lookup_insert_ne. lia. Qed.

Lemma place_outside bs m : forall p, same_outside p (Z.of_nat (length bs)) m (place p bs m).
Proof.
  induction bs as [|b bs IH]; intros p; simpl length; [by intros q Hq|].
  transitivity (place (p + 1) bs m).
  - eapply same_outside_mono; [apply IH|lia..].
  - eapply same_outside_mono; [apply same_outside_insert|lia..].
Qed.

Lemma holds_place bs m : forall p, holds (mem_rd (place p bs m)) p bs.
Proof.
  induction bs as [|b bs IH]; intros p; [apply holds_nil|]. simpl. apply holds_cons. split.
  - apply mem_rd_Some, lookup_insert_eq.
  - apply holds_insert_out; [apply IH|lia].
Qed.

Lemma mapped_place m p n q bs : mapped m p n -> mapped (place q bs m) p n.
Proof.
  intros Hm. revert q. induction bs as [|b bs IH]; intros q; [done|]. simpl. by apply mapped_insert.
Qed.

Lemma mapped_filled p n b : mapped (filled p n b) p n.
Proof.
  intros q Hq. exists b. apply lookup_gset_to_gmap_Some. split; [|done].
  by apply elem_of_list_to_set, elem_of_seqZ.
Qed.

Lemma frame_trans (P Q R : Z -> Prop) m1 m2 m3 :
  frame P m1 m2 -> frame Q m2 m3 -> (forall q, P q -> R q) -> (forall q, Q q -> R q) ->
  frame R m1 m3.
Proof.
  intros [H1 M1] [H2 M2] HP HQ. split; [|auto].
  intros q Hq. rewrite H2, H1 by auto. done.
Qed.

Lemma frame_mono (P Q : Z -> Prop) m m' :
  frame P m m' -> (forall q, P q -> Q q) -> frame Q m m'.
Proof. intros [H M] HPQ. split; [|done]. intros q Hq. apply H. auto. Qed.

Lemma frame_refl (P : Z -> Prop) m : frame P m m.
Proof. by split. Qed.

#[export] Instance frame_preorder (P : Z -> Prop) : PreOrder (frame P).
Proof.
  split; [intros m; apply frame_refl|]. intros m1 m2 m3 H1 H2. by eapply frame_trans.
Qed.

Lemma frame_mapped P m m' p n : frame P m m' -> mapped m p n -> mapped m' p n.
Proof. intros [_ M] Hm q Hq. auto. Qed.

Lemma frame_holds P m m' p bs :
  frame P m m' -> holds (mem_rd m) p bs ->
  (forall q, p <= q < p + Z.of_nat (length bs) -> ~ P q) -> holds (mem_rd m') p bs.
Proof.
  intros [Ho _] H HP i x Hi. pose proof (lookup_lt_Some _ _ _ Hi). apply mem_rd_Some.
  rewrite Ho by (apply HP; lia). by apply mem_rd_Some, H.
Qed.

Lemma frame_same_outside p n m m' :
  frame (fun q => p <= q < p + n) m m' -> same_outside p n m m'.
Proof. intros [H _] q Hq. by apply H. Qed.

Lemma wp_wr_bytes bs : forall m p,
  mapped m p (Z.of_nat (length bs)) ->
  wp (wr_bytes m p bs) (fun m' => holds (mem_rd m') p bs /\
    frame (fun q => p <= q < p + Z.of_nat (length bs)) m m').
Proof.
  induction bs as [|b bs IH]; intros m p Hm; simpl length in *; simpl wr_bytes;
    [split; [apply holds_nil|apply frame_refl]|].
  rewrite (mem_wr_mapped _ _ _ _ _ Hm) by lia. rewrite ret_bind.
  eapply wp_mono; [apply IH|].
  - apply mapped_insert. eapply mapped_mono; [exact Hm|lia..].
  - intros m' [Hh Hf]. split.
    + apply holds_cons. split; [|done]. apply mem_rd_Some. rewrite (fr_out _ _ _ Hf) by lia.
      apply lookup_insert_eq.
    + eapply (frame_trans (fun q => q = p)); [|exact Hf|intros q Hq; simpl in *; lia..]. split.
      * intros q Hq. by apply lookup_insert_ne.
      * intros q [x Hx]. rewrite lookup_insert_is_Some. destruct (decide (p = q)); eauto.
Qed.

(** * Lemmas on byte order *)

Lemma le_val_range bs : bytes_ok bs -> 0 <= le_val bs < 2 ^ (8 * Z.of_nat (length bs)).
Proof.
  induction 1 as [|b bs Hb _ IH]; simpl; [lia|].
  replace (8 * Z.of_nat (S (length bs))) with (8 + 8 * Z.of_nat (length bs)) by lia.
  rewrite Z.pow_add_r by lia. unfold is_u8 in Hb. nia.
Qed.

Lemma length_le_bytes n z : length (le_bytes n z) = n.
Proof. revert z. induction n; intros; simpl; auto. Qed.

Lemma le_bytes_ok n z : bytes_ok (le_bytes n z).
Proof.
  revert z. induction n; intros; simpl; [by constructor|].
  constructor; [apply Z.mod_pos_bound; lia|apply IHn].
Qed.

Lemma le_val_bytes n z : le_val (le_bytes n z) = z mod 2 ^ (8 * Z.of_nat n).
Proof.
  revert z. induction n as [|n IH]; intros z; simpl; [by rewrite Z.mod_1_r|].
  rewrite IH. replace (8 * Z.of_nat (S n)) with (8 + 8 * Z.of_nat n) by lia.
  rewrite Z.pow_add_r by lia. change 256 with (2 ^ 8).
  rewrite Z.rem_mul_r by lia. lia.
Qed.

Lemma le_bytes_val bs : bytes_ok bs -> le_bytes (length bs) (le_val bs) = bs.
Proof.
  induction 1 as [|b bs Hb _ IH]; simpl; [done|].
  unfold is_u8 in Hb. f_equal.
  - rewrite Z.mul_comm, Z.mod_add by lia. apply Z.mod_small. lia.
  - rewrite Z.mul_comm, Z.div_add, Z.div_small by lia. by rewrite Z.add_0_l.
Qed.

Lemma le_bytes_app n m z :
  le_bytes (n + m) z = le_bytes n z ++ le_bytes m (z / 2 ^ (8 * Z.of_nat n)).
Proof.
  revert z. induction n as [|n IH]; intros z; simpl; [by rewrite Z.div_1_r|].
  rewrite IH, Z.div_div by lia. change 256 with (2 ^ 8). rewrite <- Z.pow_add_r by lia.
  by replace (8 + 8 * Z.of_nat n) with (8 * Z.of_nat (S n)) by lia.
Qed.

Lemma le_bytes_mod n z : le_bytes n (z mod 2 ^ (8 * Z.of_nat n)) = le_bytes n z.
Proof.
  rewrite <- le_val_bytes. rewrite <- (length_le_bytes n z) at 1.
  apply le_bytes_val, le_bytes_ok.
Qed.

Lemma length_be_bytes n z : length (be_bytes n z) = n.
Proof. unfold be_bytes. by rewrite length_rev, length_le_bytes. Qed.

Lemma be_bytes_ok n z : bytes_ok (be_bytes n z).
Proof. apply Forall_rev, le_bytes_ok. Qed.

Lemma be_val_bytes n z : be_val (be_bytes n z) = z mod 2 ^ (8 * Z.of_nat n).
Proof. unfold be_val, be_bytes. by rewrite rev_involutive, le_val_bytes. Qed.

Lemma be_val_range bs : bytes_ok bs -> 0 <= be_val bs < 2 ^ (8 * Z.of_nat (length bs)).
Proof.
  intros. unfold be_val. rewrite <- length_rev.
  by apply le_val_range, Forall_rev.
Qed.
#[export] Hint Resolve le_bytes_ok be_bytes_ok : saski.

Lemma rd_le64_holds rd p z :
  is_u64 z -> holds rd p (le_bytes 8 z) -> rd_le64 rd p = Ret z.
Proof.
  intros Hz H. unfold rd_le64. apply rd_bytes_holds in H. rewrite length_le_bytes in H.
  rewrite H, ret_bind. f_equal. rewrite le_val_bytes. by apply Z.mod_small.
Qed.

(** [p] holds the 64-bit word [w]. *)
Definition word_in (m : memory) (p w : Z) : Prop := holds (mem_rd m) p (le_bytes 8 w).

Lemma rd_word_in m p w : is_u64 w -> word_in m p w -> rd_le64 (mem_rd m) p = Ret w.
Proof. apply rd_le64_holds. Qed.

Lemma wp_wr_le64 m p w :
  mapped m p 8 ->
  wp (wr_le64 m p w) (fun m' => word_in m' p w /\ frame (fun q => p <= q < p + 8) m m').
Proof.
  intros Hm. unfold wr_le64, word_in. pose proof (wp_wr_bytes (le_bytes 8 w) m p) as H.
  rewrite length_le_bytes in H. by apply H.
Qed.

Lemma frame_word P m m' p w :
  frame P m m' -> word_in m p w -> (forall q, p <= q < p + 8 -> ~ P q) -> word_in m' p w.
Proof.
  intros Hf Hw HP. eapply frame_holds; [exact Hf|exact Hw|]. by rewrite length_le_bytes.
Qed.

Lemma wp_rd_le64 rd p :
  readable rd p (p + 8) -> wp (rd_le64 rd p) is_u64.
Proof.
  intros H. unfold rd_le64. apply wp_bind. eapply wp_mono; [apply wp_rd_bytes; done|].
  intros bs [Hl Hok]. apply le_val_range in Hok. by rewrite Hl in Hok.
Qed.

(** The shifts of [rd_be32] compute the big-endian value. *)
Lemma be32_shifts b0 b1 b2 b3 :
  is_u8 b1 -> is_u8 b2 -> is_u8 b3 ->
  Z.lor (Z.lor (Z.lor (Z.shiftl b0 24) (Z.shiftl b1 16)) (Z.shiftl b2 8)) b3 =
  be_val [b0; b1; b2; b3].
Proof.
  intros H1 H2 H3. unfold_ints.
  replace (Z.lor (Z.shiftl b0 24) (Z.shiftl b1 16))
    with (Z.shiftl (b0 * 2 ^ 8 + b1) 16).
  2:{ rewrite <- lor_shiftl, Z.shiftl_lor, Z.shiftl_shiftl by lia. done. }
  rewrite lor_shiftl by (rewrite ?Z.shiftl_mul_pow2; lia).
  rewrite (Z.shiftl_mul_pow2 b2) by lia.
  replace ((b0 * 2 ^ 8 + b1) * 2 ^ 16 + b2 * 2 ^ 8)
    with (Z.shiftl ((b0 * 2 ^ 8 + b1) * 2 ^ 8 + b2) 8)
    by (rewrite Z.shiftl_mul_pow2; lia).
  rewrite lor_shiftl by lia. unfold be_val. simpl. lia.
Qed.

Lemma wp_rd_be32 rd p : readable rd p (p + 4) -> wp (rd_be32 rd p) is_u32.
Proof.
  intros H. unfold rd_be32.
  do 4 (apply wp_bind; eapply wp_mono; [apply H; lia|]; intros ? ?).
  apply wp_ret. rewrite be32_shifts by done.
  apply (be_val_range [_; _; _; _]). solve_bytes.
Qed.

Lemma rd_be32_holds rd p z :
  is_u32 z -> holds rd p (be_bytes 4 z) -> rd_be32 rd p = Ret z.
Proof.
  intros Hz H. pose proof (be_bytes_ok 4 z) as Hok. pose proof (be_val_bytes 4 z) as Hv.
  pose proof (length_be_bytes 4 z) as Hl. revert H Hok Hv Hl.
  generalize (be_bytes 4 z) as bs. intros bs H Hok Hv Hl.
  destruct bs as [|b0 [|b1 [|b2 [|b3 []]]]]; try done.
  rewrite !holds_cons in H. destruct H as (H0&H1&H2&H3&_).
  replace (p + 1 + 1) with (p + 2) in * by lia.
  replace (p + 2 + 1) with (p + 3) in * by lia.
  unfold bytes_ok in Hok. rewrite !Forall_cons in Hok. deconj.
  unfold rd_be32. rewrite H0, H1, H2, H3, !ret_bind. f_equal.
  rewrite be32_shifts by done. rewrite Hv. by apply Z.mod_small.
Qed.

Lemma wp_rd_be64 rd p : readable rd p (p + 8) -> wp (rd_be64 rd p) is_u64.
Proof.
  intros H. unfold rd_be64.
  apply wp_bind. eapply wp_mono; [apply wp_rd_be32; eapply readable_mono; eauto; lia|].
  intros hi Hhi.
  apply wp_bind. eapply wp_mono; [apply wp_rd_be32; eapply readable_mono; eauto; lia|].
  intros lo Hlo. apply wp_ret. unfold_ints. rewrite lor_shiftl by lia. lia.
Qed.

(** The contents of an object determine a read: both the byte sequence and
    the value. *)
Lemma rd_be64_holds rd p z :
  is_u64 z -> holds rd p (be_bytes 8 z) -> rd_be64 rd p = Ret z.
Proof.
  intros Hz H. unfold is_u64 in Hz.
  assert (be_bytes 8 z = be_bytes 4 (z / 2 ^ 32) ++ be_bytes 4 (z mod 2 ^ 32)) as Hs.
  { unfold be_bytes. rewrite <- rev_app_distr. f_equal.
    rewrite (le_bytes_app 4 4). f_equal. by rewrite <- (le_bytes_mod 4). }
  rewrite Hs, holds_app, length_be_bytes in H. destruct H as [Hhi Hlo].
  assert (is_u32 (z / 2 ^ 32)) by (unfold is_u32; Z.to_euclidean_division_equations; lia).
  assert (is_u32 (z mod 2 ^ 32)) by apply u32_range.
  change (Z.of_nat 4) with 4 in Hlo.
  unfold rd_be64. rewrite (fun H => rd_be32_holds _ _ _ H Hhi), ret_bind by done.
  rewrite (fun H => rd_be32_holds _ _ _ H Hlo), ret_bind by done. f_equal.
  rewrite lor_shiftl by ulia. Z.to_euclidean_division_equations; lia.
Qed.

(** * Arrays of 64-bit words *)

Lemma words_bytes_cons w ws : words_bytes (w :: ws) = le_bytes 8 w ++ words_bytes ws.
Proof. done. Qed.

Lemma words_bytes_app a b : words_bytes (a ++ b) = words_bytes a ++ words_bytes b.
Proof. unfold words_bytes. by rewrite fmap_app, concat_app. Qed.

Lemma length_words_bytes ws : length (words_bytes ws) = (8 * length ws)%nat.
Proof.
  induction ws as [|w ws IH]; [done|].
  rewrite words_bytes_cons, length_app, length_le_bytes, IH. simpl. lia.
Qed.

Lemma words_bytes_ok ws : bytes_ok (words_bytes ws).
Proof.
  induction ws as [|w ws IH]; [by apply Forall_nil|].
  rewrite words_bytes_cons. apply Forall_app. split; [apply le_bytes_ok|done].
Qed.

(** The [i]-th word of a stored array, read with the native load. *)
Lemma rd_le64_words rd p ws i w :
  holds rd p (words_bytes ws) -> Forall is_u64 ws -> ws !! i = Some w ->
  rd_le64 rd (p + 8 * Z.of_nat i) = Ret w.
Proof.
  revert p i. induction ws as [|x ws IH]; intros p i Hh Hok Hi; [done|].
  rewrite words_bytes_cons, holds_app, length_le_bytes in Hh. destruct Hh as [Hx Hh].
  apply Forall_cons in Hok as [Hx64 Hok]. destruct i as [|i]; simpl in Hi.
  - simplify_eq. rewrite Z.mul_0_r, Z.add_0_r. by apply rd_le64_holds.
  - replace (p + 8 * Z.of_nat (S i)) with (p + Z.of_nat 8 + 8 * Z.of_nat i) by lia. eauto.
Qed.

(** * An object inside a larger one *)

(** [rd'] gives the same byte wherever [rd] has one. *)
Definition extends (rd rd' : reader) : Prop := forall p b, rd p = Ret b -> rd' p = Ret b.

Section Extends.
Context (rd rd' : reader) (Hext : extends rd rd').

Lemma rd_bytes_ext p n l : rd_bytes rd p n = Ret l -> rd_bytes rd' p n = Ret l.
Proof.
  revert p l. induction n as [|n IH]; intros p l H; simpl in *; [done|].
  apply bind_ret_inv in H as (b & Hb & H). apply bind_ret_inv in H as (bs & Hbs & H).
  by rewrite (Hext _ _ Hb), ret_bind, (IH _ _ Hbs).
Qed.

Lemma rd_le16_ext p z : rd_le16 rd p = Ret z -> rd_le16 rd' p = Ret z.
Proof.
  intros H. apply bind_ret_inv in H as (bs & Hbs & H). unfold rd_le16.
  by rewrite (rd_bytes_ext _ _ _ Hbs).
Qed.

Lemma rd_le32_ext p z : rd_le32 rd p = Ret z -> rd_le32 rd' p = Ret z.
Proof.
  intros H. apply bind_ret_inv in H as (bs & Hbs & H). unfold rd_le32.
  by rewrite (rd_bytes_ext _ _ _ Hbs).
Qed.

Lemma rd_le64_ext p z : rd_le64 rd p = Ret z -> rd_le64 rd' p = Ret z.
Proof.
  intros H. apply bind_ret_inv in H as (bs & Hbs & H). unfold rd_le64.
  by rewrite (rd_bytes_ext _ _ _ Hbs).
Qed.

Lemma rd_be32_ext p z : rd_be32 rd p = Ret z -> rd_be32 rd' p = Ret z.
Proof.
  unfold rd_be32. intros H.
  do 4 (apply bind_ret_inv in H as (? & Hb & H); rewrite (Hext _ _ Hb), ret_bind; clear Hb).
  done.
Qed.

Lemma readable_ext lo hi : readable rd lo hi -> readable rd' lo hi.
Proof.
  intros H p Hp. destruct (wp_inv _ _ (H p Hp)) as (b & Hb & Hok). by rewrite (Hext _ _ Hb).
Qed.

Lemma holds_ext p bs : holds rd p bs -> holds rd' p bs.
Proof. intros H i b Hi. by apply Hext, H. Qed.

End Extends.

Lemma extends_holds rd p bs : holds rd p bs -> extends (of_bytes bs) (shift_rd rd p).
Proof.
  intros H q b Hq. apply of_bytes_lookup in Hq as [Hq0 Hq]. unfold shift_rd.
  rewrite <- (Z2Nat.id q) by done. by apply H.
Qed.

(** A reader less the [n] bytes from [p] on. *)
Definition outside (p n : Z) (rd : reader) : reader := fun q =>
  if (p <=? q) && (q <? p + n) then Fault q else rd q.

(** What can be read outside the range is still there after a change inside. *)
Lemma extends_outside p n m m' :
  same_outside p n m m' -> extends (outside p n (mem_rd m)) (mem_rd m').
Proof.
  intros H q b Hq. unfold outside in Hq.
  destruct (Z.leb_spec p q), (Z.ltb_spec q (p + n)); simpl in Hq; try done;
    unfold mem_rd in *; rewrite H by lia; exact Hq.
Qed.

Lemma extends_shift rd rd' k : extends rd rd' -> extends (shift_rd rd k) (shift_rd rd' k).
Proof. intros H q b Hq. by apply H. Qed.

(** From here on the encodings are used through their lemmas. *)
#[global] Arguments le_bytes : simpl never.
#[global] Arguments be_bytes : simpl never.
