(* ===== verification/MemOps.v ===== *)
(** The freestanding memory routines: lib/freestanding_mem.c.

    The compiler may call these four for any aggregate copy or
    initialisation, so they are stated against memory itself: a store to or
    a load from an address with no storage behind it is a [Fault].  Pointer
    arithmetic within an object does not wrap. *)
From S2P Require Import Prelude CMem.

(** * The routines *)

(** [for (i = i0; n more; i++) d[i] = (unsigned char)value;] *)
Fixpoint memset_loop (m : memory) (d value : Z) (n : nat) (i : Z) : outcome memory :=
  match n with
  | O => Ret m
  | S n' => m ← mem_wr m (d + i) (u8 value); memset_loop m d value n' (i + 1)
  end.

Definition memset (m : memory) (dst value : Z) (count : Z) : outcome (Z * memory) :=
  m ← memset_loop m dst value (Z.to_nat count) 0; Ret (dst, m).

(** [for (i = i0; n more; i++) d[i] = s[i];] *)
Fixpoint copy_up (m : memory) (d s : Z) (n : nat) (i : Z) : outcome memory :=
  match n with
  | O => Ret m
  | S n' => x ← mem_rd m (s + i); m ← mem_wr m (d + i) x; copy_up m d s n' (i + 1)
  end.

(** [for (i = n; i > 0; i--) d[i - 1] = s[i - 1];] *)
Fixpoint copy_down (m : memory) (d s : Z) (n : nat) : outcome memory :=
  match n with
  | O => Ret m
  | S n' =>
      x ← mem_rd m (s + Z.of_nat n'); m ← mem_wr m (d + Z.of_nat n') x; copy_down m d s n'
  end.

Definition memcpy (m : memory) (dst src count : Z) : outcome (Z * memory) :=
  m ← copy_up m dst src (Z.to_nat count) 0; Ret (dst, m).

Definition memmove (m : memory) (dst src count : Z) : outcome (Z * memory) :=
  m ← (if dst <? src then copy_up m dst src (Z.to_nat count) 0
       else copy_down m dst src (Z.to_nat count));
  Ret (dst, m).

(** [for (i = i0; n more; i++) if (pa[i] != pb[i]) return pa[i] - pb[i];] *)
Fixpoint memcmp_loop (m : memory) (pa pb : Z) (n : nat) (i : Z) : outcome Z :=
  match n with
  | O => Ret 0
  | S n' =>
      x ← mem_rd m (pa + i); y ← mem_rd m (pb + i);
      if negb (x =? y) then Ret (x - y) else memcmp_loop m pa pb n' (i + 1)
  end.

Definition memcmp (m : memory) (a b count : Z) : outcome Z :=
  memcmp_loop m a b (Z.to_nat count) 0.

(** * The copies *)

Lemma copy_up_spec d s bs : d < s \/ s + Z.of_nat (length bs) <= d -> forall tl i m,
  (exists hd, bs = hd ++ tl /\ Z.of_nat (length hd) = i) ->
  holds (mem_rd m) (s + i) tl -> mapped m (d + i) (Z.of_nat (length tl)) ->
  wp (copy_up m d s (length tl) i) (fun m' => written m m' (d + i) tl).
Proof.
  intros Hd tl. induction tl as [|x tl IH]; intros i m (hd & -> & Hi) Hs Hm; simpl.
  - split; [apply holds_nil|by intros].
  - rewrite length_app in Hd. simpl length in *.
    apply holds_cons in Hs as [Hx Hs]. rewrite Hx. simpl.
    rewrite (mem_wr_mapped _ _ _ _ _ Hm) by lia. simpl.
    eapply wp_mono; [apply (IH (i + 1))|].
    + exists (hd ++ [x]). rewrite <- app_assoc, length_app. split; [done|simpl; lia].
    + rewrite Z.add_assoc. apply holds_insert_out; [done|lia].
    + apply mapped_insert. eapply mapped_mono; [exact Hm|lia..].
    + intros m' [Hh Ho]. rewrite Z.add_assoc in Hh, Ho. split.
      * apply holds_cons. split; [|done]. apply mem_rd_Some. rewrite Ho by lia.
        apply lookup_insert_eq.
      * simpl length. transitivity (<[d + i:=x]> m).
        -- eapply same_outside_mono; [apply same_outside_insert|lia..].
        -- eapply same_outside_mono; [exact Ho|lia..].
Qed.

Lemma copy_down_spec d s bs : s <= d -> forall m,
  holds (mem_rd m) s bs -> mapped m d (Z.of_nat (length bs)) ->
  wp (copy_down m d s (length bs)) (fun m' => written m m' d bs).
Proof.
  intros Hd. induction bs as [|x bs IH] using rev_ind; intros m Hs Hm; simpl.
  - split; [apply holds_nil|by intros].
  - rewrite length_app in *. simpl length in *. rewrite Nat.add_1_r in *. simpl.
    apply holds_app in Hs as [Hs Hx]. apply holds_cons in Hx as [Hx _]. rewrite Hx. simpl.
    rewrite (mem_wr_mapped _ _ _ _ _ Hm) by lia. simpl.
    eapply wp_mono; [apply IH|].
    + apply holds_insert_out; [done|lia].
    + apply mapped_insert. eapply mapped_mono; [exact Hm|lia..].
    + intros m' [Hh Ho]. split.
      * apply holds_app. split; [done|]. apply holds_cons. split; [|apply holds_nil].
        apply mem_rd_Some. rewrite Ho by lia. apply lookup_insert_eq.
      * transitivity (<[d + Z.of_nat (length bs):=x]> m).
        -- eapply same_outside_mono; [apply same_outside_insert|rewrite ?length_app; simpl; lia..].
        -- eapply same_outside_mono; [exact Ho|rewrite ?length_app; simpl; lia..].
Qed.

(** A copy that starts at index 0. *)
Lemma copy_up_correct m d s bs :
  d < s \/ s + Z.of_nat (length bs) <= d ->
  holds (mem_rd m) s bs -> mapped m d (Z.of_nat (length bs)) ->
  wp (copy_up m d s (length bs) 0) (fun m' => written m m' d bs).
Proof.
  intros Hd Hs Hm. pose proof (copy_up_spec d s bs Hd bs 0 m) as H.
  rewrite !Z.add_0_r in H. apply H; [by exists []|done..].
Qed.

(** C39. [memmove] copies the source bytes as they were before the call, for
    every overlap of the two regions, and writes nothing outside the
    destination.  [memcpy] satisfies the same whenever the destination starts
    below the source or past its end. *)
Theorem memmove_correct m dst src bs :
  holds (mem_rd m) src bs -> mapped m dst (Z.of_nat (length bs)) ->
  exists m', memmove m dst src (Z.of_nat (length bs)) = Ret (dst, m') /\
    written m m' dst bs /\
    (dst < src \/ src + Z.of_nat (length bs) <= dst ->
     exists m'', memcpy m dst src (Z.of_nat (length bs)) = Ret (dst, m'') /\
       written m m'' dst bs).
Proof.
  intros Hs Hm.
  assert (wp (memmove m dst src (Z.of_nat (length bs)))
            (fun r => r.1 = dst /\ written m r.2 dst bs)) as H.
  { unfold memmove. rewrite Nat2Z.id. case_if.
    - apply wp_bind. eapply wp_mono; [apply copy_up_correct; auto|done].
    - apply wp_bind. eapply wp_mono; [apply copy_down_spec; auto|done]. }
  apply wp_inv in H as ([? m'] & -> & [? Hc]). simplify_eq/=. exists m'.
  split; [done|]. split; [done|]. intros Hd.
  assert (wp (memcpy m dst src (Z.of_nat (length bs)))
            (fun r => r.1 = dst /\ written m r.2 dst bs)) as H.
  { unfold memcpy. rewrite Nat2Z.id. apply wp_bind.
    eapply wp_mono; [apply copy_up_correct; auto|done]. }
  apply wp_inv in H as ([? m''] & -> & [? Hc']). simplify_eq/=. eauto.
Qed.

(** * memset and memcmp *)

Lemma memset_loop_spec d v n : forall i m,
  mapped m (d + i) (Z.of_nat n) ->
  wp (memset_loop m d v n i) (fun m' => written m m' (d + i) (replicate n (u8 v))).
Proof.
  induction n as [|n IH]; intros i m Hm; simpl; [split; [apply holds_nil|by intros]|].
  rewrite (mem_wr_mapped _ _ _ _ _ Hm) by lia. simpl.
  eapply wp_mono; [apply (IH (i + 1))|].
  - apply mapped_insert. eapply mapped_mono; [exact Hm|lia..].
  - intros m' [Hh Ho]. rewrite Z.add_assoc, length_replicate in *. split.
    + apply holds_cons. split; [|done]. apply mem_rd_Some. rewrite Ho by lia.
      apply lookup_insert_eq.
    + simpl length. rewrite length_replicate. transitivity (<[d + i:=u8 v]> m).
      * eapply same_outside_mono; [apply same_outside_insert|lia..].
      * eapply same_outside_mono; [exact Ho|lia..].
Qed.

Lemma memset_correct m dst v n :
  mapped m dst (Z.of_nat n) ->
  exists m', memset m dst v (Z.of_nat n) = Ret (dst, m') /\
    written m m' dst (replicate n (u8 v)).
Proof.
  intros Hm. pose proof (memset_loop_spec dst v n 0 m) as H.
  rewrite !Z.add_0_r in H. apply wp_inv in H as (m' & Hm' & Hc); [|done].
  exists m'. split; [|done]. unfold memset. by rewrite Nat2Z.id, Hm'.
Qed.

(** The difference of the first bytes that differ, 0 if none does. *)
Fixpoint first_difference (xs ys : list Z) : Z :=
  match xs, ys with
  | x :: xs', y :: ys' => if decide (x = y) then first_difference xs' ys' else x - y
  | _, _ => 0
  end.

Lemma memcmp_loop_spec m pa pb xs : forall ys i,
  length xs = length ys ->
  holds (mem_rd m) (pa + i) xs -> holds (mem_rd m) (pb + i) ys ->
  memcmp_loop m pa pb (length xs) i = Ret (first_difference xs ys).
Proof.
  induction xs as [|x xs IH]; intros [|y ys] i Hl Ha Hb; simplify_eq/=; [done|].
  apply holds_cons in Ha as [-> Ha], Hb as [-> Hb]. simpl.
  case_decide as E; [|by rewrite (proj2 (Z.eqb_neq _ _) E)].
  rewrite (proj2 (Z.eqb_eq _ _) E). apply IH; [done|by rewrite Z.add_assoc..].
Qed.

Lemma first_difference_0 xs : forall ys,
  length xs = length ys -> first_difference xs ys = 0 <-> xs = ys.
Proof.
  induction xs as [|x xs IH]; intros [|y ys] Hl; simplify_eq/=; [done|].
  case_decide as E; [rewrite IH by done; naive_solver|]. split; [lia|naive_solver].
Qed.

Lemma first_difference_antisym xs : forall ys, first_difference ys xs = - first_difference xs ys.
Proof.
  induction xs as [|x xs IH]; intros [|y ys]; simpl; try done.
  repeat case_decide; simplify_eq; [apply IH|lia].
Qed.

(** [memcmp] is 0 exactly on equal regions, and otherwise the difference of
    the first bytes that differ; swapping the arguments changes the sign. *)
Lemma memcmp_correct m a b xs ys :
  length xs = length ys -> holds (mem_rd m) a xs -> holds (mem_rd m) b ys ->
  exists r, memcmp m a b (Z.of_nat (length xs)) = Ret r /\
    (r = 0 <-> xs = ys) /\
    memcmp m b a (Z.of_nat (length xs)) = Ret (- r) /\
    forall k x y, take k xs = take k ys -> xs !! k = Some x -> ys !! k = Some y ->
      x <> y -> r = x - y.
Proof.
  intros Hl Ha Hb. exists (first_difference xs ys). unfold memcmp. rewrite Nat2Z.id.
  rewrite <- (Z.add_0_r a), <- (Z.add_0_r b) in *.
  rewrite (memcmp_loop_spec _ _ _ _ ys) by (rewrite ?Z.add_0_r in *; done).
  split; [done|]. split; [by apply first_difference_0|]. split.
  - rewrite Hl, (memcmp_loop_spec _ _ _ _ xs) by (rewrite ?Z.add_0_r in *; done).
    by rewrite first_difference_antisym.
  - clear. revert ys. induction xs as [|x0 xs IH]; intros [|y0 ys] [|k] x y Ht Hx Hy Hn;
      simplify_eq/=; try done.
    + by rewrite decide_False.
    + rewrite decide_True by done. eauto.
Qed.

(** A region moved up by one byte over itself. *)
Definition ex_mem : memory := list_to_map (imap (fun i b => (Z.of_nat i, b)) [10; 20; 30; 40; 50]).

Lemma memmove_correct_witness :
  exists m', memmove ex_mem 1 0 4 = Ret (1, m') /\ written ex_mem m' 1 [10; 20; 30; 40].
Proof.
  destruct (memmove_correct ex_mem 1 0 [10; 20; 30; 40]) as (m' & H & Hc & _).
  - intros [|[|[|[|i]]]] b Hb; simplify_eq/=; done.
  - intros q Hq. assert (q = 1 \/ q = 2 \/ q = 3 \/ q = 4) as [->|[->|[->| ->]]]
      by (simpl in Hq; lia); by eexists.
  - eauto.
Defined.
