(* ===== verification/Console.v ===== *)
(** The console formatter: kernel/serial.c.

    What reaches the transport ([serial_putc], one per architecture) is the
    list of bytes sent.  A C string is the list of bytes of its object, the
    terminator among them, and running off its end is a [Fault]; the
    variadic arguments are a list that [va_arg] consumes. *)
From stdpp Require Import strings.
From S2P Require Import Prelude.

(** * Data *)

(** What a caller passes: a string, or an integer in a register. *)
Inductive varg := VStr (s : list Z) | VInt (z : Z).

Definition NL : Z := 10.
Definition CR : Z := 13.
Definition PERCENT : Z := 37.
Definition MINUS : Z := 45.

(** ["0123456789ABCDEF"] and ["0123456789abcdef"]. *)
Definition digits_of (upper : bool) : list Z :=
  [48; 49; 50; 51; 52; 53; 54; 55; 56; 57] ++
  (if upper then [65; 66; 67; 68; 69; 70] else [97; 98; 99; 100; 101; 102]).

(** [sizeof(buf)] in [put_uint]. *)
Definition PUT_UINT_BUF : nat := 32.

(** * The formatter *)

Fixpoint puts_raw (s : list Z) : outcome (list Z) :=
  match s with
  | [] => Fault 0
  | c :: s' =>
      if c =? 0 then Ret []
      else
        out ← puts_raw s';
        Ret ((if c =? NL then [CR] else []) ++ c :: out)
  end.

(** [while (v > 0 && i < 32) { buf[i++] = digits[v % base]; v /= base; }]
    with [n = 32 - i] entries of [buf] left; returns [buf[0..i)]. *)
Fixpoint digit_loop (digits : list Z) (base : Z) (n : nat) (v : Z) (buf : list Z)
    : outcome (list Z) :=
  match n with
  | O => Ret buf
  | S n' =>
      if 0 <? v then
        match digits !! Z.to_nat (v mod base) with
        | None => Fault (v mod base)
        | Some d => digit_loop digits base n' (v / base) (buf ++ [d])
        end
      else Ret buf
  end.

Definition put_uint (v base : Z) (upper : bool) : outcome (list Z) :=
  if v =? 0 then Ret [48]
  else
    buf ← digit_loop (digits_of upper) base PUT_UINT_BUF v [];
    Ret (rev buf).

(** [long] is 64 bits; the negation is made in it. *)
Definition put_int (v : Z) : outcome (list Z) :=
  if v <? 0 then
    out ← put_uint (u64 (s64 (- v))) 10 false; Ret (MINUS :: out)
  else put_uint (u64 v) 10 false.

(** [va_arg(ap, const char * )], and [va_arg] at an integer type. *)
Definition va_str (ap : list varg) : outcome (list Z * list varg) :=
  match ap with VStr s :: ap' => Ret (s, ap') | _ => Fault 0 end.
Definition va_int (ap : list varg) : outcome (Z * list varg) :=
  match ap with VInt z :: ap' => Ret (z, ap') | _ => Fault 0 end.

(** The [switch] on the character after a percent sign. *)
Definition directive (c : Z) (ap : list varg) : outcome (list Z * list varg) :=
  if c =? 115 (* s *) then '(s, ap) ← va_str ap; out ← puts_raw s; Ret (out, ap)
  else if c =? 100 (* d *) then
    '(z, ap) ← va_int ap; out ← put_int (s32 z); Ret (out, ap)
  else if c =? 117 (* u *) then
    '(z, ap) ← va_int ap; out ← put_uint (u32 z) 10 false; Ret (out, ap)
  else if c =? 120 (* x *) then
    '(z, ap) ← va_int ap; out ← put_uint (u32 z) 16 false; Ret (out, ap)
  else if c =? 88 (* X *) then
    '(z, ap) ← va_int ap; out ← put_uint (u32 z) 16 true; Ret (out, ap)
  else if c =? 99 (* c *) then '(z, ap) ← va_int ap; Ret ([u8 z], ap)
  else if c =? PERCENT then Ret ([PERCENT], ap)
  else Ret ([PERCENT; c], ap).

(** [for (p = fmt; *p; p++)]; [fmt] is what is left of the object. *)
Fixpoint kprintf (fmt : list Z) (ap : list varg) : outcome (list Z) :=
  match fmt with
  | [] => Fault 0
  | c :: rest =>
      if c =? 0 then Ret []
      else if negb (c =? PERCENT) then
        out ← kprintf rest ap;
        Ret ((if c =? NL then [CR] else []) ++ c :: out)
      else
        match rest with
        | [] => Fault 0
        | d :: rest' =>
            '(o, ap) ← directive d ap;
            out ← kprintf rest' ap;
            Ret (o ++ out)
        end
  end.

(** ** Calls *)

(** A call of [kprintf]: the format object and the arguments. *)
Record kcall := Kcall { k_fmt : list Z; k_args : list varg }.

#[export] Instance varg_eq_dec : EqDecision varg.
Proof. solve_decision. Defined.
#[export] Instance kcall_eq_dec : EqDecision kcall.
Proof. solve_decision. Defined.

Definition bytes_of (s : string) : list Z :=
  (fun c => Z.of_N (Ascii.N_of_ascii c)) <$> String.list_ascii_of_string s.

(** [kprintf("<s>\n", args...)]. *)
Definition line (s : string) (args : list varg) : kcall := Kcall (bytes_of s ++ [NL; 0]) args.

#[global] Arguments line s%_string args.

Definition render (c : kcall) : outcome (list Z) := kprintf (k_fmt c) (k_args c).

(** What a sequence of calls sends. *)
Fixpoint transcript (cs : list kcall) : outcome (list Z) :=
  match cs with
  | [] => Ret []
  | c :: cs' => o ← render c; os ← transcript cs'; Ret (o ++ os)
  end.

(** The check a compiler makes of a format against its arguments: each
    directive is known and has an argument of its kind, a string argument is
    terminated, and no argument is left over. *)
Fixpoint fmt_ok (fmt : list Z) (ap : list varg) : bool :=
  match fmt with
  | [] => false
  | c :: rest =>
      if c =? 0 then match ap with [] => true | _ => false end
      else if negb (c =? PERCENT) then fmt_ok rest ap
      else
        match rest with
        | [] => false
        | d :: rest' =>
            if d =? 115 then
              match ap with
              | VStr s :: ap' => existsb (fun c => c =? 0) s && fmt_ok rest' ap'
              | _ => false
              end
            else if (d =? 100) || (d =? 117) || (d =? 120) || (d =? 88) || (d =? 99) then
              match ap with VInt _ :: ap' => fmt_ok rest' ap' | _ => false end
            else (d =? PERCENT) && fmt_ok rest' ap
        end
  end.

Definition call_ok (c : kcall) : Prop := fmt_ok (k_fmt c) (k_args c) = true.

#[export] Instance call_ok_dec c : Decision (call_ok c).
Proof. unfold call_ok. apply _. Defined.

(** * Numerals *)

(** The value a digit character stands for. *)
Definition digit_value (c : Z) : option Z :=
  if (48 <=? c) && (c <=? 57) then Some (c - 48)
  else if (65 <=? c) && (c <=? 70) then Some (c - 55)
  else if (97 <=? c) && (c <=? 102) then Some (c - 87)
  else None.

(** Reads a numeral, most significant digit first. *)
Fixpoint numeral_value (base acc : Z) (cs : list Z) : option Z :=
  match cs with
  | [] => Some acc
  | c :: cs' =>
      match digit_value c with
      | Some d => if d <? base then numeral_value base (acc * base + d) cs' else None
      | None => None
      end
  end.

(** [cs] is the numeral of [v]: no leading zero, digits of one case only,
    and its value is [v]. *)
Definition is_numeral (base : Z) (upper : bool) (v : Z) (cs : list Z) : Prop :=
  cs <> [] /\ Forall (fun c => c ∈ digits_of upper) cs /\
  numeral_value base 0 cs = Some v /\ (head cs = Some 48 -> cs = [48]).

Lemma digit_value_digits upper d :
  0 <= d < 16 ->
  exists c, digits_of upper !! Z.to_nat d = Some c /\ digit_value c = Some d /\
    (c = 48 -> d = 0).
Proof.
  intros Hd. assert (In d (map Z.of_nat (seq 0 16))) as Hin.
  { apply in_map_iff. exists (Z.to_nat d). split; [lia|]. apply in_seq. lia. }
  destruct upper; simpl in Hin; repeat destruct Hin as [<-|Hin]; try done;
    eexists; (split; [reflexivity|]); by split.
Qed.

Lemma numeral_value_app base cs1 cs2 : forall acc,
  numeral_value base acc (cs1 ++ cs2) =
    match numeral_value base acc cs1 with
    | Some a => numeral_value base a cs2 | None => None end.
Proof.
  induction cs1 as [|c cs1 IH]; intros acc; [done|]. simpl.
  destruct (digit_value c); [|done]. case_if; [apply IH|done].
Qed.

(** The loop's buffer, reversed, is the numeral of what has been divided
    away: [v = (v div base^k) * base^k + value of the last k digits]. *)
Lemma digit_loop_spec base upper : 2 <= base <= 16 -> forall n v buf,
  0 <= v < base ^ Z.of_nat n -> Forall (fun c => c ∈ digits_of upper) buf ->
  exists ds, digit_loop (digits_of upper) base n v buf = Ret (buf ++ rev ds) /\
    Forall (fun c => c ∈ digits_of upper) ds /\
    numeral_value base 0 ds = Some v /\
    (0 < v -> ds <> [] /\ head ds <> Some 48) /\ (v = 0 -> ds = []).
Proof.
  intros Hb. induction n as [|n IH]; intros v buf Hv Hbuf; simpl.
  - exists []. simpl. rewrite app_nil_r. rewrite Z.pow_0_r in Hv.
    assert (v = 0) as -> by lia. repeat split; auto; lia.
  - destruct (Z.ltb_spec 0 v) as [Hpos|?].
    2:{ exists []. simpl. rewrite app_nil_r. assert (v = 0) as -> by lia. repeat split; auto; lia. }
    pose proof (Z.mod_pos_bound v base ltac:(lia)) as Hm.
    destruct (digit_value_digits upper (v mod base)) as (c & Hc & Hdv & H48); [lia|].
    rewrite Hc. rewrite Nat2Z.inj_succ, Z.pow_succ_r in Hv by lia.
    pose proof (Z.div_mod v base ltac:(lia)) as Hdm.
    assert (0 <= v / base < base ^ Z.of_nat n) as Hq
      by (split; [apply Z.div_pos; lia|apply Z.div_lt_upper_bound; lia]).
    assert (c ∈ digits_of upper) as Hcin by (by eapply list_elem_of_lookup_2).
    destruct (IH (v / base) (buf ++ [c]) Hq) as (ds & -> & Hds & Hval & Hnz & Hz).
    { apply Forall_app. split; [done|]. by constructor. }
    exists (ds ++ [c]). rewrite rev_app_distr, <- app_assoc. split; [done|].
    split; [apply Forall_app; split; [done|by constructor]|]. split.
    { rewrite numeral_value_app, Hval. simpl. rewrite Hdv.
      rewrite (proj2 (Z.ltb_lt _ _)) by lia. f_equal. lia. }
    split; [|lia]. intros _. split; [by destruct ds|].
    destruct (decide (v / base = 0)) as [E|E].
    + rewrite (Hz E). simpl. intros [= ->]. specialize (H48 eq_refl). lia.
    + destruct Hnz as [Hne Hhd]; [lia|]. by destruct ds.
Qed.

Lemma put_uint_numeral v base upper :
  2 <= base <= 16 -> 0 <= v < base ^ Z.of_nat PUT_UINT_BUF ->
  exists cs, put_uint v base upper = Ret cs /\ is_numeral base upper v cs.
Proof.
  intros Hb Hv. unfold put_uint. destruct (Z.eqb_spec v 0) as [->|E].
  - exists [48]. split; [done|]. split; [done|]. split.
    + constructor; [|done]. destruct upper; simpl; set_solver.
    + split; [|done]. unfold numeral_value. change (digit_value 48) with (Some 0). cbv iota.
      by rewrite (proj2 (Z.ltb_lt 0 base)) by lia.
  - destruct (digit_loop_spec base upper Hb _ v [] Hv) as (ds & -> & Hds & Hval & Hnz & _);
      [done|]. destruct Hnz as [Hne Hhd]; [lia|].
    simpl. exists ds. rewrite rev_involutive. repeat split; auto. done.
Qed.

(** Every 64-bit value fits the buffer in both bases the kernel prints in. *)
Lemma put_uint_64 v base upper :
  base = 10 \/ base = 16 -> is_u64 v ->
  exists cs, put_uint v base upper = Ret cs /\ is_numeral base upper v cs.
Proof.
  intros Hb Hv. apply put_uint_numeral; [lia|]. unfold is_u64 in Hv.
  destruct Hb as [-> | ->]; unfold PUT_UINT_BUF;
    [assert (2 ^ 64 < 10 ^ Z.of_nat 32) by (vm_compute; reflexivity)
    |assert (2 ^ 64 < 16 ^ Z.of_nat 32) by (vm_compute; reflexivity)]; lia.
Qed.

(** * What a format string prints *)

Inductive fitem :=
| FLit (c : Z) | FPct | FStr (s : list Z) | FInt (z : Z) | FUns (z : Z)
| FHex (upper : bool) (z : Z) | FChr (z : Z) | FOther (c : Z).

Definition crlf (c : Z) : list Z := if c =? NL then [CR; NL] else [c].

(** An item's characters in the format string, and the argument it takes. *)
Definition fmt_of (i : fitem) : list Z :=
  match i with
  | FLit c => [c] | FPct => [PERCENT; PERCENT] | FStr _ => [PERCENT; 115]
  | FInt _ => [PERCENT; 100] | FUns _ => [PERCENT; 117]
  | FHex upper _ => [PERCENT; if upper : bool then 88 else 120]
  | FChr _ => [PERCENT; 99] | FOther c => [PERCENT; c]
  end.
Definition arg_of (i : fitem) : list varg :=
  match i with
  | FStr s => [VStr (s ++ [0])]
  | FInt z | FUns z | FHex _ z | FChr z => [VInt z]
  | FLit _ | FPct | FOther _ => []
  end.

Definition known_directives : list Z := [115; 100; 117; 120; 88; 99; PERCENT].

Definition item_ok (i : fitem) : Prop :=
  match i with
  | FLit c => c <> 0 /\ c <> PERCENT
  | FStr s => Forall (fun c => c <> 0) s
  | FOther c => c <> 0 /\ c ∉ known_directives
  | _ => True
  end.

(** What is printed for it: integers by their 32-bit value, a newline in the
    format or in a string with a carriage return before it. *)
Definition renders (i : fitem) (out : list Z) : Prop :=
  match i with
  | FLit c => out = crlf c
  | FPct => out = [PERCENT]
  | FStr s => out = concat (crlf <$> s)
  | FInt z =>
      if decide (s32 z < 0)
      then exists cs, out = MINUS :: cs /\ is_numeral 10 false (- s32 z) cs
      else is_numeral 10 false (s32 z) out
  | FUns z => is_numeral 10 false (u32 z) out
  | FHex upper z => is_numeral 16 upper (u32 z) out
  | FChr z => out = [u8 z]
  | FOther c => out = [PERCENT; c]
  end.

Lemma crlf_cons c out : (if c =? NL then [CR] else []) ++ c :: out = crlf c ++ out.
Proof. unfold crlf. by case_if; subst. Qed.

Lemma puts_raw_spec s : Forall (fun c => c <> 0) s -> puts_raw (s ++ [0]) = Ret (concat (crlf <$> s)).
Proof.
  induction 1 as [|c s Hc _ IH]; [done|]. simpl. rewrite (proj2 (Z.eqb_neq _ _) Hc), IH.
  simpl. by rewrite crlf_cons.
Qed.

Lemma u32_is_u64 z : is_u64 (u32 z).
Proof. pose proof (u32_range z). ulia. Qed.

Lemma put_int_spec z :
  exists out, put_int (s32 z) = Ret out /\ renders (FInt z) out.
Proof.
  unfold put_int. pose proof (s32_range z) as Hr. simpl. case_decide as E.
  - rewrite (proj2 (Z.ltb_lt _ _) E). rewrite s64_small, u64_small by ulia.
    destruct (put_uint_64 (- s32 z) 10 false) as (cs & -> & Hcs); [auto|ulia|].
    exists (MINUS :: cs). split; [done|]. eauto.
  - rewrite (proj2 (Z.ltb_ge _ _)), u64_small by ulia.
    apply put_uint_64; [auto|ulia].
Qed.

(** One directive with its argument in front of the others. *)
Lemma directive_spec i c ap :
  item_ok i -> fmt_of i = [PERCENT; c] ->
  exists out, directive c (arg_of i ++ ap) = Ret (out, ap) /\ renders i out.
Proof.
  destruct i as [l| |s|z|z|upper z|z|l]; simpl; intros Hok Hf; simplify_eq/=.
  - by exists [PERCENT].
  - unfold directive. simpl. rewrite puts_raw_spec by done. eauto.
  - unfold directive. simpl. destruct (put_int_spec z) as (out & -> & H). simpl. eauto.
  - unfold directive. simpl.
    destruct (put_uint_64 (u32 z) 10 false) as (cs & -> & Hcs); [auto|apply u32_is_u64|].
    simpl. eauto.
  - unfold directive. destruct upper; simpl;
      (edestruct (put_uint_64 (u32 z) 16) as (cs & -> & Hcs);
       [auto|apply u32_is_u64|simpl; eauto]).
  - unfold directive. simpl. eauto.
  - destruct Hok as [H0 Hn]. exists [PERCENT; c]. split; [|done]. unfold directive.
    unfold known_directives in Hn. rewrite !not_elem_of_cons in Hn.
    destruct Hn as (?&?&?&?&?&?&?&?).
    by rewrite !(proj2 (Z.eqb_neq _ _)) by done.
Qed.

Lemma kprintf_item i fmt ap :
  item_ok i ->
  exists o, renders i o /\
    kprintf (fmt_of i ++ fmt) (arg_of i ++ ap) =
      (out ← kprintf fmt ap; Ret (o ++ out)).
Proof.
  intros Hok. assert ((exists l, i = FLit l) \/ exists c, fmt_of i = [PERCENT; c]) as [[l ->]|[c Hc]]
    by (destruct i; simpl; eauto).
  - destruct Hok as [H0 Hp]. exists (crlf l). split; [done|]. simpl.
    rewrite (proj2 (Z.eqb_neq _ _) H0), (proj2 (Z.eqb_neq _ _) Hp). simpl.
    destruct (kprintf fmt ap); try done. simpl. by rewrite crlf_cons.
  - destruct (directive_spec i c ap Hok Hc) as (o & Ho & Hr). exists o. split; [done|].
    rewrite Hc. simpl. by rewrite Ho.
Qed.

(** C38. [kprintf] prints what its format says: for every sequence of format
    items, laid out as one terminated string with the arguments it takes,
    it prints each item's rendering in order (numerals have the value of the
    32-bit argument, no leading zero and the requested case; newlines are
    sent as CR LF) and stops at the terminator with every argument
    consumed. *)
Theorem kprintf_renders items :
  Forall item_ok items ->
  exists outs, Forall2 renders items outs /\
    kprintf (concat (fmt_of <$> items) ++ [0]) (concat (arg_of <$> items)) =
      Ret (concat outs).
Proof.
  induction 1 as [|i items Hi _ (outs & Hr & IH)]; [by exists []|].
  destruct (kprintf_item i (concat (fmt_of <$> items) ++ [0]) (concat (arg_of <$> items)) Hi)
    as (o & Ho & Hk).
  exists (o :: outs). split; [by constructor|].
  rewrite !fmap_cons, !concat_cons, <- app_assoc, Hk, IH. done.
Qed.

(** ["handle 0x%X: %d\n"] *)
Lemma kprintf_renders_witness :
  exists outs,
    Forall2 renders [FLit 48; FLit 120; FHex true 0xCAB1E000; FLit 58; FInt (-7); FLit 10] outs /\
    kprintf [48; 120; 37; 88; 58; 37; 100; 10; 0] [VInt 0xCAB1E000; VInt (-7)] =
      Ret (concat outs).
Proof.
  apply (kprintf_renders [FLit 48; FLit 120; FHex true 0xCAB1E000; FLit 58; FInt (-7); FLit 10]).
  repeat (apply List.Forall_cons; [try done|]); apply List.Forall_nil.
Defined.

(** A percent sign at the end of the format skips the terminator: the walk
    goes on past the end of the string object. *)
Lemma kprintf_trailing_percent items ap :
  Forall item_ok items ->
  kprintf (concat (fmt_of <$> items) ++ [PERCENT; 0]) (concat (arg_of <$> items) ++ ap) = Fault 0.
Proof.
  induction 1 as [|i items Hi _ IH]; [done|]. rewrite !fmap_cons, !concat_cons, <- !app_assoc.
  destruct (kprintf_item i (concat (fmt_of <$> items) ++ [PERCENT; 0])
              (concat (arg_of <$> items) ++ ap) Hi) as (o & _ & ->).
  by rewrite IH.
Qed.

(** * Checked formats *)

Lemma puts_raw_total s : existsb (fun c => c =? 0) s = true -> exists out, puts_raw s = Ret out.
Proof.
  induction s as [|c s IH]; simpl; [done|]. destruct (c =? 0); simpl; [by eexists|].
  intros H. destruct (IH H) as [out ->]. simpl. by eexists.
Qed.

(** A directive that is not [%s] takes any integer. *)
Lemma directive_int d z ap :
  (d =? 100) || (d =? 117) || (d =? 120) || (d =? 88) || (d =? 99) = true ->
  exists out, directive d (VInt z :: ap) = Ret (out, ap).
Proof.
  rewrite !orb_true_iff, !Z.eqb_eq. intros H.
  assert (exists i, item_ok i /\ fmt_of i = [PERCENT; d] /\ arg_of i = [VInt z]) as (i & Hok & Hf & Ha).
  { destruct H as [[[[->| ->]| ->]| ->]| ->];
      [exists (FInt z)|exists (FUns z)|exists (FHex false z)|exists (FHex true z)|exists (FChr z)];
      done. }
  destruct (directive_spec i d ap Hok Hf) as (out & Ho & _). rewrite Ha in Ho. by exists out.
Qed.

(** A format that passes the check prints, whatever the integers. *)
Lemma fmt_ok_prints_le n : forall fmt ap, (length fmt <= n)%nat -> fmt_ok fmt ap = true ->
  exists out, kprintf fmt ap = Ret out.
Proof.
  induction n as [|n IH]; intros [|c rest] ap Hl Hok; simpl in Hl; try (done || lia).
  simpl in Hok |- *. destruct (c =? 0); [by eexists|]. destruct (c =? PERCENT); simpl in *.
  - destruct rest as [|d rest]; [done|]. simpl in Hl.
    destruct (d =? 115) eqn:Ed.
    + destruct ap as [|[s|z] ap]; [done| |done]. apply andb_true_iff in Hok as [Hs Hok].
      destruct (puts_raw_total s Hs) as [o Ho]. destruct (IH rest ap ltac:(lia) Hok) as [out Hout].
      unfold directive. rewrite Ed. simpl. rewrite Ho. simpl. rewrite Hout. by eexists.
    + destruct (_ || _) eqn:Ei.
      * destruct ap as [|[s|z] ap]; [done..|].
        destruct (directive_int d z ap Ei) as [o Ho]. rewrite Ho. simpl.
        destruct (IH rest ap ltac:(lia) Hok) as [out ->]. by eexists.
      * apply andb_true_iff in Hok as [Hp Hok]. apply Z.eqb_eq in Hp as ->. simpl.
        destruct (IH rest ap ltac:(lia) Hok) as [out ->]. by eexists.
  - destruct (IH rest ap ltac:(lia) Hok) as [out ->]. by eexists.
Qed.

Lemma call_ok_prints c : call_ok c -> exists out, render c = Ret out.
Proof. intros H. by eapply fmt_ok_prints_le. Qed.

Lemma transcript_total cs : Forall call_ok cs -> exists out, transcript cs = Ret out.
Proof.
  induction 1 as [|c cs Hc _ [os IH]]; simpl; [by eexists|].
  destruct (call_ok_prints c Hc) as [o ->]. rewrite ret_bind, IH. by eexists.
Qed.
