(* ===== verification/Schema.v ===== *)
(** Object schemas: kernel/schema.h.

    The four flat arrays of a [schema_table_t] refer to each other by
    16-bit indices; a resolved schema is a (table, index) pair.  The C
    table holds four array pointers with four separate counts.  Here a
    pointer to an array is the pair of its address and of the elements
    really stored there ([arr]), so that pointer identity (which
    kernel/cap.c compares) and the extent of the array (which bounds what
    may be read) are both visible, and a count that overstates its array is
    representable: reading past the elements is a [Fault]. *)
From S2P Require Import Prelude.

(** * Data *)

(** [ptr_schema_kind_t].  A C enum read from a caller's table can hold a
    value with no name; [PTR_SCHEMA_OTHER] is such a value. *)
Inductive ptr_schema_kind_t :=
| PTR_SCHEMA_ANY
| PTR_SCHEMA_STRUCT
| PTR_SCHEMA_LIST
| PTR_SCHEMA_TEXT
| PTR_SCHEMA_DATA
| PTR_SCHEMA_CAPABILITY
| PTR_SCHEMA_OTHER (raw : Z).

Definition SCHEMA_IDX_NONE : Z := 65535.

(** [element_struct] is a [schema_idx_t] (16 bits) and [list_element_size]
    a [uint8_t]. *)
Record pointer_schema_t := {
  kind : ptr_schema_kind_t;
  element_struct : Z;
  list_element_size : Z }.

Record struct_schema_t := {
  data_words : Z;
  pointer_count : Z;
  first_pointer : Z }.

Record method_schema_t := {
  method_id : Z;
  param_schema : Z;
  result_schema : Z }.

Record object_schema_t := {
  first_method : Z;
  method_count : Z }.

(** A [const T *] into an array: where it points and what is stored there. *)
Record arr (A : Type) := { arr_addr : Z; arr_elems : list A }.
Arguments arr_addr {A} _.
Arguments arr_elems {A} _.
Arguments Build_arr {A} _ _.

Record schema_table_t := {
  t_structs : arr struct_schema_t;
  t_struct_count : Z;
  t_pointers : arr pointer_schema_t;
  t_pointer_count : Z;
  t_methods : arr method_schema_t;
  t_method_count : Z;
  t_objects : arr object_schema_t;
  t_object_count : Z }.

#[export] Instance kind_eq_dec : EqDecision ptr_schema_kind_t.
Proof. solve_decision. Defined.
#[export] Instance pointer_schema_eq_dec : EqDecision pointer_schema_t.
Proof. solve_decision. Defined.
#[export] Instance struct_schema_eq_dec : EqDecision struct_schema_t.
Proof. solve_decision. Defined.
#[export] Instance method_schema_eq_dec : EqDecision method_schema_t.
Proof. solve_decision. Defined.
#[export] Instance object_schema_eq_dec : EqDecision object_schema_t.
Proof. solve_decision. Defined.
#[export] Instance arr_eq_dec {A} `{EqDecision A} : EqDecision (arr A).
Proof. solve_decision. Defined.
#[export] Instance schema_table_eq_dec : EqDecision schema_table_t.
Proof. solve_decision. Defined.

(** * Bounds-checked accessors *)

(** [a[i]] for a C array: a read past the elements is a fault. *)
Definition arr_get {A} (a : arr A) (i : Z) : outcome A :=
  if 0 <=? i then
    match arr_elems a !! Z.to_nat i with
    | Some x => Ret x
    | None => Fault i
    end
  else Fault i.

(** The guard the four accessors share:
    [if (!t || i == SCHEMA_IDX_NONE || i >= count) return NULL;]. *)
Definition checked_get {A} (t : option schema_table_t) (i : Z)
    (array : schema_table_t -> arr A) (count : schema_table_t -> Z)
    : outcome (option A) :=
  match t with
  | None => Ret None
  | Some t =>
      if (i =? SCHEMA_IDX_NONE) || (count t <=? i) then Ret None
      else x ← arr_get (array t) i; Ret (Some x)
  end.

(** A [NULL] table pointer is [None]; the result [None] is [NULL].  The
    returned pointer is represented by the entry it points to. *)
Definition schema_struct (t : option schema_table_t) (i : Z)
    : outcome (option struct_schema_t) :=
  checked_get t i t_structs t_struct_count.

Definition schema_pointer (t : option schema_table_t) (i : Z)
    : outcome (option pointer_schema_t) :=
  checked_get t i t_pointers t_pointer_count.

Definition schema_object (t : option schema_table_t) (i : Z)
    : outcome (option object_schema_t) :=
  checked_get t i t_objects t_object_count.

Definition schema_method (t : option schema_table_t) (i : Z)
    : outcome (option method_schema_t) :=
  checked_get t i t_methods t_method_count.

(** * Well-formed tables *)

Definition pointer_schema_wf (p : pointer_schema_t) : Prop :=
  is_u16 (element_struct p) /\ is_u8 (list_element_size p).

Definition struct_schema_wf (s : struct_schema_t) : Prop :=
  is_u16 (data_words s) /\ is_u16 (pointer_count s) /\ is_u16 (first_pointer s).

Definition method_schema_wf (m : method_schema_t) : Prop :=
  is_u32 (method_id m) /\ is_u16 (param_schema m) /\ is_u16 (result_schema m).

Definition object_schema_wf (o : object_schema_t) : Prop :=
  is_u16 (first_method o) /\ is_u16 (method_count o).

(** What a table must satisfy for the kernel to be able to read it at all:
    no count overstates its array, and every field fits its C type.  It says
    nothing about the indices inside the entries, which the kernel checks. *)
Record table_wf (t : schema_table_t) : Prop := {
  wf_structs : 0 <= t_struct_count t <= Z.of_nat (length (arr_elems (t_structs t)));
  wf_pointers : 0 <= t_pointer_count t <= Z.of_nat (length (arr_elems (t_pointers t)));
  wf_methods : 0 <= t_method_count t <= Z.of_nat (length (arr_elems (t_methods t)));
  wf_objects : 0 <= t_object_count t <= Z.of_nat (length (arr_elems (t_objects t)));
  wf_struct_fields : Forall struct_schema_wf (arr_elems (t_structs t));
  wf_pointer_fields : Forall pointer_schema_wf (arr_elems (t_pointers t));
  wf_method_fields : Forall method_schema_wf (arr_elems (t_methods t));
  wf_object_fields : Forall object_schema_wf (arr_elems (t_objects t)) }.

#[export] Instance pointer_schema_wf_dec p : Decision (pointer_schema_wf p).
Proof. unfold pointer_schema_wf. apply _. Defined.
#[export] Instance struct_schema_wf_dec s : Decision (struct_schema_wf s).
Proof. unfold struct_schema_wf. apply _. Defined.
#[export] Instance method_schema_wf_dec m : Decision (method_schema_wf m).
Proof. unfold method_schema_wf. apply _. Defined.
#[export] Instance object_schema_wf_dec o : Decision (object_schema_wf o).
Proof. unfold object_schema_wf. apply _. Defined.

Definition opt_table_wf (t : option schema_table_t) : Prop :=
  match t with Some t => table_wf t | None => True end.

(** * Lemmas *)

Lemma arr_get_Ret {A} (a : arr A) i x :
  arr_get a i = Ret x <-> 0 <= i /\ arr_elems a !! Z.to_nat i = Some x.
Proof.
  unfold arr_get. destruct (Z.leb_spec 0 i); [|split; [done|lia]].
  destruct (arr_elems a !! Z.to_nat i); split; intros; deconj; by simplify_eq.
Qed.

Lemma wp_arr_get {A} (a : arr A) i (P : A -> Prop) :
  0 <= i < Z.of_nat (length (arr_elems a)) -> Forall P (arr_elems a) ->
  wp (arr_get a i) P.
Proof.
  intros Hi HP. unfold arr_get. destruct (Z.leb_spec 0 i); [|lia].
  destruct (lookup_lt_is_Some_2 (arr_elems a) (Z.to_nat i)) as [x Hx]; [lia|].
  rewrite Hx. simpl. eapply Forall_lookup_1; eauto.
Qed.

(** Whatever the index, a checked access of a table whose count is honest
    reads inside the array. *)
Lemma wp_checked_get {A} t i (array : schema_table_t -> arr A) count (P : A -> Prop) :
  0 <= i ->
  (forall t', t = Some t' ->
     0 <= count t' <= Z.of_nat (length (arr_elems (array t'))) /\
     Forall P (arr_elems (array t'))) ->
  wp (checked_get t i array count)
     (fun o => match o with Some x => P x | None => True end).
Proof.
  intros Hi Hc. destruct t as [t|]; simpl; [|done].
  destruct (Hc t eq_refl). case_if; simpl; [done|].
  apply wp_bind. eapply wp_mono; [apply wp_arr_get; [lia|eauto]|done].
Qed.

Lemma wp_schema_struct t i :
  opt_table_wf t -> 0 <= i ->
  wp (schema_struct t i)
     (fun o => match o with Some s => struct_schema_wf s | None => True end).
Proof. intros Ht Hi. apply wp_checked_get; [done|]. intros t' ->. by destruct Ht. Qed.

Lemma wp_schema_object t i :
  opt_table_wf t -> 0 <= i ->
  wp (schema_object t i)
     (fun o => match o with Some s => object_schema_wf s | None => True end).
Proof. intros Ht Hi. apply wp_checked_get; [done|]. intros t' ->. by destruct Ht. Qed.

Lemma checked_get_Some {A} t i (array : schema_table_t -> arr A) count x :
  0 <= i ->
  checked_get t i array count = Ret (Some x) <->
  exists t', t = Some t' /\ i <> SCHEMA_IDX_NONE /\ i < count t' /\
    arr_elems (array t') !! Z.to_nat i = Some x.
Proof.
  intros Hi. destruct t as [t|]; simpl; [|split; [done|by intros (?&?&_)]].
  split.
  - case_if; [done|]. intros Heq. apply bind_ret_inv in Heq as (y & Hy & ?).
    simplify_eq. apply arr_get_Ret in Hy as [_ Hy]. eauto 10 with lia.
  - intros (t' & ? & ? & ? & Hx). simplify_eq.
    destruct (Z.eqb_spec i SCHEMA_IDX_NONE); [done|].
    destruct (Z.leb_spec (count t') i); [lia|]. simpl.
    by rewrite (proj2 (arr_get_Ret _ _ _) (conj Hi Hx)).
Qed.

Lemma schema_struct_Some t i s :
  0 <= i ->
  schema_struct t i = Ret (Some s) <->
  exists t', t = Some t' /\ i <> SCHEMA_IDX_NONE /\ i < t_struct_count t' /\
    arr_elems (t_structs t') !! Z.to_nat i = Some s.
Proof. apply checked_get_Some. Qed.
