(* ===== verification/Capnp.v ===== *)
(** The Cap'n Proto pointer word: kernel/capnp.h.

    [capnp_decode_ptr] splits a raw 64-bit word into the fields of the
    pointer kind its two low bits select.  The encoders below are the wire
    format's own definition of each kind (offset, sizes and tag packed into
    one word); the decoder is shown to invert each of them. *)
From S2P Require Import Prelude.

(** * Data *)

Inductive capnp_ptr_tag_t :=
| CAPNP_PTR_NULL
| CAPNP_PTR_STRUCT
| CAPNP_PTR_LIST
| CAPNP_PTR_FAR
| CAPNP_PTR_CAPABILITY.

#[export] Instance tag_eq_dec : EqDecision capnp_ptr_tag_t.
Proof. solve_decision. Defined.

Record capnp_ptr_t := {
  tag : capnp_ptr_tag_t;
  offset_words : Z;
  p_data_words : Z;
  p_ptr_words : Z;
  element_size : Z;
  element_count : Z;
  far_double : Z;
  far_segment_id : Z;
  cap_index : Z }.

#[export] Instance capnp_ptr_eq_dec : EqDecision capnp_ptr_t.
Proof. solve_decision. Defined.

(** * The decoder *)

(** [(int32_t)(word >> 2) & 0x3FFFFFFF], then the sign extension of the
    30-bit field by or-ing [(int32_t)0xC0000000u] in. *)
Definition decode_offset30 (word : Z) : Z :=
  let off := Z.land (s32 (Z.shiftr word 2)) 0x3FFFFFFF in
  if Z.land off 0x20000000 =? 0 then off else Z.lor off (s32 0xC0000000).

Definition capnp_decode_ptr (word : Z) : capnp_ptr_t :=
  if word =? 0 then
    {| tag := CAPNP_PTR_NULL; offset_words := 0; p_data_words := 0; p_ptr_words := 0;
       element_size := 0; element_count := 0; far_double := 0; far_segment_id := 0;
       cap_index := 0 |}
  else
    let t := Z.land word 3 in
    if t =? 0 then
      {| tag := CAPNP_PTR_STRUCT;
         offset_words := decode_offset30 word;
         p_data_words := u16 (Z.land (Z.shiftr word 32) 0xFFFF);
         p_ptr_words := u16 (Z.land (Z.shiftr word 48) 0xFFFF);
         element_size := 0; element_count := 0; far_double := 0; far_segment_id := 0;
         cap_index := 0 |}
    else if t =? 1 then
      {| tag := CAPNP_PTR_LIST;
         offset_words := decode_offset30 word;
         p_data_words := 0; p_ptr_words := 0;
         element_size := u8 (Z.land (Z.shiftr word 32) 7);
         element_count := u32 (Z.land (Z.shiftr word 35) 0x1FFFFFFF);
         far_double := 0; far_segment_id := 0; cap_index := 0 |}
    else if t =? 2 then
      {| tag := CAPNP_PTR_FAR;
         offset_words := s32 (Z.land (Z.shiftr word 3) 0x1FFFFFFF);
         p_data_words := 0; p_ptr_words := 0; element_size := 0; element_count := 0;
         far_double := u8 (Z.land (Z.shiftr word 2) 1);
         far_segment_id := u32 (Z.land (Z.shiftr word 32) 0xFFFFFFFF);
         cap_index := 0 |}
    else
      {| tag := CAPNP_PTR_CAPABILITY;
         offset_words := 0; p_data_words := 0; p_ptr_words := 0; element_size := 0;
         element_count := 0; far_double := 0; far_segment_id := 0;
         cap_index := u32 (Z.land (Z.shiftr word 32) 0xFFFFFFFF) |}.

(** * The wire format *)

(** A struct pointer: tag 0, a signed 30-bit offset, 16 bits of data size
    and 16 bits of pointer-section size. *)
Definition enc_struct_ptr (off dw pw : Z) : Z :=
  off mod 2 ^ 30 * 4 + dw * 2 ^ 32 + pw * 2 ^ 48.

(** A list pointer: tag 1, a signed 30-bit offset, a 3-bit element size
    code and a 29-bit count. *)
Definition enc_list_ptr (off size count : Z) : Z :=
  1 + off mod 2 ^ 30 * 4 + size * 2 ^ 32 + count * 2 ^ 35.

(** A far pointer: tag 2, the landing-pad flag, a 29-bit offset and the
    segment number. *)
Definition enc_far_ptr (double off seg : Z) : Z :=
  2 + double * 4 + off * 8 + seg * 2 ^ 32.

(** A capability pointer: tag 3 and the index in the high half. *)
Definition enc_cap_ptr (index : Z) : Z := 3 + index * 2 ^ 32.

(** * Lemmas *)

(** The masks and shifts of the decoder, as arithmetic. *)
Lemma decode_offset30_arith word :
  0 <= word ->
  decode_offset30 word =
    let f := (word / 4) mod 2 ^ 30 in if f <? 2 ^ 29 then f else f - 2 ^ 30.
Proof.
  intros Hw. unfold decode_offset30.
  assert (Z.land (s32 (Z.shiftr word 2)) 0x3FFFFFFF = (word / 4) mod 2 ^ 30) as ->.
  { change 0x3FFFFFFF with (2 ^ 30 - 1). rewrite land_mask, shiftr_div by lia.
    change (2 ^ 2) with 4. unfold s32, u32. cbv zeta.
    destruct (Z.ltb_spec ((word / 4) mod 2 ^ 32) (2 ^ 31));
      Z.to_euclidean_division_equations; lia. }
  cbv zeta. set (f := (word / 4) mod 2 ^ 30).
  assert (0 <= f < 2 ^ 30) as Hf by (apply Z.mod_pos_bound; lia).
  assert (Z.land f 0x20000000 = (if f <? 2 ^ 29 then 0 else 2 ^ 29)) as ->.
  { change 0x20000000 with (2 ^ 29). apply Z.bits_inj'. intros i Hi.
    rewrite Z.land_spec, Z.pow2_bits_eqb by lia.
    destruct (Z.eqb_spec 29 i) as [<-|Hne]; [rewrite andb_true_r|rewrite andb_false_r].
    - rewrite Z.testbit_eqb by lia.
      destruct (Z.ltb_spec f (2 ^ 29)).
      + rewrite Z.div_small, Z.bits_0 by lia. done.
      + replace (f / 2 ^ 29) with 1 by (Z.to_euclidean_division_equations; lia). done.
    - destruct (Z.ltb_spec f (2 ^ 29)); [by rewrite Z.bits_0|].
      rewrite Z.pow2_bits_eqb by lia. by destruct (Z.eqb_spec 29 i). }
  destruct (Z.ltb_spec f (2 ^ 29)); [done|].
  change (2 ^ 29 =? 0) with false. cbv iota.
  change (s32 0xC0000000) with (Z.shiftl (-1) 30).
  rewrite Z.lor_comm, lor_shiftl by lia. lia.
Qed.

Lemma decode_offset30_range word : 0 <= word -> - 2 ^ 29 <= decode_offset30 word < 2 ^ 29.
Proof.
  intros. rewrite decode_offset30_arith by done. cbv zeta.
  pose proof (Z.mod_pos_bound (word / 4) (2 ^ 30)).
  destruct (Z.ltb_spec ((word / 4) mod 2 ^ 30) (2 ^ 29)); lia.
Qed.

(** The field widths of everything the decoder returns. *)
Record ptr_fields_ok (p : capnp_ptr_t) : Prop := {
  pf_offset : - 2 ^ 29 <= offset_words p < 2 ^ 29;
  pf_data : is_u16 (p_data_words p);
  pf_ptrs : is_u16 (p_ptr_words p);
  pf_size : 0 <= element_size p < 8;
  pf_count : 0 <= element_count p < 2 ^ 29 }.

Lemma decode_fields_ok word : 0 <= word -> ptr_fields_ok (capnp_decode_ptr word).
Proof.
  intros Hw. pose proof (decode_offset30_range word Hw) as Ho.
  pose proof (u16_range (Z.land (Z.shiftr word 32) 0xFFFF)) as Hd.
  pose proof (u16_range (Z.land (Z.shiftr word 48) 0xFFFF)) as Hp.
  assert (0 <= u8 (Z.land (Z.shiftr word 32) 7) < 8) as He.
  { change 7 with (2 ^ 3 - 1). rewrite land_mask by lia.
    pose proof (Z.mod_pos_bound (Z.shiftr word 32) (2 ^ 3)).
    rewrite u8_small; ulia. }
  assert (0 <= u32 (Z.land (Z.shiftr word 35) 0x1FFFFFFF) < 2 ^ 29) as Hc.
  { change 0x1FFFFFFF with (2 ^ 29 - 1). rewrite land_mask by lia.
    pose proof (Z.mod_pos_bound (Z.shiftr word 35) (2 ^ 29)).
    rewrite u32_small; ulia. }
  assert (0 <= s32 (Z.land (Z.shiftr word 3) 0x1FFFFFFF) < 2 ^ 29) as Hf.
  { change 0x1FFFFFFF with (2 ^ 29 - 1). rewrite land_mask by lia.
    pose proof (Z.mod_pos_bound (Z.shiftr word 3) (2 ^ 29)).
    rewrite s32_small; lia. }
  unfold capnp_decode_ptr. repeat case_if; constructor; simpl; ulia.
Qed.

Lemma land_3 word : Z.land word 3 = word mod 4.
Proof. by rewrite <- (land_mask _ 2). Qed.

(** The decoder on a word of each tag, with masks and shifts as arithmetic. *)
Lemma decode_struct word :
  0 < word -> word mod 4 = 0 ->
  capnp_decode_ptr word =
    {| tag := CAPNP_PTR_STRUCT; offset_words := decode_offset30 word;
       p_data_words := (word / 2 ^ 32) mod 2 ^ 16;
       p_ptr_words := (word / 2 ^ 48) mod 2 ^ 16;
       element_size := 0; element_count := 0; far_double := 0; far_segment_id := 0;
       cap_index := 0 |}.
Proof.
  intros Hw Ht. unfold capnp_decode_ptr. destruct (Z.eqb_spec word 0); [lia|].
  cbv zeta. rewrite land_3, Ht.
  change 0xFFFF with (2 ^ 16 - 1). cbn [Z.eqb]. rewrite !land_mask, !shiftr_div by lia. simpl.
  by rewrite !u16_small by apply u16_range.
Qed.

Lemma decode_list word :
  0 < word -> word mod 4 = 1 ->
  capnp_decode_ptr word =
    {| tag := CAPNP_PTR_LIST; offset_words := decode_offset30 word;
       p_data_words := 0; p_ptr_words := 0;
       element_size := (word / 2 ^ 32) mod 2 ^ 3;
       element_count := (word / 2 ^ 35) mod 2 ^ 29;
       far_double := 0; far_segment_id := 0; cap_index := 0 |}.
Proof.
  intros Hw Ht. unfold capnp_decode_ptr. destruct (Z.eqb_spec word 0); [lia|].
  cbv zeta. rewrite land_3, Ht.
  change 7 with (2 ^ 3 - 1). change 0x1FFFFFFF with (2 ^ 29 - 1).
  cbn [Z.eqb]. rewrite !land_mask, !shiftr_div by lia. simpl.
  pose proof (Z.mod_pos_bound (word / 2 ^ 32) (2 ^ 3)).
  pose proof (Z.mod_pos_bound (word / 2 ^ 35) (2 ^ 29)).
  by rewrite u8_small, u32_small by ulia.
Qed.

Lemma decode_far word :
  0 < word -> word mod 4 = 2 ->
  capnp_decode_ptr word =
    {| tag := CAPNP_PTR_FAR; offset_words := (word / 8) mod 2 ^ 29;
       p_data_words := 0; p_ptr_words := 0; element_size := 0; element_count := 0;
       far_double := (word / 4) mod 2; far_segment_id := (word / 2 ^ 32) mod 2 ^ 32;
       cap_index := 0 |}.
Proof.
  intros Hw Ht. unfold capnp_decode_ptr. destruct (Z.eqb_spec word 0); [lia|].
  cbv zeta. rewrite land_3, Ht.
  change 0x1FFFFFFF with (2 ^ 29 - 1). change 0xFFFFFFFF with (2 ^ 32 - 1).
  replace (Z.land (Z.shiftr word 2) 1) with ((word / 4) mod 2)
    by (by rewrite <- (land_mask _ 1), shiftr_div).
  cbn [Z.eqb]. rewrite !land_mask, !shiftr_div by lia. simpl. change (2 ^ 3) with 8.
  pose proof (Z.mod_pos_bound (word / 4) 2).
  pose proof (Z.mod_pos_bound (word / 8) (2 ^ 29)).
  rewrite u8_small, s32_small, u32_small by first [apply u32_range | ulia]. done.
Qed.

Lemma decode_cap word :
  0 < word -> word mod 4 = 3 ->
  capnp_decode_ptr word =
    {| tag := CAPNP_PTR_CAPABILITY; offset_words := 0;
       p_data_words := 0; p_ptr_words := 0; element_size := 0; element_count := 0;
       far_double := 0; far_segment_id := 0; cap_index := (word / 2 ^ 32) mod 2 ^ 32 |}.
Proof.
  intros Hw Ht. unfold capnp_decode_ptr. destruct (Z.eqb_spec word 0); [lia|].
  cbv zeta. rewrite land_3, Ht.
  change 0xFFFFFFFF with (2 ^ 32 - 1). cbn [Z.eqb]. rewrite !land_mask, !shiftr_div by lia. simpl.
  rewrite u32_small by apply u32_range. done.
Qed.

(** A signed 30-bit offset survives the wire. *)
Lemma offset30_roundtrip off hi low2 :
  - 2 ^ 29 <= off < 2 ^ 29 -> 0 <= hi -> 0 <= low2 < 4 ->
  decode_offset30 (low2 + off mod 2 ^ 30 * 4 + hi * 2 ^ 32) = off.
Proof.
  intros. rewrite decode_offset30_arith by (Z.to_euclidean_division_equations; lia).
  assert (((low2 + off mod 2 ^ 30 * 4 + hi * 2 ^ 32) / 4) mod 2 ^ 30 = off mod 2 ^ 30) as ->
    by (Z.to_euclidean_division_equations; lia).
  cbv zeta. destruct (Z.ltb_spec (off mod 2 ^ 30) (2 ^ 29));
    Z.to_euclidean_division_equations; lia.
Qed.

Lemma decode_enc_struct off dw pw :
  - 2 ^ 29 <= off < 2 ^ 29 -> is_u16 dw -> is_u16 pw -> (off, dw, pw) <> (0, 0, 0) ->
  capnp_decode_ptr (enc_struct_ptr off dw pw) =
    {| tag := CAPNP_PTR_STRUCT; offset_words := off; p_data_words := dw;
       p_ptr_words := pw; element_size := 0; element_count := 0; far_double := 0;
       far_segment_id := 0; cap_index := 0 |}.
Proof.
  intros Ho Hd Hp Hnz. unfold_ints.
  assert (0 < enc_struct_ptr off dw pw).
  { assert (off <> 0 \/ dw <> 0 \/ pw <> 0) as Hn.
    { destruct (Z.eq_dec off 0), (Z.eq_dec dw 0), (Z.eq_dec pw 0); subst; tauto. }
    clear Hnz. unfold enc_struct_ptr. Z.to_euclidean_division_equations; lia. }
  rewrite decode_struct by (first [done | unfold enc_struct_ptr; Z.to_euclidean_division_equations; lia]).
  f_equal.
  - unfold enc_struct_ptr.
    replace (off mod 2 ^ 30 * 4 + dw * 2 ^ 32 + pw * 2 ^ 48)
      with (0 + off mod 2 ^ 30 * 4 + (dw + pw * 2 ^ 16) * 2 ^ 32) by lia.
    apply offset30_roundtrip; lia.
  - unfold enc_struct_ptr. Z.to_euclidean_division_equations; lia.
  - unfold enc_struct_ptr. Z.to_euclidean_division_equations; lia.
Qed.

Lemma decode_enc_list off size count :
  - 2 ^ 29 <= off < 2 ^ 29 -> 0 <= size < 8 -> 0 <= count < 2 ^ 29 ->
  capnp_decode_ptr (enc_list_ptr off size count) =
    {| tag := CAPNP_PTR_LIST; offset_words := off; p_data_words := 0;
       p_ptr_words := 0; element_size := size; element_count := count; far_double := 0;
       far_segment_id := 0; cap_index := 0 |}.
Proof.
  intros Ho Hs Hc.
  rewrite decode_list by (unfold enc_list_ptr; Z.to_euclidean_division_equations; lia).
  f_equal.
  - unfold enc_list_ptr.
    replace (1 + off mod 2 ^ 30 * 4 + size * 2 ^ 32 + count * 2 ^ 35)
      with (1 + off mod 2 ^ 30 * 4 + (size + count * 2 ^ 3) * 2 ^ 32) by lia.
    apply offset30_roundtrip; lia.
  - unfold enc_list_ptr. Z.to_euclidean_division_equations; lia.
  - unfold enc_list_ptr. Z.to_euclidean_division_equations; lia.
Qed.

(** The pointer decoder inverts the Cap'n Proto wire format on all four
    pointer kinds: a struct, list, far or capability pointer packed into a
    word decodes to the same tag and fields, negative offsets included; the
    only word read as null is zero. *)
Theorem decode_inverts_wire_format :
  (forall off dw pw,
     - 2 ^ 29 <= off < 2 ^ 29 /\ is_u16 dw /\ is_u16 pw /\ (off, dw, pw) <> (0, 0, 0) ->
     let p := capnp_decode_ptr (enc_struct_ptr off dw pw) in
     tag p = CAPNP_PTR_STRUCT /\ offset_words p = off /\
     p_data_words p = dw /\ p_ptr_words p = pw) /\
  (forall off size count,
     - 2 ^ 29 <= off < 2 ^ 29 /\ 0 <= size < 8 /\ 0 <= count < 2 ^ 29 ->
     let p := capnp_decode_ptr (enc_list_ptr off size count) in
     tag p = CAPNP_PTR_LIST /\ offset_words p = off /\
     element_size p = size /\ element_count p = count) /\
  (forall double off seg,
     0 <= double < 2 /\ 0 <= off < 2 ^ 29 /\ is_u32 seg ->
     let p := capnp_decode_ptr (enc_far_ptr double off seg) in
     tag p = CAPNP_PTR_FAR /\ far_double p = double /\
     offset_words p = off /\ far_segment_id p = seg) /\
  (forall index, is_u32 index ->
     let p := capnp_decode_ptr (enc_cap_ptr index) in
     tag p = CAPNP_PTR_CAPABILITY /\ cap_index p = index) /\
  (forall word, 0 <= word ->
     (tag (capnp_decode_ptr word) = CAPNP_PTR_NULL <-> word = 0)).
Proof.
  split; [|split; [|split; [|split]]].
  - intros off dw pw (?&?&?&?). by rewrite decode_enc_struct.
  - intros off size count (?&?&?). by rewrite decode_enc_list.
  - intros double off seg (?&?&?). unfold_ints.
    rewrite decode_far by (unfold enc_far_ptr; Z.to_euclidean_division_equations; lia).
    unfold enc_far_ptr. simpl. repeat split; Z.to_euclidean_division_equations; lia.
  - intros index ?. unfold_ints.
    rewrite decode_cap by (unfold enc_cap_ptr; Z.to_euclidean_division_equations; lia).
    unfold enc_cap_ptr. simpl. split; [done|]. Z.to_euclidean_division_equations; lia.
  - intros word Hw. unfold capnp_decode_ptr. destruct (Z.eqb_spec word 0); [done|].
    repeat case_if; done.
Qed.

Lemma decode_inverts_wire_format_witness :
  offset_words (capnp_decode_ptr (enc_struct_ptr (-3) 2 1)) = -3.
Proof.
  destruct decode_inverts_wire_format as (Hs & _).
  apply (Hs (-3) 2 1). repeat split; by_compute.
Defined.
