(* ===== verification/Validate.v ===== *)
(** The message validator: kernel/capnp_validate.c.

    [capnp_validate_message] checks that a single-segment message can be
    read as the struct type a schema declares.  Every definition follows its
    C function statement by statement; the message is a [reader], so each
    byte the validator looks at is an access that could fault.  The mutual
    recursion of [validate_pointer_slot] and [validate_struct_at] is bounded
    in C by [depth > CAPNP_MAX_DEPTH]; here it is a recursion on [fuel], and
    [CAPNP_MAX_DEPTH + 2] is shown to be enough for every message. *)
From S2P Require Import Prelude CMem Schema Capnp.

(** * Definitions *)

Definition CAPNP_MAX_DEPTH : Z := 16.

(** [capnp_msg_t]: the segment's bytes and its length in words. *)
Record capnp_msg_t := { seg : reader; seg_words : Z }.

Definition in_bounds (m : capnp_msg_t) (word_offset word_count : Z) : bool :=
  if word_offset <? 0 then false
  else if seg_words m <? u64 word_offset then false
  else if u64 (seg_words m - u64 word_offset) <? word_count then false
  else true.

(** The eight iterations of [w |= ((uint64_t)p[i]) << (8 * i)]. *)
Fixpoint read_word_loop (m : capnp_msg_t) (p : Z) (n : nat) (i w : Z) : outcome Z :=
  match n with
  | O => Ret w
  | S n' =>
      b ← seg m (p + i);
      read_word_loop m p n' (i + 1) (Z.lor w (u64 (Z.shiftl b (8 * i))))
  end.

Definition read_word (m : capnp_msg_t) (word_offset : Z) : outcome Z :=
  read_word_loop m (word_offset * 8) 8 0 0.

(** The loop of [validate_struct_at], with [vps] for the calls of
    [validate_pointer_slot]. *)
Definition struct_slots
    (vps : Z -> pointer_schema_t -> outcome bool)
    (table : option schema_table_t) (ss : struct_schema_t)
    (ptr_section_start slots_to_check : Z) : outcome bool :=
  for_all (Z.to_nat slots_to_check) 0 (fun i =>
    if first_pointer ss =? SCHEMA_IDX_NONE then Ret false
    else
      let pi := u32 (first_pointer ss + i) in
      match table with
      | None => Fault 0
      | Some t =>
          if t_pointer_count t <=? pi then Ret false
          else
            ps ← arr_get (t_pointers t) pi;
            vps (ptr_section_start + i) ps
      end).

(** [validate_struct_at], with [vps off ps depth] for the recursive call. *)
Definition struct_at
    (vps : Z -> pointer_schema_t -> Z -> outcome bool)
    (table : option schema_table_t)
    (struct_word_offset dw pw schema depth : Z) : outcome bool :=
  if schema =? SCHEMA_IDX_NONE then Ret true
  else
    oss ← schema_struct table schema;
    match oss with
    | None => Ret false
    | Some ss =>
        if dw <? data_words ss then Ret false
        else
          let slots_to_check :=
            if pw <? pointer_count ss then pw else pointer_count ss in
          let ptr_section_start := struct_word_offset + dw in
          struct_slots (fun off ps => vps off ps depth) table ss
            ptr_section_start slots_to_check
    end.

(** [bits_per_elem] of the non-composite list case. *)
Definition bits_per_elem (element_size : Z) : Z :=
  match Z.to_nat element_size with
  | 0%nat => 0 | 1%nat => 1 | 2%nat => 8 | 3%nat => 16
  | 4%nat => 32 | 5%nat => 64 | 6%nat => 64 | _ => 0
  end.

(** The composite-list branch: the tag word at the head of the list body
    gives the element count and the shape of every element. *)
Definition composite_list
    (vps : Z -> pointer_schema_t -> Z -> outcome bool)
    (m : capnp_msg_t) (table : option schema_table_t)
    (target_offset total_words : Z) (pschema : pointer_schema_t) (depth : Z)
    : outcome bool :=
  if negb (in_bounds m target_offset (u64 (total_words + 1))) then Ret false
  else
    tag_word ← read_word m target_offset;
    let t := capnp_decode_ptr tag_word in
    let elem_count := u32 (offset_words t) in
    let elem_words := p_data_words t + p_ptr_words t in
    if negb (elem_words =? 0) && (total_words / elem_words <? elem_count) then Ret false
    else if total_words <? u64 (elem_words * elem_count) then Ret false
    else
      for_all (Z.to_nat elem_count) 0 (fun i =>
        let elem_offset := target_offset + 1 + s64 (u64 (i * elem_words)) in
        struct_at vps table elem_offset (p_data_words t) (p_ptr_words t)
          (element_struct pschema) (depth + 1)).

Fixpoint validate_pointer_slot (fuel : nat) (m : capnp_msg_t)
    (table : option schema_table_t) (ptr_word_offset : Z)
    (pschema : pointer_schema_t) (depth : Z) : outcome bool :=
  match fuel with
  | O => NoFuel
  | S fuel' =>
      let vps := fun off ps d => validate_pointer_slot fuel' m table off ps d in
      if CAPNP_MAX_DEPTH <? depth then Ret false
      else if negb (in_bounds m ptr_word_offset 1) then Ret false
      else
        word ← read_word m ptr_word_offset;
        let ptr := capnp_decode_ptr word in
        if decide (tag ptr = CAPNP_PTR_NULL) then Ret true
        else if decide (kind pschema = PTR_SCHEMA_ANY) then
          Ret (negb (bool_decide (tag ptr = CAPNP_PTR_FAR)))
        else if decide (tag ptr = CAPNP_PTR_FAR) then Ret false
        else
          let target_offset := ptr_word_offset + 1 + offset_words ptr in
          match kind pschema with
          | PTR_SCHEMA_CAPABILITY =>
              Ret (bool_decide (tag ptr = CAPNP_PTR_CAPABILITY))
          | PTR_SCHEMA_STRUCT =>
              if decide (tag ptr = CAPNP_PTR_STRUCT) then
                let total := u64 (p_data_words ptr + p_ptr_words ptr) in
                if negb (in_bounds m target_offset total) then Ret false
                else
                  struct_at vps table target_offset (p_data_words ptr)
                    (p_ptr_words ptr) (element_struct pschema) (depth + 1)
              else Ret false
          | PTR_SCHEMA_TEXT | PTR_SCHEMA_DATA =>
              if decide (tag ptr = CAPNP_PTR_LIST) then
                if negb (element_size ptr =? 2) then Ret false
                else
                  let word_count := u64 (element_count ptr + 7) / 8 in
                  Ret (in_bounds m target_offset word_count)
              else Ret false
          | PTR_SCHEMA_LIST =>
              if decide (tag ptr = CAPNP_PTR_LIST) then
                if negb (list_element_size pschema =? 0xFF) &&
                   negb (element_size ptr =? list_element_size pschema) then Ret false
                else if element_size ptr =? 7 then
                  composite_list vps m table target_offset (element_count ptr)
                    pschema depth
                else
                  let total_bits :=
                    u64 (bits_per_elem (element_size ptr) * element_count ptr) in
                  let total_words := u64 (total_bits + 63) / 64 in
                  Ret (in_bounds m target_offset total_words)
              else Ret false
          | _ => Ret false
          end
  end.

Definition validate_struct_at (fuel : nat) (m : capnp_msg_t)
    (table : option schema_table_t)
    (struct_word_offset dw pw schema depth : Z) : outcome bool :=
  struct_at (validate_pointer_slot fuel m table) table
    struct_word_offset dw pw schema depth.

(** Recursion depths 0 to 17 are the ones [depth > CAPNP_MAX_DEPTH] lets a
    pointer slot be entered at. *)
Definition VALIDATE_FUEL : nat := 18.

(** Four little-endian header bytes, as the function combines them. *)
Definition header_word (bytes : reader) (p : Z) : outcome Z :=
  b0 ← bytes p; b1 ← bytes (p + 1); b2 ← bytes (p + 2); b3 ← bytes (p + 3);
  Ret (Z.lor (Z.lor (Z.lor b0 (Z.shiftl b1 8)) (Z.shiftl b2 16)) (Z.shiftl b3 24)).

(** The part of [capnp_validate_message] after the header: the segment is
    [m] and its first word is the root pointer. *)
Definition validate_root (m : capnp_msg_t) (table : option schema_table_t)
    (schema : Z) : outcome bool :=
  if seg_words m <? 1 then Ret false
  else
    root_word ← read_word m 0;
    let root := capnp_decode_ptr root_word in
    if decide (tag root = CAPNP_PTR_NULL) then
      validate_struct_at VALIDATE_FUEL m table 0 0 0 schema 0
    else if decide (tag root = CAPNP_PTR_STRUCT) then
      let target_offset := 1 + offset_words root in
      let total := u64 (p_data_words root + p_ptr_words root) in
      if negb (in_bounds m target_offset total) then Ret false
      else
        validate_struct_at VALIDATE_FUEL m table target_offset
          (p_data_words root) (p_ptr_words root) schema 0
    else Ret false.

(** [msg] is [None] for a [NULL] message pointer. *)
Definition capnp_validate_message (msg : option reader) (len : Z)
    (table : option schema_table_t) (schema : Z) : outcome bool :=
  if schema =? SCHEMA_IDX_NONE then Ret true
  else
    oss ← schema_struct table schema;
    match oss with
    | None => Ret false
    | Some _ =>
        match msg with
        | None => Ret false
        | Some bytes =>
            if len <? 8 then Ret false
            else
              segment_count_minus_1 ← header_word bytes 0;
              let segment_count := u32 (segment_count_minus_1 + 1) in
              if negb (segment_count =? 1) then Ret false
              else
                seg0_words ← header_word bytes 4;
                let header_bytes0 := 4 + 4 * segment_count in
                let header_bytes :=
                  if negb (header_bytes0 mod 8 =? 0) then header_bytes0 + 4
                  else header_bytes0 in
                let seg0_bytes := u64 (seg0_words * 8) in
                if (len <? header_bytes) || (u64 (len - header_bytes) <? seg0_bytes)
                then Ret false
                else
                  validate_root
                    {| seg := shift_rd bytes header_bytes; seg_words := seg0_words |}
                    table schema
        end
    end.

(** * Lemmas: reading the segment *)

(** The segment a caller hands over: its words are there to be read, and the
    word count came from a [uint32_t]. *)
Definition msg_ok (m : capnp_msg_t) : Prop :=
  0 <= seg_words m < 2 ^ 32 /\ readable (seg m) 0 (8 * seg_words m).

Lemma in_bounds_iff m off cnt :
  0 <= seg_words m < 2 ^ 32 -> - 2 ^ 63 <= off < 2 ^ 63 -> 0 <= cnt ->
  in_bounds m off cnt = true <-> 0 <= off /\ off + cnt <= seg_words m.
Proof.
  intros Hs Ho Hc. unfold in_bounds.
  destruct (Z.ltb_spec off 0); [split; [done|lia]|].
  rewrite (u64_small off) by ulia.
  destruct (Z.ltb_spec (seg_words m) off); [split; [done|lia]|].
  rewrite u64_small by ulia.
  destruct (Z.ltb_spec (seg_words m - off) cnt); split; intros; try done; lia.
Qed.

(** The loop of [read_word] is the little-endian load of eight bytes. *)
Lemma read_word_loop_spec m p n i w bs :
  rd_bytes (seg m) (p + i) n = Ret bs -> bytes_ok bs ->
  0 <= i -> i + Z.of_nat n <= 8 -> 0 <= w < 2 ^ (8 * i) ->
  read_word_loop m p n i w = Ret (w + 2 ^ (8 * i) * le_val bs).
Proof.
  revert i w bs. induction n as [|n IH]; intros i w bs Hb Hok Hi Hn Hw; simpl in *.
  - simplify_eq/=. f_equal. lia.
  - apply bind_ret_inv in Hb as (b & Hb & Hr). apply bind_ret_inv in Hr as (bs' & Hr & ?).
    simplify_eq/=. unfold bytes_ok in Hok. apply Forall_cons in Hok as [Hb8 Hok].
    rewrite Hb, ret_bind. assert (0 < 2 ^ (8 * i)) by (apply Z.pow_pos_nonneg; lia).
    assert (2 ^ (8 * (i + 1)) = 2 ^ (8 * i) * 2 ^ 8) as Hp
      by (rewrite <- Z.pow_add_r by lia; f_equal; lia).
    assert (2 ^ (8 * (i + 1)) <= 2 ^ 64) by (apply Z.pow_le_mono_r; lia).
    unfold is_u8 in Hb8.
    rewrite u64_small by (rewrite Z.shiftl_mul_pow2 by lia; unfold is_u64; nia).
    rewrite Z.lor_comm, lor_shiftl by lia.
    rewrite (IH (i + 1) _ bs'); [f_equal; rewrite Hp; lia| |done|lia|lia|nia].
    by rewrite Z.add_assoc.
Qed.

Lemma read_word_le64 m off :
  readable (seg m) (off * 8) (off * 8 + 8) ->
  read_word m off = rd_le64 (seg m) (off * 8).
Proof.
  intros H. destruct (wp_inv _ _ (wp_rd_bytes (seg m) (off * 8) 8 H)) as (bs & Hbs & Hl & Hok).
  unfold rd_le64, read_word. rewrite Hbs, ret_bind.
  rewrite (read_word_loop_spec _ _ _ _ _ bs);
    [f_equal; change (2 ^ (8 * 0)) with 1; lia|by rewrite Z.add_0_r|done|lia..].
Qed.

Lemma wp_read_word m off :
  msg_ok m -> 0 <= off < seg_words m -> wp (read_word m off) is_u64.
Proof.
  intros [Hs Hr] Ho.
  assert (readable (seg m) (off * 8) (off * 8 + 8)) by (eapply readable_mono; eauto; lia).
  rewrite read_word_le64 by done. by apply wp_rd_le64.
Qed.

(** * Lemmas: the validator never reads outside the segment *)

(** [safe o]: the run returns. *)
Definition safe {A} (o : outcome A) : Prop := wp o (fun _ => True).

Lemma safe_ret {A} (a : A) : safe (Ret a).
Proof. done. Qed.
#[export] Hint Resolve safe_ret : saski.

Lemma safe_struct_slots vps table ss start k :
  opt_table_wf table -> struct_schema_wf ss -> table <> None -> 0 <= k < 2 ^ 16 ->
  (forall i ps, 0 <= i < k -> pointer_schema_wf ps -> safe (vps (start + i) ps)) ->
  safe (struct_slots vps table ss start k).
Proof.
  intros Ht (Hd & Hp & Hf) Hne Hk Hv. apply wp_for_all. intros i Hi.
  case_if; [done|]. cbv zeta. destruct table as [t|]; [|done]. destruct Ht.
  case_if; [done|]. pose proof (u32_range (first_pointer ss + i)).
  apply wp_bind. eapply wp_mono; [apply wp_arr_get; [ulia|eauto]|].
  intros ps Hps. apply Hv; [lia|done].
Qed.

Lemma safe_struct_at vps table off dw pw schema depth :
  opt_table_wf table -> is_u16 dw -> is_u16 pw -> 0 <= schema ->
  (forall o ps, off + dw <= o < off + dw + pw -> pointer_schema_wf ps ->
     safe (vps o ps depth)) ->
  safe (struct_at vps table off dw pw schema depth).
Proof.
  intros Ht Hd Hp Hs Hv. unfold struct_at. case_if; [done|].
  apply wp_bind. destruct (wp_inv _ _ (wp_schema_struct table schema Ht Hs))
    as (oss & Hoss & Hwf).
  rewrite Hoss. simpl. destruct oss as [ss|]; [|done]. case_if; [done|].
  cbv zeta. destruct Hwf as (Hw1 & Hw2 & Hw3).
  apply safe_struct_slots; [done|done|by intros ->|case_if; ulia|].
  intros i ps Hi Hps. apply Hv; [|done]. revert Hi. case_if; lia.
Qed.

(** The offsets of the elements of a composite list that passed the two
    size tests, without wrap-around. *)
Lemma elem_offset_exact ew ec total i :
  0 <= total < 2 ^ 29 -> 0 <= ew < 2 ^ 17 -> 0 <= ec < 2 ^ 32 ->
  u64 (ew * ec) <= total -> 0 <= i < ec ->
  ew * ec <= total /\ s64 (u64 (i * ew)) = i * ew /\ 0 <= i * ew /\ i * ew + ew <= total.
Proof.
  intros Ht He Hc Hp Hi.
  assert (0 <= ew * ec < 2 ^ 64) by nia. rewrite u64_small in Hp by done.
  assert (i * ew + ew <= ew * ec) by nia. assert (0 <= i * ew) by nia.
  rewrite u64_small, s64_small by ulia. lia.
Qed.

Lemma safe_composite_list vps m table tgt total ps depth :
  msg_ok m -> opt_table_wf table -> pointer_schema_wf ps ->
  - 2 ^ 62 <= tgt < 2 ^ 62 -> 0 <= total < 2 ^ 29 ->
  (forall o q, 0 <= o < 2 ^ 33 -> pointer_schema_wf q -> safe (vps o q (depth + 1))) ->
  safe (composite_list vps m table tgt total ps depth).
Proof.
  intros Hm Ht (Hes & _) Htgt Htot Hv. unfold composite_list.
  destruct (in_bounds m tgt (u64 (total + 1))) eqn:Hb; simpl; [|done].
  destruct Hm as [Hs Hr]. apply in_bounds_iff in Hb as [H0 Hb]; [|ulia..|apply u64_range].
  rewrite u64_small in Hb by ulia.
  apply wp_bind. eapply wp_mono; [apply wp_read_word; [done|lia]|].
  intros w Hw. unfold is_u64 in Hw.
  pose proof (decode_fields_ok w ltac:(lia)) as [Hpo Hpd Hpp _ _]. unfold_ints. cbv zeta.
  repeat (case_if; [done|]). pose proof (u32_range (offset_words (capnp_decode_ptr w))).
  apply wp_for_all. intros i Hi.
  destruct (elem_offset_exact (p_data_words (capnp_decode_ptr w) + p_ptr_words (capnp_decode_ptr w))
              (u32 (offset_words (capnp_decode_ptr w))) total i) as (_ & -> & ? & ?);
    [lia|ulia|ulia|done|ulia|].
  apply safe_struct_at; [done|ulia|ulia|lia|].
  intros o q Hoq Hq. apply Hv; [lia|done].
Qed.

(** A slot at any depth the code reaches returns, given the fuel for the
    levels below it. *)
Lemma safe_pointer_slot fuel m table off ps depth :
  msg_ok m -> opt_table_wf table -> pointer_schema_wf ps ->
  - 2 ^ 62 <= off < 2 ^ 62 -> 0 <= depth <= 17 -> 18 - depth <= Z.of_nat fuel ->
  safe (validate_pointer_slot fuel m table off ps depth).
Proof.
  revert off ps depth. induction fuel as [|fuel IH];
    intros off ps depth Hm Ht Hps Ho Hd Hf; [lia|].
  cbn [validate_pointer_slot]. cbv zeta. unfold CAPNP_MAX_DEPTH. case_if; [done|].
  destruct (in_bounds m off 1) eqn:Hb; cbn [negb]; [|done].
  pose proof Hm as [Hs Hr]. apply in_bounds_iff in Hb as [? Hb]; [|lia..].
  apply wp_bind. eapply wp_mono; [apply wp_read_word; [done|lia]|].
  intros w Hw. unfold is_u64 in Hw.
  pose proof (decode_fields_ok w ltac:(lia)) as [Hpo Hpd Hpp Hpe Hpc].
  assert (forall o q, - 2 ^ 62 <= o < 2 ^ 62 -> pointer_schema_wf q ->
    safe (validate_pointer_slot fuel m table o q (depth + 1))) as IH'.
  { intros. apply IH; [done..|lia|lia]. }
  repeat (case_if; [done|]).
  destruct (kind ps); try done; (case_if; [|done]).
  - destruct (in_bounds m _ _) eqn:Hb2; cbn [negb]; [|done].
    apply in_bounds_iff in Hb2 as [? Hb2]; [|lia|lia|apply u64_range].
    apply safe_struct_at; [done..|destruct Hps; ulia|].
    intros. unfold_ints. apply IH'; [lia|done].
  - repeat (case_if; [try done|]); [|done].
    apply safe_composite_list; [done..|lia|lia|]. intros. apply IH'; [lia|done].
  - by case_if.
  - by case_if.
Qed.

Lemma safe_validate_struct_at m table off dw pw schema :
  msg_ok m -> opt_table_wf table -> is_u16 dw -> is_u16 pw -> 0 <= schema ->
  - 2 ^ 61 <= off < 2 ^ 61 ->
  safe (validate_struct_at VALIDATE_FUEL m table off dw pw schema 0).
Proof.
  intros Hm Ht Hd Hp Hs Ho. apply safe_struct_at; [done..|]. intros o ps Hops Hps.
  unfold_ints. apply safe_pointer_slot; [done..|lia|lia|]. unfold VALIDATE_FUEL. lia.
Qed.

Lemma safe_validate_root m table schema :
  msg_ok m -> opt_table_wf table -> 0 <= schema -> safe (validate_root m table schema).
Proof.
  intros Hm Ht Hs. unfold validate_root. case_if; [done|].
  apply wp_bind. eapply wp_mono; [apply wp_read_word; [done|lia]|].
  intros w Hw. unfold is_u64 in Hw. cbv zeta.
  pose proof (decode_fields_ok w ltac:(lia)) as [Hpo Hpd Hpp _ _].
  case_if; [apply safe_validate_struct_at; (done || ulia)|].
  case_if; [|done]. destruct (in_bounds _ _ _); simpl; [|done].
  apply safe_validate_struct_at; (done || ulia).
Qed.

Lemma wp_header_word bytes p :
  readable bytes p (p + 4) -> wp (header_word bytes p) is_u32.
Proof.
  intros H. unfold header_word.
  do 4 (apply wp_bind; eapply wp_mono; [apply H; lia|]; intros ? ?).
  apply wp_ret. rewrite Z.lor_comm, (Z.lor_comm (Z.lor _ _) (Z.shiftl _ 16)),
    (Z.lor_comm _ (Z.shiftl _ 8)), !Z.lor_assoc.
  rewrite be32_shifts by done. apply (be_val_range [_; _; _; _]). solve_bytes.
Qed.

Lemma header_word_holds bytes p z :
  is_u32 z -> holds bytes p (le_bytes 4 z) -> header_word bytes p = Ret z.
Proof.
  intros Hz H. pose proof (le_bytes_ok 4 z) as Hok. pose proof (le_val_bytes 4 z) as Hv.
  rewrite Z.mod_small in Hv by exact Hz. pose proof (length_le_bytes 4 z) as Hlen.
  destruct (le_bytes 4 z) as [|b0 [|b1 [|b2 [|b3 []]]]]; try done.
  rewrite !holds_cons in H. destruct H as (H0 & H1 & H2 & H3 & _).
  unfold bytes_ok in Hok. rewrite !Forall_cons in Hok. destruct Hok as (?&?&?&?&_).
  unfold header_word. replace (p + 2) with (p + 1 + 1) by lia.
  replace (p + 3) with (p + 1 + 1 + 1) by lia. rewrite H0, H1, H2, H3. simpl.
  rewrite Z.lor_comm, (Z.lor_comm (Z.lor _ _) (Z.shiftl _ 16)),
    (Z.lor_comm _ (Z.shiftl _ 8)), !Z.lor_assoc.
  rewrite be32_shifts by done. f_equal. exact Hv.
Qed.

(** The segment the message function builds has its words inside the
    message. *)
Lemma segment_ok bytes len n :
  readable bytes 0 len -> is_u32 n -> 8 <= len -> n * 8 <= len - 8 ->
  msg_ok {| seg := shift_rd bytes 8; seg_words := n |}.
Proof.
  intros Hr Hn Hl Hw. split; simpl; [done|].
  apply (readable_shift _ 8) in Hr. eapply readable_mono; [exact Hr|lia..].
Qed.

(** [header_bytes] is 8 for the one segment the function accepts. *)
Lemma segment_count_one x : is_u32 x -> u32 (x + 1) = 1 <-> x = 0.
Proof.
  intros Hx. unfold is_u32 in Hx. unfold u32. split; [|by intros ->].
  intros. Z.to_euclidean_division_equations. lia.
Qed.

Lemma safe_validate_message msg len table schema :
  (forall bytes, msg = Some bytes -> readable bytes 0 len) -> is_u64 len ->
  opt_table_wf table -> is_u16 schema ->
  safe (capnp_validate_message msg len table schema).
Proof.
  intros Hr Hl Ht Hs. unfold capnp_validate_message, is_u16 in *. case_if; [done|].
  apply wp_bind. eapply wp_mono; [apply wp_schema_struct; [done|lia]|].
  intros [ss|] _; [|done]. destruct msg as [bytes|]; [|done]. specialize (Hr bytes eq_refl).
  case_if; [done|].
  apply wp_bind. eapply wp_mono; [apply wp_header_word; eapply readable_mono; eauto; lia|].
  intros x Hx. cbv zeta. destruct (u32 (x + 1) =? 1) eqn:Ex; cbn [negb]; [|done].
  apply Z.eqb_eq in Ex. rewrite Ex.
  apply wp_bind. eapply wp_mono; [apply wp_header_word; eapply readable_mono; eauto; lia|].
  intros n Hn. change (negb ((4 + 4 * 1) mod 8 =? 0)) with false. cbv iota.
  change (4 + 4 * 1) with 8. case_if; [done|].
  rewrite !u64_small in * by ulia.
  apply safe_validate_root; [eapply segment_ok; eauto; lia|done|lia].
Qed.

(** Acceptance, with the header parsing made explicit. *)
Lemma validate_message_true bytes len table schema :
  readable bytes 0 len -> is_u64 len -> schema <> SCHEMA_IDX_NONE ->
  capnp_validate_message (Some bytes) len table schema = Ret true <->
  exists ss n, schema_struct table schema = Ret (Some ss) /\ 8 <= len /\
    header_word bytes 0 = Ret 0 /\ header_word bytes 4 = Ret n /\ n * 8 <= len - 8 /\
    validate_root {| seg := shift_rd bytes 8; seg_words := n |} table schema = Ret true.
Proof.
  intros Hr Hl Hne. unfold capnp_validate_message.
  rewrite (proj2 (Z.eqb_neq _ _) Hne). split.
  - intros H. apply bind_ret_inv in H as (oss & Hss & H). destruct oss as [ss|]; [|done].
    destruct (Z.ltb_spec len 8); [done|].
    assert (forall k, 0 <= k <= 4 -> wp (header_word bytes k) is_u32) as Hw.
    { intros. apply wp_header_word. eapply readable_mono; eauto; lia. }
    apply bind_ret_inv in H as (x & Hx & H). cbv zeta in H.
    pose proof (Hw 0 ltac:(lia)) as Hx32. rewrite Hx in Hx32. simpl in Hx32.
    destruct (u32 (x + 1) =? 1) eqn:Ex; cbn [negb] in H; [|done].
    apply Z.eqb_eq in Ex. rewrite Ex in H. apply segment_count_one in Ex as ->; [|done].
    apply bind_ret_inv in H as (n & Hn & H).
    pose proof (Hw 4 ltac:(lia)) as Hn32. rewrite Hn in Hn32. simpl in Hn32.
    change (negb ((4 + 4 * 1) mod 8 =? 0)) with false in H. cbv iota in H.
    change (4 + 4 * 1) with 8 in H.
    destruct ((len <? 8) || _)%bool eqn:Eb in H; [done|]. breflect.
    rewrite !u64_small in * by ulia. exists ss, n. repeat split; (done || lia).
  - intros (ss & n & Hss & H8 & H0 & Hn & Hw & Hroot).
    assert (is_u32 n).
    { assert (wp (header_word bytes 4) is_u32) as Hw4
        by (apply wp_header_word; eapply readable_mono; eauto; lia).
      by rewrite Hn in Hw4. }
    rewrite Hss, ret_bind. destruct (Z.ltb_spec len 8); [lia|].
    rewrite H0, ret_bind. cbv zeta. change (u32 (0 + 1)) with 1. cbn [Z.eqb negb Pos.eqb].
    rewrite Hn, ret_bind. change (negb ((4 + 4 * 1) mod 8 =? 0)) with false. cbv iota.
    change (4 + 4 * 1) with 8. rewrite !u64_small by ulia.
    destruct (Z.ltb_spec len 8); [lia|]. destruct (Z.ltb_spec (len - 8) (n * 8)); [lia|].
    done.
Qed.

(** C5. The validator never reads outside the message it is given: for every
    message of [len] readable bytes (whatever they are), every schema table
    whose counts do not overstate its arrays and every schema index, it
    returns a verdict, with no fault and within its depth bound. *)
Theorem validator_memory_safe bytes len table schema :
  readable bytes 0 len -> is_u64 len -> opt_table_wf table -> is_u16 schema ->
  exists verdict, capnp_validate_message (Some bytes) len table schema = Ret verdict.
Proof.
  intros Hr Hl Ht Hs.
  assert (safe (capnp_validate_message (Some bytes) len table schema)) as H.
  { apply safe_validate_message; [|done..]. intros b Hb. by simplify_eq. }
  apply wp_inv in H as (v & Hv & _). eauto.
Qed.

Lemma validator_memory_safe_witness :
  exists verdict, capnp_validate_message
    (Some (of_bytes [0; 0; 0; 0; 1; 0; 0; 0; 0xFF; 0xFF; 0xFF; 0xFF; 1; 0; 2; 0])) 16 None 3
    = Ret verdict.
Proof.
  apply validator_memory_safe;
    [apply (readable_of_bytes [0; 0; 0; 0; 1; 0; 0; 0; 0xFF; 0xFF; 0xFF; 0xFF; 1; 0; 2; 0]);
     by_compute|by_compute|exact I|by_compute].
Defined.
