(* ===== verification/ValidateSpec.v ===== *)
(** What the validator promises: an abstract specification of "this message
    can be read as that type", the refinement of kernel/capnp_validate.c to
    it, and the guarantee a schema-driven reader gets from it.

    The specification speaks of a segment as the list of its 64-bit words
    and uses unbounded integers; it has no loops, no early returns, no
    wrap-around.  [slot_conforms] and [struct_conforms] say what shape the
    schema requires at a pointer slot or a struct.  [touches_slot] and
    [touches_struct] say which words a reader visits that follows the schema
    through the message and trusts every pointer it meets. *)
From S2P Require Import Prelude CMem Schema Capnp Validate.

(** * The specification *)

Definition word_at (ws : list Z) (i w : Z) : Prop := 0 <= i /\ ws !! Z.to_nat i = Some w.

Definition nwords (ws : list Z) : Z := Z.of_nat (length ws).

Definition table_struct (T : schema_table_t) (i : Z) (s : struct_schema_t) : Prop :=
  i <> SCHEMA_IDX_NONE /\ 0 <= i < t_struct_count T /\
  arr_elems (t_structs T) !! Z.to_nat i = Some s.

Definition table_pointer (T : schema_table_t) (i : Z) (p : pointer_schema_t) : Prop :=
  0 <= i < t_pointer_count T /\ arr_elems (t_pointers T) !! Z.to_nat i = Some p.

(** A struct of [dw] data words and [pw] pointer words at word [off] has the
    shape the schema asks for: enough data words, and each declared pointer
    slot that is present holds a pointer accepted by [P]. *)
Definition struct_conforms (P : Z -> pointer_schema_t -> Prop) (T : schema_table_t)
    (off dw pw schema : Z) : Prop :=
  schema = SCHEMA_IDX_NONE \/
  exists ss, table_struct T schema ss /\ data_words ss <= dw /\
    forall i, 0 <= i < Z.min (pointer_count ss) pw ->
      first_pointer ss <> SCHEMA_IDX_NONE /\
      exists ps, table_pointer T (first_pointer ss + i) ps /\ P (off + dw + i) ps.

(** The element count a composite list's tag word declares: its 30-bit
    offset field, which the C code sign-extends and reads as [uint32_t]. *)
Definition tag_count (t : capnp_ptr_t) : Z := offset_words t mod 2 ^ 32.

(** The word at [off] is a pointer of the kind [ps] declares whose target
    lies inside the segment, recursively, with at most [n] levels of
    pointers. *)
Fixpoint slot_conforms (ws : list Z) (T : schema_table_t) (n : nat) (off : Z)
    (ps : pointer_schema_t) : Prop :=
  match n with
  | O => False
  | S n' =>
      exists w, word_at ws off w /\
      let p := capnp_decode_ptr w in
      let tgt := off + 1 + offset_words p in
      (w = 0 \/ w <> 0 /\
       match kind ps with
       | PTR_SCHEMA_ANY => tag p <> CAPNP_PTR_FAR
       | PTR_SCHEMA_CAPABILITY => tag p = CAPNP_PTR_CAPABILITY
       | PTR_SCHEMA_STRUCT =>
           tag p = CAPNP_PTR_STRUCT /\
           0 <= tgt /\ tgt + p_data_words p + p_ptr_words p <= nwords ws /\
           struct_conforms (slot_conforms ws T n') T tgt (p_data_words p)
             (p_ptr_words p) (element_struct ps)
       | PTR_SCHEMA_TEXT | PTR_SCHEMA_DATA =>
           tag p = CAPNP_PTR_LIST /\ element_size p = 2 /\
           0 <= tgt /\ 8 * tgt + element_count p <= 8 * nwords ws
       | PTR_SCHEMA_LIST =>
           tag p = CAPNP_PTR_LIST /\
           (list_element_size ps = 255 \/ element_size p = list_element_size ps) /\
           0 <= tgt /\
           ((element_size p <> 7 /\
             64 * tgt + bits_per_elem (element_size p) * element_count p
               <= 64 * nwords ws) \/
            (element_size p = 7 /\ tgt + 1 + element_count p <= nwords ws /\
             exists tw, word_at ws tgt tw /\
             let t := capnp_decode_ptr tw in
             let ew := p_data_words t + p_ptr_words t in
             ew * tag_count t <= element_count p /\
             forall i, 0 <= i < tag_count t ->
               struct_conforms (slot_conforms ws T n') T (tgt + 1 + i * ew)
                 (p_data_words t) (p_ptr_words t) (element_struct ps)))
       | PTR_SCHEMA_OTHER _ => False
       end)
  end.

(** A whole message: one segment, whose first word is a null or struct
    pointer to a conforming root struct. *)
Definition message_conforms (ws : list Z) (T : schema_table_t) (schema : Z) : Prop :=
  exists w, word_at ws 0 w /\
  let p := capnp_decode_ptr w in
  (w = 0 /\ struct_conforms (slot_conforms ws T 17) T 0 0 0 schema \/
   tag p = CAPNP_PTR_STRUCT /\
   0 <= 1 + offset_words p /\
   1 + offset_words p + p_data_words p + p_ptr_words p <= nwords ws /\
   struct_conforms (slot_conforms ws T 17) T (1 + offset_words p) (p_data_words p)
     (p_ptr_words p) schema).

(** * A reader that trusts the message *)

(** The words a reader visits at a pointer slot, and in a struct, when it
    follows the schema without checking anything itself. *)
Inductive touches_slot (ws : list Z) (T : schema_table_t)
    : Z -> pointer_schema_t -> Z -> Prop :=
| ts_pointer off ps : touches_slot ws T off ps off
| ts_struct off ps w i :
    kind ps = PTR_SCHEMA_STRUCT -> word_at ws off w -> w <> 0 ->
    touches_struct ws T (off + 1 + offset_words (capnp_decode_ptr w))
      (p_data_words (capnp_decode_ptr w)) (p_ptr_words (capnp_decode_ptr w))
      (element_struct ps) i ->
    touches_slot ws T off ps i
| ts_bytes off ps w i :
    kind ps = PTR_SCHEMA_TEXT \/ kind ps = PTR_SCHEMA_DATA ->
    word_at ws off w -> w <> 0 ->
    0 <= 8 * (i - (off + 1 + offset_words (capnp_decode_ptr w)))
      < element_count (capnp_decode_ptr w) ->
    touches_slot ws T off ps i
| ts_list off ps w i :
    kind ps = PTR_SCHEMA_LIST -> word_at ws off w -> w <> 0 ->
    element_size (capnp_decode_ptr w) <> 7 ->
    0 <= 64 * (i - (off + 1 + offset_words (capnp_decode_ptr w)))
      < bits_per_elem (element_size (capnp_decode_ptr w))
        * element_count (capnp_decode_ptr w) ->
    touches_slot ws T off ps i
| ts_list_tag off ps w :
    kind ps = PTR_SCHEMA_LIST -> word_at ws off w -> w <> 0 ->
    element_size (capnp_decode_ptr w) = 7 ->
    touches_slot ws T off ps (off + 1 + offset_words (capnp_decode_ptr w))
| ts_list_elem off ps w tw k i :
    kind ps = PTR_SCHEMA_LIST -> word_at ws off w -> w <> 0 ->
    element_size (capnp_decode_ptr w) = 7 ->
    word_at ws (off + 1 + offset_words (capnp_decode_ptr w)) tw ->
    0 <= k < tag_count (capnp_decode_ptr tw) ->
    touches_struct ws T
      (off + 1 + offset_words (capnp_decode_ptr w) + 1 +
       k * (p_data_words (capnp_decode_ptr tw) + p_ptr_words (capnp_decode_ptr tw)))
      (p_data_words (capnp_decode_ptr tw)) (p_ptr_words (capnp_decode_ptr tw))
      (element_struct ps) i ->
    touches_slot ws T off ps i
with touches_struct (ws : list Z) (T : schema_table_t)
    : Z -> Z -> Z -> Z -> Z -> Prop :=
| tst_data off dw pw schema ss i :
    table_struct T schema ss -> 0 <= i < data_words ss ->
    touches_struct ws T off dw pw schema (off + i)
| tst_slot off dw pw schema ss i ps j :
    table_struct T schema ss -> 0 <= i < Z.min (pointer_count ss) pw ->
    table_pointer T (first_pointer ss + i) ps ->
    touches_slot ws T (off + dw + i) ps j ->
    touches_struct ws T off dw pw schema j.

Scheme touches_slot_mut := Minimality for touches_slot Sort Prop
with touches_struct_mut := Minimality for touches_struct Sort Prop.
Combined Scheme touches_mut from touches_slot_mut, touches_struct_mut.

(** The words visited when the message is read from its root pointer. *)
Definition touches_message (ws : list Z) (T : schema_table_t) (schema i : Z) : Prop :=
  i = 0 \/
  exists w, word_at ws 0 w /\ w <> 0 /\
    touches_struct ws T (1 + offset_words (capnp_decode_ptr w))
      (p_data_words (capnp_decode_ptr w)) (p_ptr_words (capnp_decode_ptr w)) schema i.

(** The segment [m] stores exactly the words [ws]. *)
Definition seg_is (m : capnp_msg_t) (ws : list Z) : Prop :=
  seg_words m = nwords ws /\ forall i w, word_at ws i w -> read_word m i = Ret w.

(** * Lemmas *)

Lemma word_at_lt ws i w : word_at ws i w -> 0 <= i < nwords ws.
Proof. intros [? H]. apply lookup_lt_Some in H. unfold nwords. lia. Qed.

Lemma word_at_get ws i : 0 <= i < nwords ws -> exists w, word_at ws i w.
Proof.
  unfold nwords. intros Hi. destruct (lookup_lt_is_Some_2 ws (Z.to_nat i)) as [w Hw]; [lia|].
  exists w. split; [lia|done].
Qed.

Lemma word_at_inj ws i w w' : word_at ws i w -> word_at ws i w' -> w = w'.
Proof. intros [_ H] [_ H']. congruence. Qed.

Lemma ret_true_iff (b : bool) : Ret b = Ret true <-> b = true.
Proof. split; [by intros [=]|by intros ->]. Qed.

(** Every readable segment stores some list of words. *)
Lemma seg_is_exists m :
  msg_ok m -> exists ws, seg_is m ws /\ Forall is_u64 ws.
Proof.
  intros Hm. pose proof Hm as [Hs _].
  assert (forall n, Z.of_nat n <= seg_words m -> exists ws, length ws = n /\ Forall is_u64 ws /\
    forall i w, ws !! i = Some w -> read_word m (Z.of_nat i) = Ret w) as Hn.
  { induction n as [|n IH]; intros Hle; [by exists []|].
    destruct IH as (ws & Hl & Hok & Hw); [lia|].
    destruct (wp_inv _ _ (wp_read_word m (Z.of_nat n) Hm ltac:(lia))) as (w & Hr & Hu).
    exists (ws ++ [w]). rewrite length_app, Forall_app. simpl.
    split; [lia|]. split; [split; [done|by constructor]|].
    intros i x Hx. apply lookup_app_Some in Hx as [?|[Hi Hx]]; [eauto|].
    apply list_lookup_singleton_Some in Hx as [? <-].
    by replace i with n by lia. }
  destruct (Hn (Z.to_nat (seg_words m))) as (ws & Hl & Hok & Hw); [lia|].
  exists ws. split; [|done]. split; [unfold nwords; lia|].
  intros i w [Hi Hiw]. rewrite <- (Z2Nat.id i) by done. eauto.
Qed.

Lemma seg_is_read m ws off :
  seg_is m ws -> 0 <= off < seg_words m -> exists w, word_at ws off w /\ read_word m off = Ret w.
Proof.
  intros [Hl Hw] Ho. destruct (word_at_get ws off) as [w H]; [lia|]. eauto.
Qed.

Lemma decode_null w : 0 <= w -> tag (capnp_decode_ptr w) = CAPNP_PTR_NULL <-> w = 0.
Proof.
  intros. unfold capnp_decode_ptr. destruct (Z.eqb_spec w 0); [done|]. by repeat case_if.
Qed.

Lemma schema_struct_table t T i ss :
  t = Some T -> 0 <= i -> schema_struct t i = Ret (Some ss) <-> table_struct T i ss.
Proof.
  intros -> Hi. rewrite schema_struct_Some by done. unfold table_struct. split.
  - intros (? & ? & ? & ? & ?). by simplify_eq.
  - intros (? & ? & ?). exists T. repeat split; (done || lia).
Qed.

Lemma tag_count_u32 t : tag_count t = u32 (offset_words t).
Proof. done. Qed.

(** * Refinement *)

Section Refinement.
Context (T : schema_table_t) (T_wf : table_wf T).

Lemma struct_slots_conforms vps ss start k (P : Z -> pointer_schema_t -> Prop) :
  struct_schema_wf ss -> 0 <= k < 2 ^ 16 ->
  (forall i ps, 0 <= i < k -> pointer_schema_wf ps ->
     vps (start + i) ps = Ret true <-> P (start + i) ps) ->
  struct_slots vps (Some T) ss start k = Ret true <->
  (forall i, 0 <= i < k ->
     first_pointer ss <> SCHEMA_IDX_NONE /\
     exists ps, table_pointer T (first_pointer ss + i) ps /\ P (start + i) ps).
Proof.
  intros (_ & _ & Hf) Hk Hv. unfold struct_slots. rewrite for_all_true.
  assert (forall i, 0 <= i < k -> u32 (first_pointer ss + i) = first_pointer ss + i) as Hu
    by (intros; apply u32_small; ulia).
  split; intros H i Hi.
  - specialize (H i ltac:(lia)). rewrite Hu in H by done.
    revert H. case_if; [done|]. cbv zeta. case_if; [done|]. intros Hr.
    apply bind_ret_inv in Hr as (ps & Hps & Hr). apply arr_get_Ret in Hps as [? Hps].
    split; [done|]. exists ps. split; [split; [ulia|done]|].
    apply Hv; [done| |done]. eapply Forall_lookup_1; [apply T_wf|exact Hps].
  - destruct (H i ltac:(lia)) as (Hne & ps & [Hr Hps] & HP).
    rewrite Hu by lia. rewrite (proj2 (Z.eqb_neq _ _) Hne). cbv zeta.
    destruct (Z.leb_spec (t_pointer_count T) (first_pointer ss + i)); [lia|].
    rewrite (proj2 (arr_get_Ret _ _ _) (conj (proj1 Hr) Hps)), ret_bind.
    apply Hv; [lia| |done]. eapply Forall_lookup_1; [apply T_wf|exact Hps].
Qed.

Lemma struct_at_conforms vps off dw pw schema depth (P : Z -> pointer_schema_t -> Prop) :
  is_u16 dw -> is_u16 pw -> is_u16 schema ->
  (forall o ps, off + dw <= o < off + dw + pw -> pointer_schema_wf ps ->
     vps o ps depth = Ret true <-> P o ps) ->
  struct_at vps (Some T) off dw pw schema depth = Ret true <->
  struct_conforms P T off dw pw schema.
Proof.
  intros Hd Hp Hs Hv. unfold struct_at, struct_conforms.
  destruct (Z.eqb_spec schema SCHEMA_IDX_NONE) as [|Hne]; [tauto|].
  destruct (wp_inv _ _ (wp_schema_struct (Some T) schema T_wf (proj1 Hs)))
    as (oss & Hoss & Hwf).
  rewrite Hoss, ret_bind. destruct oss as [ss|].
  - pose proof Hwf as (Hwd & Hwp & Hwf'). apply (schema_struct_table _ T) in Hoss; [|done|apply Hs].
    destruct (Z.ltb_spec dw (data_words ss)).
    { split; [done|]. intros [?|(ss' & Hss' & ? & _)]; [done|].
      destruct Hoss as (_ & _ & Ho), Hss' as (_ & _ & Ho'). simplify_eq. lia. }
    cbv zeta. replace (if pw <? pointer_count ss then pw else pointer_count ss)
      with (Z.min (pointer_count ss) pw) by (case_if; lia).
    rewrite (struct_slots_conforms _ _ _ _ P); [|done|ulia|].
    + split; [intros Hall; right; eauto|].
      intros [?|(ss' & Hss' & ? & Hall)]; [done|].
      destruct Hoss as (_ & _ & Ho), Hss' as (_ & _ & Ho'). by simplify_eq.
    + intros i ps Hi Hps. apply Hv; [lia|done].
  - split; [done|]. intros [?|(ss & Hss & _)]; [done|].
    apply (schema_struct_table (Some T)) in Hss; [congruence|done|apply Hs].
Qed.

Context (m : capnp_msg_t) (ws : list Z).
Context (m_ok : msg_ok m) (m_ws : seg_is m ws) (ws_ok : Forall is_u64 ws).

Lemma word_u64 i w : word_at ws i w -> is_u64 w.
Proof. intros [_ H]. by eapply Forall_lookup_1. Qed.

(** Bit and byte extents of a list, as the code rounds them up to words. *)
Lemma round_up_words count unit n :
  0 <= count -> 0 < unit -> (count + (unit - 1)) / unit <= n <-> count <= unit * n.
Proof. intros. Z.to_euclidean_division_equations. nia. Qed.

(** The elements of a composite list, one after the other. *)
Lemma elements_conform vps (P : Z -> pointer_schema_t -> Prop) ps depth tgt total dw pw ec :
  is_u16 (element_struct ps) -> 0 <= tgt < 2 ^ 32 -> 0 <= total < 2 ^ 29 ->
  is_u16 dw -> is_u16 pw -> 0 <= ec < 2 ^ 32 ->
  (forall o q, 0 <= o < 2 ^ 33 -> pointer_schema_wf q ->
     vps o q (depth + 1) = Ret true <-> P o q) ->
  let ew := dw + pw in
  ew * ec <= total ->
  for_all (Z.to_nat ec) 0 (fun i =>
    struct_at vps (Some T) (tgt + 1 + s64 (u64 (i * ew))) dw pw (element_struct ps) (depth + 1))
    = Ret true <->
  forall i, 0 <= i < ec -> struct_conforms P T (tgt + 1 + i * ew) dw pw (element_struct ps).
Proof.
  intros Hpe Htgt Htot Hpd Hpp Hec Hv ew Hfit. assert (0 <= ew < 2 ^ 17) by (unfold ew; ulia).
  assert (u64 (ew * ec) = ew * ec) as Hprod by (apply u64_small; unfold is_u64; nia).
  rewrite for_all_true. split; intros H' i Hi.
  all: destruct (elem_offset_exact ew ec total i) as (_ & Heq & ? & ?); [lia|lia|lia|lia|lia|].
  1: specialize (H' i ltac:(lia)). 2: specialize (H' i ltac:(lia)).
  all: rewrite Heq in *.
  all: eapply struct_at_conforms; [ulia..| |exact H'].
  all: intros o q Hoq Hq; apply Hv; [unfold ew in *; ulia|done].
Qed.

Lemma composite_conforms vps tgt total ps depth (P : Z -> pointer_schema_t -> Prop) :
  pointer_schema_wf ps -> - 2 ^ 61 <= tgt < 2 ^ 61 -> 0 <= total < 2 ^ 29 ->
  (forall o q, 0 <= o < 2 ^ 33 -> pointer_schema_wf q ->
     vps o q (depth + 1) = Ret true <-> P o q) ->
  composite_list vps m (Some T) tgt total ps depth = Ret true <->
  0 <= tgt /\ tgt + 1 + total <= nwords ws /\
  exists tw, word_at ws tgt tw /\
    let t := capnp_decode_ptr tw in
    let ew := p_data_words t + p_ptr_words t in
    ew * tag_count t <= total /\
    forall i, 0 <= i < tag_count t ->
      struct_conforms P T (tgt + 1 + i * ew) (p_data_words t) (p_ptr_words t)
        (element_struct ps).
Proof.
  intros [Hpe _] Htgt Htot Hv. unfold composite_list.
  pose proof m_ok as [Hsw _]. pose proof m_ws as [Hnw _].
  rewrite (u64_small (total + 1)) by ulia.
  destruct (in_bounds m tgt (total + 1)) eqn:Hb; cbn [negb].
  2:{ split; [done|]. intros (? & ? & _).
      assert (in_bounds m tgt (total + 1) = true) by (apply in_bounds_iff; lia). congruence. }
  apply in_bounds_iff in Hb as [H0 Hb]; [|lia..].
  destruct (seg_is_read m ws tgt m_ws ltac:(lia)) as (tw & Htw & ->). rewrite ret_bind.
  pose proof (word_u64 _ _ Htw) as Hu. unfold is_u64 in Hu.
  pose proof (decode_fields_ok tw ltac:(lia)) as [_ Hpd Hpp _ _]. cbv zeta.
  set (t := capnp_decode_ptr tw) in *. set (ew := p_data_words t + p_ptr_words t).
  rewrite <- tag_count_u32. set (ec := tag_count t).
  assert (0 <= ec < 2 ^ 32) as Hec by apply u32_range.
  assert (0 <= ew < 2 ^ 17) as Hew by (unfold ew; ulia).
  assert (u64 (ew * ec) = ew * ec) as Hprod by (apply u64_small; unfold is_u64; nia).
  rewrite Hprod.
  pose proof (elements_conform vps P ps depth tgt total (p_data_words t) (p_ptr_words t) ec
    Hpe ltac:(ulia) Htot Hpd Hpp Hec Hv) as Hall. cbv zeta in Hall. fold ew in Hall.
  split.
  - destruct (negb (ew =? 0) && _); [done|].
    destruct (Z.ltb_spec total (ew * ec)); [done|]. intros Hf.
    split; [lia|]. split; [lia|]. exists tw. split; [done|]. cbv zeta. fold t ew ec.
    split; [lia|].
    apply Hall; [lia|done].
  - intros (_ & Hfit & tw' & Htw' & Hew' & Hel).
    assert (tw' = tw) as -> by (eapply word_at_inj; eauto).
    fold t ew ec in Hew', Hel.
    destruct (negb (ew =? 0) && (total / ew <? ec)) eqn:Eg.
    { exfalso. breflect. Z.to_euclidean_division_equations. nia. }
    destruct (Z.ltb_spec total (ew * ec)); [lia|]. apply Hall; [lia|done].
Qed.

Lemma ex_word_at off w (Q : Z -> Prop) :
  word_at ws off w -> (exists w', word_at ws off w' /\ Q w') <-> Q w.
Proof.
  intros Hw. split; [|eauto]. intros (w' & Hw' & HQ).
  by rewrite (word_at_inj _ _ _ _ Hw Hw').
Qed.

(** A list pointer of any element size against a LIST schema. *)
Lemma list_conforms vps off ps depth w (P : Z -> pointer_schema_t -> Prop) :
  pointer_schema_wf ps -> word_at ws off w ->
  (forall o q, - 2 ^ 60 <= o < 2 ^ 60 -> pointer_schema_wf q ->
     vps o q (depth + 1) = Ret true <-> P o q) ->
  let p := capnp_decode_ptr w in
  let tgt := off + 1 + offset_words p in
  (if negb (list_element_size ps =? 0xFF) &&
      negb (element_size p =? list_element_size ps) then Ret false
   else if element_size p =? 7 then
     composite_list vps m (Some T) tgt (element_count p) ps depth
   else
     Ret (in_bounds m tgt (u64 (u64 (bits_per_elem (element_size p) * element_count p) + 63) / 64)))
  = Ret true <->
  (list_element_size ps = 255 \/ element_size p = list_element_size ps) /\
  0 <= tgt /\
  ((element_size p <> 7 /\
    64 * tgt + bits_per_elem (element_size p) * element_count p <= 64 * nwords ws) \/
   (element_size p = 7 /\ tgt + 1 + element_count p <= nwords ws /\
    exists tw, word_at ws tgt tw /\
    let t := capnp_decode_ptr tw in
    let ew := p_data_words t + p_ptr_words t in
    ew * tag_count t <= element_count p /\
    forall i, 0 <= i < tag_count t ->
      struct_conforms P T (tgt + 1 + i * ew) (p_data_words t) (p_ptr_words t)
        (element_struct ps))).
Proof.
  intros Hps Hw IH p tgt. pose proof (word_at_lt _ _ _ Hw) as Hoff.
  pose proof m_ok as [Hsw _]. pose proof m_ws as [Hnw _].
  pose proof (word_u64 _ _ Hw) as Hu. unfold is_u64 in Hu.
  pose proof (decode_fields_ok w ltac:(lia)) as [Hpo _ _ Hpe Hpc]. fold p in Hpo, Hpe, Hpc.
  assert (0 <= bits_per_elem (element_size p) <= 64) as Hbits.
  { unfold bits_per_elem. repeat case_match; lia. }
  destruct (negb _ && _) eqn:Eg; breflect; [split; [done|lia]|].
  destruct (Z.eqb_spec (element_size p) 7) as [H7|H7].
  - rewrite (composite_conforms vps tgt (element_count p) ps depth P); [|done|lia|lia|].
    + assert (list_element_size ps = 255 \/ element_size p = list_element_size ps)
        by (destruct Eg; breflect; auto). tauto.
    + intros. apply IH; [lia|done].
  - assert (0 <= bits_per_elem (element_size p) * element_count p <= 64 * 2 ^ 29) by nia.
    rewrite (u64_small (_ * _)), u64_small by ulia.
    set (bits := bits_per_elem (element_size p) * element_count p) in *.
    pose proof (round_up_words bits 64 (seg_words m - tgt) ltac:(lia) ltac:(lia)) as Hru.
    change (64 - 1) with 63 in Hru.
    assert (0 <= (bits + 63) / 64) by (apply Z.div_pos; lia).
    pose proof (in_bounds_iff m tgt ((bits + 63) / 64) ltac:(lia) ltac:(lia) ltac:(lia)) as Hib.
    assert (list_element_size ps = 255 \/ element_size p = list_element_size ps)
      by (destruct Eg; breflect; auto).
    rewrite ret_true_iff, Hib, <- Hnw. intuition lia.
Qed.

(** A list pointer against a TEXT or DATA schema. *)
Lemma bytes_conforms off w :
  word_at ws off w ->
  let p := capnp_decode_ptr w in
  let tgt := off + 1 + offset_words p in
  (if negb (element_size p =? 2) then Ret false
   else Ret (in_bounds m tgt (u64 (element_count p + 7) / 8))) = Ret true <->
  element_size p = 2 /\ 0 <= tgt /\ 8 * tgt + element_count p <= 8 * nwords ws.
Proof.
  intros Hw p tgt. pose proof (word_at_lt _ _ _ Hw) as Hoff.
  pose proof m_ok as [Hsw _]. pose proof m_ws as [Hnw _].
  pose proof (word_u64 _ _ Hw) as Hu. unfold is_u64 in Hu.
  pose proof (decode_fields_ok w ltac:(lia)) as [Hpo _ _ _ Hpc]. fold p in Hpo, Hpc.
  destruct (Z.eqb_spec (element_size p) 2); cbn [negb]; [|split; [done|lia]].
  rewrite u64_small by ulia.
  pose proof (round_up_words (element_count p) 8 (seg_words m - tgt) ltac:(lia) ltac:(lia)) as Hru.
  change (8 - 1) with 7 in Hru.
  assert (0 <= (element_count p + 7) / 8) by (apply Z.div_pos; lia).
  pose proof (in_bounds_iff m tgt ((element_count p + 7) / 8)
                ltac:(lia) ltac:(lia) ltac:(lia)) as Hib.
  rewrite ret_true_iff, Hib, <- Hnw. intuition lia.
Qed.

(** One level of the recursion, for a slot inside the segment holding [w]. *)
Lemma slot_step_conforms fuel off ps depth w n :
  pointer_schema_wf ps -> 0 <= depth <= 16 -> word_at ws off w ->
  (forall o q, - 2 ^ 60 <= o < 2 ^ 60 -> pointer_schema_wf q ->
     validate_pointer_slot fuel m (Some T) o q (depth + 1) = Ret true <->
     slot_conforms ws T n o q) ->
  validate_pointer_slot (S fuel) m (Some T) off ps depth = Ret true <->
  slot_conforms ws T (S n) off ps.
Proof.
  intros Hps Hd Hw IH. pose proof (word_at_lt _ _ _ Hw) as Hoff.
  pose proof m_ok as [Hsw _]. pose proof m_ws as [Hnw Hrd].
  cbn [validate_pointer_slot slot_conforms]. cbv zeta. unfold CAPNP_MAX_DEPTH.
  rewrite (ex_word_at off w) by done.
  destruct (Z.ltb_spec 16 depth); [lia|].
  rewrite (proj2 (in_bounds_iff m off 1 ltac:(lia) ltac:(lia) ltac:(lia))) by lia.
  cbn [negb]. rewrite (Hrd _ _ Hw), ret_bind.
  pose proof (word_u64 _ _ Hw) as Hu. unfold is_u64 in Hu.
  pose proof (decode_null w ltac:(lia)) as Hnull.
  pose proof (decode_fields_ok w ltac:(lia)) as [Hpo Hpd Hpp Hpe Hpc]. unfold is_u16 in Hpd, Hpp.
  destruct (decide (tag (capnp_decode_ptr w) = CAPNP_PTR_NULL)); [tauto|].
  assert (w <> 0) by tauto.
  destruct (decide (kind ps = PTR_SCHEMA_ANY)) as [->|Hany].
  { rewrite ret_true_iff. case_bool_decide; simpl; intuition congruence. }
  destruct (decide (tag (capnp_decode_ptr w) = CAPNP_PTR_FAR)) as [Hfar|Hfar].
  { rewrite Hfar. split; [done|]. intros [?|[_ Hk]]; [done|]. by destruct (kind ps); deconj. }
  destruct (kind ps) eqn:Ek; try done;
    try (case_decide as Ht; [|split; [done|]; intros [?|[_ (? & _)]]; congruence]).
  - rewrite (u64_small (_ + _)) by ulia.
    destruct (in_bounds m _ _) eqn:Hb; cbn [negb].
    + apply in_bounds_iff in Hb as [? ?]; [|lia..].
      rewrite struct_at_conforms with (P := slot_conforms ws T n);
        [|unfold_ints; destruct Hps; ulia..|].
      * split; [intros; right; split; [done|]; repeat split; (done || lia)|].
        intros [?|[_ (_ & _ & _ & ?)]]; done.
      * intros o q Hoq Hq. apply IH; [lia|done].
    + split; [done|]. intros [?|[_ (_ & ? & ? & _)]]; [done|].
      apply not_true_iff_false in Hb. destruct Hb. apply in_bounds_iff; lia.
  - rewrite list_conforms; [|done..]. tauto.
  - rewrite bytes_conforms; [|done]. tauto.
  - rewrite bytes_conforms; [|done]. tauto.
  - rewrite ret_true_iff, bool_decide_eq_true. tauto.
  - intuition done.
Qed.

Lemma slot_refines fuel off ps depth :
  pointer_schema_wf ps -> - 2 ^ 60 <= off < 2 ^ 60 -> 0 <= depth <= 17 ->
  18 - depth <= Z.of_nat fuel ->
  validate_pointer_slot fuel m (Some T) off ps depth = Ret true <->
  slot_conforms ws T (Z.to_nat (17 - depth)) off ps.
Proof.
  revert off ps depth. induction fuel as [|fuel IH]; intros off ps depth Hps Ho Hd Hf; [lia|].
  destruct (decide (depth = 17)) as [->|].
  { cbn [validate_pointer_slot]. split; [done|]. by intros []. }
  replace (Z.to_nat (17 - depth)) with (S (Z.to_nat (17 - (depth + 1)))) by lia.
  pose proof m_ok as [Hsw _]. pose proof m_ws as [Hnw _].
  destruct (decide (0 <= off < nwords ws)) as [Hin|Hout].
  - destruct (word_at_get ws off Hin) as [w Hw].
    apply slot_step_conforms with (w := w); [done|lia|done|].
    intros o q Ho' Hq. apply IH; [done|done|lia|lia].
  - cbn [validate_pointer_slot slot_conforms]. cbv zeta. unfold CAPNP_MAX_DEPTH.
    destruct (Z.ltb_spec 16 depth); [lia|].
    destruct (in_bounds m off 1) eqn:Hb.
    { apply in_bounds_iff in Hb; lia. }
    split; [done|]. intros (w & Hw & _). apply word_at_lt in Hw. lia.
Qed.

Lemma struct_refines off dw pw schema :
  is_u16 dw -> is_u16 pw -> is_u16 schema -> - 2 ^ 59 <= off < 2 ^ 59 ->
  validate_struct_at VALIDATE_FUEL m (Some T) off dw pw schema 0 = Ret true <->
  struct_conforms (slot_conforms ws T 17) T off dw pw schema.
Proof.
  intros Hd Hp Hs Ho. apply struct_at_conforms; [done..|]. intros o ps Hops Hps.
  unfold_ints. apply slot_refines; [done|lia|lia|]. unfold VALIDATE_FUEL. lia.
Qed.

Lemma root_refines schema :
  is_u16 schema ->
  validate_root m (Some T) schema = Ret true <-> message_conforms ws T schema.
Proof.
  intros Hs. unfold validate_root, message_conforms.
  pose proof m_ok as [Hsw _]. pose proof m_ws as [Hnw Hrd].
  destruct (Z.ltb_spec (seg_words m) 1).
  { split; [done|]. intros (w & Hw & _). apply word_at_lt in Hw. lia. }
  destruct (word_at_get ws 0 ltac:(lia)) as [w Hw]. rewrite (ex_word_at 0 w) by done.
  rewrite (Hrd _ _ Hw), ret_bind. cbv zeta.
  pose proof (word_u64 _ _ Hw) as Hu. unfold is_u64 in Hu.
  pose proof (decode_null w ltac:(lia)) as Hnull.
  pose proof (decode_fields_ok w ltac:(lia)) as [Hpo Hpd Hpp _ _].
  destruct (decide (tag (capnp_decode_ptr w) = CAPNP_PTR_NULL)) as [Hn|Hn].
  { rewrite struct_refines by (done || ulia). rewrite Hn. intuition congruence. }
  destruct (decide (tag (capnp_decode_ptr w) = CAPNP_PTR_STRUCT)) as [Ht|]; [|split; [done|tauto]].
  rewrite (u64_small (_ + _)) by ulia.
  destruct (in_bounds m _ _) eqn:Hb; cbn [negb].
  - apply in_bounds_iff in Hb as [? ?]; [|ulia..].
    rewrite struct_refines by (done || ulia). intuition lia.
  - apply not_true_iff_false in Hb. rewrite in_bounds_iff in Hb by ulia. intuition (done || lia).
Qed.

End Refinement.

(** * Messages as bytes *)

(** The [len] bytes are a single-segment message with words [ws]. *)
Definition framed (bytes : reader) (len : Z) (ws : list Z) : Prop :=
  header_word bytes 0 = Ret 0 /\ header_word bytes 4 = Ret (nwords ws) /\
  8 + 8 * nwords ws <= len /\
  forall i w, word_at ws i w -> rd_le64 bytes (8 + 8 * i) = Ret w.

Lemma rd_bytes_shift rd k p n : rd_bytes (shift_rd rd k) p n = rd_bytes rd (k + p) n.
Proof.
  revert p. induction n as [|n IH]; intros p; simpl; [done|].
  by rewrite IH, Z.add_assoc.
Qed.

Lemma rd_le64_shift rd k p : rd_le64 (shift_rd rd k) p = rd_le64 rd (k + p).
Proof. unfold rd_le64. by rewrite rd_bytes_shift. Qed.

Lemma framed_seg bytes len ws :
  readable bytes 0 len -> is_u32 (nwords ws) -> framed bytes len ws ->
  let m := {| seg := shift_rd bytes 8; seg_words := nwords ws |} in
  msg_ok m /\ seg_is m ws /\ Forall is_u64 ws.
Proof.
  intros Hr Hn (H0 & H4 & Hlen & Hw) m.
  assert (msg_ok m) as Hm by (apply (segment_ok bytes len); (done || ulia)).
  assert (forall i w, word_at ws i w -> wp (rd_le64 bytes (8 + 8 * i)) is_u64) as Hu.
  { intros i w Hi. apply word_at_lt in Hi. apply wp_rd_le64.
    eapply readable_mono; eauto; lia. }
  split; [done|]. split; [split; [done|]|].
  - intros i w Hi. rewrite read_word_le64.
    + simpl. rewrite rd_le64_shift. replace (8 + i * 8) with (8 + 8 * i) by lia. eauto.
    + apply word_at_lt in Hi. eapply readable_mono; [apply Hm|lia|simpl; lia].
  - apply Forall_lookup_2. intros i w Hi.
    assert (word_at ws (Z.of_nat i) w) as Hiw by (split; [lia|by rewrite Nat2Z.id]).
    specialize (Hu _ _ Hiw). by rewrite (Hw _ _ Hiw) in Hu.
Qed.

(** Every message with a one-segment header that fits is framed. *)
Lemma framed_exists bytes len n :
  readable bytes 0 len -> is_u32 n -> n * 8 <= len - 8 -> 8 <= len ->
  header_word bytes 0 = Ret 0 -> header_word bytes 4 = Ret n ->
  exists ws, framed bytes len ws /\ nwords ws = n.
Proof.
  intros Hr Hn Hlen H8 H0 H4.
  destruct (seg_is_exists {| seg := shift_rd bytes 8; seg_words := n |})
    as (ws & [Hnw Hw] & _); [by eapply segment_ok|].
  simpl in Hnw. exists ws. split; [|done].
  split; [done|]. split; [by rewrite <- Hnw|]. split; [lia|].
  intros i w Hi. pose proof (word_at_lt _ _ _ Hi). specialize (Hw _ _ Hi).
  rewrite read_word_le64 in Hw.
  - simpl in Hw. rewrite rd_le64_shift in Hw. by replace (8 + 8 * i) with (8 + i * 8) by lia.
  - simpl. apply (readable_shift _ 8) in Hr. eapply readable_mono; [exact Hr|lia..].
Qed.

Lemma validate_conforms bytes len T schema :
  readable bytes 0 len -> is_u64 len -> table_wf T -> is_u16 schema ->
  schema <> SCHEMA_IDX_NONE ->
  capnp_validate_message (Some bytes) len (Some T) schema = Ret true <->
  exists ws, framed bytes len ws /\ message_conforms ws T schema.
Proof.
  intros Hr Hl HT Hs Hne. rewrite validate_message_true by done. split.
  - intros (ss & n & Hss & H8 & H0 & Hn & Hfit & Hroot).
    assert (is_u32 n).
    { assert (wp (header_word bytes 4) is_u32) as Hw4
        by (apply wp_header_word; eapply readable_mono; eauto; lia).
      by rewrite Hn in Hw4. }
    destruct (framed_exists bytes len n) as (ws & Hf & <-); [done..|].
    destruct (framed_seg bytes len ws) as (Hm & Hsg & Hok); [done..|].
    exists ws. split; [done|]. by eapply root_refines.
  - intros (ws & Hf & Hc). pose proof Hf as (H0 & H4 & Hfit & _).
    assert (0 < nwords ws) by (destruct Hc as (w & Hw & _); apply word_at_lt in Hw; lia).
    assert (is_u32 (nwords ws)).
    { assert (wp (header_word bytes 4) is_u32) as Hw4
        by (apply wp_header_word; eapply readable_mono; eauto; lia).
      by rewrite H4 in Hw4. }
    destruct (framed_seg bytes len ws) as (Hm & Hsg & Hok); [done..|].
    assert (exists ss, table_struct T schema ss) as [ss Hss].
    { destruct Hc as (w & _ & [(_ & [?|(ss & ? & _)])|(_ & _ & _ & [?|(ss & ? & _)])]); eauto; done. }
    exists ss, (nwords ws). split; [by apply (schema_struct_table _ T); [|apply Hs|]|].
    repeat split; try (done || lia). by eapply root_refines.
Qed.

(** * What a reader gets *)

Lemma table_struct_inj T i s s' : table_struct T i s -> table_struct T i s' -> s = s'.
Proof. intros (_ & _ & ?) (_ & _ & ?). congruence. Qed.

Lemma table_pointer_inj T i s s' : table_pointer T i s -> table_pointer T i s' -> s = s'.
Proof. intros (_ & ?) (_ & ?). congruence. Qed.

(** Inside a conforming slot or struct, a trusting reader stays inside the
    segment. *)
Lemma touches_in_range ws T :
  Forall is_u64 ws ->
  (forall off ps i, touches_slot ws T off ps i ->
     forall n, slot_conforms ws T n off ps -> 0 <= i < nwords ws) /\
  (forall off dw pw schema i, touches_struct ws T off dw pw schema i ->
     forall n, struct_conforms (slot_conforms ws T n) T off dw pw schema ->
       0 <= off -> 0 <= dw -> 0 <= pw -> off + dw + pw <= nwords ws -> 0 <= i < nwords ws).
Proof.
  intros Hok.
  assert (forall i w, word_at ws i w -> ptr_fields_ok (capnp_decode_ptr w)) as Hpf.
  { intros i w [_ Hw]. apply decode_fields_ok.
    apply (Forall_lookup_1 _ _ _ _ Hok) in Hw. ulia. }
  apply touches_mut.
  - intros off ps [|n]; [done|]. intros (w & Hw & _). by eapply word_at_lt.
  - intros off ps w i Hk Hw Hnz _ IH [|n]; [done|]. simpl. rewrite ex_word_at, Hk by done.
    intros [?|(_ & _ & H1 & H2 & H3)]; [done|]. destruct (Hpf _ _ Hw) as [_ ? ? _ _].
    eapply IH; eauto; ulia.
  - intros off ps w i Hk Hw Hnz Hi [|n]; [done|]. simpl. rewrite ex_word_at by done.
    destruct Hk as [-> | ->]; intros [?|(_ & _ & _ & H1 & H2)]; (done || lia).
  - intros off ps w i Hk Hw Hnz H7 Hi [|n]; [done|]. simpl. rewrite ex_word_at, Hk by done.
    intros [?|(_ & _ & _ & H1 & [[_ H2]|[? _]])]; (done || lia).
  - intros off ps w Hk Hw Hnz H7 [|n]; [done|]. simpl. rewrite ex_word_at, Hk by done.
    destruct (Hpf _ _ Hw) as [_ _ _ _ ?].
    intros [?|(_ & _ & _ & H1 & [[? _]|(_ & H2 & _)])]; (done || lia).
  - intros off ps w tw k i Hk Hw Hnz H7 Htw Hki _ IH [|n]; [done|]. simpl.
    rewrite ex_word_at, Hk by done. destruct (Hpf _ _ Hw) as [_ _ _ _ ?].
    intros [?|(_ & _ & _ & H1 & [[? _]|(_ & H2 & Hex)])]; [done..|].
    rewrite ex_word_at in Hex by done. destruct Hex as [Hfit Hel].
    destruct (Hpf _ _ Htw) as [_ Hd Hp _ _]. unfold_ints.
    eapply (IH n); [by apply Hel|nia..].
  - intros off dw pw schema ss i Hss Hi n Hc Ho Hd Hp Hfit.
    destruct Hc as [->|(ss' & Hss' & Hdw & _)]; [by destruct Hss|].
    rewrite (table_struct_inj _ _ _ _ Hss' Hss) in Hdw. lia.
  - intros off dw pw schema ss i ps j Hss Hi Hps _ IH n Hc Ho Hd Hp Hfit.
    destruct Hc as [->|(ss' & Hss' & _ & Hsl)]; [by destruct Hss|].
    rewrite (table_struct_inj _ _ _ _ Hss' Hss) in Hsl.
    destruct (Hsl i Hi) as (_ & ps' & Hps' & Hcs).
    rewrite (table_pointer_inj _ _ _ _ Hps' Hps) in Hcs. eauto.
Qed.

(** A message for the examples: a root with one data word, a text field and a
    list of two one-word structs. *)
Definition ex_table : schema_table_t := {|
  t_structs := Build_arr 0 [
    {| data_words := 1; pointer_count := 2; first_pointer := 0 |};
    {| data_words := 1; pointer_count := 0; first_pointer := SCHEMA_IDX_NONE |}];
  t_struct_count := 2;
  t_pointers := Build_arr 0 [
    {| kind := PTR_SCHEMA_TEXT; element_struct := SCHEMA_IDX_NONE; list_element_size := 2 |};
    {| kind := PTR_SCHEMA_LIST; element_struct := 1; list_element_size := 7 |}];
  t_pointer_count := 2;
  t_methods := Build_arr 0 []; t_method_count := 0;
  t_objects := Build_arr 0 []; t_object_count := 0 |}.

Definition ex_words : list Z := [
  enc_struct_ptr 0 1 2; 42; enc_list_ptr 1 2 5; enc_list_ptr 1 7 2;
  0x6F6C6C6568; enc_struct_ptr 2 1 0; 7; 8].

Definition frame_bytes (ws : list Z) : list Z :=
  le_bytes 4 0 ++ le_bytes 4 (nwords ws) ++ words_bytes ws.

Lemma ex_table_wf : table_wf ex_table.
Proof. constructor; by_compute. Qed.

Lemma frame_bytes_ok ws : bytes_ok (frame_bytes ws).
Proof.
  unfold frame_bytes, bytes_ok. rewrite !Forall_app.
  split; [apply le_bytes_ok|]. split; [apply le_bytes_ok|apply words_bytes_ok].
Qed.

Lemma length_frame_bytes ws : Z.of_nat (length (frame_bytes ws)) = 8 + 8 * nwords ws.
Proof.
  unfold frame_bytes, nwords.
  rewrite !length_app, !length_le_bytes, length_words_bytes. lia.
Qed.

Lemma readable_frame ws len :
  len = 8 + 8 * nwords ws -> readable (of_bytes (frame_bytes ws)) 0 len.
Proof.
  intros ->. rewrite <- length_frame_bytes. apply readable_of_bytes, frame_bytes_ok.
Qed.

(** A framed message keeps its words readable at their offsets, whatever
    follows it in the buffer. *)
Lemma frame_words_read ws rest i w :
  Forall is_u64 ws -> word_at ws i w ->
  rd_le64 (of_bytes (frame_bytes ws ++ rest)) (8 + 8 * i) = Ret w.
Proof.
  intros Hok [Hi Hw]. rewrite <- (Z2Nat.id i) by done.
  apply (rd_le64_words _ _ ws); [|done|done].
  unfold frame_bytes. rewrite <- !app_assoc, (app_assoc (le_bytes 4 0)).
  replace 8 with (Z.of_nat (length (le_bytes 4 0 ++ le_bytes 4 (nwords ws))))
    by (rewrite length_app, !length_le_bytes; done).
  apply holds_of_bytes.
Qed.

Lemma framed_frame ws rest :
  Forall is_u64 ws -> is_u32 (nwords ws) ->
  framed (of_bytes (frame_bytes ws ++ rest)) (8 + 8 * nwords ws) ws.
Proof.
  intros Hok Hn. split; [|split; [|split]].
  - apply header_word_holds; [ulia|].
    unfold frame_bytes. rewrite <- app_assoc. apply (holds_of_bytes []).
  - apply header_word_holds; [done|].
    unfold frame_bytes. rewrite <- !app_assoc.
    apply (holds_of_bytes (le_bytes 4 0)).
  - lia.
  - intros. by apply frame_words_read.
Qed.

(** The verdict on a message whose words are known. *)
Lemma validate_framed bytes len T schema ws :
  readable bytes 0 len -> is_u64 len -> table_wf T -> is_u16 schema ->
  schema <> SCHEMA_IDX_NONE -> is_u32 (nwords ws) -> framed bytes len ws ->
  capnp_validate_message (Some bytes) len (Some T) schema = Ret true ->
  message_conforms ws T schema.
Proof.
  intros Hr Hl HT Hs Hne Hn Hf Hv.
  apply validate_message_true in Hv as (ss & n & _ & _ & _ & H4 & _ & Hroot); [|done..].
  destruct (framed_seg bytes len ws) as (Hm & Hsg & Hok); [done..|].
  pose proof Hf as (_ & H4' & Hfit & _). assert (n = nwords ws) as -> by congruence.
  by apply (root_refines T HT _ ws) in Hroot.
Qed.

(** C1. The validator decides exactly the declarative specification: it
    accepts a message as the type [schema] declares if and only if the
    message is one well-framed segment whose words conform, recursively and
    to at most 17 levels of pointers, to that schema. *)
Theorem validator_decides_conformance bytes len T schema :
  readable bytes 0 len -> is_u64 len -> table_wf T -> is_u16 schema ->
  schema <> SCHEMA_IDX_NONE ->
  capnp_validate_message (Some bytes) len (Some T) schema = Ret true <->
  exists ws, framed bytes len ws /\ message_conforms ws T schema.
Proof. apply validate_conforms. Qed.

Lemma validator_decides_conformance_witness :
  exists ws, framed (of_bytes (frame_bytes ex_words)) 72 ws /\
    message_conforms ws ex_table 0.
Proof.
  apply validator_decides_conformance;
    [by apply readable_frame|by_compute|apply ex_table_wf|by_compute|by_compute|].
  vm_compute. reflexivity.
Defined.

(** C2. Reading an accepted message as its declared type never leaves the
    message: whatever word a schema-driven reader visits, following every
    pointer it meets without checking it, lies inside the [len] bytes. *)
Theorem accepted_message_read_in_bounds bytes len T schema ws i :
  readable bytes 0 len -> is_u64 len -> table_wf T -> is_u16 schema ->
  schema <> SCHEMA_IDX_NONE -> is_u32 (nwords ws) -> framed bytes len ws ->
  capnp_validate_message (Some bytes) len (Some T) schema = Ret true ->
  touches_message ws T schema i ->
  8 <= 8 + 8 * i /\ 8 + 8 * i + 8 <= len.
Proof.
  intros Hr Hl HT Hs Hne Hn Hf Hv Hi.
  apply (validate_framed _ _ _ _ ws) in Hv; [|done..]. destruct Hv as (w & Hw & Hroot).
  destruct (framed_seg bytes len ws) as (_ & _ & Hok); [done..|].
  pose proof Hf as (_ & _ & Hfit & _).
  pose proof (word_at_lt _ _ _ Hw). destruct Hi as [->|(w' & Hw' & Hnz & Hi)]; [lia|].
  rewrite <- (word_at_inj _ _ _ _ Hw Hw') in *.
  destruct Hroot as [[? _]|(_ & Ho & Hfit2 & Hc)]; [done|].
  assert (0 <= w) by (destruct Hw as [_ Hlk]; apply (Forall_lookup_1 _ _ _ _ Hok) in Hlk; ulia).
  destruct (decode_fields_ok w) as [_ ? ? _ _]; [done|]. unfold is_u16 in *.
  assert (0 <= i < nwords ws); [|lia].
  eapply (proj2 (touches_in_range ws T Hok)); eauto; lia.
Qed.

Lemma ex_framed : framed (of_bytes (frame_bytes ex_words)) 72 ex_words.
Proof. rewrite <- (app_nil_r (frame_bytes _)). apply framed_frame; by_compute. Qed.

Lemma accepted_message_read_in_bounds_witness :
  touches_message ex_words ex_table 0 7 /\ 8 + 8 * 7 + 8 <= 72.
Proof.
  assert (touches_message ex_words ex_table 0 7) as Ht.
  { right. exists (enc_struct_ptr 0 1 2). split; [by_compute|]. split; [by_compute|].
    apply (tst_slot _ _ _ _ _ _
      {| data_words := 1; pointer_count := 2; first_pointer := 0 |} 1
      {| kind := PTR_SCHEMA_LIST; element_struct := 1; list_element_size := 7 |});
      [by_compute..|].
    apply (ts_list_elem _ _ _ _ (enc_list_ptr 1 7 2) (enc_struct_ptr 2 1 0) 1);
      [by_compute..|].
    exact (tst_data ex_words ex_table 7 1 0 1
      {| data_words := 1; pointer_count := 0; first_pointer := SCHEMA_IDX_NONE |} 0
      ltac:(by_compute) ltac:(by_compute)). }
  split; [done|].
  eapply (accepted_message_read_in_bounds (of_bytes (frame_bytes ex_words)) 72 ex_table 0 ex_words 7);
    [by apply readable_frame|by_compute|apply ex_table_wf|by_compute|by_compute|by_compute
    |apply ex_framed|vm_compute; reflexivity|exact Ht].
Defined.
