(* ===== verification/CapnpList.v ===== *)
(** The list-root message encoder and reader: include/capnp_list.h.

    [capnp_build_list_root] writes a single-segment message whose root has
    plain data words and one pointer field, a composite list of data-only
    structs; [capnp_read_list_root] reads it back.  The buffer, the two input
    arrays and the message are byte or word objects with definite extents,
    so an access outside them is a [Fault].  A pointer the reader returns is
    the byte offset it has inside the message. *)
From S2P Require Import Prelude CMem Schema Capnp Validate ValidateSpec.

(** * The encoder *)

(** [for (j = j0; n more; j++) w[i++] = src[j];]: the words appended. *)
Fixpoint copy_words (src : list Z) (j : Z) (n : nat) : outcome (list Z) :=
  match n with
  | O => Ret []
  | S n' =>
      match src !! Z.to_nat j with
      | None => Fault j
      | Some w => ws ← copy_words src (j + 1) n'; Ret (w :: ws)
      end
  end.

(** [((uint64_t)n_data_words << 32) | (1ull << 48)]. *)
Definition root_word (n_data_words : Z) : Z :=
  Z.lor (u64 (Z.shiftl n_data_words 32)) (Z.shiftl 1 48).

(** [1ull | (7ull << 32) | (list_body_words << 35)]. *)
Definition list_word (list_body_words : Z) : Z :=
  Z.lor (Z.lor 1 (Z.shiftl 7 32)) (u64 (Z.shiftl list_body_words 35)).

(** [((uint64_t)n_elements << 2) | ((uint64_t)elem_data_words << 32)]. *)
Definition tag_word (n_elements elem_data_words : Z) : Z :=
  Z.lor (u64 (Z.shiftl n_elements 2)) (u64 (Z.shiftl elem_data_words 32)).

(** [buf] is the whole output buffer ([buf_cap] bytes); the result is the
    buffer afterwards and the returned size, 0 if it does not fit. *)
Definition capnp_build_list_root (buf : list Z) (data_words : list Z)
    (n_data_words : Z) (elements : list Z) (n_elements elem_data_words : Z)
    : outcome (list Z * Z) :=
  let buf_cap := Z.of_nat (length buf) in
  let element_words := u64 (n_elements * elem_data_words) in
  let list_body_words := u64 (1 + element_words) in
  let seg_words := u64 (1 + n_data_words + 1 + list_body_words) in
  let total := u64 (8 + u64 (seg_words * 8)) in
  if buf_cap <? total then Ret (buf, 0)
  else
    ds ← copy_words data_words 0 (Z.to_nat n_data_words);
    es ← copy_words elements 0 (Z.to_nat element_words);
    let header := [0; 0; 0; 0;
      u8 (Z.land seg_words 0xFF); u8 (Z.land (Z.shiftr seg_words 8) 0xFF);
      u8 (Z.land (Z.shiftr seg_words 16) 0xFF); u8 (Z.land (Z.shiftr seg_words 24) 0xFF)] in
    let w := [root_word n_data_words] ++ ds ++ [list_word list_body_words] ++
             [tag_word n_elements elem_data_words] ++ es in
    let out := header ++ words_bytes w in
    Ret (out ++ drop (length out) buf, total).

(** * The reader *)

(** What a successful read returns: where the data section and the first
    element lie in the message, and how many elements there are. *)
Record list_root := { lr_data : Z; lr_elements : Z; lr_count : Z }.

Definition capnp_read_list_root (msg : reader) (msg_len data_words elem_data_words : Z)
    : outcome (option list_root) :=
  if (msg_len <? 8) || negb ((u64 (msg_len - 8)) mod 8 =? 0) then Ret None
  else
    let seg_words_avail := (msg_len - 8) / 8 in
    let w := fun i => rd_le64 msg (8 + 8 * i) in
    if seg_words_avail <=? 1 + data_words then Ret None
    else
      root ← w 0;
      if negb (Z.land root 3 =? 0) then Ret None
      else
        let root_data_words := u16 (Z.land (Z.shiftr root 32) 0xFFFF) in
        let root_ptr_words := u16 (Z.land (Z.shiftr root 48) 0xFFFF) in
        if negb (root_data_words =? data_words) || (root_ptr_words <? 1) then Ret None
        else
          let list_ptr_index := 1 + data_words in
          list_ptr ← w list_ptr_index;
          if negb (Z.land list_ptr 3 =? 1) then Ret None
          else if negb (u8 (Z.land (Z.shiftr list_ptr 32) 7) =? 7) then Ret None
          else
            let list_body_words := Z.land (Z.shiftr list_ptr 35) 0x1FFFFFFF in
            let tag_index := list_ptr_index + 1 in
            if (seg_words_avail <=? tag_index) ||
               (u64 (seg_words_avail - tag_index) <? list_body_words) then Ret None
            else
              tag ← w tag_index;
              if negb (Z.land tag 3 =? 0) then Ret None
              else
                let count := u32 (Z.land (Z.shiftr tag 2) 0x3FFFFFFF) in
                let tag_data_words := u16 (Z.land (Z.shiftr tag 32) 0xFFFF) in
                let tag_ptr_words := u16 (Z.land (Z.shiftr tag 48) 0xFFFF) in
                if negb (tag_data_words =? elem_data_words) || negb (tag_ptr_words =? 0)
                then Ret None
                else if negb (elem_data_words =? 0) &&
                        (u64 (list_body_words - 1) / elem_data_words <? count) then Ret None
                else if list_body_words <? u64 (1 + count * elem_data_words) then Ret None
                else
                  Ret (Some {| lr_data := 8 + 8 * 1;
                               lr_elements := 8 + 8 * (tag_index + 1);
                               lr_count := count |}).

(** * Lemmas *)

Lemma copy_words_all pre src :
  copy_words (pre ++ src) (Z.of_nat (length pre)) (length src) = Ret src.
Proof.
  revert pre. induction src as [|w src IH]; intros pre; simpl; [done|].
  rewrite Nat2Z.id, list_lookup_middle by done.
  specialize (IH (pre ++ [w])). rewrite <- app_assoc, length_app in IH. simpl in IH.
  replace (Z.of_nat (length pre) + 1) with (Z.of_nat (length pre + 1)) by lia.
  by rewrite IH.
Qed.

Lemma copy_words_src src n : Z.of_nat (length src) = n -> copy_words src 0 (Z.to_nat n) = Ret src.
Proof. intros <-. rewrite Nat2Z.id. apply (copy_words_all [] src). Qed.

Lemma root_word_enc n : is_u16 n -> root_word n = enc_struct_ptr 0 n 1.
Proof.
  intros Hn. unfold root_word, enc_struct_ptr, is_u16 in *.
  rewrite u64_small by (rewrite Z.shiftl_mul_pow2 by lia; ulia).
  rewrite Z.lor_comm, lor_shiftl by (rewrite ?Z.shiftl_mul_pow2 by lia; lia).
  rewrite Z.shiftl_mul_pow2 by lia. change (0 mod 2 ^ 30) with 0. lia.
Qed.

Lemma list_word_enc n : 0 <= n < 2 ^ 29 -> list_word n = enc_list_ptr 0 7 n.
Proof.
  intros Hn. unfold list_word, enc_list_ptr.
  rewrite u64_small by (rewrite Z.shiftl_mul_pow2 by lia; ulia).
  change (Z.lor 1 (Z.shiftl 7 32)) with (1 + 7 * 2 ^ 32).
  rewrite Z.lor_comm, lor_shiftl by lia. change (0 mod 2 ^ 30) with 0. lia.
Qed.

Lemma tag_word_enc n dw :
  0 <= n < 2 ^ 30 -> is_u16 dw -> tag_word n dw = n * 4 + dw * 2 ^ 32.
Proof.
  intros Hn Hd. unfold tag_word, is_u16 in *.
  rewrite !u64_small by (rewrite Z.shiftl_mul_pow2 by lia; ulia).
  rewrite Z.lor_comm, lor_shiftl by (rewrite ?Z.shiftl_mul_pow2 by lia; lia).
  rewrite Z.shiftl_mul_pow2 by lia. lia.
Qed.

(** The eight header bytes are the segment count and the word count. *)
Lemma header_bytes_enc n :
  [0; 0; 0; 0; u8 (Z.land n 0xFF); u8 (Z.land (Z.shiftr n 8) 0xFF);
   u8 (Z.land (Z.shiftr n 16) 0xFF); u8 (Z.land (Z.shiftr n 24) 0xFF)] =
  le_bytes 4 0 ++ le_bytes 4 n.
Proof.
  change 0xFF with (2 ^ 8 - 1). rewrite !land_mask, !shiftr_div by lia.
  rewrite !u8_small by apply u8_range.
  unfold le_bytes. simpl. rewrite !Z.div_div by lia. done.
Qed.

(** The words of the message the encoder writes. *)
Definition list_root_words (ds es : list Z) (n_elements elem_data_words : Z) : list Z :=
  enc_struct_ptr 0 (nwords ds) 1 :: ds ++
  [enc_list_ptr 0 7 (1 + nwords es)] ++ [n_elements * 4 + elem_data_words * 2 ^ 32] ++ es.

(** The inputs the encoder's contract allows: the arrays have the announced
    lengths and the list fits the format's 29-bit word count. *)
Record build_ok (ds es : list Z) (n_elements elem_data_words : Z) : Prop := {
  bo_data : is_u16 (nwords ds);
  bo_elem : is_u16 elem_data_words;
  bo_count : 0 <= n_elements < 2 ^ 30;
  bo_es : nwords es = n_elements * elem_data_words;
  bo_fit : 1 + nwords es < 2 ^ 29;
  bo_ds64 : Forall is_u64 ds;
  bo_es64 : Forall is_u64 es }.

Lemma nwords_list_root ds es n ew :
  nwords (list_root_words ds es n ew) = nwords ds + nwords es + 3.
Proof.
  unfold nwords, list_root_words.
  rewrite length_cons, !length_app, !length_cons, length_nil. lia.
Qed.

Lemma list_root_words_u64 ds es n ew :
  build_ok ds es n ew -> Forall is_u64 (list_root_words ds es n ew).
Proof.
  intros [Hd He Hc Hes Hf Hds Hes64]. unfold list_root_words.
  assert (0 <= nwords es) by (unfold nwords; lia). unfold is_u16 in *.
  apply Forall_cons. split.
  { unfold enc_struct_ptr, is_u64. change (0 mod 2 ^ 30) with 0. lia. }
  rewrite !Forall_app, !Forall_singleton. repeat split; try done.
  all: unfold enc_list_ptr; change (0 mod 2 ^ 30) with 0; lia.
Qed.

(** The encoder fills the front of the buffer with the framed message. *)
Lemma build_list_root_spec buf ds es n ew :
  build_ok ds es n ew ->
  8 + 8 * (nwords ds + nwords es + 3) <= Z.of_nat (length buf) ->
  let ws := list_root_words ds es n ew in
  capnp_build_list_root buf ds (nwords ds) es n ew =
    Ret (frame_bytes ws ++ drop (length (frame_bytes ws)) buf, 8 + 8 * nwords ws).
Proof.
  intros Hok Hbuf ws. pose proof Hok as [Hd He Hc Hes Hf Hds Hes64].
  assert (0 <= nwords es) by (unfold nwords; lia).
  assert (0 <= nwords ds) by (unfold nwords; lia). unfold is_u16 in Hd, He.
  unfold capnp_build_list_root. rewrite <- Hes. cbv zeta.
  rewrite (u64_small (nwords es)), (u64_small (1 + nwords es)) by ulia.
  rewrite (u64_small (_ + _ + _ + _)) by ulia.
  rewrite (u64_small (_ * 8)), (u64_small (8 + _)) by ulia.
  destruct (Z.ltb_spec (Z.of_nat (length buf)) (8 + (1 + nwords ds + 1 + (1 + nwords es)) * 8));
    [lia|].
  rewrite !copy_words_src, !ret_bind by done.
  rewrite header_bytes_enc, root_word_enc, list_word_enc, tag_word_enc by (done || ulia).
  assert (nwords ws = 1 + nwords ds + 1 + (1 + nwords es)) as Hn
    by (unfold ws; rewrite nwords_list_root; lia).
  unfold frame_bytes. rewrite Hn. rewrite <- app_assoc. do 2 f_equal. lia.
Qed.

(** The bit fields the reader extracts from the three words the encoder
    packs. *)
Lemma root_fields d :
  is_u16 d -> let w := enc_struct_ptr 0 d 1 in
  Z.land w 3 = 0 /\ u16 (Z.land (Z.shiftr w 32) 0xFFFF) = d /\
  u16 (Z.land (Z.shiftr w 48) 0xFFFF) = 1.
Proof.
  intros Hd w. change 0xFFFF with (2 ^ 16 - 1). rewrite land_3, !land_shiftr by lia.
  rewrite !u16_small by apply u16_range. unfold w, enc_struct_ptr, is_u16 in *.
  change (0 mod 2 ^ 30) with 0. repeat split; Z.to_euclidean_division_equations; lia.
Qed.

Lemma list_fields c :
  0 <= c < 2 ^ 29 -> let w := enc_list_ptr 0 7 c in
  Z.land w 3 = 1 /\ u8 (Z.land (Z.shiftr w 32) 7) = 7 /\
  Z.land (Z.shiftr w 35) 0x1FFFFFFF = c.
Proof.
  intros Hc w. change 0x1FFFFFFF with (2 ^ 29 - 1). rewrite land_3, land_shiftr by lia.
  assert (Z.land (Z.shiftr w 32) 7 = 7) as ->.
  { transitivity ((w / 2 ^ 32) mod 2 ^ 3); [by apply (land_shiftr w 32 3)|].
    unfold w, enc_list_ptr.
    change (0 mod 2 ^ 30) with 0. Z.to_euclidean_division_equations; lia. }
  unfold w, enc_list_ptr. change (0 mod 2 ^ 30) with 0.
  repeat split; Z.to_euclidean_division_equations; lia.
Qed.

Lemma tag_fields n ew :
  0 <= n < 2 ^ 30 -> is_u16 ew -> let w := n * 4 + ew * 2 ^ 32 in
  Z.land w 3 = 0 /\ u32 (Z.land (Z.shiftr w 2) 0x3FFFFFFF) = n /\
  u16 (Z.land (Z.shiftr w 32) 0xFFFF) = ew /\ u16 (Z.land (Z.shiftr w 48) 0xFFFF) = 0.
Proof.
  intros Hn He w. change 0xFFFF with (2 ^ 16 - 1). change 0x3FFFFFFF with (2 ^ 30 - 1).
  rewrite land_3, !land_shiftr by lia. rewrite !u16_small by apply u16_range.
  change (2 ^ 2) with 4.
  assert ((w / 4) mod 2 ^ 30 = n) as -> by
    (unfold w, is_u16 in *; Z.to_euclidean_division_equations; lia).
  rewrite u32_small by ulia. unfold w, is_u16 in *.
  repeat split; Z.to_euclidean_division_equations; lia.
Qed.

Section ListRootWords.
Context (ds es : list Z) (n ew : Z) (rest : list Z) (Hok : build_ok ds es n ew).
Let ws := list_root_words ds es n ew.
Let d := nwords ds.

Lemma lr_word_root : word_at ws 0 (enc_struct_ptr 0 d 1).
Proof. split; [lia|done]. Qed.

Lemma lr_word_data i w : word_at ds i w -> word_at ws (1 + i) w.
Proof.
  intros [Hi Hw]. split; [lia|]. replace (Z.to_nat (1 + i)) with (S (Z.to_nat i)) by lia.
  simpl. by apply lookup_app_l_Some.
Qed.

Lemma lr_word_list : word_at ws (1 + d) (enc_list_ptr 0 7 (1 + nwords es)).
Proof.
  unfold d, nwords. split; [lia|].
  replace (Z.to_nat (1 + Z.of_nat (length ds))) with (S (length ds + 0)) by lia.
  simpl. by rewrite lookup_app_r, Nat.add_0_r, Nat.sub_diag by lia.
Qed.

Lemma lr_word_tag : word_at ws (1 + d + 1) (n * 4 + ew * 2 ^ 32).
Proof.
  unfold d, nwords. split; [lia|].
  replace (Z.to_nat (1 + Z.of_nat (length ds) + 1)) with (S (length ds + 1)) by lia.
  simpl. rewrite lookup_app_r by lia. by replace (length ds + 1 - length ds)%nat with 1%nat by lia.
Qed.

Lemma lr_word_elem i w : word_at es i w -> word_at ws (1 + d + 2 + i) w.
Proof.
  intros [Hi Hw]. unfold d, nwords. split; [lia|].
  replace (Z.to_nat (1 + Z.of_nat (length ds) + 2 + i))
    with (S (length ds + (2 + Z.to_nat i))) by lia.
  simpl. rewrite lookup_app_r by lia.
  by replace (length ds + S (S (Z.to_nat i)) - length ds)%nat with (S (S (Z.to_nat i))) by lia.
Qed.

(** The reader on a message the encoder wrote. *)
Lemma read_list_root_spec :
  capnp_read_list_root (of_bytes (frame_bytes ws ++ rest)) (8 + 8 * nwords ws) d ew =
    Ret (Some {| lr_data := 16; lr_elements := 8 + 8 * (d + 3); lr_count := n |}).
Proof.
  pose proof Hok as [Hd He Hc Hes Hf _ _]. unfold is_u16 in Hd, He. fold d in Hd.
  assert (0 <= nwords es) by (unfold nwords; lia).
  assert (nwords ws = d + nwords es + 3) as Hn by apply nwords_list_root.
  pose proof (list_root_words_u64 ds es n ew Hok) as Hu64. fold ws in Hu64.
  destruct (root_fields d Hd) as (Hr1 & Hr2 & Hr3).
  destruct (list_fields (1 + nwords es) ltac:(lia)) as (Hl1 & Hl2 & Hl3).
  destruct (tag_fields n ew Hc He) as (Ht1 & Ht2 & Ht3 & Ht4).
  unfold capnp_read_list_root. cbv zeta. rewrite !Hn.
  replace (8 + 8 * (d + nwords es + 3) - 8) with ((d + nwords es + 3) * 8) by lia.
  rewrite (u64_small (_ * 8)), Z.mod_mul, Z.div_mul by ulia.
  do 2 (case_if; [lia|]).
  rewrite (frame_words_read _ _ _ _ Hu64 lr_word_root), ret_bind, Hr1, Hr2, Hr3.
  do 2 (case_if; [lia|]).
  rewrite (frame_words_read _ _ _ _ Hu64 lr_word_list), ret_bind, Hl1, Hl2, Hl3.
  rewrite (u64_small (_ - _)) by ulia. do 3 (case_if; [lia|]).
  rewrite (frame_words_read _ _ _ _ Hu64 lr_word_tag), ret_bind, Ht1, Ht2, Ht3, Ht4.
  rewrite (u64_small (1 + _ - 1)), (u64_small (1 + n * ew)) by (unfold is_u64; nia).
  do 2 (case_if; [lia|]).
  replace (1 + nwords es - 1) with (n * ew) by lia.
  case_if; [rewrite Z.div_mul in * by lia; lia|]. case_if; [lia|]. do 2 f_equal. f_equal. lia.
Qed.
End ListRootWords.

(** The reader never leaves the message, and what it returns lies in it. *)
Lemma read_list_root_safe msg len dw ew :
  readable msg 0 len -> is_u64 len -> is_u16 dw -> is_u16 ew ->
  wp (capnp_read_list_root msg len dw ew) (fun o =>
    match o with
    | None => True
    | Some r => lr_data r = 16 /\ 0 <= lr_count r /\
        lr_data r + 8 * dw <= lr_elements r /\
        lr_elements r + 8 * (lr_count r * ew) <= len
    end).
Proof.
  intros Hr Hl Hd He. unfold is_u64, is_u16 in *. unfold capnp_read_list_root. cbv zeta.
  case_if; [done|]. rewrite (u64_small (len - 8)) in * by ulia.
  assert ((len - 8) mod 8 = 0) by lia.
  assert (len = 8 + 8 * ((len - 8) / 8)) as Hlen by (Z.to_euclidean_division_equations; lia).
  set (avail := (len - 8) / 8) in *.
  assert (forall i, 0 <= i < avail -> wp (rd_le64 msg (8 + 8 * i)) is_u64) as Hw.
  { intros i Hi. apply wp_rd_le64. eapply readable_mono; eauto; lia. }
  case_if; [done|]. apply wp_bind. eapply wp_mono; [apply Hw; lia|]. intros root _.
  do 2 (case_if; [done|]). apply wp_bind. eapply wp_mono; [apply Hw; lia|]. intros lp _.
  do 2 (case_if; [done|]).
  change 0x1FFFFFFF with (2 ^ 29 - 1). rewrite land_shiftr by lia.
  pose proof (Z.mod_pos_bound (lp / 2 ^ 35) (2 ^ 29) ltac:(lia)) as Hbody.
  set (body := (lp / 2 ^ 35) mod 2 ^ 29) in *.
  case_if; [done|]. rewrite (u64_small (avail - _)) in * by ulia.
  apply wp_bind. eapply wp_mono; [apply Hw; lia|]. intros tg _.
  do 4 (case_if; [done|]). simpl.
  pose proof (u32_range (Z.land (Z.shiftr tg 2) 0x3FFFFFFF)) as Hc.
  set (count := u32 (Z.land (Z.shiftr tg 2) 0x3FFFFFFF)) in *. unfold is_u32 in Hc.
  rewrite u64_small in * by (unfold is_u64; nia). repeat split; lia.
Qed.

Lemma build_then_read buf ds es n ew :
  build_ok ds es n ew ->
  8 + 8 * (nwords ds + nwords es + 3) <= Z.of_nat (length buf) ->
  exists out total r,
    capnp_build_list_root buf ds (nwords ds) es n ew = Ret (out, total) /\
    length out = length buf /\ total = 8 + 8 * (nwords ds + nwords es + 3) /\
    capnp_read_list_root (of_bytes out) total (nwords ds) ew = Ret (Some r) /\
    lr_count r = n /\
    (forall i w, word_at ds i w -> rd_le64 (of_bytes out) (lr_data r + 8 * i) = Ret w) /\
    (forall i w, word_at es i w -> rd_le64 (of_bytes out) (lr_elements r + 8 * i) = Ret w).
Proof.
  intros Hok Hbuf. set (ws := list_root_words ds es n ew).
  pose proof (list_root_words_u64 ds es n ew Hok) as Hu64. fold ws in Hu64.
  assert (nwords ws = nwords ds + nwords es + 3) as Hn by apply nwords_list_root.
  pose proof (length_frame_bytes ws) as Hlen.
  do 3 eexists. split; [by apply build_list_root_spec|]. fold ws. split.
  { rewrite length_app, length_drop. lia. }
  split; [lia|]. split; [by apply read_list_root_spec|].
  cbn [lr_count lr_data lr_elements]. split; [done|]. split.
  - intros i w Hw. replace (16 + 8 * i) with (8 + 8 * (1 + i)) by lia.
    apply frame_words_read; [done|]. by apply lr_word_data.
  - intros i w Hw.
    replace (8 + 8 * (nwords ds + 3) + 8 * i) with (8 + 8 * (1 + nwords ds + 2 + i)) by lia.
    apply frame_words_read; [done|]. by apply lr_word_elem.
Qed.

(** C31. Encoding then decoding a list-root message gives back what was
    encoded: for any data words and any elements that fit the format's
    29-bit list size, in any large enough buffer, the encoder reports the
    exact message size, and the reader run on those bytes accepts them and
    returns offsets at which exactly the data words, and exactly the
    elements, are stored. *)
Theorem list_root_roundtrip buf ds es n ew :
  build_ok ds es n ew ->
  8 + 8 * (nwords ds + nwords es + 3) <= Z.of_nat (length buf) ->
  exists out total r,
    capnp_build_list_root buf ds (nwords ds) es n ew = Ret (out, total) /\
    length out = length buf /\ total = 8 + 8 * (nwords ds + nwords es + 3) /\
    capnp_read_list_root (of_bytes out) total (nwords ds) ew = Ret (Some r) /\
    lr_count r = n /\
    (forall i w, word_at ds i w -> rd_le64 (of_bytes out) (lr_data r + 8 * i) = Ret w) /\
    (forall i w, word_at es i w -> rd_le64 (of_bytes out) (lr_elements r + 8 * i) = Ret w).
Proof. apply build_then_read. Qed.

(** An InitDescription-shaped message: two data words, two five-word
    variants. *)
Definition ex_ds : list Z := [0x494e495444455343; 0x41880000].
Definition ex_es : list Z := [0; 1; 2; 3; 4; 1; 5; 6; 7; 8].

Lemma ex_build_ok : build_ok ex_ds ex_es 2 5.
Proof. constructor; by_compute. Qed.

Lemma list_root_roundtrip_witness :
  exists out total r,
    capnp_build_list_root (replicate 200 0) ex_ds 2 ex_es 2 5 = Ret (out, total) /\
    capnp_read_list_root (of_bytes out) total 2 5 = Ret (Some r) /\ lr_count r = 2.
Proof.
  destruct (list_root_roundtrip (replicate 200 0) ex_ds ex_es 2 5)
    as (out & total & r & H1 & _ & _ & H2 & H3 & _); [apply ex_build_ok|by_compute|].
  by exists out, total, r.
Defined.

(** C32. The list-root reader is safe on arbitrary bytes: for every message
    of [len] readable bytes and every expected shape it returns without an
    access outside the message, and when it accepts, the whole data section
    and every one of the elements it announces lie inside the message, in
    that order and without overlap. *)
Theorem list_root_reader_in_bounds msg len dw ew :
  readable msg 0 len -> is_u64 len -> is_u16 dw -> is_u16 ew ->
  exists o, capnp_read_list_root msg len dw ew = Ret o /\
    forall r, o = Some r ->
      lr_data r = 16 /\ lr_data r + 8 * dw <= lr_elements r /\
      0 <= lr_count r /\ lr_elements r + 8 * (lr_count r * ew) <= len.
Proof.
  intros. destruct (wp_inv _ _ (read_list_root_safe msg len dw ew ltac:(done) ltac:(done)
    ltac:(done) ltac:(done))) as (o & Ho & HP).
  exists o. split; [done|]. intros r ->. tauto.
Qed.

Lemma list_root_reader_in_bounds_witness :
  exists o, capnp_read_list_root (of_bytes (frame_bytes ex_words)) 72 1 1 = Ret o.
Proof.
  destruct (list_root_reader_in_bounds (of_bytes (frame_bytes ex_words)) 72 1 1)
    as (o & Ho & _); [by apply readable_frame|by_compute..|].
  by exists o.
Defined.

(** The slot the schema is asked about holds a list that overruns the
    segment by one word. *)
Lemma built_list_not_conforming ds es n ew T k ps :
  build_ok ds es n ew -> kind ps = PTR_SCHEMA_LIST ->
  ~ slot_conforms (list_root_words ds es n ew) T k (1 + nwords ds) ps.
Proof.
  intros Hok Hk. pose proof Hok as [Hd _ _ _ Hf _ _]. unfold is_u16 in Hd.
  assert (0 <= nwords es) by (unfold nwords; lia).
  destruct k as [|k]; [tauto|]. cbn [slot_conforms].
  rewrite (ex_word_at _ _ (enc_list_ptr 0 7 (1 + nwords es))) by apply lr_word_list.
  rewrite decode_enc_list, nwords_list_root, Hk by lia.
  cbn [tag offset_words element_size element_count].
  intros [Hz|(_ & _ & _ & _ & [[]|(_ & ? & _)])]; [|lia..].
  revert Hz. unfold enc_list_ptr. change (0 mod 2 ^ 30) with 0. lia.
Qed.

(** The kernel's own validator rejects every message this encoder
    writes, when the schema declares the pointer field as the composite list
    it is: the encoder counts the tag word in the list size, the validator
    does not, and so asks for one word more than the segment has. *)
Theorem validator_rejects_built_list ds es n ew T schema ss ps :
  build_ok ds es n ew -> table_wf T -> is_u16 schema ->
  table_struct T schema ss -> 1 <= pointer_count ss ->
  table_pointer T (first_pointer ss) ps -> kind ps = PTR_SCHEMA_LIST ->
  let msg := frame_bytes (list_root_words ds es n ew) in
  capnp_validate_message (Some (of_bytes msg)) (Z.of_nat (length msg)) (Some T) schema
    = Ret false.
Proof.
  intros Hok HT Hs Hss Hpc Hps Hk msg. set (ws := list_root_words ds es n ew) in *.
  pose proof Hok as [Hd _ _ _ Hf _ _]. unfold is_u16 in Hd.
  assert (0 <= nwords es) by (unfold nwords; lia).
  pose proof (length_frame_bytes ws) as Hlen. fold msg in Hlen.
  assert (nwords ws = nwords ds + nwords es + 3) as Hn by apply nwords_list_root.
  assert (readable (of_bytes msg) 0 (Z.of_nat (length msg))) as Hr
    by (apply readable_of_bytes, frame_bytes_ok).
  assert (is_u64 (Z.of_nat (length msg))) as H64 by ulia.
  destruct (wp_inv _ _ (safe_validate_message (Some (of_bytes msg)) (Z.of_nat (length msg))
    (Some T) schema ltac:(intros ? [= <-]; exact Hr) H64 HT Hs)) as ([] & Hv & _); [|done].
  exfalso. assert (Forall is_u64 ws) as Hu by (by apply list_root_words_u64).
  apply (validate_framed _ _ _ _ ws) in Hv; [|done|done|done|done|apply Hss|ulia|].
  2:{ rewrite Hlen. unfold msg. rewrite <- (app_nil_r (frame_bytes ws)).
      apply framed_frame; [done|ulia]. }
  destruct Hv as (w & Hw & Hc).
  pose proof (word_at_inj _ _ _ _ Hw (lr_word_root ds es n ew)) as ->.
  rewrite decode_enc_struct in Hc by (try done; try ulia; congruence).
  cbn [tag offset_words p_data_words p_ptr_words] in Hc.
  destruct Hc as [[Hz _]|(_ & _ & _ & Hc)].
  { revert Hz. unfold enc_struct_ptr. change (0 mod 2 ^ 30) with 0. lia. }
  destruct Hc as [->|(ss' & Hss' & _ & Hsl)]; [by destruct Hss|].
  rewrite (table_struct_inj _ _ _ _ Hss' Hss) in Hsl.
  destruct (Hsl 0) as (_ & ps' & Hps' & Hcon); [lia|]. rewrite Z.add_0_r in *.
  rewrite (table_pointer_inj _ _ _ _ Hps' Hps) in Hcon.
  by eapply built_list_not_conforming in Hcon.
Qed.

(** The schema of the encoder's own messages: two data words and one list of
    five-word structs. *)
Definition ex_list_table : schema_table_t := {|
  t_structs := Build_arr 0 [
    {| data_words := 2; pointer_count := 1; first_pointer := 0 |};
    {| data_words := 5; pointer_count := 0; first_pointer := SCHEMA_IDX_NONE |}];
  t_struct_count := 2;
  t_pointers := Build_arr 0 [
    {| kind := PTR_SCHEMA_LIST; element_struct := 1; list_element_size := 7 |}];
  t_pointer_count := 1;
  t_methods := Build_arr 0 []; t_method_count := 0;
  t_objects := Build_arr 0 []; t_object_count := 0 |}.

Lemma validator_rejects_built_list_witness :
  let msg := frame_bytes (list_root_words ex_ds ex_es 2 5) in
  capnp_validate_message (Some (of_bytes msg)) (Z.of_nat (length msg))
    (Some ex_list_table) 0 = Ret false.
Proof.
  apply (validator_rejects_built_list ex_ds ex_es 2 5 ex_list_table 0
    {| data_words := 2; pointer_count := 1; first_pointer := 0 |}
    {| kind := PTR_SCHEMA_LIST; element_struct := 1; list_element_size := 7 |});
    [apply ex_build_ok|constructor; by_compute|by_compute..].
Defined.
