(* ===== verification/Cap.v ===== *)
(** The capability layer: kernel/cap.c and kernel/cap.h.

    A handle is the address of its own [cap_record_t].  Records live in
    storage that callers supply, so the record store maps every address with
    record-sized storage behind it to what is stored there, live or not; an
    address outside it is unmapped and touching it is a [Fault].  Schema
    tables are read through pointers in the same way.

    An object's handler is code outside the kernel.  It is a program tree
    ([hprog]) over what the kernel lets it do: invoke objects (re-entering
    [kernel_invoke]), reuse storage it owns, keep state of its own, and
    return with a response.  A message or response buffer is the list of the
    bytes really there; [NULL] is [None].  The factory's handler is the kernel's own and is
    defined here. *)
From S2P Require Import Prelude CMem Schema Capnp Validate.

(** * Data *)

Definition CAP_RECORD_MAGIC : Z := 0xCAB1E000CAB1E000.
Definition CAP_CREATE_REQUEST_WORDS : Z := 5.
Definition FACTORY_METHOD_CREATE : Z := 0.
Definition FACTORY_METHOD_DESTROY : Z := 1.
Definition FACTORY_SCHEMA_IDX : Z := 0.

(** Pointers ([handler], [data], [schema_table]) are addresses, [NULL] is 0. *)
Record cap_record_t := {
  magic : Z;
  valid : Z;
  handler : Z;
  data : Z;
  schema_table : Z;
  schema_index : Z }.

Record initial_capabilities_t := { count : Z; factory_handle : Z }.

#[export] Instance cap_record_eq_dec : EqDecision cap_record_t.
Proof. solve_decision. Defined.
#[export] Instance initial_capabilities_eq_dec : EqDecision initial_capabilities_t.
Proof. solve_decision. Defined.

(** One constructor per [kprintf] of the file, with the values it prints
    ([%X] and [%u] print the handle's low 32 bits). *)
Inductive diag :=
| D_create_no_storage
| D_created (handle : Z)
| D_destroy_factory
| D_destroy_not_live (handle : Z)
| D_destroying (handle : Z)
| D_unknown_method (method_id : Z)
| D_invalid_capability (handle : Z)
| D_no_method (handle method_id : Z)
| D_request_rejected (handle method_id : Z)
| D_response_discarded (handle method_id : Z).

#[export] Instance diag_eq_dec : EqDecision diag.
Proof. solve_decision. Defined.

(** Where the linker (or the copy of a whole image) put the file's static
    objects and the factory's handler. *)
Record image := {
  g_factory_record_at : Z;
  g_factory_table_at : Z;
  g_factory_structs_at : Z;
  g_factory_pointers_at : Z;
  g_factory_methods_at : Z;
  g_factory_objects_at : Z;
  factory_handler_at : Z }.

(** The kernel's state: the storage records live in, the schema tables in
    memory ([g_factory_table] among them), the lock word, the core's flags,
    the serial log, and the state handlers keep. *)
Record kstate (W : Type) := {
  recs : gmap Z cap_record_t;
  tables : gmap Z schema_table_t;
  g_cap_lock : Z;
  cpu_flags : Z;
  klog : list diag;
  world : W }.
Arguments recs {W} _.
Arguments tables {W} _.
Arguments g_cap_lock {W} _.
Arguments cpu_flags {W} _.
Arguments klog {W} _.
Arguments world {W} _.
Arguments Build_kstate {W} _ _ _ _ _ _.

(** What a handler does.  [HDone response out_len]: it returns, with these
    bytes in the response buffer and [*out_response_len = out_len]. *)
Inductive hprog (W : Type) :=
| HDone (response : option (list Z)) (out_len : Z)
| HInvoke (target method_id : Z) (msg : option (list Z)) (len : Z)
    (response : option (list Z)) (response_cap : Z)
    (k : Z -> option (list Z) -> Z -> hprog W)
| HStore (addr : Z) (r : cap_record_t) (k : hprog W)
| HGet (k : W -> hprog W)
| HPut (w : W) (k : hprog W).
Arguments HDone {W} _ _.
Arguments HInvoke {W} _ _ _ _ _ _ _.
Arguments HStore {W} _ _ _.
Arguments HGet {W} _.
Arguments HPut {W} _ _.

(** The code reachable through function pointers: [None] where there is
    none.  Arguments as in [object_handler_fn]. *)
Definition handlers (W : Type) : Type :=
  Z -> option (Z -> Z -> option (list Z) -> Z -> option (list Z) -> Z -> hprog W).

(** * Operations *)

Section Cap.
Context {W : Type} (a : arch) (img : image) (code : handlers W).
Implicit Types (s : kstate W).

Definition with_recs s r : kstate W :=
  Build_kstate r (tables s) (g_cap_lock s) (cpu_flags s) (klog s) (world s).
Definition with_tables s t : kstate W :=
  Build_kstate (recs s) t (g_cap_lock s) (cpu_flags s) (klog s) (world s).
Definition with_lock s l : kstate W :=
  Build_kstate (recs s) (tables s) l (cpu_flags s) (klog s) (world s).
Definition with_flags s f : kstate W :=
  Build_kstate (recs s) (tables s) (g_cap_lock s) f (klog s) (world s).
Definition with_world s w : kstate W :=
  Build_kstate (recs s) (tables s) (g_cap_lock s) (cpu_flags s) (klog s) w.

Definition kprintf s (d : diag) : kstate W :=
  Build_kstate (recs s) (tables s) (g_cap_lock s) (cpu_flags s) (klog s ++ [d]) (world s).

(** [cli] / [msr daifset, #2], and [sti] / [msr daifclr, #2].  The two
    targets differ in the interrupt-mask bit of the flags word: RFLAGS.IF
    (bit 9, set when interrupts are on) and DAIF.I (bit 7, set when they are
    masked). *)
Definition irq_mask (flags : Z) : Z :=
  match a with
  | X86_64 => Z.ldiff flags (Z.shiftl 1 9)
  | AARCH64 => Z.lor flags (Z.shiftl 1 7)
  end.

Definition irq_unmask (flags : Z) : Z :=
  match a with
  | X86_64 => Z.lor flags (Z.shiftl 1 9)
  | AARCH64 => Z.ldiff flags (Z.shiftl 1 7)
  end.

Definition irq_was_enabled (prior : Z) : bool :=
  match a with
  | X86_64 => negb (Z.land prior (Z.shiftl 1 9) =? 0)
  | AARCH64 => Z.land prior (Z.shiftl 1 7) =? 0
  end.

(** On one core nothing releases a held lock while this code spins on it
    with interrupts masked: the inner loop never ends. *)
Definition cap_lock s : outcome (Z * kstate W) :=
  let prior := cpu_flags s in
  let s := with_flags s (irq_mask (cpu_flags s)) in
  if g_cap_lock s =? 0 then Ret (prior, with_lock s 1) else Hang.

Definition cap_unlock s (prior : Z) : kstate W :=
  let s := with_lock s 0 in
  if irq_was_enabled prior then with_flags s (irq_unmask (cpu_flags s)) else s.

(** Dereferencing a record pointer, and storing through one. *)
Definition load_record s (p : Z) : outcome cap_record_t :=
  match recs s !! p with Some r => Ret r | None => Fault p end.

Definition store_record s (p : Z) (r : cap_record_t) : outcome (kstate W) :=
  match recs s !! p with
  | Some _ => Ret (with_recs s (<[p := r]> (recs s)))
  | None => Fault p
  end.

Definition is_live (r : cap_record_t) : bool :=
  (magic r =? CAP_RECORD_MAGIC) && negb (valid r =? 0).

(** The memory a message pointer leads to. *)
Definition deref_msg (msg : option (list Z)) : reader :=
  match msg with Some bs => of_bytes bs | None => fun p => Fault p end.

(** [out[i] = ...] for the first bytes of a response buffer. *)
Definition store_response (response : option (list Z)) (bs : list Z)
    : outcome (option (list Z)) :=
  match response with
  | None => Fault 0
  | Some buf =>
      if (length bs <=? length buf)%nat then Ret (Some (bs ++ drop (length bs) buf))
      else Fault (Z.of_nat (length buf))
  end.

(** ** The factory *)

Definition g_factory_structs : list struct_schema_t := [
  {| data_words := CAP_CREATE_REQUEST_WORDS; pointer_count := 0;
     first_pointer := SCHEMA_IDX_NONE |};
  {| data_words := 1; pointer_count := 0; first_pointer := SCHEMA_IDX_NONE |};
  {| data_words := 1; pointer_count := 0; first_pointer := SCHEMA_IDX_NONE |}].

Definition g_factory_pointers : list pointer_schema_t := [
  {| kind := PTR_SCHEMA_ANY; element_struct := 0; list_element_size := 0 |}].

Definition g_factory_methods : list method_schema_t := [
  {| method_id := FACTORY_METHOD_CREATE; param_schema := 0; result_schema := 1 |};
  {| method_id := FACTORY_METHOD_DESTROY; param_schema := 2;
     result_schema := SCHEMA_IDX_NONE |}].

Definition g_factory_objects : list object_schema_t := [
  {| first_method := 0; method_count := 2 |}].

(** The response CREATE writes: the header, a root pointer to one data word,
    and the handle. *)
Definition create_response (handle : Z) : list Z :=
  [0; 0; 0; 0] ++ [2; 0; 0; 0] ++ le_bytes 8 (Z.shiftl 1 32) ++ le_bytes 8 handle.

Definition factory_create s (msg : option (list Z)) (response : option (list Z))
    (response_cap : Z) : outcome (option (list Z) * Z * kstate W) :=
  let words := fun i => rd_le64 (deref_msg msg) (16 + 8 * i) in
  h ← words 0;
  handler_data ← words 1;
  table ← words 2;
  w3 ← words 3;
  record_storage ← words 4;
  let index := u16 w3 in
  if record_storage =? 0 then Ret (response, 0, kprintf s D_create_no_storage)
  else
    '(irq_state, s) ← cap_lock s;
    s ← store_record s record_storage
      {| magic := CAP_RECORD_MAGIC; valid := 1; handler := h; data := handler_data;
         schema_table := table; schema_index := index |};
    let s := cap_unlock s irq_state in
    if 24 <=? response_cap then
      response ← store_response response (create_response record_storage);
      Ret (response, 24, kprintf s (D_created (u32 record_storage)))
    else Ret (response, 0, kprintf s (D_created (u32 record_storage))).

Definition factory_destroy s (msg : option (list Z)) (response : option (list Z))
    : outcome (option (list Z) * Z * kstate W) :=
  target ← rd_le64 (deref_msg msg) 16;
  if target =? g_factory_record_at img then
    Ret (response, 0, kprintf s D_destroy_factory)
  else
    '(irq_state, s) ← cap_lock s;
    r ← load_record s target;
    if negb (is_live r) then
      Ret (response, 0, kprintf (cap_unlock s irq_state) (D_destroy_not_live (u32 target)))
    else
      let s := kprintf s (D_destroying (u32 target)) in
      s ← store_record s target
        {| magic := 0; valid := 0; handler := 0; data := 0; schema_table := 0;
           schema_index := SCHEMA_IDX_NONE |};
      Ret (response, 0, cap_unlock s irq_state).

(** The final response buffer, [*out_response_len] and the state. *)
Definition factory_handler s (method_id : Z) (msg : option (list Z))
    (response : option (list Z)) (response_cap : Z)
    : outcome (option (list Z) * Z * kstate W) :=
  if method_id =? FACTORY_METHOD_CREATE then factory_create s msg response response_cap
  else if method_id =? FACTORY_METHOD_DESTROY then factory_destroy s msg response
  else Ret (response, 0, kprintf s (D_unknown_method method_id)).

(** ** Bootstrap *)

(** The descriptor [kernel_cap_bootstrap] binds to this image's arrays. *)
Definition bound_factory_table : schema_table_t := {|
  t_structs := Build_arr (g_factory_structs_at img) g_factory_structs;
  t_struct_count := 3;
  t_pointers := Build_arr (g_factory_pointers_at img) g_factory_pointers;
  t_pointer_count := 0;
  t_methods := Build_arr (g_factory_methods_at img) g_factory_methods;
  t_method_count := 2;
  t_objects := Build_arr (g_factory_objects_at img) g_factory_objects;
  t_object_count := 1 |}.

Definition bound_factory_record : cap_record_t := {|
  magic := CAP_RECORD_MAGIC; valid := 1; handler := factory_handler_at img; data := 0;
  schema_table := g_factory_table_at img; schema_index := FACTORY_SCHEMA_IDX |}.

(** The test for "these objects are already this image's own". *)
Definition already_bound (r : cap_record_t) (t : schema_table_t) : bool :=
  (magic r =? CAP_RECORD_MAGIC) && negb (valid r =? 0) &&
  (schema_table r =? g_factory_table_at img) &&
  (arr_addr (t_structs t) =? g_factory_structs_at img) &&
  (arr_addr (t_methods t) =? g_factory_methods_at img) &&
  (arr_addr (t_objects t) =? g_factory_objects_at img).

Definition kernel_cap_bootstrap s : outcome (initial_capabilities_t * kstate W) :=
  let caps := {| count := 1; factory_handle := g_factory_record_at img |} in
  r ← load_record s (g_factory_record_at img);
  match tables s !! g_factory_table_at img with
  | None => Fault (g_factory_table_at img)
  | Some t =>
      if already_bound r t then
        '(irq_state, s) ← cap_lock s;
        Ret (caps, cap_unlock s irq_state)
      else
        let s := with_lock s 0 in
        let s := with_tables s (<[g_factory_table_at img := bound_factory_table]> (tables s)) in
        s ← store_record s (g_factory_record_at img) bound_factory_record;
        Ret (caps, s)
  end.

(** ** Invocation *)

(** The table a record's pointer leads to.  The code looks behind the
    pointer only when the index is not [SCHEMA_IDX_NONE]. *)
Definition table_at s (p index : Z) : outcome (option schema_table_t) :=
  if (p =? 0) || (index =? SCHEMA_IDX_NONE) then Ret None
  else match tables s !! p with Some t => Ret (Some t) | None => Fault p end.

(** The loop of [find_method] over the run of an object's methods. *)
Fixpoint find_method_loop (t : schema_table_t) (first : Z) (id : Z) (n : nat) (i : Z)
    : outcome (option method_schema_t) :=
  match n with
  | O => Ret None
  | S n' =>
      let idx := u32 (first + i) in
      if t_method_count t <=? idx then Ret None
      else
        m ← arr_get (t_methods t) idx;
        if method_id m =? id then Ret (Some m)
        else find_method_loop t first id n' (i + 1)
  end.

Definition find_method (table : option schema_table_t) (object_schema id : Z)
    : outcome (option method_schema_t) :=
  obj ← schema_object table object_schema;
  match obj, table with
  | Some obj, Some t =>
      find_method_loop t (first_method obj) id (Z.to_nat (method_count obj)) 0
  | _, _ => Ret None
  end.

(** A handler's own run, with [invoke] for [kernel_invoke]. *)
Fixpoint run_handler
    (invoke : kstate W -> Z -> Z -> option (list Z) -> Z -> option (list Z) -> Z ->
              outcome (Z * option (list Z) * Z * kstate W))
    (p : hprog W) s : outcome (option (list Z) * Z * kstate W) :=
  match p with
  | HDone response out_len => Ret (response, out_len, s)
  | HInvoke target id msg len response cap k =>
      '(ret, response, out_len, s) ← invoke s target id msg len response cap;
      run_handler invoke (k ret response out_len) s
  | HStore p r k => s ← store_record s p r; run_handler invoke k s
  | HGet k => run_handler invoke (k (world s)) s
  | HPut w k => run_handler invoke k (with_world s w)
  end.

(** [record.handler(record.data, method_id, msg, len, response, ...)]. *)
Definition call_handler
    (invoke : kstate W -> Z -> Z -> option (list Z) -> Z -> option (list Z) -> Z ->
              outcome (Z * option (list Z) * Z * kstate W))
    s (record : cap_record_t) (id : Z) (msg : option (list Z)) (len : Z)
    (response : option (list Z)) (response_cap : Z)
    : outcome (option (list Z) * Z * kstate W) :=
  if handler record =? factory_handler_at img then
    factory_handler s id msg response response_cap
  else
    match code (handler record) with
    | None => Fault (handler record)
    | Some f => run_handler invoke (f (data record) id msg len response response_cap) s
    end.

(** The loop that clears the [response_cap] bytes of the buffer. *)
Definition zero_response (response : option (list Z)) (response_cap : Z)
    : outcome (option (list Z)) :=
  if response_cap =? 0 then Ret response
  else store_response response (replicate (Z.to_nat response_cap) 0).

(** The result: the return value, the response buffer afterwards,
    [*out_response_len] (the dummy, if the caller passed [NULL]), and the
    state.  [fuel] bounds the depth of nested invocations. *)
Fixpoint kernel_invoke (fuel : nat) s (target id : Z) (msg : option (list Z)) (len : Z)
    (response : option (list Z)) (response_cap : Z)
    : outcome (Z * option (list Z) * Z * kstate W) :=
  match fuel with
  | O => NoFuel
  | S fuel' =>
      '(irq_state, s) ← cap_lock s;
      record ← load_record s target;
      if negb (is_live record) then
        Ret (0, response, 0,
             kprintf (cap_unlock s irq_state) (D_invalid_capability (u32 target)))
      else
        let s := cap_unlock s irq_state in
        table ← table_at s (schema_table record) (schema_index record);
        om ← find_method table (schema_index record) id;
        match om with
        | None => Ret (0, response, 0, kprintf s (D_no_method (u32 target) id))
        | Some m =>
            ok ← capnp_validate_message (of_bytes <$> msg) len table (param_schema m);
            if negb ok then
              Ret (0, response, 0, kprintf s (D_request_rejected (u32 target) id))
            else
              '(response, out_len, s) ←
                call_handler (kernel_invoke fuel') s record id msg len response response_cap;
              ok ← (if result_schema m =? SCHEMA_IDX_NONE then Ret true
                    else capnp_validate_message (of_bytes <$> response) out_len table
                           (result_schema m));
              if negb ok then
                let s := kprintf s (D_response_discarded (u32 target) id) in
                response ← zero_response response response_cap;
                Ret (0, response, 0, s)
              else Ret (1, response, out_len, s)
        end
  end.

End Cap.
