(* ===== verification/CapProps.v ===== *)
(** Theorems about kernel/cap.c: lock and interrupt discipline, what an
    invocation guarantees to caller and object, the life of a capability, and
    the bootstrap of the factory. *)
From S2P Require Import Prelude CMem Schema Capnp Validate ValidateSpec Cap.

(** * Specification *)

(** The method with id [id] that the schema declares for object [idx]: the
    first one of the object's run of methods that lies inside the table. *)
Definition declares_method (t : schema_table_t) (idx id : Z) (m : method_schema_t) : Prop :=
  exists o k,
    idx <> SCHEMA_IDX_NONE /\ 0 <= idx < t_object_count t /\
    arr_elems (t_objects t) !! Z.to_nat idx = Some o /\
    0 <= k < method_count o /\ first_method o + k < t_method_count t /\
    arr_elems (t_methods t) !! Z.to_nat (first_method o + k) = Some m /\
    method_id m = id /\
    forall j m', 0 <= j < k ->
      arr_elems (t_methods t) !! Z.to_nat (first_method o + j) = Some m' ->
      method_id m' <> id.

(** Every schema table in memory can be read. *)
Definition tables_wf {W} (s : kstate W) : Prop :=
  forall p t, tables s !! p = Some t -> table_wf t.

(** What a message is checked against: nothing, or the struct [schema] of
    table [t]. *)
Definition conforms_to (t : schema_table_t) (schema : Z) (rd : reader) (len : Z) : Prop :=
  schema = SCHEMA_IDX_NONE \/
  exists ws, framed rd len ws /\ message_conforms ws t schema.

(** The state of an image whose bootstrap has run. *)
Record bootstrapped {W} (img : image) (s : kstate W) : Prop := {
  bs_record : recs s !! g_factory_record_at img = Some (bound_factory_record img);
  bs_table : tables s !! g_factory_table_at img = Some (bound_factory_table img);
  bs_nonnull : g_factory_table_at img <> 0;
  bs_lock : g_cap_lock s = 0 }.

(** * Lemmas: the lock *)

Lemma testbit_land_pow2 f n : 0 <= n -> (Z.land f (Z.shiftl 1 n) =? 0) = negb (Z.testbit f n).
Proof.
  intros Hn. rewrite Z.shiftl_1_l.
  destruct (Z.testbit f n) eqn:Hb; simpl.
  - apply Z.eqb_neq. intros H. apply (f_equal (fun z => Z.testbit z n)) in H.
    by rewrite Z.land_spec, Hb, Z.pow2_bits_true, Z.bits_0 in H.
  - apply Z.eqb_eq, Z.bits_inj'. intros i Hi. rewrite Z.land_spec, Z.bits_0, Z.pow2_bits_eqb by done.
    destruct (Z.eqb_spec n i) as [->|]; [by rewrite Hb|by rewrite andb_false_r].
Qed.

(** Setting back what was cleared, or clearing what was set, gives the old
    flags; so does leaving a bit that had that value already. *)
Lemma set_bit_restore f n :
  0 <= n -> Z.testbit f n = true -> Z.lor (Z.ldiff f (Z.shiftl 1 n)) (Z.shiftl 1 n) = f.
Proof.
  intros Hn Hb. rewrite Z.shiftl_1_l. apply Z.bits_inj'. intros i Hi.
  rewrite Z.lor_spec, Z.ldiff_spec, Z.pow2_bits_eqb by done.
  destruct (Z.eqb_spec n i) as [->|]; simpl; [by rewrite orb_true_r|].
  by rewrite orb_false_r, andb_true_r.
Qed.

Lemma clear_bit_restore f n :
  0 <= n -> Z.testbit f n = false -> Z.ldiff (Z.lor f (Z.shiftl 1 n)) (Z.shiftl 1 n) = f.
Proof.
  intros Hn Hb. rewrite Z.shiftl_1_l. apply Z.bits_inj'. intros i Hi.
  rewrite Z.ldiff_spec, Z.lor_spec, Z.pow2_bits_eqb by done.
  destruct (Z.eqb_spec n i) as [->|]; simpl; [by rewrite andb_false_r|].
  by rewrite orb_false_r, andb_true_r.
Qed.

Lemma clear_bit_clear f n : 0 <= n -> Z.testbit f n = false -> Z.ldiff f (Z.shiftl 1 n) = f.
Proof.
  intros Hn Hb. rewrite Z.shiftl_1_l. apply Z.bits_inj'. intros i Hi.
  rewrite Z.ldiff_spec, Z.pow2_bits_eqb by done.
  destruct (Z.eqb_spec n i) as [->|]; simpl; [by rewrite Hb|by rewrite andb_true_r].
Qed.

Lemma set_bit_set f n : 0 <= n -> Z.testbit f n = true -> Z.lor f (Z.shiftl 1 n) = f.
Proof.
  intros Hn Hb. rewrite Z.shiftl_1_l. apply Z.bits_inj'. intros i Hi.
  rewrite Z.lor_spec, Z.pow2_bits_eqb by done.
  destruct (Z.eqb_spec n i) as [->|]; simpl; [by rewrite Hb|by rewrite orb_false_r].
Qed.

Lemma irq_restore a f :
  (if irq_was_enabled a f then irq_unmask a (irq_mask a f) else irq_mask a f) = f.
Proof.
  destruct a; unfold irq_was_enabled, irq_unmask, irq_mask;
    rewrite testbit_land_pow2 by lia;
    match goal with |- context [Z.testbit f ?n] => destruct (Z.testbit f n) eqn:Hb end; simpl.
  - by apply set_bit_restore.
  - by apply clear_bit_clear.
  - by apply set_bit_set.
  - by apply clear_bit_restore.
Qed.

Section Lock.
Context {W : Type} (a : arch) (img : image) (code : handlers W).
Implicit Types s : kstate W.

(** The state inside a critical section entered from [s]. *)
Definition locked s : kstate W :=
  Build_kstate (recs s) (tables s) 1 (irq_mask a (cpu_flags s)) (klog s) (world s).

Lemma cap_lock_free s : g_cap_lock s = 0 -> cap_lock a s = Ret (cpu_flags s, locked s).
Proof. intros H. unfold cap_lock. simpl. by rewrite H. Qed.

(** Leaving the section keeps what was done to records and log inside it and
    restores everything else. *)
Lemma unlock_section s r l :
  cap_unlock a (Build_kstate r (tables s) 1 (irq_mask a (cpu_flags s)) l (world s)) (cpu_flags s)
    = Build_kstate r (tables s) 0 (cpu_flags s) l (world s).
Proof.
  unfold cap_unlock. simpl. pose proof (irq_restore a (cpu_flags s)) as H.
  destruct (irq_was_enabled a (cpu_flags s)); simpl; unfold with_flags; simpl; by rewrite ?H.
Qed.

Lemma unlock_locked s : g_cap_lock s = 0 -> cap_unlock a (locked s) (cpu_flags s) = s.
Proof. intros H. unfold locked. rewrite unlock_section, <- H. by destruct s. Qed.

(** With the lock free, an invocation is its body with the lock left out:
    the critical section has no effect of its own. *)
Lemma kernel_invoke_body fuel s target id msg len response cap :
  g_cap_lock s = 0 ->
  kernel_invoke a img code (S fuel) s target id msg len response cap =
    (record ← load_record s target;
     if negb (is_live record) then
       Ret (0, response, 0, kprintf s (D_invalid_capability (u32 target)))
     else
       table ← table_at s (schema_table record) (schema_index record);
       om ← find_method table (schema_index record) id;
       match om with
       | None => Ret (0, response, 0, kprintf s (D_no_method (u32 target) id))
       | Some m =>
           ok ← capnp_validate_message (of_bytes <$> msg) len table (param_schema m);
           if negb ok then
             Ret (0, response, 0, kprintf s (D_request_rejected (u32 target) id))
           else
             '(response, out_len, s) ←
               call_handler a img code (kernel_invoke a img code fuel) s record id msg len
                 response cap;
             ok ← (if result_schema m =? SCHEMA_IDX_NONE then Ret true
                   else capnp_validate_message (of_bytes <$> response) out_len table
                          (result_schema m));
             if negb ok then
               let s := kprintf s (D_response_discarded (u32 target) id) in
               response ← zero_response response cap;
               Ret (0, response, 0, s)
             else Ret (1, response, out_len, s)
       end).
Proof.
  intros H. cbn [kernel_invoke]. rewrite cap_lock_free, ret_bind by done.
  change (load_record (locked s) target) with (load_record s target).
  destruct (load_record s target) as [r| | |]; try done. rewrite !ret_bind.
  by rewrite (unlock_locked s H).
Qed.

Lemma factory_create_body s msg response cap :
  g_cap_lock s = 0 ->
  factory_create a s msg response cap =
    (let words := fun i => rd_le64 (deref_msg msg) (16 + 8 * i) in
     h ← words 0; d ← words 1; t ← words 2; w3 ← words 3; storage ← words 4;
     if storage =? 0 then Ret (response, 0, kprintf s D_create_no_storage)
     else
       s ← store_record s storage
         {| magic := CAP_RECORD_MAGIC; valid := 1; handler := h; data := d;
            schema_table := t; schema_index := u16 w3 |};
       if 24 <=? cap then
         response ← store_response response (create_response storage);
         Ret (response, 24, kprintf s (D_created (u32 storage)))
       else Ret (response, 0, kprintf s (D_created (u32 storage)))).
Proof.
  intros H. unfold factory_create. cbv zeta.
  do 5 (match goal with |- ?o ≫= _ = _ => destruct o; try done; rewrite !ret_bind end).
  case_if; [done|]. rewrite cap_lock_free, ret_bind by done. unfold store_record. simpl.
  match goal with |- context [recs s !! ?k] => destruct (recs s !! k) end; [|done].
  rewrite !ret_bind. unfold with_recs. simpl. rewrite unlock_section, <- H. done.
Qed.

Lemma factory_destroy_body s msg response :
  g_cap_lock s = 0 ->
  factory_destroy a img s msg response =
    (target ← rd_le64 (deref_msg msg) 16;
     if target =? g_factory_record_at img then
       Ret (response, 0, kprintf s D_destroy_factory)
     else
       r ← load_record s target;
       if negb (is_live r) then
         Ret (response, 0, kprintf s (D_destroy_not_live (u32 target)))
       else
         s ← store_record s target
           {| magic := 0; valid := 0; handler := 0; data := 0; schema_table := 0;
              schema_index := SCHEMA_IDX_NONE |};
         Ret (response, 0, kprintf s (D_destroying (u32 target)))).
Proof.
  intros H. unfold factory_destroy.
  destruct (rd_le64 _ _) as [target| | |]; try done. rewrite !ret_bind.
  case_if; [done|]. rewrite cap_lock_free, ret_bind by done.
  change (load_record (locked s) target) with (load_record s target).
  unfold load_record. destruct (recs s !! target) as [r|] eqn:Hr; [|done]. rewrite !ret_bind.
  case_if; [by rewrite unlock_locked|]. unfold store_record. simpl. rewrite Hr, !ret_bind.
  unfold with_recs, kprintf. simpl. by rewrite unlock_section, <- H.
Qed.

(** ** Nothing spins, everything is restored *)

(** What holds between the states before and after a piece of code that
    takes the lock and gives it back. *)
Definition lock_neutral s s' : Prop :=
  g_cap_lock s' = 0 /\ cpu_flags s' = cpu_flags s /\ tables s' = tables s.

Lemma lock_neutral_refl s : g_cap_lock s = 0 -> lock_neutral s s.
Proof. done. Qed.

Lemma lock_neutral_trans s1 s2 s3 : lock_neutral s1 s2 -> lock_neutral s2 s3 -> lock_neutral s1 s3.
Proof. unfold lock_neutral. intuition congruence. Qed.

Lemma wlp_store_record s p r :
  g_cap_lock s = 0 -> wlp (store_record s p r) (lock_neutral s).
Proof. intros H. unfold store_record. by destruct (recs s !! p). Qed.

Lemma wlp_any_bind {A B} (o : outcome A) (k : A -> outcome B) P :
  wlp o (fun _ => True) -> (forall x, wlp (k x) P) -> wlp (o ≫= k) P.
Proof. intros Ho Hk. apply wlp_bind. eapply wlp_mono; [exact Ho|auto]. Qed.

Lemma wlp_of_bytes l p : wlp (of_bytes l p) (fun _ => True).
Proof. unfold of_bytes. case_if; [|done]. by destruct (l !! _). Qed.

Lemma wlp_deref_msg msg p : wlp (deref_msg msg p) (fun _ => True).
Proof. destruct msg; [apply wlp_of_bytes|done]. Qed.

Lemma wlp_rd_le64 rd p :
  (forall q, wlp (rd q) (fun _ => True)) -> wlp (rd_le64 rd p) (fun _ => True).
Proof.
  intros H. unfold rd_le64. generalize 8%nat. intros n. apply wlp_any_bind; [|done].
  revert p. induction n as [|n IH]; intros p; simpl; [done|].
  do 2 (apply wlp_any_bind; [auto|intros ?]). done.
Qed.

Lemma wlp_store_response r bs : wlp (store_response r bs) (fun _ => True).
Proof. unfold store_response. destruct r; [|done]. by case_if. Qed.

Lemma wlp_factory_handler s id msg response cap :
  g_cap_lock s = 0 ->
  wlp (factory_handler a img s id msg response cap) (fun '(_, _, s') => lock_neutral s s').
Proof.
  intros H. unfold factory_handler. case_if; [|case_if; [|done]].
  - rewrite factory_create_body by done. cbv zeta.
    do 5 (apply wlp_any_bind; [apply wlp_rd_le64, wlp_deref_msg|intros ?]).
    case_if; [done|]. apply wlp_bind. eapply wlp_mono; [by apply wlp_store_record|].
    intros s' Hs'. case_if; [|done]. apply wlp_any_bind; [apply wlp_store_response|done].
  - rewrite factory_destroy_body by done.
    apply wlp_any_bind; [apply wlp_rd_le64, wlp_deref_msg|intros target].
    case_if; [done|]. unfold load_record. destruct (recs s !! target); [|done].
    rewrite ret_bind. case_if; [done|].
    apply wlp_bind. eapply wlp_mono; [by apply wlp_store_record|]. done.
Qed.

Lemma wlp_run_handler invoke p s :
  g_cap_lock s = 0 ->
  (forall s0 t id msg len r cap, g_cap_lock s0 = 0 ->
     wlp (invoke s0 t id msg len r cap) (fun '(_, _, _, s') => lock_neutral s0 s')) ->
  wlp (run_handler invoke p s) (fun '(_, _, s') => lock_neutral s s').
Proof.
  intros H Hinv. revert s H.
  induction p as [|t id msg len r cap k IH|q r k IH|k IH|w k IH]; intros s H; simpl.
  - done.
  - apply wlp_bind. eapply wlp_mono; [by apply Hinv|]. intros [[[ret resp] out] s'] Hs'.
    eapply wlp_mono; [apply IH; apply Hs'|]. intros [[? ?] s''] ?. by eapply lock_neutral_trans.
  - apply wlp_bind. eapply wlp_mono; [by apply wlp_store_record|]. intros s' Hs'.
    eapply wlp_mono; [apply IH; apply Hs'|]. intros [[? ?] s''] ?. by eapply lock_neutral_trans.
  - by apply IH.
  - by apply (IH (with_world s w)).
Qed.

End Lock.

(** The validator and the method search do not spin, whatever they read. *)
Section NoSpin.
Context (T : option schema_table_t).

Lemma wlp_arr_get {A} (x : arr A) i : wlp (arr_get x i) (fun _ => True).
Proof. unfold arr_get. case_if; [|done]. by destruct (_ !! _). Qed.

Lemma wlp_checked_get {A} i (f : schema_table_t -> arr A) c :
  wlp (checked_get T i f c) (fun _ => True).
Proof.
  unfold checked_get. destruct T; [|done]. case_if; [done|].
  apply wlp_any_bind; [apply wlp_arr_get|done].
Qed.

Lemma wlp_for_all n i body :
  (forall j, wlp (body j) (fun _ => True)) -> wlp (for_all n i body) (fun _ => True).
Proof.
  intros H. revert i. induction n as [|n IH]; intros i; simpl; [done|].
  apply wlp_any_bind; [done|]. intros []; [apply IH|done].
Qed.

Lemma wlp_struct_at vps off dw pw schema depth :
  (forall o ps d, wlp (vps o ps d) (fun _ => True)) ->
  wlp (struct_at vps T off dw pw schema depth) (fun _ => True).
Proof.
  intros H. unfold struct_at, struct_slots. case_if; [done|].
  apply wlp_any_bind; [apply wlp_checked_get|]. intros [ss|]; [|done]. case_if; [done|].
  apply wlp_for_all. intros j. case_if; [done|]. destruct T as [t|]; [|done].
  case_if; [done|]. apply wlp_any_bind; [apply wlp_arr_get|]. auto.
Qed.

Context (m : capnp_msg_t) (Hseg : forall p, wlp (seg m p) (fun _ => True)).

Lemma wlp_read_word off : wlp (read_word m off) (fun _ => True).
Proof.
  assert (forall n p i w, wlp (read_word_loop m p n i w) (fun _ => True)) as H.
  { induction n as [|n IH]; intros p i w; simpl; [done|]. apply wlp_any_bind; auto. }
  apply H.
Qed.

Lemma wlp_pointer_slot fuel off ps depth :
  wlp (validate_pointer_slot fuel m T off ps depth) (fun _ => True).
Proof.
  revert off ps depth. induction fuel as [|fuel IH]; intros off ps depth; [done|].
  cbn [validate_pointer_slot]. cbv zeta. do 2 (case_if; [done|]).
  apply wlp_any_bind; [apply wlp_read_word|intros w]. do 3 (case_if; [done|]).
  destruct (kind ps); try done; repeat (case_if; try done).
  - by apply wlp_struct_at.
  - unfold composite_list. case_if; [done|].
    apply wlp_any_bind; [apply wlp_read_word|intros tw]. cbv zeta. do 2 (case_if; [done|]).
    apply wlp_for_all. intros j. by apply wlp_struct_at.
Qed.
End NoSpin.

Lemma wlp_header_word b p :
  (forall q, wlp (b q) (fun _ => True)) -> wlp (header_word b p) (fun _ => True).
Proof. intros H. unfold header_word. do 4 (apply wlp_any_bind; [apply H|intros ?]). done. Qed.

Lemma wlp_validate_root T m schema :
  (forall p, wlp (seg m p) (fun _ => True)) -> wlp (validate_root m T schema) (fun _ => True).
Proof.
  intros H. unfold validate_root. case_if; [done|].
  apply wlp_any_bind; [by apply wlp_read_word|intros w]. cbv zeta.
  repeat (case_if; try done); apply wlp_struct_at; intros; by apply wlp_pointer_slot.
Qed.

Lemma wlp_validate_message msg len T schema :
  wlp (capnp_validate_message (of_bytes <$> msg) len T schema) (fun _ => True).
Proof.
  unfold capnp_validate_message. case_if; [done|].
  apply wlp_any_bind; [apply wlp_checked_get|]. intros [ss|]; [|done].
  destruct msg as [b|]; [|done]. simpl. case_if; [done|].
  apply wlp_any_bind; [apply wlp_header_word, wlp_of_bytes|intros ?]. case_if; [done|].
  apply wlp_any_bind; [apply wlp_header_word, wlp_of_bytes|intros ?]. cbv zeta.
  case_if; [done|]. apply wlp_validate_root. intros p. apply wlp_of_bytes.
Qed.

Lemma wlp_find_method T idx id : wlp (find_method T idx id) (fun _ => True).
Proof.
  unfold find_method. apply wlp_any_bind; [apply wlp_checked_get|].
  intros [o|]; [|done]. destruct T as [t|]; [|done].
  generalize (Z.to_nat (method_count o)), 0. intros n.
  induction n as [|n IH]; intros i; simpl; [done|]. case_if; [done|].
  apply wlp_any_bind; [apply wlp_arr_get|intros m]. case_if; [done|apply IH].
Qed.

Lemma wlp_kernel_invoke {W} a img (code : handlers W) fuel s t id msg len r cap :
  g_cap_lock s = 0 ->
  wlp (kernel_invoke a img code fuel s t id msg len r cap)
      (fun '(_, _, _, s') => lock_neutral s s').
Proof.
  revert s t id msg len r cap.
  induction fuel as [|fuel IH]; intros s t id msg len r cap H; [done|].
  rewrite kernel_invoke_body by done.
  unfold load_record. destruct (recs s !! t) as [rec|]; [|done]. rewrite ret_bind.
  case_if; [done|]. apply wlp_any_bind.
  { unfold table_at. case_if; [done|]. by destruct (tables s !! _). }
  intros T. apply wlp_any_bind; [apply wlp_find_method|]. intros [m|]; [|done].
  apply wlp_any_bind; [apply wlp_validate_message|]. intros ok. case_if; [done|].
  apply wlp_bind. eapply wlp_mono.
  { instantiate (1 := fun '(_, _, s') => lock_neutral s s'). unfold call_handler.
    case_if; [by apply wlp_factory_handler|].
    destruct (code (handler rec)); [|done]. by apply wlp_run_handler. }
  intros [[r' out] s'] Hs'. apply wlp_any_bind.
  { case_if; [done|apply wlp_validate_message]. }
  intros ok'. case_if; [|done]. cbv zeta. apply wlp_any_bind; [|done].
  unfold zero_response. case_if; [done|apply wlp_store_response].
Qed.

(** * Lemmas: finding a method *)

Lemma wf_method t i : table_wf t -> 0 <= i < t_method_count t ->
  exists m, arr_get (t_methods t) i = Ret m /\ arr_elems (t_methods t) !! Z.to_nat i = Some m /\
    method_schema_wf m.
Proof.
  intros Ht Hi. destruct Ht as [_ _ Hm _ _ _ Hf _].
  destruct (lookup_lt_is_Some_2 (arr_elems (t_methods t)) (Z.to_nat i)) as [m Hl]; [lia|].
  exists m. split; [apply arr_get_Ret; split; [lia|done]|]. split; [done|].
  by apply (Forall_lookup_1 _ _ _ _ Hf Hl).
Qed.

(** The search from position [i] of the run on. *)
Definition found_from (t : schema_table_t) (first id i n : Z) (m : method_schema_t) : Prop :=
  exists k, i <= k < i + n /\ first + k < t_method_count t /\
    arr_elems (t_methods t) !! Z.to_nat (first + k) = Some m /\ method_id m = id /\
    forall j m', i <= j < k -> arr_elems (t_methods t) !! Z.to_nat (first + j) = Some m' ->
      method_id m' <> id.

Lemma find_method_loop_spec t first id n i :
  table_wf t -> is_u16 first -> 0 <= i -> i + Z.of_nat n <= 2 ^ 16 ->
  exists om, find_method_loop t first id n i = Ret om /\
    forall m, om = Some m <-> found_from t first id i (Z.of_nat n) m.
Proof.
  intros Ht Hf. revert i. induction n as [|n IH]; intros i Hi Hn; cbn [find_method_loop].
  { eexists. split; [done|]. intros m. split; [done|]. intros (k & ? & _). lia. }
  cbv zeta. rewrite u32_small by ulia. unfold is_u16 in Hf.
  case_if.
  { eexists. split; [done|]. intros m. split; [done|]. intros (k & ? & ? & _). lia. }
  destruct (wf_method t (first + i) Ht) as (m0 & Hg & Hl & _); [lia|].
  rewrite Hg, ret_bind. case_if.
  - exists (Some m0). split; [done|]. intros m. split.
    + intros [= <-]. exists i. repeat split; try (done || lia).
    + intros (k & Hk & _ & Hm & Hid & Hno). destruct (decide (k = i)) as [->|]; [congruence|].
      by destruct (Hno i m0 ltac:(lia) Hl).
  - destruct (IH (i + 1)) as (om & Ho & Hom); [lia..|]. exists om. split; [done|].
    intros m. rewrite Hom. split; intros (k & Hk & ? & Hm & Hid & Hno); exists k.
    + repeat split; try (done || lia). intros j m' Hj Hl'.
      destruct (decide (j = i)) as [->|]; [congruence|]. eapply Hno; eauto; lia.
    + assert (k <> i) by congruence. repeat split; try (done || lia).
      intros j m' Hj. apply Hno. lia.
Qed.

Lemma find_method_spec t idx id :
  table_wf t -> 0 <= idx ->
  exists om, find_method (Some t) idx id = Ret om /\
    forall m, om = Some m <-> declares_method t idx id m.
Proof.
  intros Ht Hi. unfold find_method.
  destruct (wp_inv _ _ (wp_schema_object (Some t) idx Ht Hi)) as (oo & Ho & Hwf).
  rewrite Ho, ret_bind. destruct oo as [o|].
  - destruct Hwf as [Hf Hc]. unfold is_u16 in Hc.
    destruct (find_method_loop_spec t (first_method o) id (Z.to_nat (method_count o)) 0)
      as (om & Hl & Hom); [done|done|lia|lia|].
    exists om. split; [done|]. intros m. rewrite Hom. clear Hom Hl.
    unfold schema_object in Ho. apply checked_get_Some in Ho as (? & [= <-] & Hn & Hlt & Hlk); [|done].
    rewrite Z2Nat.id by lia. split.
    + intros (k & Hk & ? & ? & ? & Hno). exists o, k. repeat split; try (done || lia).
    + intros (o' & k & _ & _ & Hlk' & ? & ? & ? & ? & Hno). simplify_eq.
      exists k. repeat split; try (done || lia).
  - exists None. split; [done|]. intros m. split; [done|].
    intros (o & k & Hn & Hlt & Hlk & _).
    assert (schema_object (Some t) idx = Ret (Some o)); [|congruence].
    unfold schema_object. apply checked_get_Some; [done|]. eauto with lia.
Qed.

Lemma declares_method_inj t idx id m m' :
  declares_method t idx id m -> declares_method t idx id m' -> m = m'.
Proof.
  intros (o & k & _ & _ & Ho & Hk & _ & Hm & Hid & Hno)
    (o' & k' & _ & _ & Ho' & Hk' & _ & Hm' & Hid' & Hno'). simplify_eq.
  destruct (Z.lt_trichotomy k k') as [|[->|]].
  - by destruct (Hno' k m ltac:(lia) Hm).
  - congruence.
  - by destruct (Hno k' m' ltac:(lia) Hm').
Qed.

Lemma declares_method_wf t idx id m :
  table_wf t -> declares_method t idx id m -> method_schema_wf m.
Proof.
  intros [_ _ _ _ _ _ Hf _] (o & k & _ & _ & _ & _ & _ & Hm & _).
  by apply (Forall_lookup_1 _ _ _ _ Hf Hm).
Qed.

(** * Lemmas: validation of a byte object *)

Lemma validate_conforms_to bytes len T schema :
  readable bytes 0 len -> is_u64 len -> table_wf T -> is_u16 schema ->
  exists b, capnp_validate_message (Some bytes) len (Some T) schema = Ret b /\
    (b = true <-> conforms_to T schema bytes len).
Proof.
  intros Hr Hl HT Hs. unfold conforms_to.
  destruct (decide (schema = SCHEMA_IDX_NONE)) as [->|Hne].
  { exists true. split; [done|]. tauto. }
  destruct (wp_inv _ _ (safe_validate_message (Some bytes) len (Some T) schema
    ltac:(intros ? [= <-]; exact Hr) Hl HT Hs)) as (b & Hb & _).
  exists b. split; [done|]. pose proof (validate_conforms bytes len T schema Hr Hl HT Hs Hne) as Hc.
  rewrite Hb in Hc. transitivity (Ret b = Ret true); [symmetry; apply ret_true_iff|].
  rewrite Hc. tauto.
Qed.

(** * The theorems on invocation *)

Section Invoke.
Context {W : Type} (a : arch) (img : image) (code : handlers W).
Implicit Types s : kstate W.

(** The record, table and method a target's handle leads to. *)
Definition resolves s (target id : Z) (rec : cap_record_t) (t : schema_table_t)
    (m : method_schema_t) : Prop :=
  recs s !! target = Some rec /\ is_live rec = true /\ schema_table rec <> 0 /\
  tables s !! schema_table rec = Some t /\ declares_method t (schema_index rec) id m.

(** The rest of an invocation once the method is found and the request
    checked. *)
Lemma invoke_dispatch fuel s target id bs len response cap rec t m :
  g_cap_lock s = 0 -> table_wf t -> is_u64 len ->
  readable (of_bytes bs) 0 len -> 0 <= schema_index rec -> resolves s target id rec t m ->
  conforms_to t (param_schema m) (of_bytes bs) len ->
  kernel_invoke a img code (S fuel) s target id (Some bs) len response cap =
    ('(response, out_len, s) ←
       call_handler a img code (kernel_invoke a img code fuel) s rec id (Some bs) len response cap;
     ok ← (if result_schema m =? SCHEMA_IDX_NONE then Ret true
           else capnp_validate_message (of_bytes <$> response) out_len (Some t)
                  (result_schema m));
     if negb ok then
       let s := kprintf s (D_response_discarded (u32 target) id) in
       response ← zero_response response cap;
       Ret (0, response, 0, s)
     else Ret (1, response, out_len, s)).
Proof.
  intros Hlk HTwf Hl Hr Hi (Hrec & Hlive & Hnz & Ht & Hm) Hc.
  rewrite kernel_invoke_body by done. unfold load_record. rewrite Hrec, ret_bind, Hlive. simpl negb.
  pose proof Hm as (o & k & Hne & _). cbv iota. unfold table_at.
  destruct (Z.eqb_spec (schema_table rec) 0); [done|].
  destruct (Z.eqb_spec (schema_index rec) SCHEMA_IDX_NONE); [done|]. simpl orb. cbv iota.
  rewrite Ht, ret_bind.
  destruct (find_method_spec t (schema_index rec) id HTwf Hi) as (om & Ho & Hom).
  rewrite Ho, ret_bind. apply Hom in Hm as ->.
  assert (method_schema_wf m) as (_ & Hp & _)
    by (eapply (declares_method_wf t); [done|by apply Hom]).
  destruct (validate_conforms_to (of_bytes bs) len t (param_schema m)) as (b & Hb & Hbc); [done..|].
  simpl fmap. rewrite Hb, ret_bind. by apply Hbc in Hc as ->.
Qed.

(** What [find_method] sees when the record's table pointer leads to [t]. *)
Lemma table_at_mapped s p idx t :
  p <> 0 -> tables s !! p = Some t -> idx <> SCHEMA_IDX_NONE -> table_at s p idx = Ret (Some t).
Proof.
  intros Hp Ht Hi. unfold table_at.
  destruct (Z.eqb_spec p 0); [done|]. destruct (Z.eqb_spec idx SCHEMA_IDX_NONE); [done|].
  simpl. by rewrite Ht.
Qed.

(** An invocation that returned 1 went through every check. *)
Lemma invoke_success_inv fuel s target id msg len response cap response' out s' :
  g_cap_lock s = 0 ->
  kernel_invoke a img code (S fuel) s target id msg len response cap
    = Ret (1, response', out, s') ->
  exists rec table m,
    recs s !! target = Some rec /\ is_live rec = true /\
    table_at s (schema_table rec) (schema_index rec) = Ret table /\
    find_method table (schema_index rec) id = Ret (Some m) /\
    capnp_validate_message (of_bytes <$> msg) len table (param_schema m) = Ret true /\
    call_handler a img code (kernel_invoke a img code fuel) s rec id msg len response cap
      = Ret (response', out, s') /\
    (result_schema m = SCHEMA_IDX_NONE \/
     capnp_validate_message (of_bytes <$> response') out table (result_schema m) = Ret true).
Proof.
  intros Hlk. rewrite kernel_invoke_body by done. unfold load_record.
  destruct (recs s !! target) as [rec|]; [|done]. rewrite ret_bind.
  destruct (is_live rec) eqn:Hlive; simpl negb; cbv iota; [|done]. intros H.
  apply bind_ret_inv in H as (table & Ht & H). apply bind_ret_inv in H as ([m|] & Hm & H); [|done].
  apply bind_ret_inv in H as ([] & Hv & H); [|done]. simpl negb in H. cbv iota in H.
  apply bind_ret_inv in H as ([[r1 out1] s1] & Hc & H).
  apply bind_ret_inv in H as (ok & Hok & H). destruct ok; simpl in H.
  - simplify_eq. exists rec, table, m. repeat split; try done.
    destruct (Z.eqb_spec (result_schema m) SCHEMA_IDX_NONE); auto.
  - apply bind_ret_inv in H as (r2 & _ & H). done.
Qed.

End Invoke.
