(* ===== verification/CapInvoke.v ===== *)
(** What [kernel_invoke] and the factory guarantee: lock and interrupt
    discipline, rejection before dispatch, the shape of accepted requests and
    responses, and the life of a capability from CREATE to DESTROY. *)
From S2P Require Import Prelude CMem Schema Capnp Validate ValidateSpec Cap CapProps.

(** * Requests in the flat encoding every caller uses *)

Definition create_request (h d t i st : Z) : list Z :=
  frame_bytes [enc_struct_ptr 0 5 0; h; d; t; i; st].

Definition destroy_request (target : Z) : list Z :=
  frame_bytes [enc_struct_ptr 0 1 0; target].

Definition dead_record : cap_record_t :=
  {| magic := 0; valid := 0; handler := 0; data := 0; schema_table := 0;
     schema_index := SCHEMA_IDX_NONE |}.

(** The record CREATE writes. *)
Definition new_record (h d t i : Z) : cap_record_t :=
  {| magic := CAP_RECORD_MAGIC; valid := 1; handler := h; data := d; schema_table := t;
     schema_index := u16 i |}.

(** A record that names no schema: a NULL table or the index that means none. *)
Definition no_schema (rec : cap_record_t) : Prop :=
  schema_table rec = 0 \/ schema_index rec = SCHEMA_IDX_NONE.

#[export] Instance no_schema_dec rec : Decision (no_schema rec).
Proof. unfold no_schema. apply _. Defined.

(** A message that is not of the declared type: NULL where a struct is
    declared, or bytes that do not conform. *)
Definition bad_message (t : schema_table_t) (schema : Z) (msg : option (list Z)) (len : Z) : Prop :=
  match msg with
  | None => schema <> SCHEMA_IDX_NONE
  | Some bs => readable (of_bytes bs) 0 len /\ is_u64 len /\ ~ conforms_to t schema (of_bytes bs) len
  end.

(** The requests [kernel_invoke] means to refuse before dispatch. *)
Inductive refused {W} (s : kstate W) (rec : cap_record_t) (id : Z) (msg : option (list Z))
    (len : Z) : Prop :=
  | R_dead : is_live rec = false -> refused s rec id msg len
  | R_no_schema : no_schema rec -> refused s rec id msg len
  | R_no_method t :
      tables s !! schema_table rec = Some t -> table_wf t -> 0 <= schema_index rec ->
      (forall m, ~ declares_method t (schema_index rec) id m) -> refused s rec id msg len
  | R_bad_message t m :
      tables s !! schema_table rec = Some t -> table_wf t -> 0 <= schema_index rec ->
      declares_method t (schema_index rec) id m -> bad_message t (param_schema m) msg len ->
      refused s rec id msg len.

(** ** A concrete system *)

Definition ex_img : image := {|
  g_factory_record_at := 0x1000; g_factory_table_at := 0x1100;
  g_factory_structs_at := 0x1200; g_factory_pointers_at := 0x1300;
  g_factory_methods_at := 0x1400; g_factory_objects_at := 0x1500;
  factory_handler_at := 0x2000 |}.

(** After bootstrap, interrupts on, one free slot of record storage. *)
Definition ex_state : kstate unit :=
  Build_kstate (<[0x1000 := bound_factory_record ex_img]> {[0x8000 := dead_record]})
    {[0x1100 := bound_factory_table ex_img]} 0 0x202 [] tt.

(** At 0x5000, a handler that invokes the factory before it answers; at
    0x6000, one that answers with a message of no words. *)
Definition ex_code : handlers unit := fun p =>
  if p =? 0x5000 then Some (fun _ _ _ _ response _ =>
    HInvoke 0x1000 1 (Some (destroy_request 0x8000)) 24 None 0 (fun _ _ _ =>
    HDone response 0))
  else if p =? 0x6000 then Some (fun _ _ _ _ response _ => HDone response 8)
  else None.

(** * Lemmas: the factory's table *)

Lemma bound_factory_table_wf img : table_wf (bound_factory_table img).
Proof. constructor; simpl; try lia; repeat constructor; by_compute. Qed.

Lemma factory_declares img id m :
  g_factory_methods !! Z.to_nat id = Some m -> 0 <= id ->
  declares_method (bound_factory_table img) FACTORY_SCHEMA_IDX id m.
Proof.
  intros Hm Hi. exists {| first_method := 0; method_count := 2 |}, id.
  assert (id = 0 \/ id = 1) as Hid.
  { apply lookup_lt_Some in Hm. simpl in Hm. lia. }
  assert (method_id m = id) by (destruct Hid; subst; by injection Hm as <-).
  repeat split; simpl; try (done || lia).
  intros j m' Hj Hm'. assert (id = 1 /\ j = 0) as [-> ->] by lia. by injection Hm' as <-.
Qed.

Lemma factory_struct img i ss :
  g_factory_structs !! Z.to_nat i = Some ss -> 0 <= i ->
  table_struct (bound_factory_table img) i ss.
Proof.
  intros H Hi. pose proof (lookup_lt_Some _ _ _ H) as Hl. simpl in Hl.
  repeat split; simpl; try (done || lia). unfold SCHEMA_IDX_NONE. lia.
Qed.

(** A message with a root of [n] data words and nothing else conforms to any
    pointer-free struct of at most as many. *)
Lemma flat_conforms T schema ss ws rest :
  table_struct T schema ss -> pointer_count ss = 0 -> data_words ss <= nwords ws ->
  0 < nwords ws < 2 ^ 16 -> Forall is_u64 ws -> 
  conforms_to T schema (of_bytes (frame_bytes (enc_struct_ptr 0 (nwords ws) 0 :: ws) ++ rest))
    (8 + 8 * (1 + nwords ws)).
Proof.
  intros Hss Hpc Hdw Hn Hu. right. set (all := enc_struct_ptr 0 (nwords ws) 0 :: ws).
  assert (nwords all = 1 + nwords ws) as Hall by (unfold all, nwords; simpl; lia).
  exists all. split.
  - rewrite <- Hall. apply framed_frame; [|ulia].
    constructor; [|done]. unfold enc_struct_ptr, is_u64. change (0 mod 2 ^ 30) with 0. lia.
  - exists (enc_struct_ptr 0 (nwords ws) 0). split; [done|]. right.
    rewrite decode_enc_struct by (ulia || congruence || (intros [=]; lia)).
    cbn [tag offset_words p_data_words p_ptr_words].
    split; [done|]. split; [lia|]. split; [lia|]. right. exists ss.
    split; [done|]. split; [done|]. intros i Hi. rewrite Hpc in Hi. lia.
Qed.

Section Factory.
Context {W : Type} (a : arch) (img : image) (code : handlers W).
Implicit Types s : kstate W.

Lemma factory_resolves s id m :
  bootstrapped img s -> g_factory_methods !! Z.to_nat id = Some m -> 0 <= id ->
  resolves s (g_factory_record_at img) id (bound_factory_record img)
    (bound_factory_table img) m.
Proof. intros [Hr Ht Hn _] Hm Hi. repeat split; try done. by apply factory_declares. Qed.

(** Invoking the factory with a flat request runs its handler. *)
Lemma factory_invoke fuel s id m ws ss response cap :
  bootstrapped img s -> g_factory_methods !! Z.to_nat id = Some m -> 0 <= id ->
  table_struct (bound_factory_table img) (param_schema m) ss ->
  pointer_count ss = 0 -> data_words ss <= nwords ws -> 0 < nwords ws < 2 ^ 16 ->
  Forall is_u64 ws ->
  let req := frame_bytes (enc_struct_ptr 0 (nwords ws) 0 :: ws) in
  kernel_invoke a img code (S fuel) s (g_factory_record_at img) id (Some req)
      (8 + 8 * (1 + nwords ws)) response cap =
    ('(response, out_len, s) ← factory_handler a img s id (Some req) response cap;
     ok ← (if result_schema m =? SCHEMA_IDX_NONE then Ret true
           else capnp_validate_message (of_bytes <$> response) out_len
                  (Some (bound_factory_table img)) (result_schema m));
     if negb ok then
       let s := kprintf s (D_response_discarded (u32 (g_factory_record_at img)) id) in
       response ← zero_response response cap;
       Ret (0, response, 0, s)
     else Ret (1, response, out_len, s)).
Proof.
  intros Hb Hm Hi Hss Hpc Hdw Hn Hu req.
  rewrite (invoke_dispatch a img code fuel s _ id req _ response cap
    (bound_factory_record img) (bound_factory_table img) m).
  - unfold call_handler. simpl. by rewrite Z.eqb_refl.
  - by destruct Hb.
  - apply bound_factory_table_wf.
  - ulia.
  - apply readable_frame. unfold nwords. simpl. lia.
  - done.
  - by apply factory_resolves.
  - unfold req. rewrite <- (app_nil_r (frame_bytes _)). by eapply flat_conforms.
Qed.

(** The data words of a flat request, as the factory reads them. *)
Lemma request_word ws n i w :
  Forall is_u64 ws -> word_at ws i w -> is_u16 n ->
  rd_le64 (deref_msg (Some (frame_bytes (enc_struct_ptr 0 n 0 :: ws)))) (16 + 8 * i) = Ret w.
Proof.
  intros Hu [Hi Hw] Hn. simpl deref_msg. rewrite <- (app_nil_r (frame_bytes _)).
  replace (16 + 8 * i) with (8 + 8 * (1 + i)) by lia. apply frame_words_read.
  - constructor; [|done]. unfold enc_struct_ptr, is_u64. change (0 mod 2 ^ 30) with 0. ulia.
  - split; [lia|]. by replace (Z.to_nat (1 + i)) with (S (Z.to_nat i)) by lia.
Qed.

Lemma create_response_frame handle :
  create_response handle = frame_bytes [enc_struct_ptr 0 1 0; handle].
Proof. reflexivity. Qed.

(** What CREATE does to the state. *)
Definition created s (h d t i st : Z) : kstate W :=
  kprintf (with_recs s (<[st := new_record h d t i]> (recs s))) (D_created (u32 st)).

Lemma create_handler s h d t i st response cap :
  g_cap_lock s = 0 -> Forall is_u64 [h; d; t; i; st] -> st <> 0 -> is_Some (recs s !! st) ->
  factory_handler a img s 0 (Some (create_request h d t i st)) response cap =
    (if 24 <=? cap then
       r ← store_response response (create_response st); Ret (r, 24, created s h d t i st)
     else Ret (response, 0, created s h d t i st)).
Proof.
  intros Hlk Hu Hst [old Hold]. unfold factory_handler. simpl Z.eqb. cbv iota.
  rewrite factory_create_body by done. cbv zeta. unfold create_request.
  pose proof (request_word _ 5 0 h Hu ltac:(done) ltac:(by_compute)) as ->. rewrite ret_bind.
  pose proof (request_word _ 5 1 d Hu ltac:(done) ltac:(by_compute)) as ->. rewrite ret_bind.
  pose proof (request_word _ 5 2 t Hu ltac:(done) ltac:(by_compute)) as ->. rewrite ret_bind.
  pose proof (request_word _ 5 3 i Hu ltac:(done) ltac:(by_compute)) as ->. rewrite ret_bind.
  pose proof (request_word _ 5 4 st Hu ltac:(done) ltac:(by_compute)) as ->. rewrite ret_bind.
  destruct (Z.eqb_spec st 0); [done|]. unfold store_record. by rewrite Hold, ret_bind.
Qed.

Lemma store_response_front r bs :
  (length bs <= length r)%nat -> store_response (Some r) bs = Ret (Some (bs ++ drop (length bs) r)).
Proof. intros H. unfold store_response. by rewrite (proj2 (Nat.leb_le _ _) H). Qed.

(** A CREATE request reaches the handler. *)
Lemma create_dispatch fuel s h d t i st response cap :
  bootstrapped img s -> Forall is_u64 [h; d; t; i; st] ->
  kernel_invoke a img code (S fuel) s (g_factory_record_at img) FACTORY_METHOD_CREATE
      (Some (create_request h d t i st)) 56 response cap =
    ('(response, out_len, s) ←
       factory_handler a img s 0 (Some (create_request h d t i st)) response cap;
     ok ← capnp_validate_message (of_bytes <$> response) out_len
            (Some (bound_factory_table img)) 1;
     if negb ok then
       let s := kprintf s (D_response_discarded (u32 (g_factory_record_at img)) 0) in
       response ← zero_response response cap;
       Ret (0, response, 0, s)
     else Ret (1, response, out_len, s)).
Proof.
  intros Hb Hu. unfold FACTORY_METHOD_CREATE.
  pose proof (factory_invoke fuel s 0 _ [h; d; t; i; st] _ response cap Hb eq_refl
    ltac:(done) (factory_struct img 0 _ eq_refl ltac:(done)) eq_refl ltac:(done)
    ltac:(done) Hu) as Heq.
  change (8 + 8 * (1 + nwords [h; d; t; i; st])) with 56 in Heq.
  change (nwords [h; d; t; i; st]) with 5 in Heq. cbv zeta in Heq.
  unfold create_request. by rewrite Heq.
Qed.

Lemma create_invoke fuel s h d t i st r cap :
  bootstrapped img s -> Forall is_u64 [h; d; t; i; st] -> st <> 0 -> is_Some (recs s !! st) ->
  24 <= cap <= Z.of_nat (length r) -> bytes_ok r ->
  kernel_invoke a img code (S fuel) s (g_factory_record_at img) FACTORY_METHOD_CREATE
      (Some (create_request h d t i st)) 56 (Some r) cap =
    Ret (1, Some (create_response st ++ drop 24 r), 24, created s h d t i st).
Proof.
  intros Hb Hu Hst Hsome Hr Hok.
  rewrite create_dispatch, create_handler by (done || apply Hb).
  destruct (Z.leb_spec 24 cap); [|lia].
  assert (length (create_response st) = 24%nat) as Hl by done.
  rewrite store_response_front, !ret_bind, Hl by lia. rewrite create_response_frame.
  destruct (validate_conforms_to
    (of_bytes (frame_bytes [enc_struct_ptr 0 1 0; st] ++ drop 24 r)) 24 (bound_factory_table img) 1)
    as (b & Hv & Hbc).
  { eapply readable_mono; [apply readable_of_bytes|lia|].
    - apply Forall_app. split; [apply frame_bytes_ok|by apply Forall_drop].
    - pose proof (length_frame_bytes [enc_struct_ptr 0 1 0; st]) as Hlf.
      rewrite length_app. change (nwords _) with 2 in Hlf. lia. }
  { by_compute. } { apply bound_factory_table_wf. } { by_compute. }
  match goal with |- context [of_bytes <$> Some ?x] =>
    change (of_bytes <$> Some x) with (Some (of_bytes x)) end.
  rewrite Hv, ret_bind. rewrite (proj2 Hbc); [done|].
  pose proof (flat_conforms (bound_factory_table img) 1 _ [st] (drop 24 r)
    (factory_struct img 1 _ eq_refl ltac:(done)) eq_refl) as Hf.
  change (nwords [st]) with 1 in Hf. change (8 + 8 * (1 + 1)) with 24 in Hf.
  apply Hf; [by_compute|lia|].
  rewrite !Forall_cons in Hu. repeat constructor; apply Hu.
Qed.

(** What DESTROY does, by what its target is. *)
Definition destroyed s (target : Z) : kstate W :=
  kprintf (with_recs s (<[target := dead_record]> (recs s))) (D_destroying (u32 target)).

Lemma destroy_invoke fuel s target response cap :
  bootstrapped img s -> is_u64 target ->
  kernel_invoke a img code (S fuel) s (g_factory_record_at img) FACTORY_METHOD_DESTROY
      (Some (destroy_request target)) 24 response cap =
    (if target =? g_factory_record_at img then
       Ret (1, response, 0, kprintf s D_destroy_factory)
     else
       r ← load_record s target;
       if negb (is_live r) then
         Ret (1, response, 0, kprintf s (D_destroy_not_live (u32 target)))
       else Ret (1, response, 0, destroyed s target)).
Proof.
  intros Hb Ht. assert (Forall is_u64 [target]) as Hu by (by constructor).
  unfold destroy_request, FACTORY_METHOD_DESTROY.
  pose proof (factory_invoke fuel s 1 _ [target] _ response cap Hb eq_refl
    ltac:(done) (factory_struct img 2 _ eq_refl ltac:(done)) eq_refl ltac:(done)
    ltac:(done) Hu) as Heq.
  change (8 + 8 * (1 + nwords [target])) with 24 in Heq.
  change (nwords [target]) with 1 in Heq. cbv zeta in Heq. rewrite Heq. clear Heq.
  unfold factory_handler. change (1 =? FACTORY_METHOD_CREATE) with false.
  change (1 =? FACTORY_METHOD_DESTROY) with true. cbv iota.
  rewrite factory_destroy_body by apply Hb.
  pose proof (request_word [target] 1 0 target Hu ltac:(done) ltac:(by_compute)) as Hw.
  change (16 + 8 * 0) with 16 in Hw. rewrite Hw, ret_bind.
  cbn [result_schema]. change (SCHEMA_IDX_NONE =? SCHEMA_IDX_NONE) with true. cbv iota.
  case_if; [done|]. unfold load_record, store_record.
  destruct (recs s !! target) as [r|] eqn:Hr; [|done]. rewrite !ret_bind. case_if; [done|].
  done.
Qed.

(** Creating or destroying any other object keeps the factory in place. *)
Lemma bootstrapped_recs s st r d :
  bootstrapped img s -> st <> g_factory_record_at img ->
  bootstrapped img (kprintf (with_recs s (<[st := r]> (recs s))) d).
Proof. intros [Hr Ht Hn Hl] Hne. constructor; try done. simpl. by rewrite lookup_insert_ne. Qed.

(** Invoking a handle whose record is not live. *)
Lemma invoke_not_live fuel s target id msg len response cap r :
  g_cap_lock s = 0 -> recs s !! target = Some r -> is_live r = false ->
  kernel_invoke a img code (S fuel) s target id msg len response cap =
    Ret (0, response, 0, kprintf s (D_invalid_capability (u32 target))).
Proof.
  intros Hl Hr Hd. rewrite kernel_invoke_body by done. unfold load_record.
  by rewrite Hr, ret_bind, Hd.
Qed.

End Factory.

Lemma table_at_none {W} (s : kstate W) rec :
  no_schema rec -> table_at s (schema_table rec) (schema_index rec) = Ret None.
Proof. unfold table_at. by intros [-> | ->]; rewrite ?Z.eqb_refl, ?orb_true_r. Qed.

Lemma bad_message_rejected t idx id m msg len :
  table_wf t -> declares_method t idx id m -> bad_message t (param_schema m) msg len ->
  capnp_validate_message (of_bytes <$> msg) len (Some t) (param_schema m) = Ret false.
Proof.
  intros Hwf Hdm Hbad. pose proof (declares_method_wf _ _ _ _ Hwf Hdm) as (_ & Hp & _).
  destruct msg as [bs|]; simpl in *.
  - destruct Hbad as (Hrd & Hlen & Hnc).
    destruct (validate_conforms_to (of_bytes bs) len t (param_schema m)) as ([] & Hb & Hbc);
      [done..| |done]. by destruct Hnc; apply Hbc.
  - unfold capnp_validate_message. rewrite (proj2 (Z.eqb_neq _ _)) by done. unfold is_u16 in Hp.
    destruct (wp_inv _ _ (wp_schema_struct (Some t) (param_schema m) Hwf ltac:(lia)))
      as ([] & -> & _); done.
Qed.

(** * Theorems *)

Lemma ex_bootstrapped : bootstrapped ex_img ex_state.
Proof. by constructor. Qed.

Section Claims.
Context {W : Type} (a : arch) (img : image) (code : handlers W).
Implicit Types s : kstate W.

(** C10. The capability lock is never held when an invocation returns or
    while a handler runs: starting from a free lock, [kernel_invoke] never
    spins on it, however deeply handlers re-enter [kernel_invoke] and
    whatever else they do, and on every path that returns the lock is free
    and the processor's interrupt flags are exactly what they were. *)
Theorem invoke_lock_discipline fuel s target id msg len response cap :
  g_cap_lock s = 0 ->
  kernel_invoke a img code fuel s target id msg len response cap <> Hang /\
  forall ret response' out_len s',
    kernel_invoke a img code fuel s target id msg len response cap
      = Ret (ret, response', out_len, s') ->
    g_cap_lock s' = 0 /\ cpu_flags s' = cpu_flags s.
Proof.
  intros H. pose proof (wlp_kernel_invoke a img code fuel s target id msg len response cap H) as Hw.
  split.
  - intros Hh. by rewrite Hh in Hw.
  - intros ret r' out s' Hr. rewrite Hr in Hw. split; apply Hw.
Qed.

(** C4. A request is rejected before the object's code can run, in every
    case [kernel_invoke] means to refuse ([refused]): the target's record is
    not live, whatever its other fields hold (storage never bound, or the
    record a DESTROY left); the record names no schema; its schema declares
    no method of that id; the message, NULL included, does not conform to the
    method's declared parameter type.  For any handler code at all the call
    returns 0 with the response buffer untouched and length 0, and the only
    change of state is one diagnostic on the log. *)
Theorem invoke_rejects_before_dispatch fuel s target id msg len response cap rec :
  g_cap_lock s = 0 -> recs s !! target = Some rec -> refused s rec id msg len ->
  exists d, kernel_invoke a img code (S fuel) s target id msg len response cap
    = Ret (0, response, 0, kprintf s d).
Proof.
  intros Hlk Hr Hbad. rewrite kernel_invoke_body by done.
  unfold load_record. rewrite Hr, ret_bind.
  destruct (is_live rec) eqn:Hlive; [|by eexists]. simpl negb. cbv iota.
  destruct (decide (no_schema rec)) as [Hn|Hn].
  { rewrite table_at_none, ret_bind by done. by eexists. }
  destruct Hbad as [?|?|t Ht Hwf Hi Hno|t m Ht Hwf Hi Hdm Hmsg]; [congruence|done|..];
    (rewrite (table_at_mapped _ _ _ t), ret_bind by (unfold no_schema in Hn; tauto));
    destruct (find_method_spec t (schema_index rec) id Hwf Hi) as (om & Ho & Hom);
    rewrite Ho, ret_bind.
  - destruct om as [m|]; [|by eexists]. by edestruct Hno; apply Hom.
  - pose proof (proj2 (Hom m) Hdm) as ->.
    rewrite (bad_message_rejected t (schema_index rec) id m), ret_bind by done. by eexists.
Qed.

(** C3. What a successful invocation guarantees: it returns 1 only if the
    target was a live record whose schema declares the method, the request
    conformed to the declared parameter type before the handler ran, and the
    response the caller gets back conforms to the declared result type (if
    the handler reported no more bytes than the buffer has). *)
Theorem invoke_success_sound fuel s target id bs len response cap response' out s' :
  g_cap_lock s = 0 -> tables_wf s -> (forall p r, recs s !! p = Some r -> is_u16 (schema_index r)) ->
  readable (of_bytes bs) 0 len -> is_u64 len ->
  kernel_invoke a img code (S fuel) s target id (Some bs) len response cap
    = Ret (1, response', out, s') ->
  exists rec t m,
    resolves s target id rec t m /\
    conforms_to t (param_schema m) (of_bytes bs) len /\
    call_handler a img code (kernel_invoke a img code fuel) s rec id (Some bs) len response cap
      = Ret (response', out, s') /\
    (result_schema m = SCHEMA_IDX_NONE \/
     exists buf, response' = Some buf /\
       (readable (of_bytes buf) 0 out -> is_u64 out ->
        conforms_to t (result_schema m) (of_bytes buf) out)).
Proof.
  intros Hlk Hwf Hidx Hrd Hlen H.
  apply invoke_success_inv in H as (rec & table & m & Hr & Hlive & Ht & Hm & Hv & Hc & Hres); [|done].
  pose proof (Hidx _ _ Hr) as Hi. unfold is_u16 in Hi. unfold table_at in Ht.
  destruct (Z.eqb_spec (schema_table rec) 0).
  { by simplify_eq/=. }
  destruct (Z.eqb_spec (schema_index rec) SCHEMA_IDX_NONE).
  { by simplify_eq/=. }
  simpl in Ht. destruct (tables s !! schema_table rec) as [t|] eqn:Htl; simplify_eq.
  pose proof (Hwf _ _ Htl) as Htwf.
  destruct (find_method_spec t (schema_index rec) id Htwf ltac:(lia)) as (om & Ho & Hom).
  assert (om = Some m) as -> by congruence.
  assert (declares_method t (schema_index rec) id m) as Hdm by (by apply Hom).
  pose proof (declares_method_wf _ _ _ _ Htwf Hdm) as (_ & Hp & Hq).
  destruct (validate_conforms_to (of_bytes bs) len t (param_schema m)) as (b & Hb & Hbc); [done..|].
  simpl in Hv. exists rec, t, m. split; [done|]. split; [apply Hbc; congruence|].
  split; [done|]. destruct (decide (result_schema m = SCHEMA_IDX_NONE)) as [|Hne]; [by left|].
  destruct Hres as [?|Hres]; [done|]. right.
  destruct response' as [buf|].
  - exists buf. split; [done|]. intros Hrb Ho'.
    destruct (validate_conforms_to (of_bytes buf) out t (result_schema m)) as (b' & Hb' & Hbc');
      [done..|]. apply Hbc'. simpl in Hres. congruence.
  - exfalso. revert Hres. unfold capnp_validate_message. simpl.
    destruct (Z.eqb_spec (result_schema m) SCHEMA_IDX_NONE); [done|]. intros Hres.
    apply bind_ret_inv in Hres as ([] & _ & ?); done.
Qed.

(** C9. A response that does not have the declared shape never reaches the
    caller: when the handler returned and what it left in the buffer does
    not conform to the method's result type, the call returns 0, every byte
    of the caller's buffer is zero and the reported length is 0; the
    handler's own effects stay. *)
Theorem invoke_discards_bad_response fuel s target id bs len r rec t m buf out s1 :
  g_cap_lock s = 0 -> is_u16 (schema_index rec) -> table_wf t ->
  readable (of_bytes bs) 0 len -> is_u64 len ->
  resolves s target id rec t m -> conforms_to t (param_schema m) (of_bytes bs) len ->
  let cap := Z.of_nat (length buf) in
  call_handler a img code (kernel_invoke a img code fuel) s rec id (Some bs) len (Some r) cap
    = Ret (Some buf, out, s1) ->
  readable (of_bytes buf) 0 out -> is_u64 out ->
  ~ conforms_to t (result_schema m) (of_bytes buf) out ->
  kernel_invoke a img code (S fuel) s target id (Some bs) len (Some r) cap
    = Ret (0, Some (replicate (length buf) 0), 0,
           kprintf s1 (D_response_discarded (u32 target) id)).
Proof.
  intros Hlk Hi Hwf Hrd Hlen Hres Hp cap Hc Hb Ho Hnc. unfold is_u16 in Hi.
  rewrite (invoke_dispatch a img code fuel s target id bs len _ cap rec t m)
    by (done || lia). rewrite Hc, ret_bind.
  pose proof Hres as (_ & _ & _ & _ & Hdm).
  pose proof (declares_method_wf _ _ _ _ Hwf Hdm) as (_ & _ & Hq).
  destruct (validate_conforms_to (of_bytes buf) out t (result_schema m)) as (b & Hv & Hbc); [done..|].
  destruct (Z.eqb_spec (result_schema m) SCHEMA_IDX_NONE); [by destruct Hnc; left|].
  simpl fmap. rewrite Hv, ret_bind. destruct b; [by destruct Hnc; apply Hbc|]. simpl negb. cbv iota zeta.
  unfold zero_response. destruct (Z.eqb_spec cap 0).
  - unfold cap in *. destruct buf; [done|simpl in *; lia].
  - unfold store_response. rewrite length_replicate.
    replace (Z.to_nat cap) with (length buf) by (unfold cap; lia).
    rewrite (proj2 (Nat.leb_le _ _)), drop_all, app_nil_r by lia. done.
Qed.

(** CREATE does exactly what it promises: from a bootstrapped state, a
    flat request naming non-null mapped storage returns 1 with a 24-byte
    response that carries the storage's address as the handle, writes there
    a live record with the requested handler, data, table and index (its low
    16 bits), and changes nothing else but the log. *)
Theorem create_exact fuel s h d t i st r cap :
  bootstrapped img s -> Forall is_u64 [h; d; t; i; st] -> st <> 0 -> is_Some (recs s !! st) ->
  24 <= cap <= Z.of_nat (length r) -> bytes_ok r ->
  kernel_invoke a img code (S fuel) s (g_factory_record_at img) FACTORY_METHOD_CREATE
      (Some (create_request h d t i st)) 56 (Some r) cap =
    Ret (1, Some (frame_bytes [enc_struct_ptr 0 1 0; st] ++ drop 24 r), 24,
         kprintf (with_recs s (<[st := new_record h d t i]> (recs s))) (D_created (u32 st))).
Proof. intros. rewrite <- create_response_frame. by apply create_invoke. Qed.

(** DESTROY on every branch: the factory's own handle is refused and
    keeps its record; a record that is not live is refused and the store is
    unchanged; a live record of any other object is cleared, and nothing
    else changes but the log.  All three return 1 with an empty response. *)
Theorem destroy_exact fuel s target rec response cap :
  bootstrapped img s -> is_u64 target -> recs s !! target = Some rec ->
  kernel_invoke a img code (S fuel) s (g_factory_record_at img) FACTORY_METHOD_DESTROY
      (Some (destroy_request target)) 24 response cap =
    Ret (1, response, 0,
      if decide (target = g_factory_record_at img) then kprintf s D_destroy_factory
      else if is_live rec then
        kprintf (with_recs s (<[target := dead_record]> (recs s))) (D_destroying (u32 target))
      else kprintf s (D_destroy_not_live (u32 target))).
Proof.
  intros Hb Ht Hr. rewrite destroy_invoke by done. unfold load_record. rewrite Hr, ret_bind.
  destruct (Z.eqb_spec target (g_factory_record_at img)); case_decide; try done.
  by destruct (is_live rec).
Qed.

(** C8. The life of a capability.  After CREATE the handle resolves to the
    requested handler and schema; after DESTROY every invocation of it, with
    any method and message, returns 0 without running any handler; a second
    DESTROY changes no record; and throughout, the records of all other
    handles, the factory's included, are the ones that were there before. *)
Theorem capability_lifecycle fuel s h d t i st r cap tab id m :
  bootstrapped img s -> Forall is_u64 [h; d; t; i; st] -> st <> 0 ->
  st <> g_factory_record_at img -> is_Some (recs s !! st) ->
  24 <= cap <= Z.of_nat (length r) -> bytes_ok r ->
  t <> 0 -> tables s !! t = Some tab -> declares_method tab (u16 i) id m ->
  exists r1 s1 s2 s3,
    let factory := g_factory_record_at img in
    kernel_invoke a img code (S fuel) s factory FACTORY_METHOD_CREATE
      (Some (create_request h d t i st)) 56 (Some r) cap = Ret (1, r1, 24, s1) /\
    resolves s1 st id (new_record h d t i) tab m /\
    kernel_invoke a img code (S fuel) s1 factory FACTORY_METHOD_DESTROY
      (Some (destroy_request st)) 24 r1 cap = Ret (1, r1, 0, s2) /\
    (forall id' msg len response cap',
       kernel_invoke a img code (S fuel) s2 st id' msg len response cap' =
         Ret (0, response, 0, kprintf s2 (D_invalid_capability (u32 st)))) /\
    kernel_invoke a img code (S fuel) s2 factory FACTORY_METHOD_DESTROY
      (Some (destroy_request st)) 24 r1 cap = Ret (1, r1, 0, s3) /\
    recs s3 = recs s2 /\
    (forall p, p <> st -> recs s1 !! p = recs s !! p /\ recs s2 !! p = recs s !! p).
Proof.
  intros Hb Hu Hst Hnf Hsome Hcap Hok Ht Htab Hm.
  assert (is_u64 st) as Hst64 by (rewrite !Forall_cons in Hu; apply Hu).
  set (s1 := created s h d t i st). set (s2 := destroyed s1 st).
  assert (bootstrapped img s1) as Hb1 by (by apply bootstrapped_recs).
  assert (bootstrapped img s2) as Hb2 by (by apply bootstrapped_recs).
  assert (recs s1 !! st = Some (new_record h d t i)) as Hr1 by apply lookup_insert_eq.
  assert (recs s2 !! st = Some dead_record) as Hr2 by apply lookup_insert_eq.
  exists (Some (create_response st ++ drop 24 r)), s1, s2,
    (kprintf s2 (D_destroy_not_live (u32 st))). cbv zeta.
  split; [by apply create_invoke|]. split; [done|].
  assert ((st =? g_factory_record_at img) = false) as Hneq by (by apply Z.eqb_neq).
  split; [|split; [|split; [|split]]].
  - rewrite destroy_invoke by done. unfold load_record. by rewrite Hneq, Hr1.
  - intros. apply (invoke_not_live _ _ _ _ _ _ _ _ _ _ _ dead_record); [apply Hb2|done|done].
  - rewrite destroy_invoke by done. unfold load_record. by rewrite Hneq, Hr2.
  - done.
  - intros p Hp. unfold s2, s1. simpl. by rewrite !lookup_insert_ne by done.
Qed.

End Claims.

(** * The theorems at work *)

(** A live object at 0x8000 of the factory's own type, handled at [h]. *)
Definition ex_object (h : Z) : kstate unit :=
  with_recs ex_state (<[0x8000 := new_record h 0 0x1100 0]> (recs ex_state)).

Lemma ex_object_tables_wf h : tables_wf (ex_object h).
Proof.
  intros p t Hp. simpl in Hp. apply lookup_singleton_Some in Hp as [_ <-].
  apply bound_factory_table_wf.
Qed.

Lemma ex_resolves h :
  resolves (ex_object h) 0x8000 1 (new_record h 0 0x1100 0) (bound_factory_table ex_img)
    {| method_id := 1; param_schema := 2; result_schema := SCHEMA_IDX_NONE |}.
Proof. repeat split; try done. by apply factory_declares. Qed.

(** The object's handler destroys the object while it is being invoked. *)
Lemma invoke_lock_discipline_witness :
  exists s', kernel_invoke X86_64 ex_img ex_code 2 (ex_object 0x5000) 0x8000 1
      (Some (destroy_request 7)) 24 None 0 = Ret (1, None, 0, s') /\
    (g_cap_lock s' = 0 /\ cpu_flags s' = 0x202) /\ recs s' !! 0x8000 = Some dead_record.
Proof.
  destruct (kernel_invoke X86_64 ex_img ex_code 2 (ex_object 0x5000) 0x8000 1
    (Some (destroy_request 7)) 24 None 0) as [[[[ret r'] out] s']| | |] eqn:He;
    [|vm_compute in He; discriminate He..].
  pose proof (proj2 (invoke_lock_discipline X86_64 ex_img ex_code 2 (ex_object 0x5000) 0x8000 1
    (Some (destroy_request 7)) 24 None 0 eq_refl) ret r' out s' He) as Hl.
  exists s'. split; [vm_compute in He; congruence|]. split; [exact Hl|].
  vm_compute in He. injection He as _ _ _ <-. reflexivity.
Defined.

(** A DESTROY request cut down to its header, a NULL one, and a request to
    the record a DESTROY leaves. *)
Lemma invoke_rejects_before_dispatch_witness :
  (exists d, kernel_invoke AARCH64 ex_img ex_code 1 (ex_object 0x5000) 0x8000 1
      (Some [0; 0; 0; 0; 0; 0; 0; 0]) 8 None 0 = Ret (0, None, 0, kprintf (ex_object 0x5000) d)) /\
  (exists d, kernel_invoke AARCH64 ex_img ex_code 1 (ex_object 0x5000) 0x8000 1
      None 0 None 0 = Ret (0, None, 0, kprintf (ex_object 0x5000) d)) /\
  exists d, kernel_invoke X86_64 ex_img ex_code 1 ex_state 0x8000 1
      (Some (destroy_request 7)) 24 (Some [9]) 1 = Ret (0, Some [9], 0, kprintf ex_state d).
Proof.
  split; [|split].
  1, 2: apply (invoke_rejects_before_dispatch AARCH64 ex_img ex_code 0 (ex_object 0x5000) 0x8000 1
      _ _ None 0 (new_record 0x5000 0 0x1100 0)); [done|done|];
    apply (R_bad_message _ _ _ _ _ (bound_factory_table ex_img)
      {| method_id := 1; param_schema := 2; result_schema := SCHEMA_IDX_NONE |});
    [done|apply bound_factory_table_wf|by_compute|apply ex_resolves|].
  - split; [apply (readable_of_bytes [0; 0; 0; 0; 0; 0; 0; 0]); by_compute|].
    split; [by_compute|]. intros Hc.
    destruct (validate_conforms_to (of_bytes [0; 0; 0; 0; 0; 0; 0; 0]) 8
      (bound_factory_table ex_img) 2) as (b & Hb & Hbc);
      [apply (readable_of_bytes [0; 0; 0; 0; 0; 0; 0; 0]); by_compute|by_compute
      |apply bound_factory_table_wf|by_compute|].
    apply Hbc in Hc as ->. vm_compute in Hb. discriminate Hb.
  - by_compute.
  - apply (invoke_rejects_before_dispatch X86_64 ex_img ex_code 0 ex_state 0x8000 1
      (Some (destroy_request 7)) 24 (Some [9]) 1 dead_record); [done|done|]. by apply R_dead.
Defined.

Lemma invoke_success_sound_witness :
  exists rec t m, resolves (ex_object 0x5000) 0x8000 1 rec t m /\
    conforms_to t (param_schema m) (of_bytes (destroy_request 7)) 24.
Proof.
  destruct (kernel_invoke X86_64 ex_img ex_code 2 (ex_object 0x5000) 0x8000 1
    (Some (destroy_request 7)) 24 None 0) as [[[[ret r'] out] s']| | |] eqn:He;
    [|vm_compute in He; discriminate He..].
  assert (ret = 1) as -> by (vm_compute in He; congruence).
  destruct (invoke_success_sound X86_64 ex_img ex_code 1 (ex_object 0x5000) 0x8000 1
    (destroy_request 7) 24 None 0 r' out s') as (rec & t & m & Hr & Hc & _).
  - reflexivity.
  - apply ex_object_tables_wf.
  - intros p r Hp. assert (r = new_record 0x5000 0 0x1100 0 \/ r = bound_factory_record ex_img)
      as [-> | ->]; [|by_compute..].
    simpl in Hp. rewrite lookup_insert_Some, lookup_insert_Some, lookup_singleton_Some in Hp.
    intuition congruence.
  - by apply readable_frame.
  - by_compute.
  - exact He.
  - exists rec, t, m. exact (conj Hr Hc).
Defined.

Lemma invoke_discards_bad_response_witness :
  kernel_invoke X86_64 ex_img ex_code 1 (ex_object 0x6000) 0x8000 0
      (Some (create_request 1 2 3 4 5)) 56 (Some [0; 0; 0; 0; 9; 0; 0; 0]) 8
    = Ret (0, Some (replicate 8 0), 0,
        kprintf (ex_object 0x6000) (D_response_discarded 0x8000 0)).
Proof.
  apply (invoke_discards_bad_response X86_64 ex_img ex_code 0 (ex_object 0x6000) 0x8000 0
    (create_request 1 2 3 4 5) 56 [0; 0; 0; 0; 9; 0; 0; 0] (new_record 0x6000 0 0x1100 0)
    (bound_factory_table ex_img)
    {| method_id := 0; param_schema := 0; result_schema := 1 |}
    [0; 0; 0; 0; 9; 0; 0; 0] 8 (ex_object 0x6000)).
  - reflexivity.
  - by_compute.
  - apply bound_factory_table_wf.
  - by apply readable_frame.
  - by_compute.
  - repeat split; try done. by apply factory_declares.
  - pose proof (flat_conforms (bound_factory_table ex_img) 0 _ [1; 2; 3; 4; 5] []
      (factory_struct ex_img 0 _ eq_refl ltac:(done)) eq_refl ltac:(by_compute)
      ltac:(by_compute) ltac:(by_compute)) as Hf.
    rewrite app_nil_r in Hf. exact Hf.
  - reflexivity.
  - apply (readable_of_bytes [0; 0; 0; 0; 9; 0; 0; 0]). by_compute.
  - by_compute.
  - intros Hc.
    destruct (validate_conforms_to (of_bytes [0; 0; 0; 0; 9; 0; 0; 0]) 8
      (bound_factory_table ex_img) 1) as (b & Hb & Hbc);
      [apply (readable_of_bytes [0; 0; 0; 0; 9; 0; 0; 0]); by_compute|by_compute
      |apply bound_factory_table_wf|by_compute|].
    apply Hbc in Hc as ->. vm_compute in Hb. discriminate Hb.
Defined.

Lemma create_exact_witness :
  exists r' s', kernel_invoke X86_64 ex_img ex_code 1 ex_state 0x1000 0
      (Some (create_request 0x5000 3 0x1100 0 0x8000)) 56 (Some (replicate 32 1)) 32
    = Ret (1, r', 24, s') /\ recs s' !! 0x8000 = Some (new_record 0x5000 3 0x1100 0).
Proof.
  eexists _, _. split.
  - apply (create_exact X86_64 ex_img ex_code 0 ex_state 0x5000 3 0x1100 0 0x8000
      (replicate 32 1) 32); [apply ex_bootstrapped|by_compute|by_compute|by eexists|by_compute|by_compute].
  - reflexivity.
Defined.

Lemma destroy_exact_witness :
  kernel_invoke X86_64 ex_img ex_code 1 ex_state 0x1000 1 (Some (destroy_request 0x1000)) 24 None 0
    = Ret (1, None, 0, kprintf ex_state D_destroy_factory).
Proof.
  apply (destroy_exact X86_64 ex_img ex_code 0 ex_state 0x1000 (bound_factory_record ex_img));
    [apply ex_bootstrapped|by_compute|reflexivity].
Defined.

Lemma capability_lifecycle_witness :
  exists s1 : kstate unit, resolves s1 0x8000 1 (new_record 0x5000 3 0x1100 0) (bound_factory_table ex_img)
    {| method_id := 1; param_schema := 2; result_schema := SCHEMA_IDX_NONE |}.
Proof.
  destruct (capability_lifecycle X86_64 ex_img ex_code 0 ex_state 0x5000 3 0x1100 0 0x8000
    (replicate 32 1) 32 (bound_factory_table ex_img) 1
    {| method_id := 1; param_schema := 2; result_schema := SCHEMA_IDX_NONE |})
    as (r1 & s1 & s2 & s3 & _ & Hres & _);
    [apply ex_bootstrapped|by_compute|by_compute|by_compute|by eexists|by_compute|by_compute
    |by_compute|done|by apply factory_declares|].
  by exists s1.
Defined.
