(* ===== verification/CapType.v ===== *)
(** Machine types at the system call.

    The model of kernel/cap.c computes on unbounded integers and lists; the
    code computes on the fields of [cap_record_t], on bytes and on buffers
    whose size the caller fixed.  The theorem here says that the model never
    leaves those types: with well-typed records, messages and handlers,
    every system call gives well-typed records in the storage there was, a
    response of bytes in the buffer there was, and a C boolean. *)
From S2P Require Import Prelude CMem Schema Capnp Validate Cap CapProps CapInvoke.

(** * Types *)

(** The fields of [cap_record_t] at their widths; [valid] is an [int]. *)
Record record_typed (r : cap_record_t) : Prop := {
  rt_magic : is_u64 (magic r);
  rt_valid : - 2 ^ 31 <= valid r < 2 ^ 31;
  rt_handler : is_u64 (handler r);
  rt_data : is_u64 (data r);
  rt_table : is_u64 (schema_table r);
  rt_index : is_u16 (schema_index r) }.

(** A message or response: [NULL], or so many bytes. *)
Definition buf_typed (n : option nat) (b : option (list Z)) : Prop :=
  length <$> b = n /\ match b with Some bs => bytes_ok bs | None => True end.

Definition msg_typed (b : option (list Z)) : Prop := buf_typed (length <$> b) b.

Definition c_bool (ret : Z) : Prop := ret = 0 \/ ret = 1.

(** A handler that keeps to the types of [object_handler_fn]: it answers in
    the buffer it was given, of [n] bytes, and passes on messages of bytes
    and well-typed records, whatever its own calls return. *)
Fixpoint prog_typed {W} (n : option nat) (p : hprog W) : Prop :=
  match p with
  | HDone r out => buf_typed n r /\ is_u64 out
  | HInvoke _ _ msg _ r _ k =>
      msg_typed msg /\ msg_typed r /\
      forall ret r' out, c_bool ret -> buf_typed (length <$> r) r' -> is_u64 out ->
        prog_typed n (k ret r' out)
  | HStore _ r k => record_typed r /\ prog_typed n k
  | HGet k => forall w, prog_typed n (k w)
  | HPut _ k => prog_typed n k
  end.

Definition code_typed {W} (code : handlers W) : Prop :=
  forall p f, code p = Some f -> forall d id msg len r cap,
    msg_typed msg -> msg_typed r -> prog_typed (length <$> r) (f d id msg len r cap).

Definition records_typed (st : gmap Z cap_record_t) : Prop := map_Forall (fun _ => record_typed) st.

(** From [s] to [s']: still typed, in the same storage. *)
Definition typed_step {W} (s s' : kstate W) : Prop :=
  records_typed (recs s') /\ dom (recs s') = dom (recs s) /\ g_cap_lock s' = 0.

(** What a handler and a system call return. *)
Definition reply_typed {W} (n : option nat) (s : kstate W) : option (list Z) * Z * kstate W -> Prop :=
  fun '(r, out, s') => buf_typed n r /\ is_u64 out /\ typed_step s s'.
Definition call_typed {W} (n : option nat) (s : kstate W)
    : Z * option (list Z) * Z * kstate W -> Prop :=
  fun '(ret, r, out, s') => c_bool ret /\ reply_typed n s (r, out, s').

(** * Lemmas *)

Lemma wlp_rd_bytes rd p n :
  (forall q, wlp (rd q) is_u8) -> wlp (rd_bytes rd p n) (fun l => bytes_ok l /\ length l = n).
Proof.
  intros H. revert p. induction n as [|n IH]; intros p; simpl; [by split; [apply Forall_nil|]|].
  apply wlp_bind. eapply wlp_mono; [apply H|]. intros b Hb.
  apply wlp_bind. eapply wlp_mono; [apply IH|]. intros l [Hl Hn]. split; [by apply Forall_cons|].
  simpl. by rewrite Hn.
Qed.

Lemma wlp_rd_le64_typed rd p : (forall q, wlp (rd q) is_u8) -> wlp (rd_le64 rd p) is_u64.
Proof.
  intros H. apply wlp_bind. eapply wlp_mono; [by apply wlp_rd_bytes|]. intros l [Hl Hn].
  pose proof (le_val_range l Hl) as Hr. by rewrite Hn in Hr.
Qed.

Lemma wlp_deref_typed msg p : msg_typed msg -> wlp (deref_msg msg p) is_u8.
Proof.
  intros [_ H]. destruct msg as [bs|]; simpl; [|done].
  destruct (of_bytes bs p) as [b| | |] eqn:Hb; simpl; try done.
  - apply of_bytes_lookup in Hb as [_ Hb]. exact (Forall_lookup_1 _ _ _ _ H Hb).
  - unfold of_bytes in Hb. repeat case_match; by simplify_eq.
Qed.

Lemma wlp_word msg p : msg_typed msg -> wlp (rd_le64 (deref_msg msg) p) is_u64.
Proof. intros H. apply wlp_rd_le64_typed. intros q. by apply wlp_deref_typed. Qed.

Lemma u16_typed z : is_u16 (u16 z).
Proof. unfold is_u16, u16. apply Z.mod_pos_bound. lia. Qed.

Lemma store_response_typed n r bs :
  buf_typed n r -> bytes_ok bs -> wlp (store_response r bs) (buf_typed n).
Proof.
  intros [Hn Hr] Hb. unfold store_response. destruct r as [buf|]; [|done].
  destruct (Nat.leb_spec (length bs) (length buf)); simpl; [|done]. split.
  - rewrite <- Hn. simpl. f_equal. rewrite length_app, length_drop. lia.
  - apply Forall_app. split; [done|by apply Forall_drop].
Qed.

Section Typed.
Context {W : Type} (a : arch) (img : image) (code : handlers W).
Implicit Types s : kstate W.

Lemma typed_refl s : records_typed (recs s) -> g_cap_lock s = 0 -> typed_step s s.
Proof. done. Qed.

Lemma typed_trans s1 s2 s3 : typed_step s1 s2 -> typed_step s2 s3 -> typed_step s1 s3.
Proof. intros (_ & H1 & _) (H2 & H3 & H4). split; [done|]. split; [congruence|done]. Qed.

Lemma store_typed s p r :
  records_typed (recs s) -> g_cap_lock s = 0 -> record_typed r ->
  wlp (store_record s p r) (typed_step s).
Proof.
  intros Hs Hl Hr. unfold store_record. destruct (recs s !! p) as [r0|] eqn:Hp; [|done].
  split; [by apply map_Forall_insert_2|]. split; [|done]. simpl.
  rewrite dom_insert_lookup_L; [done|by eexists].
Qed.

Lemma create_typed s msg n r cap :
  records_typed (recs s) -> g_cap_lock s = 0 -> msg_typed msg -> buf_typed n r ->
  wlp (factory_create a s msg r cap) (reply_typed n s).
Proof.
  intros Hs Hl Hm Hr. rewrite factory_create_body by done. cbv zeta.
  do 5 (apply wlp_bind; eapply wlp_mono; [by apply wlp_word|]; intros ? ?; cbv beta).
  case_if; [done|]. apply wlp_bind. eapply wlp_mono.
  { apply store_typed; [done..|]. split; simpl; first [assumption|apply u16_typed|by_compute]. }
  intros s' Hs'. case_if; [|done]. apply wlp_bind.
  eapply wlp_mono; [apply store_response_typed; [exact Hr|]|by intros].
  repeat (apply Forall_app; split); try apply le_bytes_ok; by_compute.
Qed.

Lemma destroy_typed s msg n r :
  records_typed (recs s) -> g_cap_lock s = 0 -> msg_typed msg -> buf_typed n r ->
  wlp (factory_destroy a img s msg r) (reply_typed n s).
Proof.
  intros Hs Hl Hm Hr. rewrite factory_destroy_body by done.
  apply wlp_bind. eapply wlp_mono; [by apply wlp_word|]. intros p Hp. cbv beta.
  case_if; [done|]. unfold load_record. destruct (recs s !! p) as [r0|]; [|done]. rewrite ret_bind.
  case_if; [done|]. apply wlp_bind. apply (wlp_mono _ (typed_step s)); [|by intros].
  apply store_typed; [done..|]. split; by_compute.
Qed.

Lemma factory_typed s id msg n r cap :
  records_typed (recs s) -> g_cap_lock s = 0 -> msg_typed msg -> buf_typed n r ->
  wlp (factory_handler a img s id msg r cap) (reply_typed n s).
Proof.
  intros. unfold factory_handler.
  case_if; [by apply create_typed|]. case_if; [by apply destroy_typed|]. done.
Qed.

Lemma reply_after n s s' x : typed_step s s' -> reply_typed n s' x -> reply_typed n s x.
Proof. destruct x as [[r out] s'']. intros ? (? & ? & ?). split_and!; [done..|]. by eapply typed_trans. Qed.

Lemma run_typed invoke n p s :
  (forall s0 t id msg len r cap, records_typed (recs s0) -> g_cap_lock s0 = 0 ->
     msg_typed msg -> msg_typed r ->
     wlp (invoke s0 t id msg len r cap) (call_typed (length <$> r) s0)) ->
  prog_typed n p -> records_typed (recs s) -> g_cap_lock s = 0 ->
  wlp (run_handler invoke p s) (reply_typed n s).
Proof.
  intros Hinv. revert s.
  induction p as [r out|t id msg len r cap k IH|q r k IH|k IH|w k IH]; intros s Hp Hs Hl; simpl in *.
  - by destruct Hp.
  - destruct Hp as (Hm & Hr & Hk). apply wlp_bind. eapply wlp_mono; [by apply Hinv|].
    intros [[[ret r'] out] s'] (Hret & Hr' & Hout & Hs').
    eapply wlp_mono; [apply IH; [by apply Hk|apply Hs'..]|]. intros x. by apply reply_after.
  - destruct Hp as [Hr Hk]. apply wlp_bind. eapply wlp_mono; [by apply store_typed|]. intros s' Hs'.
    eapply wlp_mono; [apply IH; [done|apply Hs'..]|]. intros x. by apply reply_after.
  - by apply IH.
  - by apply (IH (with_world s w)).
Qed.

Lemma zero_typed n r cap : buf_typed n r -> wlp (zero_response r cap) (buf_typed n).
Proof.
  intros H. unfold zero_response. case_if; [done|]. apply store_response_typed; [done|].
  apply Forall_replicate. by_compute.
Qed.

Lemma invoke_typed fuel : forall s target id msg len r cap,
  code_typed code -> records_typed (recs s) -> g_cap_lock s = 0 -> msg_typed msg -> msg_typed r ->
  wlp (kernel_invoke a img code fuel s target id msg len r cap) (call_typed (length <$> r) s).
Proof.
  induction fuel as [|fuel IH]; intros s target id msg len r cap Hc Hs Hl Hm Hr; [done|].
  assert (forall r' d, buf_typed (length <$> r) r' ->
    call_typed (length <$> r) s (0, r', 0, kprintf s d)) as Hno.
  { intros r' d Hr'. split; [by left|]. by split_and!. }
  rewrite kernel_invoke_body by done.
  unfold load_record. destruct (recs s !! target) as [rec|] eqn:Hrec; [|done]. rewrite ret_bind.
  case_if; [by apply Hno|]. apply wlp_any_bind.
  { unfold table_at. case_if; [done|]. by destruct (tables s !! _). }
  intros T. apply wlp_any_bind; [apply wlp_find_method|]. intros [m|]; [|by apply Hno].
  apply wlp_any_bind; [apply wlp_validate_message|]. intros ok. case_if; [by apply Hno|].
  apply wlp_bind. eapply wlp_mono.
  { instantiate (1 := reply_typed (length <$> r) s). unfold call_handler.
    case_if; [by apply factory_typed|].
    destruct (code (handler rec)) as [f|] eqn:Hf; [|done].
    apply run_typed; [intros; by apply IH|by eapply Hc|done..]. }
  intros [[r' out] s'] (Hr' & Hout & Hs'). apply wlp_any_bind.
  { case_if; [done|apply wlp_validate_message]. }
  intros ok'. case_if.
  - cbv zeta. apply wlp_bind. eapply wlp_mono; [by apply zero_typed|]. intros r'' Hr''.
    split; [by left|]. by split_and!.
  - split; [by right|]. by split_and!.
Qed.

(** * Theorem *)

(** C12. The system call is well typed.  From records whose fields fit
    [cap_record_t], with a request and a response buffer of bytes and
    handlers that keep to the types of [object_handler_fn], a call that
    returns gives 0 or 1, a length of the width of [size_t], a response
    buffer of the same size that still holds bytes, and records that fit
    [cap_record_t] in exactly the storage there was: the kernel makes no
    record out of nothing and loses none, however deeply handlers re-enter
    it. *)
Theorem invoke_well_typed fuel s target id msg len r cap ret r' out s' :
  code_typed code -> records_typed (recs s) -> g_cap_lock s = 0 -> msg_typed msg -> msg_typed r ->
  kernel_invoke a img code fuel s target id msg len r cap = Ret (ret, r', out, s') ->
  (ret = 0 \/ ret = 1) /\ is_u64 out /\ buf_typed (length <$> r) r' /\
  records_typed (recs s') /\ dom (recs s') = dom (recs s).
Proof.
  intros Hc Hs Hl Hm Hr Hi. pose proof (invoke_typed fuel s target id msg len r cap Hc Hs Hl Hm Hr) as Hw.
  rewrite Hi in Hw. destruct Hw as (Hret & Hb & Hout & Hst & Hd & _). auto.
Qed.

End Typed.

(** * A call *)

Lemma ex_code_typed : code_typed ex_code.
Proof.
  intros p f H d id msg len r cap Hm Hr. unfold ex_code in H. repeat case_match; simplify_eq; simpl.
  - split; [split; [done|by_compute]|]. split; [done|]. intros. by split; [|by_compute].
  - by split; [|by_compute].
Qed.

Lemma ex_records_typed : records_typed (recs ex_state).
Proof.
  apply map_Forall_insert_2; [split; by_compute|]. apply map_Forall_singleton. split; by_compute.
Qed.

Lemma invoke_well_typed_witness :
  exists r' s', kernel_invoke X86_64 ex_img ex_code 1 ex_state 0x1000 0
      (Some (create_request 0x5000 3 0x1100 0 0x8000)) 56 (Some (replicate 32 1)) 32
    = Ret (1, r', 24, s') /\ buf_typed (Some 32%nat) r' /\ records_typed (recs s').
Proof.
  destruct (kernel_invoke X86_64 ex_img ex_code 1 ex_state 0x1000 0
      (Some (create_request 0x5000 3 0x1100 0 0x8000)) 56 (Some (replicate 32 1)) 32)
    as [[[[ret r'] out] s']| | |] eqn:Hi; [|by vm_compute in Hi..].
  destruct (invoke_well_typed X86_64 ex_img ex_code 1 ex_state 0x1000 0
    (Some (create_request 0x5000 3 0x1100 0 0x8000)) 56 (Some (replicate 32 1)) 32 ret r' out s'
    ex_code_typed ex_records_typed eq_refl ltac:(split; [done|simpl; by_compute])
    ltac:(split; [done|simpl; by_compute]) Hi) as (_ & _ & Hb & Hs & _).
  exists r', s'. split; [|exact (conj Hb Hs)]. clear Hb Hs. vm_compute in Hi. by injection Hi as <- <- <- <-.
Defined.
