(* ===== verification/CapBoot.v ===== *)
(** Bringing the factory up, and the edges of the capability layer's
    contract: what the checks of kernel/cap.c do not cover. *)
From S2P Require Import Prelude CMem Schema Capnp Validate ValidateSpec Cap CapProps CapInvoke.

(** The state of an image that has storage for its own statics. *)
Definition has_statics {W} (img : image) (s : kstate W) : Prop :=
  is_Some (recs s !! g_factory_record_at img) /\ is_Some (tables s !! g_factory_table_at img).

Section Boot.
Context {W : Type} (a : arch) (img : image) (code : handlers W).
Implicit Types s : kstate W.

Definition caps : initial_capabilities_t :=
  {| count := 1; factory_handle := g_factory_record_at img |}.

Lemma bound_already : already_bound img (bound_factory_record img) (bound_factory_table img) = true.
Proof. unfold already_bound. simpl. by rewrite !Z.eqb_refl. Qed.

Lemma bootstrap_bound s r t :
  recs s !! g_factory_record_at img = Some r -> tables s !! g_factory_table_at img = Some t ->
  already_bound img r t = true -> g_cap_lock s = 0 ->
  kernel_cap_bootstrap a img s = Ret (caps, s).
Proof.
  intros Hr Ht Hab Hl. unfold kernel_cap_bootstrap, load_record. cbv zeta.
  rewrite Hr, ret_bind, Ht, Hab, cap_lock_free, ret_bind by done. by rewrite unlock_locked.
Qed.

(** What the rebinding branch makes of a state. *)
Definition rebound s : kstate W :=
  Build_kstate (<[g_factory_record_at img := bound_factory_record img]> (recs s))
    (<[g_factory_table_at img := bound_factory_table img]> (tables s))
    0 (cpu_flags s) (klog s) (world s).

Lemma bootstrap_rebinds s r t :
  recs s !! g_factory_record_at img = Some r -> tables s !! g_factory_table_at img = Some t ->
  already_bound img r t = false -> kernel_cap_bootstrap a img s = Ret (caps, rebound s).
Proof.
  intros Hr Ht Hab. unfold kernel_cap_bootstrap, load_record. cbv zeta.
  rewrite Hr, ret_bind, Ht, Hab. unfold store_record. simpl. by rewrite Hr.
Qed.

(** Bootstrap establishes the factory and is idempotent.  From any
    state with room for this image's statics (zeroed, stale, or copied byte
    for byte from another core's image with its lock held), unless the
    statics are this image's own already, it returns this image's factory
    handle and leaves a bootstrapped state; running it again, as every core
    of a shared image does, returns the same handle and changes nothing at
    all, and every other record and table is untouched. *)
Theorem bootstrap_idempotent s r t :
  recs s !! g_factory_record_at img = Some r -> tables s !! g_factory_table_at img = Some t ->
  already_bound img r t = false -> g_factory_table_at img <> 0 ->
  exists s',
    kernel_cap_bootstrap a img s = Ret (caps, s') /\ bootstrapped img s' /\
    kernel_cap_bootstrap a img s' = Ret (caps, s') /\
    (forall p, p <> g_factory_record_at img -> recs s' !! p = recs s !! p) /\
    (forall p, p <> g_factory_table_at img -> tables s' !! p = tables s !! p).
Proof.
  intros Hr Ht Hab Hnz. exists (rebound s). split; [by eapply bootstrap_rebinds|].
  assert (recs (rebound s) !! g_factory_record_at img = Some (bound_factory_record img)) as Hr'
    by apply lookup_insert_eq.
  assert (tables (rebound s) !! g_factory_table_at img = Some (bound_factory_table img)) as Ht'
    by apply lookup_insert_eq.
  split; [by constructor|]. split.
  - eapply bootstrap_bound; [exact Hr'|exact Ht'|apply bound_already|done].
  - split; intros p Hp; simpl; by rewrite lookup_insert_ne.
Qed.

(** A core that runs on a byte-for-byte copy of another image always
    rebinds: if the record in its statics still points at the other image's
    table, bootstrap makes the copy self-contained and frees the lock,
    whatever the copied lock word was. *)
Theorem copied_image_rebinds img0 s t :
  recs s !! g_factory_record_at img = Some (bound_factory_record img0) ->
  tables s !! g_factory_table_at img = Some t ->
  g_factory_table_at img0 <> g_factory_table_at img ->
  exists s', kernel_cap_bootstrap a img s = Ret (caps, s') /\ g_cap_lock s' = 0 /\
    recs s' !! g_factory_record_at img = Some (bound_factory_record img) /\
    tables s' !! g_factory_table_at img = Some (bound_factory_table img).
Proof.
  intros Hr Ht Hne. exists (rebound s). split.
  - eapply bootstrap_rebinds; [done|done|]. unfold already_bound. simpl.
    by rewrite (proj2 (Z.eqb_neq _ _) Hne).
  - split; [done|]. split; apply lookup_insert_eq.
Qed.

(** ** The edges *)

(** The factory is protected from DESTROY but not from CREATE: a
    request whose record storage is the factory's own handle is accepted
    and replaces the factory's record, so that the factory's handle then
    names the caller's object. *)
Theorem create_can_replace_factory fuel s h d t i r cap :
  bootstrapped img s -> Forall is_u64 [h; d; t; i; g_factory_record_at img] ->
  g_factory_record_at img <> 0 -> 24 <= cap <= Z.of_nat (length r) -> bytes_ok r ->
  exists r' s',
    kernel_invoke a img code (S fuel) s (g_factory_record_at img) FACTORY_METHOD_CREATE
      (Some (create_request h d t i (g_factory_record_at img))) 56 (Some r) cap
      = Ret (1, r', 24, s') /\
    recs s' !! g_factory_record_at img = Some (new_record h d t i).
Proof.
  intros Hb Hu Hnz Hc Hok. eexists _, _. split.
  - apply create_invoke; try done. destruct Hb as [Hr _ _ _]. by eexists.
  - apply lookup_insert_eq.
Qed.

(** CREATE is not atomic with its answer: a caller that offers fewer
    than 24 bytes for the response is told the call failed, with its buffer
    zeroed, and yet the record has been written and is live. *)
Theorem create_without_room_for_handle fuel s h d t i st r :
  bootstrapped img s -> Forall is_u64 [h; d; t; i; st] -> st <> 0 -> is_Some (recs s !! st) ->
  Z.of_nat (length r) < 24 ->
  exists s',
    kernel_invoke a img code (S fuel) s (g_factory_record_at img) FACTORY_METHOD_CREATE
      (Some (create_request h d t i st)) 56 (Some r) (Z.of_nat (length r))
      = Ret (0, Some (replicate (length r) 0), 0, s') /\
    recs s' !! st = Some (new_record h d t i).
Proof.
  intros Hb Hu Hst Hsome Hr. eexists.
  rewrite create_dispatch, create_handler by (done || apply Hb).
  destruct (Z.leb_spec 24 (Z.of_nat (length r))); [lia|].
  rewrite ret_bind. simpl fmap.
  change (capnp_validate_message (Some (of_bytes r)) 0 (Some (bound_factory_table img)) 1)
    with (Ret false). rewrite ret_bind. simpl negb. cbv iota zeta.
  unfold zero_response. destruct (Z.eqb_spec (Z.of_nat (length r)) 0) as [H0|_].
  - destruct r; [|done]. split; [done|]. apply lookup_insert_eq.
  - rewrite store_response_front by (rewrite length_replicate; lia).
    rewrite length_replicate, Nat2Z.id, drop_all, app_nil_r.
    split; [done|]. apply lookup_insert_eq.
Qed.

(** A root pointer with offset -1 makes the root struct start at the pointer
    itself; the segment is then one word shorter than the factory assumes. *)
Definition overlapped_request (n : Z) (ws : list Z) : list Z :=
  frame_bytes (enc_struct_ptr (-1) n 0 :: ws).

Lemma overlapped_conforms id m ws ss :
  g_factory_methods !! Z.to_nat id = Some m ->
  table_struct (bound_factory_table img) (param_schema m) ss ->
  pointer_count ss = 0 -> data_words ss = 1 + nwords ws -> 1 + nwords ws < 2 ^ 16 ->
  Forall is_u64 ws ->
  conforms_to (bound_factory_table img) (param_schema m)
    (of_bytes (overlapped_request (1 + nwords ws) ws)) (8 + 8 * (1 + nwords ws)).
Proof.
  intros Hm Hss Hpc Hdw Hn Hu. right. set (all := enc_struct_ptr (-1) (1 + nwords ws) 0 :: ws).
  assert (nwords all = 1 + nwords ws) as Hall by (unfold all, nwords; simpl; lia).
  assert (0 <= nwords ws) by (unfold nwords; lia).
  exists all. split.
  - replace (8 + 8 * (1 + nwords ws)) with (8 + 8 * nwords all) by lia.
    unfold overlapped_request. fold all. rewrite <- (app_nil_r (frame_bytes all)).
    apply framed_frame; [|ulia]. constructor; [|done].
    unfold enc_struct_ptr, is_u64. change (-1 mod 2 ^ 30) with (2 ^ 30 - 1). lia.
  - exists (enc_struct_ptr (-1) (1 + nwords ws) 0). split; [done|]. right.
    rewrite decode_enc_struct by (ulia || congruence).
    cbn [tag offset_words p_data_words p_ptr_words].
    split; [done|]. split; [lia|]. split; [lia|]. right. exists ss.
    split; [done|]. split; [lia|]. intros i Hi. rewrite Hpc in Hi. lia.
Qed.

Lemma overlapped_dispatch fuel s id m ws ss response cap :
  bootstrapped img s -> g_factory_methods !! Z.to_nat id = Some m -> 0 <= id ->
  table_struct (bound_factory_table img) (param_schema m) ss ->
  pointer_count ss = 0 -> data_words ss = 1 + nwords ws -> 1 + nwords ws < 2 ^ 16 ->
  Forall is_u64 ws ->
  let req := overlapped_request (1 + nwords ws) ws in
  kernel_invoke a img code (S fuel) s (g_factory_record_at img) id (Some req)
      (8 + 8 * (1 + nwords ws)) response cap =
    ('(response, out_len, s) ← factory_handler a img s id (Some req) response cap;
     ok ← (if result_schema m =? SCHEMA_IDX_NONE then Ret true
           else capnp_validate_message (of_bytes <$> response) out_len
                  (Some (bound_factory_table img)) (result_schema m));
     if negb ok then
       let s := kprintf s (D_response_discarded (u32 (g_factory_record_at img)) id) in
       response ← zero_response response cap;
       Ret (0, response, 0, s)
     else Ret (1, response, out_len, s)).
Proof.
  intros Hb Hm Hi Hss Hpc Hdw Hn Hu req. assert (0 <= nwords ws) by (unfold nwords; lia).
  rewrite (invoke_dispatch a img code fuel s _ id req _ response cap
    (bound_factory_record img) (bound_factory_table img) m).
  - unfold call_handler. simpl. by rewrite Z.eqb_refl.
  - by destruct Hb.
  - apply bound_factory_table_wf.
  - ulia.
  - apply readable_frame. unfold nwords. simpl. lia.
  - done.
  - by apply factory_resolves.
  - by eapply overlapped_conforms.
Qed.

Lemma overlapped_word ws n i w :
  Forall is_u64 ws -> word_at ws i w -> is_u16 n ->
  rd_le64 (deref_msg (Some (overlapped_request n ws))) (16 + 8 * i) = Ret w.
Proof.
  intros Hu [Hi Hw] Hn. simpl deref_msg. unfold overlapped_request.
  rewrite <- (app_nil_r (frame_bytes _)).
  replace (16 + 8 * i) with (8 + 8 * (1 + i)) by lia. apply frame_words_read.
  - constructor; [|done]. unfold enc_struct_ptr, is_u64.
    change (-1 mod 2 ^ 30) with (2 ^ 30 - 1). ulia.
  - split; [lia|]. by replace (Z.to_nat (1 + i)) with (S (Z.to_nat i)) by lia.
Qed.

(** The factory reads past a request the kernel has validated: it
    takes the data words from a fixed offset, which is right only for root
    pointers with offset 0, while the validator accepts -1 as well.  A CREATE
    request of 48 bytes and a DESTROY request of 16 bytes, both accepted,
    make the handler touch the first byte after the message. *)
Theorem factory_reads_past_request fuel s w1 w2 w3 w4 response cap :
  bootstrapped img s -> Forall is_u64 [w1; w2; w3; w4] ->
  let create := overlapped_request 5 [w1; w2; w3; w4] in
  let destroy := overlapped_request 1 [] in
  length create = 48%nat /\ length destroy = 16%nat /\
  kernel_invoke a img code (S fuel) s (g_factory_record_at img) FACTORY_METHOD_CREATE
    (Some create) 48 response cap = Fault 48 /\
  kernel_invoke a img code (S fuel) s (g_factory_record_at img) FACTORY_METHOD_DESTROY
    (Some destroy) 16 response cap = Fault 16.
Proof.
  intros Hb Hu create destroy. split; [done|]. split; [done|]. split.
  - pose proof (overlapped_dispatch fuel s 0 _ [w1; w2; w3; w4] _ response cap Hb eq_refl
      ltac:(done) (factory_struct img 0 _ eq_refl ltac:(done)) eq_refl eq_refl ltac:(done) Hu)
      as Heq.
    change (1 + nwords [w1; w2; w3; w4]) with 5 in Heq. change (8 + 8 * 5) with 48 in Heq. cbv zeta in Heq.
    unfold FACTORY_METHOD_CREATE, create. rewrite Heq. clear Heq.
    unfold factory_handler. change (0 =? FACTORY_METHOD_CREATE) with true. cbv iota.
    rewrite factory_create_body by apply Hb. cbv beta zeta.
    pose proof (overlapped_word _ 5 0 w1 Hu ltac:(done) ltac:(by_compute)) as ->. rewrite ret_bind.
    pose proof (overlapped_word _ 5 1 w2 Hu ltac:(done) ltac:(by_compute)) as ->. rewrite ret_bind.
    pose proof (overlapped_word _ 5 2 w3 Hu ltac:(done) ltac:(by_compute)) as ->. rewrite ret_bind.
    pose proof (overlapped_word _ 5 3 w4 Hu ltac:(done) ltac:(by_compute)) as ->. rewrite ret_bind.
    done.
  - pose proof (overlapped_dispatch fuel s 1 _ [] _ response cap Hb eq_refl
      ltac:(done) (factory_struct img 2 _ eq_refl ltac:(done)) eq_refl eq_refl ltac:(done)
      ltac:(constructor)) as Heq.
    change (1 + nwords []) with 1 in Heq. change (8 + 8 * 1) with 16 in Heq. cbv zeta in Heq.
    unfold FACTORY_METHOD_DESTROY at 1, destroy. rewrite Heq. clear Heq.
    unfold factory_handler. change (1 =? FACTORY_METHOD_CREATE) with false.
    change (1 =? FACTORY_METHOD_DESTROY) with true. cbv iota.
    by rewrite factory_destroy_body by apply Hb.
Qed.

(** The kernel takes the length a handler reports on trust: with a
    response buffer of four zero bytes and a handler that reports eight or
    more, validating the response reads past the buffer. *)
Theorem claimed_length_reads_past_response fuel s target id bs len rec t m ss out s1 r :
  g_cap_lock s = 0 -> is_u16 (schema_index rec) -> table_wf t ->
  readable (of_bytes bs) 0 len -> is_u64 len ->
  resolves s target id rec t m -> conforms_to t (param_schema m) (of_bytes bs) len ->
  table_struct t (result_schema m) ss -> 8 <= out ->
  call_handler a img code (kernel_invoke a img code fuel) s rec id (Some bs) len (Some r) 4
    = Ret (Some [0; 0; 0; 0], out, s1) ->
  kernel_invoke a img code (S fuel) s target id (Some bs) len (Some r) 4 = Fault 4.
Proof.
  intros Hlk Hi Hwf Hrd Hlen Hres Hp Hss Hout Hc. unfold is_u16 in Hi.
  rewrite (invoke_dispatch a img code fuel s target id bs len _ 4 rec t m) by (done || lia).
  rewrite Hc, ret_bind. pose proof Hss as (Hne & ? & _).
  rewrite (proj2 (Z.eqb_neq _ _) Hne). unfold capnp_validate_message.
  rewrite (proj2 (Z.eqb_neq _ _) Hne).
  assert (schema_struct (Some t) (result_schema m) = Ret (Some ss)) as ->.
  { apply schema_struct_Some; [lia|]. exists t. destruct Hss as (? & ? & ?). eauto with lia. }
  rewrite ret_bind. simpl fmap. cbv iota. destruct (Z.ltb_spec out 8); [lia|]. done.
Qed.

End Boot.

(** * The theorems at work *)

(** Zeroed statics with the lock word set, as a copy of a busy image has. *)
Definition null_table : schema_table_t := {|
  t_structs := Build_arr 0 []; t_struct_count := 0;
  t_pointers := Build_arr 0 []; t_pointer_count := 0;
  t_methods := Build_arr 0 []; t_method_count := 0;
  t_objects := Build_arr 0 []; t_object_count := 0 |}.

Definition ex_cold (r : cap_record_t) : kstate unit :=
  Build_kstate {[0x1000 := r]} {[0x1100 := null_table]} 1 0x202 [] tt.

Lemma bootstrap_idempotent_witness :
  exists s', kernel_cap_bootstrap X86_64 ex_img (ex_cold dead_record) = Ret (caps ex_img, s') /\
    bootstrapped ex_img s'.
Proof.
  destruct (bootstrap_idempotent X86_64 ex_img (ex_cold dead_record) dead_record null_table)
    as (s' & H1 & H2 & _); [done|done|done|by_compute|].
  by exists s'.
Defined.

(** The image an application processor copies from. *)
Definition ex_bsp_img : image := {|
  g_factory_record_at := 0x101000; g_factory_table_at := 0x101100;
  g_factory_structs_at := 0x101200; g_factory_pointers_at := 0x101300;
  g_factory_methods_at := 0x101400; g_factory_objects_at := 0x101500;
  factory_handler_at := 0x102000 |}.

Lemma copied_image_rebinds_witness :
  exists s', kernel_cap_bootstrap AARCH64 ex_img (ex_cold (bound_factory_record ex_bsp_img))
      = Ret (caps ex_img, s') /\ g_cap_lock s' = 0.
Proof.
  destruct (copied_image_rebinds AARCH64 ex_img ex_bsp_img
    (ex_cold (bound_factory_record ex_bsp_img)) null_table)
    as (s' & H1 & H2 & _); [done|done|by_compute|].
  by exists s'.
Defined.

Lemma create_can_replace_factory_witness :
  exists r' s', kernel_invoke X86_64 ex_img ex_code 1 ex_state 0x1000 0
      (Some (create_request 0x6000 0 0x1100 0 0x1000)) 56 (Some (replicate 24 0)) 24
      = Ret (1, r', 24, s') /\ recs s' !! 0x1000 = Some (new_record 0x6000 0 0x1100 0).
Proof.
  apply (create_can_replace_factory X86_64 ex_img ex_code 0 ex_state 0x6000 0 0x1100 0
    (replicate 24 0) 24); [apply ex_bootstrapped|by_compute..].
Defined.

Lemma create_without_room_for_handle_witness :
  exists s', kernel_invoke X86_64 ex_img ex_code 1 ex_state 0x1000 0
      (Some (create_request 0x6000 0 0x1100 0 0x8000)) 56 (Some (replicate 16 7)) 16
      = Ret (0, Some (replicate 16 0), 0, s') /\
    recs s' !! 0x8000 = Some (new_record 0x6000 0 0x1100 0).
Proof.
  apply (create_without_room_for_handle X86_64 ex_img ex_code 0 ex_state 0x6000 0 0x1100 0
    0x8000 (replicate 16 7)); [apply ex_bootstrapped|by_compute|by_compute|by eexists|by_compute].
Defined.

Lemma factory_reads_past_request_witness :
  kernel_invoke X86_64 ex_img ex_code 1 ex_state 0x1000 0
    (Some (overlapped_request 5 [1; 2; 3; 4])) 48 None 0 = Fault 48.
Proof.
  apply (factory_reads_past_request X86_64 ex_img ex_code 0 ex_state 1 2 3 4 None 0);
    [apply ex_bootstrapped|by_compute].
Defined.

Lemma claimed_length_reads_past_response_witness :
  kernel_invoke X86_64 ex_img ex_code 1 (ex_object 0x6000) 0x8000 0
    (Some (create_request 1 2 3 4 5)) 56 (Some [0; 0; 0; 0]) 4 = Fault 4.
Proof.
  apply (claimed_length_reads_past_response X86_64 ex_img ex_code 0 (ex_object 0x6000) 0x8000 0
    (create_request 1 2 3 4 5) 56 (new_record 0x6000 0 0x1100 0) (bound_factory_table ex_img)
    {| method_id := 0; param_schema := 0; result_schema := 1 |}
    {| data_words := 1; pointer_count := 0; first_pointer := SCHEMA_IDX_NONE |}
    8 (ex_object 0x6000)).
  - reflexivity.
  - by_compute.
  - apply bound_factory_table_wf.
  - by apply readable_frame.
  - by_compute.
  - repeat split; try done. by apply factory_declares.
  - pose proof (flat_conforms (bound_factory_table ex_img) 0 _ [1; 2; 3; 4; 5] []
      (factory_struct ex_img 0 _ eq_refl ltac:(done)) eq_refl ltac:(by_compute)
      ltac:(by_compute) ltac:(by_compute)) as Hf.
    rewrite app_nil_r in Hf. exact Hf.
  - by apply factory_struct.
  - by_compute.
  - reflexivity.
Defined.
