(* ===== verification/CapSmp.v ===== *)
(** The capability lock on several cores: the critical sections of
    kernel/cap.c under every interleaving.

    Cap.v runs one core, where the lock is never contended.  Here any number
    of cores and the interrupt handlers on them run the lock's code step by
    step: masking interrupts, the atomic test-and-set, the inner spin, each
    single load and store of a record's field, the release, and the
    restoration of the flags.  An interrupt may arrive whenever the core has
    them enabled and its handler may call into the kernel again.  The
    theorems say that the sections are nonetheless atomic, in the order the
    lock is released, and that a held lock is always released. *)
From stdpp Require Import relations.
From S2P Require Import Prelude CMem Schema Capnp Validate Cap CapProps.

(** * Critical sections *)

Inductive field := F_magic | F_valid | F_handler | F_data | F_schema_table | F_schema_index.

Definition get_field (f : field) (r : cap_record_t) : Z :=
  match f with
  | F_magic => magic r | F_valid => valid r | F_handler => handler r
  | F_data => data r | F_schema_table => schema_table r | F_schema_index => schema_index r
  end.

Definition set_field (f : field) (v : Z) (r : cap_record_t) : cap_record_t :=
  match f with
  | F_magic => Build_cap_record_t v (valid r) (handler r) (data r) (schema_table r) (schema_index r)
  | F_valid => Build_cap_record_t (magic r) v (handler r) (data r) (schema_table r) (schema_index r)
  | F_handler => Build_cap_record_t (magic r) (valid r) v (data r) (schema_table r) (schema_index r)
  | F_data => Build_cap_record_t (magic r) (valid r) (handler r) v (schema_table r) (schema_index r)
  | F_schema_table => Build_cap_record_t (magic r) (valid r) (handler r) (data r) v (schema_index r)
  | F_schema_index => Build_cap_record_t (magic r) (valid r) (handler r) (data r) (schema_table r) v
  end.

(** What a section learns: the record was not live, a copy of it, or that it
    has been stored. *)
Inductive cres := CR_refused | CR_copied (r : cap_record_t) | CR_stored.

#[export] Instance cres_eq_dec : EqDecision cres.
Proof. solve_decision. Defined.

(** The code between [cap_lock] and [cap_unlock]: one memory access at a
    time. *)
Inductive crit :=
| CDone (res : cres)
| CRead (p : Z) (f : field) (k : Z -> crit)
| CWrite (p : Z) (f : field) (v : Z) (k : crit).

(** [if (r->magic != CAP_RECORD_MAGIC || !r->valid) ... else live] *)
Definition check_live (p : Z) (live : crit) : crit :=
  CRead p F_magic (fun m =>
    if negb (m =? CAP_RECORD_MAGIC) then CDone CR_refused
    else CRead p F_valid (fun v => if v =? 0 then CDone CR_refused else live)).

(** [record = *target_record] *)
Definition copy_record (p : Z) : crit :=
  CRead p F_magic (fun m => CRead p F_valid (fun v => CRead p F_handler (fun h =>
  CRead p F_data (fun d => CRead p F_schema_table (fun t => CRead p F_schema_index (fun i =>
    CDone (CR_copied (Build_cap_record_t m v h d t i)))))))).

(** The operations that take the lock. *)
Inductive op :=
| OInvoke (target : Z)
| OCreate (record_storage handler data schema_table schema_index : Z)
| ODestroy (target : Z)
| OBootstrap.

(** Each one's critical section. *)
Definition invoke_crit (p : Z) : crit := check_live p (copy_record p).

Definition create_crit (p h d t i : Z) : crit :=
  CWrite p F_magic CAP_RECORD_MAGIC (CWrite p F_valid 1 (CWrite p F_handler h
    (CWrite p F_data d (CWrite p F_schema_table t (CWrite p F_schema_index i
      (CDone CR_stored)))))).

Definition destroy_crit (p : Z) : crit :=
  check_live p
    (CWrite p F_valid 0 (CWrite p F_magic 0 (CWrite p F_handler 0 (CWrite p F_data 0
      (CWrite p F_schema_table 0 (CWrite p F_schema_index SCHEMA_IDX_NONE
        (CDone CR_stored))))))).

Definition body (o : op) : crit :=
  match o with
  | OInvoke p => invoke_crit p
  | OCreate p h d t i => create_crit p h d t i
  | ODestroy p => destroy_crit p
  | OBootstrap => CDone CR_stored
  end.

(** * Cores *)

(** Where an activation is in [cap_lock] / section / [cap_unlock].  [prior]
    is the flags word it saved. *)
Inductive act :=
| AIdle
| AStart (o : op)
| ATry (o : op) (prior : Z)
| ASpin (o : op) (prior : Z)
| ACrit (o : op) (prior : Z) (k : crit)
| AUnmask (o : op) (prior : Z) (res : cres).

(** A core: its flags, the activation that runs, and the ones that
    interrupts suspended, with the flags the return will restore. *)
Record core := { fl : Z; top : act; below : list (act * Z) }.

(** [hist]: the operations whose sections are over, oldest first. *)
Record sys := { lock : Z; store : gmap Z cap_record_t; cores : nat -> core; hist : list (op * cres) }.

Definition set_core (f : nat -> core) (c : nat) (x : core) : nat -> core :=
  fun c' => if decide (c' = c) then x else f c'.

(** [c] runs activation [x] next, with flags [f]. *)
Definition run_top (s : sys) (c : nat) (f : Z) (x : act) : nat -> core :=
  set_core (cores s) c {| fl := f; top := x; below := below (cores s c) |}.

(** * Atomic operations *)

(** A section run to its end with nothing in between. *)
Fixpoint run_crit (k : crit) (st : gmap Z cap_record_t) : option (cres * gmap Z cap_record_t) :=
  match k with
  | CDone res => Some (res, st)
  | CRead p f k => match st !! p with Some r => run_crit (k (get_field f r)) st | None => None end
  | CWrite p f v k =>
      match st !! p with Some r => run_crit k (<[p := set_field f v r]> st) | None => None end
  end.

(** The operations as the sequential model has them: [load_record] and
    [is_live], [store_record]. *)
Definition atomic (o : op) (st : gmap Z cap_record_t) : option (cres * gmap Z cap_record_t) :=
  match o with
  | OInvoke p =>
      r ← st !! p; Some (if is_live r then CR_copied r else CR_refused, st)
  | OCreate p h d t i =>
      _ ← st !! p; Some (CR_stored, <[p := Build_cap_record_t CAP_RECORD_MAGIC 1 h d t i]> st)
  | ODestroy p =>
      r ← st !! p;
      if is_live r then Some (CR_stored, <[p := Build_cap_record_t 0 0 0 0 0 SCHEMA_IDX_NONE]> st)
      else Some (CR_refused, st)
  | OBootstrap => Some (CR_stored, st)
  end.

(** Replays a history one atomic operation after the other: the store it
    ends in, provided every operation gives the recorded result. *)
Fixpoint replay (h : list (op * cres)) (st : gmap Z cap_record_t) : option (gmap Z cap_record_t) :=
  match h with
  | [] => Some st
  | (o, res) :: h' =>
      match atomic o st with
      | Some (res', st') => if decide (res = res') then replay h' st' else None
      | None => None
      end
  end.

(** * Steps *)

Section Smp.
Context (a : arch).

(** One step of core [c]. *)
Inductive step (c : nat) (s : sys) : sys -> Prop :=
| S_call o :
    top (cores s c) = AIdle ->
    step c s {| lock := lock s; store := store s; hist := hist s;
      cores := run_top s c (fl (cores s c)) (AStart o) |}
| S_mask o :
    top (cores s c) = AStart o ->
    step c s {| lock := lock s; store := store s; hist := hist s;
      cores := run_top s c (irq_mask a (fl (cores s c))) (ATry o (fl (cores s c))) |}
| S_acquire o prior :
    top (cores s c) = ATry o prior -> lock s = 0 ->
    step c s {| lock := 1; store := store s; hist := hist s;
      cores := run_top s c (fl (cores s c)) (ACrit o prior (body o)) |}
| S_busy o prior :
    top (cores s c) = ATry o prior -> lock s <> 0 ->
    step c s {| lock := 1; store := store s; hist := hist s;
      cores := run_top s c (fl (cores s c)) (ASpin o prior) |}
| S_spin o prior :
    top (cores s c) = ASpin o prior ->
    step c s {| lock := lock s; store := store s; hist := hist s;
      cores := run_top s c (fl (cores s c))
        (if lock s =? 0 then ATry o prior else ASpin o prior) |}
| S_read o prior p f k r :
    top (cores s c) = ACrit o prior (CRead p f k) -> store s !! p = Some r ->
    step c s {| lock := lock s; store := store s; hist := hist s;
      cores := run_top s c (fl (cores s c)) (ACrit o prior (k (get_field f r))) |}
| S_write o prior p f v k r :
    top (cores s c) = ACrit o prior (CWrite p f v k) -> store s !! p = Some r ->
    step c s {| lock := lock s; store := <[p := set_field f v r]> (store s); hist := hist s;
      cores := run_top s c (fl (cores s c)) (ACrit o prior k) |}
| S_release o prior res :
    top (cores s c) = ACrit o prior (CDone res) ->
    step c s {| lock := 0; store := store s; hist := hist s ++ [(o, res)];
      cores := run_top s c (fl (cores s c)) (AUnmask o prior res) |}
| S_unmask o prior res :
    top (cores s c) = AUnmask o prior res ->
    step c s {| lock := lock s; store := store s; hist := hist s;
      cores := run_top s c
        (if irq_was_enabled a prior then irq_unmask a (fl (cores s c)) else fl (cores s c)) AIdle |}
| S_interrupt :
    irq_was_enabled a (fl (cores s c)) = true ->
    step c s {| lock := lock s; store := store s; hist := hist s;
      cores := set_core (cores s) c {| fl := irq_mask a (fl (cores s c)); top := AIdle;
        below := (top (cores s c), fl (cores s c)) :: below (cores s c) |} |}
| S_return x f rest :
    top (cores s c) = AIdle -> below (cores s c) = (x, f) :: rest ->
    step c s {| lock := lock s; store := store s; hist := hist s;
      cores := set_core (cores s) c {| fl := f; top := x; below := rest |} |}.

Definition any_step (s s' : sys) : Prop := exists c, step c s s'.

(** Before any core has called into the kernel. *)
Record boot_state (st0 : gmap Z cap_record_t) (s : sys) : Prop := {
  b_lock : lock s = 0; b_store : store s = st0; b_hist : hist s = [];
  b_cores : forall c, top (cores s c) = AIdle /\ below (cores s c) = [] }.

Definition reachable (st0 : gmap Z cap_record_t) (s : sys) : Prop :=
  exists s0, boot_state st0 s0 /\ rtc any_step s0 s.

(** * Lemmas: sections and flags *)

Lemma irq_mask_masks f : irq_was_enabled a (irq_mask a f) = false.
Proof.
  destruct a; unfold irq_was_enabled, irq_mask; rewrite testbit_land_pow2 by lia;
    rewrite Z.shiftl_1_l.
  - by rewrite negb_involutive, Z.ldiff_spec, Z.pow2_bits_true, andb_false_r by lia.
  - by rewrite Z.lor_spec, Z.pow2_bits_true, orb_true_r by lia.
Qed.

(** Run without interference, a section is the atomic operation. *)
Lemma run_body o st : run_crit (body o) st = atomic o st.
Proof.
  destruct o as [p|p h d t i|p|]; simpl; [..|done].
  - destruct (st !! p) as [r|] eqn:Hr; simpl; [|done].
    unfold is_live. destruct (magic r =? CAP_RECORD_MAGIC); simpl; rewrite ?Hr; [|done].
    destruct (valid r =? 0); simpl; rewrite ?Hr; [done|]. by destruct r.
  - destruct (st !! p) as [r|] eqn:Hr; simpl; [|done].
    repeat (rewrite lookup_insert_eq; simpl). by rewrite !insert_insert_eq.
  - destruct (st !! p) as [r|] eqn:Hr; simpl; [|done].
    unfold is_live. destruct (magic r =? CAP_RECORD_MAGIC); simpl; rewrite ?Hr; [|done].
    destruct (valid r =? 0); simpl; rewrite ?Hr; [done|].
    repeat (rewrite lookup_insert_eq; simpl). by rewrite !insert_insert_eq.
Qed.

Lemma replay_snoc h o res st0 st st' :
  replay h st0 = Some st -> atomic o st = Some (res, st') -> replay (h ++ [(o, res)]) st0 = Some st'.
Proof.
  revert st0. induction h as [|[o' res'] h IH]; intros st0 Hh Ho; simpl in *.
  - simplify_eq. rewrite Ho. by rewrite decide_True.
  - destruct (atomic o' st0) as [[r s]|]; [|done]. case_decide; [|done]. by apply IH.
Qed.

(** * The invariant *)

(** The flags an activation has saved, and the section it is in. *)
Definition prior_of (x : act) : option Z :=
  match x with
  | ATry _ prior | ASpin _ prior | ACrit _ prior _ | AUnmask _ prior _ => Some prior
  | AIdle | AStart _ => None
  end.
Definition crit_of (x : act) : option (op * crit) :=
  match x with ACrit o _ k => Some (o, k) | _ => None end.

Lemma crit_prior x : prior_of x = None -> crit_of x = None.
Proof. by destruct x. Qed.

(** Interrupts are off from the mask to the unmask, so nothing suspended is
    in between. *)
Definition core_ok (x : core) : Prop :=
  (forall prior, prior_of (top x) = Some prior -> fl x = irq_mask a prior) /\
  Forall (fun y => prior_of y.1 = None) (below x).

(** The lock is free and the store is what the history gives; or one core is
    in a section that, run to its end from here, is its atomic operation. *)
Definition lock_free (s : sys) (abs : gmap Z cap_record_t) : Prop :=
  lock s = 0 /\ (forall c, crit_of (top (cores s c)) = None) /\ store s = abs.
Definition lock_held (s : sys) (abs : gmap Z cap_record_t) (c : nat) (o : op) (k : crit) : Prop :=
  lock s = 1 /\ crit_of (top (cores s c)) = Some (o, k) /\
  (forall c', c' <> c -> crit_of (top (cores s c')) = None) /\
  run_crit k (store s) = atomic o abs.

Record inv (st0 : gmap Z cap_record_t) (s : sys) : Prop := {
  i_cores : forall c, core_ok (cores s c);
  i_lin : exists abs, replay (hist s) st0 = Some abs /\
    (lock_free s abs \/ exists c o k, lock_held s abs c o k) }.

Lemma set_core_eq f c x : set_core f c x c = x.
Proof. unfold set_core. by rewrite decide_True. Qed.
Lemma set_core_ne f c x c' : c' <> c -> set_core f c x c' = f c'.
Proof. intros. unfold set_core. by rewrite decide_False. Qed.

(** The per-core part, for a step of [c]. *)
Lemma cores_ok_set f c x :
  (forall c', core_ok (f c')) -> core_ok x -> forall c', core_ok (set_core f c x c').
Proof.
  intros Hf Hx c'. destruct (decide (c' = c)) as [->|]; [by rewrite set_core_eq|].
  by rewrite set_core_ne.
Qed.

(** A step that is not about the section leaves the rest as it is. *)
Lemma lin_kept st0 s s' c :
  inv st0 s -> hist s' = hist s -> lock s' = lock s -> store s' = store s ->
  (forall c', c' <> c -> cores s' c' = cores s c') ->
  crit_of (top (cores s' c)) = crit_of (top (cores s c)) ->
  exists abs, replay (hist s') st0 = Some abs /\
    (lock_free s' abs \/ exists c o k, lock_held s' abs c o k).
Proof.
  intros [_ (abs & Hr & Hl)] Hh Hlk Hst Hne Hc. exists abs. rewrite Hh. split; [done|].
  assert (forall c', crit_of (top (cores s' c')) = crit_of (top (cores s c'))) as Hall.
  { intros c'. destruct (decide (c' = c)) as [->|]; [done|]. by rewrite Hne. }
  destruct Hl as [(Hl & Hn & Hs)|(c0 & o & k & Hl & Hk & Hn & Hs)].
  - left. split; [congruence|]. split; [|congruence]. intros c'. by rewrite Hall.
  - right. exists c0, o, k. split; [congruence|]. split; [by rewrite Hall|].
    split; [|congruence]. intros c' Hc'. rewrite Hall. by apply Hn.
Qed.

(** The core in a section is the one that holds the lock. *)
Lemma inv_holder st0 s c o prior k :
  inv st0 s -> top (cores s c) = ACrit o prior k ->
  exists abs, replay (hist s) st0 = Some abs /\ lock_held s abs c o k.
Proof.
  intros [_ (abs & Hr & Hl)] Ht. exists abs. split; [done|].
  destruct Hl as [(Hl & Hn & Hs)|(c0 & o0 & k0 & Hl & Hk & Hn & Hs)].
  - specialize (Hn c). by rewrite Ht in Hn.
  - destruct (decide (c = c0)) as [->|Hne]; [|specialize (Hn c Hne); by rewrite Ht in Hn].
    rewrite Ht in Hk. simplify_eq/=. split; [done|]. rewrite Ht. by split.
Qed.

(** A step inside the section: the holder goes on. *)
Lemma lin_section st0 s s' c o k k' prior abs :
  lock_held s abs c o k -> replay (hist s) st0 = Some abs -> hist s' = hist s -> lock s' = lock s ->
  run_crit k' (store s') = run_crit k (store s) ->
  (forall c', c' <> c -> cores s' c' = cores s c') -> top (cores s' c) = ACrit o prior k' ->
  exists abs, replay (hist s') st0 = Some abs /\
    (lock_free s' abs \/ exists c o k, lock_held s' abs c o k).
Proof.
  intros (Hl & _ & Hn & Hs) Hr Hhist Hlk Hrun Hne Ht. exists abs. rewrite Hhist. split; [done|].
  right. exists c, o, k'. split; [congruence|]. rewrite Ht. split; [done|]. split; [|congruence].
  intros c' Hc'. rewrite Hne by done. by apply Hn.
Qed.

Lemma core_ok_top x f y b :
  core_ok x -> (forall prior, prior_of y = Some prior -> f = irq_mask a prior) ->
  b = below x -> core_ok {| fl := f; top := y; below := b |}.
Proof. intros [_ Hb] Hy ->. by split. Qed.

Lemma inv_lock st0 s : inv st0 s -> lock s = 0 \/ lock s = 1.
Proof. intros [_ (abs & _ & [[? _]|(c & o & k & ? & _)])]; auto. Qed.

(** Closes the linearization part of a step outside the section. *)
Ltac outside_section Ht :=
  eapply lin_kept; [eassumption|done|done|done
    |by intros c' Hc'; apply set_core_ne
    |simpl; unfold run_top; rewrite set_core_eq; simpl; by rewrite Ht].

(** Steps that neither take nor use the lock. *)
Lemma inv_step_outside st0 c s s' :
  inv st0 s -> step c s s' ->
  (forall o prior k, top (cores s c) <> ACrit o prior k) ->
  (forall o prior, top (cores s c) = ATry o prior -> lock s <> 0) -> inv st0 s'.
Proof.
  intros Hinv Hst Hnc Hnt. pose proof (i_cores _ _ Hinv) as Hco. pose proof (Hco c) as [Hpr Hbl].
  destruct Hst as [o Ht|o Ht|o prior Ht Hl|o prior Ht Hl|o prior Ht|o prior p f k r Ht Hr
    |o prior p f v k r Ht Hr|o prior res Ht|o prior res Ht|He|x f rest Ht Hb];
    try (by destruct (Hnc _ _ _ Ht)); try (by destruct (Hnt _ _ Ht));
    (split; [apply cores_ok_set; [done|]|]).
  - by apply (core_ok_top _ _ _ _ (Hco c)).
  - outside_section Ht.
  - apply (core_ok_top _ _ _ _ (Hco c)); [|done]. by intros prior [= ->].
  - outside_section Ht.
  - apply (core_ok_top _ _ _ _ (Hco c)); [|done]. intros x [= <-]. apply Hpr. by rewrite Ht.
  - eapply lin_kept; [exact Hinv|done| |done|by intros c' Hc'; apply set_core_ne|].
    + simpl. destruct (inv_lock _ _ Hinv); [done|done].
    + simpl. unfold run_top. rewrite set_core_eq. simpl. by rewrite Ht.
  - apply (core_ok_top _ _ _ _ (Hco c)); [|done]. intros x Hx. apply Hpr. rewrite Ht, <- Hx.
    by destruct (lock s =? 0).
  - eapply lin_kept; [exact Hinv|done|done|done|by intros c' Hc'; apply set_core_ne|].
    simpl. unfold run_top. rewrite set_core_eq. simpl. rewrite Ht. by destruct (lock s =? 0).
  - by apply (core_ok_top _ _ _ _ (Hco c)).
  - outside_section Ht.
  - assert (prior_of (top (cores s c)) = None) as Hn.
    { destruct (prior_of (top (cores s c))) as [prior|] eqn:E; [|done].
      rewrite (Hpr _ eq_refl), irq_mask_masks in He. done. }
    split; [done|]. by constructor.
  - eapply lin_kept; [exact Hinv|done|done|done|by intros c' Hc'; apply set_core_ne|].
    simpl. rewrite set_core_eq. simpl.
    destruct (top (cores s c)) eqn:E; try done. by destruct (Hnc _ _ _ eq_refl).
  - rewrite Hb in Hbl. apply Forall_cons in Hbl as [Hx Hbl]. simpl in Hx.
    split; [|done]. simpl. by rewrite Hx.
  - rewrite Hb in Hbl. apply Forall_cons in Hbl as [Hx Hbl]. simpl in Hx.
    eapply lin_kept; [exact Hinv|done|done|done|by intros c' Hc'; apply set_core_ne|].
    simpl. rewrite set_core_eq. simpl. rewrite Ht. simpl. by apply crit_prior.
Qed.

(** Taking the lock: the section that begins is the whole operation. *)
Lemma inv_acquire st0 c s o prior :
  inv st0 s -> top (cores s c) = ATry o prior -> lock s = 0 ->
  inv st0 {| lock := 1; store := store s; hist := hist s;
    cores := run_top s c (fl (cores s c)) (ACrit o prior (body o)) |}.
Proof.
  intros Hinv Ht Hl. pose proof (i_cores _ _ Hinv) as Hco. split.
  - apply cores_ok_set; [done|]. apply (core_ok_top _ _ _ _ (Hco c)); [|done].
    intros x [= <-]. apply (proj1 (Hco c)). by rewrite Ht.
  - destruct (i_lin _ _ Hinv) as (abs & Hr & [(_ & Hn & Hs)|(c0 & o0 & k0 & Hl1 & _)]);
      [|congruence].
    exists abs. split; [done|]. right. exists c, o, (body o).
    unfold lock_held, run_top. cbn [lock cores store]. rewrite set_core_eq. split; [done|]. split; [done|]. split.
    + intros c' Hc'. by rewrite set_core_ne.
    + by rewrite Hs, run_body.
Qed.

(** Steps of the core that is in the section. *)
Lemma inv_step_section st0 c s s' o prior k :
  inv st0 s -> step c s s' -> top (cores s c) = ACrit o prior k -> inv st0 s'.
Proof.
  intros Hinv Hst Htop. pose proof (i_cores _ _ Hinv) as Hco.
  destruct (inv_holder _ _ _ _ _ _ Hinv Htop) as (abs & Hr & Hheld).
  assert (fl (cores s c) = irq_mask a prior) as Hfl by (apply (proj1 (Hco c)); by rewrite Htop).
  destruct Hst as [o' Ht|o' Ht|o' prior' Ht Hl|o' prior' Ht Hl|o' prior' Ht|o' prior' p f k' r Ht Hrd
    |o' prior' p f v k' r Ht Hrd|o' prior' res Ht|o' prior' res Ht|He|x f rest Ht Hb];
    try congruence; rewrite ?Ht in Htop; simplify_eq.
  - split; [apply cores_ok_set; [done|]; apply (core_ok_top _ _ _ _ (Hco c)); [|done]; by intros x [= <-]|].
    eapply lin_section; [exact Hheld|exact Hr|done|done| |by intros c' Hc'; apply set_core_ne|].
    + simpl. by rewrite Hrd.
    + simpl. unfold run_top. by rewrite set_core_eq.
  - split; [apply cores_ok_set; [done|]; apply (core_ok_top _ _ _ _ (Hco c)); [|done]; by intros x [= <-]|].
    eapply lin_section; [exact Hheld|exact Hr|done|done| |by intros c' Hc'; apply set_core_ne|].
    + simpl. by rewrite Hrd.
    + simpl. unfold run_top. by rewrite set_core_eq.
  - split; [apply cores_ok_set; [done|]; apply (core_ok_top _ _ _ _ (Hco c)); [|done]; by intros x [= <-]|].
    destruct Hheld as (Hl & _ & Hn & Hs). exists (store s).
    split; [by eapply replay_snoc|]. left. split; [done|]. split; [|done].
    intros c'. simpl. unfold run_top. destruct (decide (c' = c)) as [->|]; [by rewrite set_core_eq|].
    rewrite set_core_ne by done. by apply Hn.
  - by rewrite Hfl, irq_mask_masks in He.
Qed.

Lemma inv_step st0 c s s' : inv st0 s -> step c s s' -> inv st0 s'.
Proof.
  intros Hinv Hst. destruct (crit_of (top (cores s c))) as [[o k]|] eqn:Ec.
  - destruct (top (cores s c)) as [| | | |o' prior k'|] eqn:Ht; simplify_eq/=.
    by eapply inv_step_section.
  - destruct (decide (lock s = 0)) as [Hl|Hl].
    + destruct (top (cores s c)) as [| |o prior| | |] eqn:Ht; try done;
        try (eapply inv_step_outside; [exact Hinv|exact Hst|intros; congruence|intros; congruence]).
      destruct (irq_was_enabled a (fl (cores s c))) eqn:He.
      * rewrite (proj1 (i_cores _ _ Hinv c) prior), irq_mask_masks in He; [done|by rewrite Ht].
      * destruct Hst as [|? H|? ? H Hl'|? ? H Hl'|? ? H|? ? ? ? ? ? H|? ? ? ? ? ? ? H|? ? ? H|? ? ? H|H|? ? ? H];
          try congruence. rewrite Ht in H. simplify_eq. by apply inv_acquire.
    + eapply inv_step_outside; [exact Hinv|exact Hst| |done].
      intros o prior k Ht. by rewrite Ht in Ec.
Qed.

Lemma inv_boot st0 s : boot_state st0 s -> inv st0 s.
Proof.
  intros [Hl Hs Hh Hc]. split.
  - intros c. destruct (Hc c) as [Ht Hb]. split; [by rewrite Ht|rewrite Hb; constructor].
  - exists st0. rewrite Hh. split; [done|]. left. split; [done|]. split; [|done].
    intros c. by rewrite (proj1 (Hc c)).
Qed.

Lemma inv_reachable st0 s : reachable st0 s -> inv st0 s.
Proof.
  intros (s0 & Hb & Hst). apply inv_boot in Hb.
  induction Hst as [|s1 s2 s3 [c Hc] _ IH]; [done|]. by eapply IH, inv_step.
Qed.

(** * A section ends *)

(** Left alone, the holder runs its section to the end, releases the lock
    and has its flags back. *)
Lemma section_finishes c o prior k : forall s res st',
  top (cores s c) = ACrit o prior k -> fl (cores s c) = irq_mask a prior ->
  run_crit k (store s) = Some (res, st') ->
  exists s', rtc (step c) s s' /\ lock s' = 0 /\ store s' = st' /\
    hist s' = hist s ++ [(o, res)] /\ top (cores s' c) = AIdle /\ fl (cores s' c) = prior.
Proof.
  induction k as [res0|p f k IH|p f v k IH]; intros s res st' Ht Hfl Hrun; simpl in Hrun.
  - simplify_eq. eexists. split.
    + eapply rtc_l; [by eapply S_release|]. eapply rtc_l; [|apply rtc_refl].
      eapply S_unmask. cbn [cores]. unfold run_top. by rewrite set_core_eq.
    + cbn [lock store hist cores]. unfold run_top. cbn [cores]. rewrite !set_core_eq.
      cbn [top fl]. repeat (split; [done|]). rewrite Hfl. apply irq_restore.
  - destruct (store s !! p) as [r|] eqn:Hr; [|done].
    pose proof (S_read c s o prior p f k r Ht Hr) as Hst.
    match type of Hst with step _ _ ?s1 =>
      destruct (IH (get_field f r) s1 res st') as (s' & Hs & H) end;
      [by simpl; unfold run_top; rewrite set_core_eq..|exact Hrun|].
    exists s'. split; [eapply rtc_l; [exact Hst|exact Hs]|exact H].
  - destruct (store s !! p) as [r|] eqn:Hr; [|done].
    pose proof (S_write c s o prior p f v k r Ht Hr) as Hst.
    match type of Hst with step _ _ ?s1 => destruct (IH s1 res st') as (s' & Hs & H) end;
      [by simpl; unfold run_top; rewrite set_core_eq..|exact Hrun|].
    exists s'. split; [eapply rtc_l; [exact Hst|exact Hs]|exact H].
Qed.

(** The record an operation works on. *)
Definition op_record (o : op) : option Z :=
  match o with OInvoke p | OCreate p _ _ _ _ | ODestroy p => Some p | OBootstrap => None end.

Lemma atomic_storage o st res st' p :
  atomic o st = Some (res, st') -> is_Some (st !! p) -> is_Some (st' !! p).
Proof.
  intros H Hp. destruct o as [q|q h d t i|q|]; simpl in H.
  all: try (destruct (st !! q) eqn:Hq; simpl in H; [|done]).
  all: repeat case_match; simplify_eq; try done.
  all: apply lookup_insert_is_Some; destruct (decide (q = p)); auto.
Qed.

Lemma replay_storage h : forall st0 st p,
  replay h st0 = Some st -> is_Some (st0 !! p) -> is_Some (st !! p).
Proof.
  induction h as [|[o res] h IH]; intros st0 st p H Hp; simpl in H; [by simplify_eq|].
  destruct (atomic o st0) as [[r s]|] eqn:Ha; [|done]. case_decide; [|done].
  eapply IH; [exact H|]. by eapply atomic_storage.
Qed.

Lemma atomic_defined o st :
  (forall p, op_record o = Some p -> is_Some (st !! p)) -> is_Some (atomic o st).
Proof.
  intros H. destruct o as [q|q h d t i|q|]; simpl; [..|by eexists];
    destruct (H q eq_refl) as [r ->]; simpl; repeat case_match; by eexists.
Qed.

End Smp.

(** * Theorems *)

(** C6. On any number of cores, with interrupts re-entering the kernel, the
    critical sections are atomic: in every state the machine can reach, at
    most one activation is inside one, exactly when the lock word is 1; and
    whenever the lock is free the record store is what the finished
    operations, executed one after the other in the order they released the
    lock, make of the initial one, each with the result it returned.  No
    invocation ever copies a half-written record. *)
Theorem smp_sections_atomic a st0 s :
  reachable a st0 s ->
  (forall c c' o o' p p' k k',
     top (cores s c) = ACrit o p k -> top (cores s c') = ACrit o' p' k' -> c = c') /\
  (lock s = 0 \/ lock s = 1 /\ exists c o p k, top (cores s c) = ACrit o p k) /\
  (lock s = 0 -> replay (hist s) st0 = Some (store s)).
Proof.
  intros Hr. apply inv_reachable in Hr. split; [|split].
  - intros c c' o o' p p' k k' H H'.
    destruct (inv_holder _ _ _ _ _ _ _ Hr H) as (abs & _ & _ & _ & Hn & _).
    destruct (decide (c' = c)) as [|Hne]; [done|]. specialize (Hn c' Hne). by rewrite H' in Hn.
  - destruct (i_lin _ _ _ Hr) as (abs & _ & [[? _]|(c & o & k & Hl & Hc & _)]); [by left|right].
    split; [done|]. destruct (top (cores s c)) eqn:Ht; simplify_eq/=. eauto.
  - intros Hl. destruct (i_lin _ _ _ Hr) as (abs & Ha & [(_ & _ & ->)|(c & o & k & Hl1 & _)]);
      [done|congruence].
Qed.

(** C7. The lock cannot stay held: in every reachable state, a core inside a
    critical section on mapped storage reaches, by its own steps alone and
    whatever the other cores are waiting for, a state where the lock is
    free, its operation is in the history, and its flags are what they were
    before it masked interrupts.  No interrupt can keep it from doing so,
    since none is taken in between. *)
Theorem smp_lock_released a st0 s c o prior k :
  reachable a st0 s -> top (cores s c) = ACrit o prior k ->
  (forall p, op_record o = Some p -> is_Some (st0 !! p)) ->
  irq_was_enabled a (fl (cores s c)) = false /\
  exists s' res, rtc (step a c) s s' /\ lock s' = 0 /\ hist s' = hist s ++ [(o, res)] /\
    top (cores s' c) = AIdle /\ fl (cores s' c) = prior.
Proof.
  intros Hr Ht Hp. apply inv_reachable in Hr.
  assert (fl (cores s c) = irq_mask a prior) as Hfl
    by (apply (proj1 (i_cores _ _ _ Hr c)); by rewrite Ht).
  split; [rewrite Hfl; apply irq_mask_masks|].
  destruct (inv_holder _ _ _ _ _ _ _ Hr Ht) as (abs & Habs & _ & _ & _ & Hrun).
  destruct (atomic_defined o abs) as [[res st'] Ha].
  { intros p Hop. eapply replay_storage; [exact Habs|by apply Hp]. }
  rewrite Ha in Hrun.
  destruct (section_finishes a c o prior k s res st' Ht Hfl Hrun)
    as (s' & Hs & Hl & _ & Hh & Hi & Hf). exists s', res. auto.
Qed.

(** * A run *)

(** Two cores with interrupts on, one slot of record storage at 0x8000. *)
Definition ex_slot : gmap Z cap_record_t := {[0x8000 := Build_cap_record_t 0 0 0 0 0 0]}.
Definition ex_boot : sys := {|
  lock := 0; store := ex_slot; hist := [];
  cores := fun _ => {| fl := 0x202; top := AIdle; below := [] |} |}.
Definition ex_create : op := OCreate 0x8000 0x5000 0 0x1100 0.

(** Core 0 is half way through a CREATE, core 1 spins for an invocation of
    the same record. *)
Lemma ex_contended : exists s k,
  reachable X86_64 ex_slot s /\ top (cores s 0%nat) = ACrit ex_create 0x202 k /\
  top (cores s 1%nat) = ASpin (OInvoke 0x8000) 0x202 /\ lock s = 1.
Proof.
  eexists _, _. split.
  - exists ex_boot. split; [by split|].
    eapply rtc_l; [exists 0%nat; by apply (S_call _ _ _ ex_create)|].
    eapply rtc_l; [exists 0%nat; by eapply S_mask|].
    eapply rtc_l; [exists 0%nat; by eapply S_acquire|].
    eapply rtc_l; [exists 0%nat; by eapply S_write|].
    eapply rtc_l; [exists 1%nat; by apply (S_call _ _ _ (OInvoke 0x8000))|].
    eapply rtc_l; [exists 1%nat; by eapply S_mask|].
    eapply rtc_l; [exists 1%nat; by eapply S_busy|].
    apply rtc_refl.
  - split; [reflexivity|]. split; reflexivity.
Qed.

Lemma smp_sections_atomic_witness : exists s, lock s = 1 /\
  forall c c' o o' p p' k k',
    top (cores s c) = ACrit o p k -> top (cores s c') = ACrit o' p' k' -> c = c'.
Proof.
  destruct ex_contended as (s & k & Hr & _ & _ & Hl). exists s. split; [done|].
  apply (smp_sections_atomic X86_64 ex_slot s Hr).
Defined.

Lemma smp_lock_released_witness : exists s s', lock s = 1 /\
  rtc (step X86_64 0%nat) s s' /\ lock s' = 0 /\ fl (cores s' 0%nat) = 0x202.
Proof.
  destruct ex_contended as (s & k & Hr & Ht & _ & Hl).
  destruct (smp_lock_released X86_64 ex_slot s 0%nat ex_create 0x202 k Hr Ht)
    as (_ & s' & res & Hs & Hl' & _ & _ & Hf).
  { intros p [= <-]. by eexists. }
  exists s, s'. auto.
Defined.
