(* ===== verification/CapRefine.v ===== *)
(** The one-core kernel as a run of the many-core one.

    Cap.v gives each system call as one function of the kernel state;
    CapSmp.v gives the lock and the critical sections as steps that any
    number of cores interleave.  Here the first is shown to be a case of the
    second: whatever [kernel_invoke] does to lock, flags and records, nested
    invocations by object handlers included, is a sequence of steps of one
    core, and the history those steps leave is the list of critical sections
    the call went through, in order.

    The code behind function pointers is restricted to what user objects can
    do to records through the kernel: a handler that stores a record in its
    own memory behind the kernel's back ([HStore]) is no step of CapSmp.v. *)
From stdpp Require Import relations.
From S2P Require Import Prelude CMem Schema Capnp Validate Cap CapProps CapInvoke CapSmp.

(** * Definitions *)

(** A handler's run that changes records only through [kernel_invoke]. *)
Fixpoint guarded {W} (p : hprog W) : Prop :=
  match p with
  | HDone _ _ => True
  | HInvoke _ _ _ _ _ _ k => forall ret r out, guarded (k ret r out)
  | HStore _ _ _ => False
  | HGet k => forall w, guarded (k w)
  | HPut _ k => guarded k
  end.

Definition guarded_code {W} (code : handlers W) : Prop :=
  forall p f, code p = Some f -> forall d id msg len r cap, guarded (f d id msg len r cap).

(** Core [c] of [S] is outside the kernel and sees the state [s]. *)
Record sees {W} (c : nat) (s : kstate W) (S : sys) : Prop := {
  sees_lock : lock S = g_cap_lock s;
  sees_store : store S = recs s;
  sees_flags : fl (cores S c) = cpu_flags s;
  sees_idle : top (cores S c) = AIdle }.

(** Going from [s] to [s'] is what the operations [h] do, executed one after
    the other; and every core that sees [s] can take the steps of CapSmp.v
    that execute them, after which it sees [s']. *)
Record performs {W} (a : arch) (s s' : kstate W) (h : list (op * cres)) : Prop := {
  p_lock : g_cap_lock s' = 0;
  p_replay : replay h (recs s) = Some (recs s');
  p_steps : forall c S, sees c s S ->
    exists S', rtc (step a c) S S' /\ sees c s' S' /\ hist S' = hist S ++ h }.

(** * Lemmas *)

Lemma replay_app h h' st st' st'' :
  replay h st = Some st' -> replay h' st' = Some st'' -> replay (h ++ h') st = Some st''.
Proof.
  revert st. induction h as [|[o res] h IH]; intros st H H'; simpl in *; [by simplify_eq|].
  destruct (atomic o st) as [[r s]|]; [|done]. case_decide; [|done]. by apply IH.
Qed.

(** An idle core calls in, gets the free lock, and leaves. *)
Lemma core_runs a c o S res st :
  top (cores S c) = AIdle -> lock S = 0 -> atomic o (store S) = Some (res, st) ->
  exists S', rtc (step a c) S S' /\ lock S' = 0 /\ store S' = st /\
    hist S' = hist S ++ [(o, res)] /\ top (cores S' c) = AIdle /\ fl (cores S' c) = fl (cores S c).
Proof.
  intros Ht Hl Ha.
  pose proof (S_call a c S o Ht) as H1.
  match type of H1 with step _ _ _ ?s1 => assert (exists s2, step a c s1 s2 /\
    lock s2 = 0 /\ store s2 = store S /\ hist s2 = hist S /\
    cores s2 c = {| fl := irq_mask a (fl (cores S c)); top := ATry o (fl (cores S c));
                    below := below (cores S c) |}) as (s2 & H2 & L2 & R2 & E2 & C2) end.
  { eexists. split; [eapply S_mask; simpl; unfold run_top; by rewrite set_core_eq|].
    simpl. unfold run_top. simpl. by rewrite !set_core_eq. }
  pose proof (S_acquire a c s2 o (fl (cores S c)) ltac:(by rewrite C2) L2) as H3.
  match type of H3 with step _ _ _ ?s3 =>
    destruct (section_finishes a c o (fl (cores S c)) (body o) s3 res st) as (S' & Hs & H) end.
  { by simpl; unfold run_top; rewrite set_core_eq. }
  { by simpl; unfold run_top; rewrite set_core_eq, C2. }
  { rewrite run_body. simpl. by rewrite R2. }
  simpl in H. rewrite E2 in H. exists S'. split; [|exact H].
  do 3 (eapply rtc_l; [eassumption|]). exact Hs.
Qed.

Section Refine.
Context {W : Type} (a : arch) (img : image) (code : handlers W).
Implicit Types s : kstate W.

(** Code outside the critical sections. *)
Lemma performs_nil s s' :
  g_cap_lock s = 0 -> g_cap_lock s' = 0 -> recs s' = recs s -> cpu_flags s' = cpu_flags s ->
  performs a s s' [].
Proof.
  intros Hl Hl' Hr Hf. split; [done|by rewrite Hr|]. intros c S [H1 H2 H3 H4].
  exists S. split; [apply rtc_refl|]. split; [|by rewrite app_nil_r]. split; congruence.
Qed.

Lemma performs_app s1 s2 s3 h h' :
  performs a s1 s2 h -> performs a s2 s3 h' -> performs a s1 s3 (h ++ h').
Proof.
  intros [L1 R1 S1] [L2 R2 S2]. split; [done|by eapply replay_app|]. intros c S HS.
  destruct (S1 c S HS) as (S' & Hs & HS' & Hh). destruct (S2 c S' HS') as (S'' & Hs' & HS'' & Hh').
  exists S''. split; [by eapply rtc_trans|]. split; [done|]. by rewrite Hh', Hh, app_assoc.
Qed.

(** One critical section. *)
Lemma performs_op s s' o res :
  g_cap_lock s = 0 -> g_cap_lock s' = 0 -> cpu_flags s' = cpu_flags s ->
  atomic o (recs s) = Some (res, recs s') -> performs a s s' [(o, res)].
Proof.
  intros Hl Hl' Hf Ha. split; [done|by apply (replay_snoc [] _ _ _ (recs s))|].
  intros c S [H1 H2 H3 H4].
  destruct (core_runs a c o S res (recs s')) as (S' & Hs & HL & HS & Hh & Ht & HF);
    [done|congruence|by rewrite H2|].
  exists S'. split; [done|]. split; [|done]. split; congruence.
Qed.

Lemma performs_print s s' h d : performs a s s' h -> performs a s (kprintf s' d) h.
Proof.
  intros [L R H]. split; [done..|]. intros c S HS.
  destruct (H c S HS) as (S' & Hs & [] & Hh). exists S'. by repeat split.
Qed.

Definition some_run s s' : Prop := exists h, performs a s s' h.

Lemma some_run_trans s1 s2 s3 : some_run s1 s2 -> some_run s2 s3 -> some_run s1 s3.
Proof. intros [h ?] [h' ?]. exists (h ++ h'). by eapply performs_app. Qed.

Lemma some_run_refl s s' :
  g_cap_lock s = 0 -> g_cap_lock s' = 0 -> recs s' = recs s -> cpu_flags s' = cpu_flags s ->
  some_run s s'.
Proof. intros. exists []. by apply performs_nil. Qed.

(** ** The factory *)

Lemma create_runs s msg r cap :
  g_cap_lock s = 0 ->
  wlp (factory_create a s msg r cap) (fun '(_, _, s') => some_run s s').
Proof.
  intros H. rewrite factory_create_body by done. cbv zeta.
  do 5 (apply wlp_any_bind; [apply wlp_rd_le64, wlp_deref_msg|intros ?]).
  case_if; [by apply some_run_refl|].
  match goal with |- context [store_record s ?p ?rec] => set (rc := rec); set (st := p) end.
  unfold store_record. destruct (recs s !! st) as [r0|] eqn:Hst; [|done]. rewrite ret_bind.
  assert (forall d, some_run s (kprintf (with_recs s (<[st := rc]> (recs s))) d)) as Hrun.
  { intros d. eexists. apply performs_print, (performs_op _ _
      (OCreate st (handler rc) (data rc) (schema_table rc) (schema_index rc)) CR_stored); try done.
    simpl. by rewrite Hst. }
  case_if; [|apply Hrun]. apply wlp_any_bind; [apply wlp_store_response|]. intros ?. apply Hrun.
Qed.

Lemma destroy_runs s msg r :
  g_cap_lock s = 0 ->
  wlp (factory_destroy a img s msg r) (fun '(_, _, s') => some_run s s').
Proof.
  intros H. rewrite factory_destroy_body by done.
  apply wlp_any_bind; [apply wlp_rd_le64, wlp_deref_msg|intros p].
  case_if; [by apply some_run_refl|].
  unfold load_record, store_record. destruct (recs s !! p) as [rc|] eqn:Hp; [|done].
  rewrite ret_bind. destruct (is_live rc) eqn:Hlive; simpl.
  - eexists. apply performs_print, (performs_op _ _ (ODestroy p) CR_stored); try done.
    simpl. by rewrite Hp; simpl; rewrite Hlive.
  - eexists. apply performs_print, (performs_op _ _ (ODestroy p) CR_refused); try done.
    simpl. by rewrite Hp; simpl; rewrite Hlive.
Qed.

Lemma factory_runs s id msg r cap :
  g_cap_lock s = 0 ->
  wlp (factory_handler a img s id msg r cap) (fun '(_, _, s') => some_run s s').
Proof.
  intros H. unfold factory_handler.
  case_if; [by apply create_runs|]. case_if; [by apply destroy_runs|]. by apply some_run_refl.
Qed.

(** ** Handlers and the system call *)

Lemma some_run_lock s s' : some_run s s' -> g_cap_lock s' = 0.
Proof. by intros [h []]. Qed.

Lemma handler_runs invoke p s :
  guarded p -> g_cap_lock s = 0 ->
  (forall s0 t id msg len r cap, g_cap_lock s0 = 0 ->
     wlp (invoke s0 t id msg len r cap) (fun '(_, _, _, s') => some_run s0 s')) ->
  wlp (run_handler invoke p s) (fun '(_, _, s') => some_run s s').
Proof.
  intros Hg H Hinv. revert s H.
  induction p as [|t id msg len r cap k IH|q r k IH|k IH|w k IH]; intros s H; simpl in *.
  - by apply some_run_refl.
  - apply wlp_bind. eapply wlp_mono; [by apply Hinv|]. intros [[[ret resp] out] s'] Hs'.
    eapply wlp_mono; [apply IH; [apply Hg|by eapply some_run_lock]|].
    intros [[? ?] s''] ?. by eapply some_run_trans.
  - done.
  - by apply IH.
  - eapply wlp_mono; [by apply (IH Hg (with_world s w))|]. intros [[? ?] s''] Hs.
    eapply some_run_trans; [|exact Hs]. by apply some_run_refl.
Qed.

(** What one call does: the critical section that looks the target up, with
    a copy of the record if the call succeeds, then some others. *)
Definition call_runs s (target ret : Z) s' : Prop :=
  exists res h, performs a s s' ((OInvoke target, res) :: h) /\
    (ret = 1 -> exists r, res = CR_copied r /\ recs s !! target = Some r /\ is_live r = true).

Lemma call_some_run s target ret s' : call_runs s target ret s' -> some_run s s'.
Proof. intros (res & h & Hp & _). by eexists. Qed.

(** After the lookup of a live record, whatever runs on runs. *)
Lemma live_call s target r ret s' :
  g_cap_lock s = 0 -> recs s !! target = Some r -> is_live r = true -> some_run s s' ->
  call_runs s target ret s'.
Proof.
  intros Hl Hr Hlive [h Hh]. exists (CR_copied r), h. split; [|by eexists].
  apply (performs_app s s s' [(OInvoke target, CR_copied r)] h); [|done].
  apply performs_op; try done. simpl. by rewrite Hr; simpl; rewrite Hlive.
Qed.

Lemma some_run_print s s' d : some_run s s' -> some_run s (kprintf s' d).
Proof. intros [h ?]. exists h. by apply performs_print. Qed.

Lemma invoke_runs fuel : forall s target id msg len r cap,
  guarded_code code -> g_cap_lock s = 0 ->
  wlp (kernel_invoke a img code fuel s target id msg len r cap)
    (fun '(ret, _, _, s') => call_runs s target ret s').
Proof.
  induction fuel as [|fuel IH]; intros s target id msg len r cap Hc H; [done|].
  rewrite kernel_invoke_body by done.
  unfold load_record. destruct (recs s !! target) as [rec|] eqn:Hr; [|done]. rewrite ret_bind.
  destruct (is_live rec) eqn:Hlive; simpl.
  2: { exists CR_refused, []. split; [|done]. apply performs_print, performs_op; try done.
       simpl. by rewrite Hr; simpl; rewrite Hlive. }
  assert (forall ret s', some_run s s' -> call_runs s target ret s') as Hcall
    by (intros; by eapply live_call).
  apply wlp_any_bind.
  { unfold table_at. case_if; [done|]. by destruct (tables s !! _). }
  intros T. apply wlp_any_bind; [apply wlp_find_method|]. intros [m|]; [|by apply Hcall, some_run_refl].
  apply wlp_any_bind; [apply wlp_validate_message|]. intros ok.
  case_if; [by apply Hcall, some_run_refl|].
  apply wlp_bind. eapply wlp_mono.
  { instantiate (1 := fun '(_, _, s') => some_run s s'). unfold call_handler.
    case_if; [by apply factory_runs|].
    destruct (code (handler rec)) as [f|] eqn:Hf; [|done]. apply handler_runs; [by eapply Hc|done|].
    intros. eapply wlp_mono; [by apply IH|]. intros [[[? ?] ?] ?]. apply call_some_run. }
  intros [[r' out] s'] Hs'. apply wlp_any_bind.
  { case_if; [done|apply wlp_validate_message]. }
  intros ok'. case_if; [|by apply Hcall]. cbv zeta. apply wlp_any_bind.
  - unfold zero_response. case_if; [done|apply wlp_store_response].
  - intros ?. by apply Hcall, some_run_print.
Qed.

End Refine.

(** * Theorems *)

(** C11. A system call is a run of one core of the many-core machine.  Whenever
    [kernel_invoke] returns, with handlers that leave records to the kernel,
    there is a list of critical sections, the lookup of the target first,
    such that any core of any reachable machine that sees the state before
    the call can take the steps that execute them, lock word, interrupt
    masking and each field access one by one; it then sees the state after
    the call, and the records are what all finished operations of the
    machine, executed one after the other, make of the initial ones.  If the
    call returns 1, that lookup copied a live record. *)
Theorem invoke_refines_smp {W} a img (code : handlers W) fuel s target id msg len r cap
    ret r' out s' :
  guarded_code code -> g_cap_lock s = 0 ->
  kernel_invoke a img code fuel s target id msg len r cap = Ret (ret, r', out, s') ->
  exists res h,
    replay ((OInvoke target, res) :: h) (recs s) = Some (recs s') /\
    (ret = 1 -> exists rec, res = CR_copied rec /\ recs s !! target = Some rec /\
       is_live rec = true) /\
    forall c st0 S, reachable a st0 S -> sees c s S ->
      exists S', rtc (step a c) S S' /\ sees c s' S' /\ reachable a st0 S' /\
        hist S' = hist S ++ (OInvoke target, res) :: h /\
        replay (hist S') st0 = Some (recs s').
Proof.
  intros Hc Hl Hret. pose proof (invoke_runs a img code fuel s target id msg len r cap Hc Hl) as Hw.
  rewrite Hret in Hw. destruct Hw as (res & h & [Hl' Hrep Hst] & Hone).
  exists res, h. split; [done|]. split; [done|]. intros c st0 S [S0 [Hb Hr]] Hsee.
  destruct (Hst c S Hsee) as (S' & Hs & Hsee' & Hh).
  assert (reachable a st0 S') as Hr'.
  { exists S0. split; [done|]. eapply rtc_trans; [exact Hr|].
    eapply rtc_subrel; [|exact Hs]. intros x y Hxy. by exists c. }
  exists S'. do 4 (split; [done|]). pose proof (inv_reachable _ _ _ Hr') as [_ (abs & Habs & Hlin)].
  destruct Hlin as [(_ & _ & Hstore)|(c0 & o & k & Hl1 & _)].
  - by rewrite Habs, <- Hstore, (sees_store _ _ _ Hsee').
  - pose proof (sees_lock _ _ _ Hsee'). congruence.
Qed.

(** * A run *)

(** An object at 0x5000 that re-enters the kernel: the code of CapInvoke.v. *)
Lemma ex_code_guarded : guarded_code ex_code.
Proof. intros p f H. unfold ex_code in H. repeat case_match; by simplify_eq. Qed.

Definition ex_two_cores : sys := {|
  lock := 0; store := recs ex_state; hist := [];
  cores := fun _ => {| fl := 0x202; top := AIdle; below := [] |} |}.

Lemma ex_two_cores_reachable : reachable X86_64 (recs ex_state) ex_two_cores.
Proof. exists ex_two_cores. split; [by split|apply rtc_refl]. Qed.

Lemma ex_two_cores_sees : sees 1%nat ex_state ex_two_cores.
Proof. by split. Qed.

Lemma invoke_refines_smp_witness :
  exists S' h, rtc (step X86_64 1%nat) ex_two_cores S' /\
    hist S' = (OInvoke 0x1000, CR_copied (bound_factory_record ex_img)) :: h /\
    store S' !! 0x8000 = Some (new_record 0x5000 3 0x1100 0).
Proof.
  destruct (kernel_invoke X86_64 ex_img ex_code 1 ex_state 0x1000 0
      (Some (create_request 0x5000 3 0x1100 0 0x8000)) 56 (Some (replicate 32 1)) 32)
    as [[[[ret r'] out] s']| | |] eqn:Hi; [|by vm_compute in Hi..].
  destruct (invoke_refines_smp X86_64 ex_img ex_code 1 ex_state 0x1000 0 _ _ _ _ _ _ _ _
    ex_code_guarded eq_refl Hi) as (res & h & _ & Hone & Hrun).
  destruct (Hrun 1%nat (recs ex_state) ex_two_cores ex_two_cores_reachable ex_two_cores_sees)
    as (S' & Hs & Hsee & _ & Hh & _).
  vm_compute in Hi. injection Hi as <- _ _ <-. destruct (Hone eq_refl) as (rec & -> & Hrec & _).
  exists S', h. split; [done|]. split; [rewrite Hh; vm_compute in Hrec; by injection Hrec as <-|].
  by rewrite (sees_store _ _ _ Hsee).
Defined.
