(* ===== verification/CapSmpBoot.v ===== *)
(** Bootstrapping beside running system calls: [kernel_cap_bootstrap] of
    kernel/cap.c on the many-core machine.

    In the shared-image model every core that comes up calls
    [kernel_cap_bootstrap] on the same statics while the others are already
    making system calls.  The function first tests, without the lock, whether
    the factory is bound already, and only then takes the lock; if the test
    fails it frees the lock and rewrites the statics, again without taking
    it.  This file runs that code one memory access at a time on the machine
    of CapSmp.v, interleaved with the sections of the other cores and with
    interrupts on its own. *)
From stdpp Require Import relations.
From S2P Require Import Prelude CMem Schema Capnp Validate Cap CapProps CapInvoke CapBoot CapSmp.

(** * The code, access by access *)

(** The array pointers of [g_factory_table] that the test looks at. *)
Inductive tfield := T_structs | T_methods | T_objects.

Definition get_tfield (f : tfield) (t : schema_table_t) : Z :=
  match f with
  | T_structs => arr_addr (t_structs t)
  | T_methods => arr_addr (t_methods t)
  | T_objects => arr_addr (t_objects t)
  end.

(** The assignments to [g_factory_table]'s fields. *)
Inductive twrite :=
| W_structs (x : arr struct_schema_t) | W_struct_count (n : Z)
| W_pointers (x : arr pointer_schema_t) | W_pointer_count (n : Z)
| W_methods (x : arr method_schema_t) | W_method_count (n : Z)
| W_objects (x : arr object_schema_t) | W_object_count (n : Z).

Definition apply_twrite (w : twrite) (t : schema_table_t) : schema_table_t :=
  match t with
  | Build_schema_table_t a an b bn c cn d dn =>
      match w with
      | W_structs x => Build_schema_table_t x an b bn c cn d dn
      | W_struct_count n => Build_schema_table_t a n b bn c cn d dn
      | W_pointers x => Build_schema_table_t a an x bn c cn d dn
      | W_pointer_count n => Build_schema_table_t a an b n c cn d dn
      | W_methods x => Build_schema_table_t a an b bn x cn d dn
      | W_method_count n => Build_schema_table_t a an b bn c n d dn
      | W_objects x => Build_schema_table_t a an b bn c cn x dn
      | W_object_count n => Build_schema_table_t a an b bn c cn d n
      end
  end.

(** What is left of a call.  [BTakeLock]: [cap_lock] comes next; [BLocked]:
    it has been entered and the call returns after [cap_unlock]. *)
Inductive boot_code :=
| BReadR (f : field) (k : Z -> boot_code)
| BReadT (f : tfield) (k : Z -> boot_code)
| BTakeLock
| BLocked
| BClearLock (k : boot_code)
| BWriteT (w : twrite) (k : boot_code)
| BWriteR (f : field) (v : Z) (k : boot_code)
| BReturn.

Section Code.
Context (img : image).

(** The record's fields, written one after the other. *)
Definition rebind_record : boot_code :=
  BWriteR F_magic CAP_RECORD_MAGIC (BWriteR F_valid 1
    (BWriteR F_handler (factory_handler_at img) (BWriteR F_data 0
      (BWriteR F_schema_table (g_factory_table_at img)
        (BWriteR F_schema_index FACTORY_SCHEMA_IDX BReturn))))).

(** From [g_cap_lock = 0] to the end. *)
Definition rebind : boot_code :=
  BClearLock
    (BWriteT (W_structs (Build_arr (g_factory_structs_at img) g_factory_structs))
    (BWriteT (W_struct_count 3)
    (BWriteT (W_pointers (Build_arr (g_factory_pointers_at img) g_factory_pointers))
    (BWriteT (W_pointer_count 0)
    (BWriteT (W_methods (Build_arr (g_factory_methods_at img) g_factory_methods))
    (BWriteT (W_method_count 2)
    (BWriteT (W_objects (Build_arr (g_factory_objects_at img) g_factory_objects))
    (BWriteT (W_object_count 1) rebind_record)))))))).

(** The conjuncts of the test that read the table, in their order. *)
Definition test_table : boot_code :=
  BReadT T_structs (fun p => if negb (p =? g_factory_structs_at img) then rebind else
  BReadT T_methods (fun p => if negb (p =? g_factory_methods_at img) then rebind else
  BReadT T_objects (fun p => if negb (p =? g_factory_objects_at img) then rebind else
  BTakeLock))).

Definition bootstrap_code : boot_code :=
  BReadR F_magic (fun m => if negb (m =? CAP_RECORD_MAGIC) then rebind else
  BReadR F_valid (fun v => if v =? 0 then rebind else
  BReadR F_schema_table (fun p => if negb (p =? g_factory_table_at img) then rebind else
  test_table))).

(** Run to its end by one core with nothing in between, on the state of the
    sequential model. *)
Fixpoint run_boot {W} (a : arch) (k : boot_code) (s : kstate W)
    : outcome (initial_capabilities_t * kstate W) :=
  match k with
  | BReadR f k =>
      r ← load_record s (g_factory_record_at img); run_boot a (k (get_field f r)) s
  | BReadT f k =>
      match tables s !! g_factory_table_at img with
      | Some t => run_boot a (k (get_tfield f t)) s
      | None => Fault (g_factory_table_at img)
      end
  | BTakeLock => '(prior, s) ← cap_lock a s; Ret (caps img, cap_unlock a s prior)
  | BLocked => Ret (caps img, s)
  | BClearLock k => run_boot a k (with_lock s 0)
  | BWriteT w k =>
      match tables s !! g_factory_table_at img with
      | Some t =>
          run_boot a k (with_tables s (<[g_factory_table_at img := apply_twrite w t]> (tables s)))
      | None => Fault (g_factory_table_at img)
      end
  | BWriteR f v k =>
      r ← load_record s (g_factory_record_at img);
      s ← store_record s (g_factory_record_at img) (set_field f v r);
      run_boot a k s
  | BReturn => Ret (caps img, s)
  end.

(** * The machine *)

(** The machine of CapSmp.v with [g_factory_table], the bootstrap call each
    core is in (and how deep it was in interrupts when it entered), and the
    grants returned so far. *)
Record bsys := {
  base : sys;
  factory_table : schema_table_t;
  boots : nat -> option (nat * boot_code);
  returned : list (nat * initial_capabilities_t) }.

Definition set_boot (f : nat -> option (nat * boot_code)) (c : nat)
    (x : option (nat * boot_code)) : nat -> option (nat * boot_code) :=
  fun c' => if decide (c' = c) then x else f c'.

Definition with_base (s : bsys) (b : sys) : bsys :=
  Build_bsys b (factory_table s) (boots s) (returned s).
(** [c] goes on with [k]. *)
Definition goes_on (s : bsys) (c d : nat) (k : boot_code) : bsys :=
  Build_bsys (base s) (factory_table s) (set_boot (boots s) c (Some (d, k))) (returned s).
Definition returns (s : bsys) (c : nat) : bsys :=
  Build_bsys (base s) (factory_table s) (set_boot (boots s) c None)
    (returned s ++ [(c, caps img)]).
Definition set_lock (b : sys) (l : Z) : sys := Build_sys l (store b) (cores b) (hist b).
Definition set_store (b : sys) (st : gmap Z cap_record_t) : sys :=
  Build_sys (lock b) st (cores b) (hist b).

(** Core [c] is in its bootstrap call itself, not in a handler above it or
    in the lock's code. *)
Definition at_depth (b : sys) (c d : nat) : Prop :=
  top (cores b c) = AIdle /\ length (below (cores b c)) = d.

(** A step of the core from [x] to [y] is a call of [o]. *)
Definition calls (x y : core) (o : op) : Prop :=
  top x = AIdle /\ top y = AStart o /\ below y = below x.

Context (a : arch) (ok : op -> Prop).

(** One step of core [c]: one of the lock's and the sections' own (a call
    made only by an operation in [ok], and only by a core that is not in the
    middle of its bootstrap, which can then only be interrupted), or one of
    the bootstrap's accesses. *)
Inductive bstep (c : nat) (s : bsys) : bsys -> Prop :=
| B_sys b :
    step a c (base s) b ->
    (forall o, calls (cores (base s) c) (cores b c) o -> ok o) ->
    (forall d k, boots s c = Some (d, k) -> at_depth (base s) c d ->
       length (below (cores b c)) = S d) ->
    bstep c s (with_base s b)
| B_enter :
    boots s c = None -> top (cores (base s) c) = AIdle ->
    bstep c s (goes_on s c (length (below (cores (base s) c))) bootstrap_code)
| B_read_record d f k r :
    boots s c = Some (d, BReadR f k) -> at_depth (base s) c d ->
    store (base s) !! g_factory_record_at img = Some r ->
    bstep c s (goes_on s c d (k (get_field f r)))
| B_read_table d f k :
    boots s c = Some (d, BReadT f k) -> at_depth (base s) c d ->
    bstep c s (goes_on s c d (k (get_tfield f (factory_table s))))
| B_take d b :
    boots s c = Some (d, BTakeLock) -> at_depth (base s) c d ->
    step a c (base s) b -> calls (cores (base s) c) (cores b c) OBootstrap ->
    bstep c s (goes_on (with_base s b) c d BLocked)
| B_unlocked d :
    boots s c = Some (d, BLocked) -> at_depth (base s) c d -> bstep c s (returns s c)
| B_clear d k :
    boots s c = Some (d, BClearLock k) -> at_depth (base s) c d ->
    bstep c s (goes_on (with_base s (set_lock (base s) 0)) c d k)
| B_write_table d w k :
    boots s c = Some (d, BWriteT w k) -> at_depth (base s) c d ->
    bstep c s (goes_on (Build_bsys (base s) (apply_twrite w (factory_table s)) (boots s) (returned s))
      c d k)
| B_write_record d f v k r :
    boots s c = Some (d, BWriteR f v k) -> at_depth (base s) c d ->
    store (base s) !! g_factory_record_at img = Some r ->
    bstep c s (goes_on (with_base s (set_store (base s)
      (<[g_factory_record_at img := set_field f v r]> (store (base s))))) c d k)
| B_return d :
    boots s c = Some (d, BReturn) -> at_depth (base s) c d -> bstep c s (returns s c).

Definition any_bstep (s s' : bsys) : Prop := exists c, bstep c s s'.

(** The first core has bootstrapped; nobody is in the kernel. *)
Record shared_boot (st0 : gmap Z cap_record_t) (s : bsys) : Prop := {
  sb_base : boot_state st0 (base s);
  sb_record : st0 !! g_factory_record_at img = Some (bound_factory_record img);
  sb_table : factory_table s = bound_factory_table img;
  sb_boots : forall c, boots s c = None;
  sb_returned : returned s = [] }.

Definition breachable (st0 : gmap Z cap_record_t) (s : bsys) : Prop :=
  exists s0, shared_boot st0 s0 /\ rtc any_bstep s0 s.

End Code.

(** Operations on storage other than the factory's record.  DESTROY's code
    refuses the factory's handle before it takes the lock; for CREATE it is
    up to the caller. *)
Definition destroy_guarded (img : image) (o : op) : Prop :=
  match o with ODestroy p => p <> g_factory_record_at img | _ => True end.
Definition spares_factory (img : image) (o : op) : Prop :=
  match o with
  | OCreate p _ _ _ _ | ODestroy p => p <> g_factory_record_at img
  | OInvoke _ | OBootstrap => True
  end.

(** * Lemmas: the sequential run *)

Section Sequential.
Context {W : Type} (a : arch) (img : image).
Implicit Types s : kstate W.

(** The rewriting half leaves what [rebound] describes. *)
Lemma run_rebind s r t :
  recs s !! g_factory_record_at img = Some r -> tables s !! g_factory_table_at img = Some t ->
  run_boot img a (rebind img) s = Ret (caps img, rebound img s).
Proof.
  intros Hr Ht. destruct s as [rs ts l f lg w]. simpl in Hr, Ht. simpl. rewrite Ht.
  repeat (rewrite lookup_insert_eq || unfold load_record, store_record; simpl).
  rewrite Hr. simpl.
  repeat (rewrite lookup_insert_eq || unfold load_record, store_record; simpl).
  unfold rebound. rewrite !insert_insert_eq. by destruct t.
Qed.

(** Six comparisons in a row are [already_bound]. *)
Lemma run_test s r t :
  recs s !! g_factory_record_at img = Some r -> tables s !! g_factory_table_at img = Some t ->
  run_boot img a (bootstrap_code img) s =
    run_boot img a (if already_bound img r t then BTakeLock else rebind img) s.
Proof.
  intros Hr Ht. unfold already_bound, bootstrap_code, test_table.
  cbn [run_boot]. unfold load_record. rewrite Hr, ret_bind. cbn [get_field].
  destruct (magic r =? CAP_RECORD_MAGIC); [|done].
  cbn [negb andb run_boot]. unfold load_record. rewrite Hr, ret_bind. cbn [get_field].
  destruct (valid r =? 0); [done|].
  cbn [negb andb run_boot]. unfold load_record. rewrite Hr, ret_bind. cbn [get_field].
  destruct (schema_table r =? g_factory_table_at img); [|done].
  cbn [negb andb run_boot]. rewrite Ht. cbn [get_tfield].
  destruct (arr_addr (t_structs t) =? g_factory_structs_at img); [|done].
  cbn [negb andb run_boot]. rewrite Ht. cbn [get_tfield].
  destruct (arr_addr (t_methods t) =? g_factory_methods_at img); [|done].
  cbn [negb andb run_boot]. rewrite Ht. cbn [get_tfield].
  by destruct (arr_addr (t_objects t) =? g_factory_objects_at img).
Qed.

(** The code of the machine, run alone, is [kernel_cap_bootstrap]. *)
Lemma run_bootstrap s : run_boot img a (bootstrap_code img) s = kernel_cap_bootstrap a img s.
Proof.
  destruct (recs s !! g_factory_record_at img) as [r|] eqn:Hr;
    [destruct (tables s !! g_factory_table_at img) as [t|] eqn:Ht|].
  - rewrite (run_test s r t Hr Ht). destruct (already_bound img r t) eqn:Hab.
    + unfold kernel_cap_bootstrap, load_record. by rewrite Hr, ret_bind, Ht, Hab.
    + rewrite (run_rebind s r t Hr Ht). symmetry. by eapply bootstrap_rebinds.
  - unfold kernel_cap_bootstrap, bootstrap_code, test_table. cbn [run_boot].
    unfold load_record. rewrite Hr, !ret_bind, Ht. cbn [get_field].
    assert (run_boot img a (rebind img) s = Fault (g_factory_table_at img)) as Hre
      by (unfold rebind; simpl; by rewrite Ht).
    destruct (magic r =? CAP_RECORD_MAGIC); [|exact Hre].
    cbn [negb run_boot]. unfold load_record. rewrite Hr, !ret_bind. cbn [get_field].
    destruct (valid r =? 0); [exact Hre|].
    cbn [negb run_boot]. unfold load_record. rewrite Hr, !ret_bind. cbn [get_field].
    destruct (schema_table r =? g_factory_table_at img); [|exact Hre].
    cbn [negb run_boot]. by rewrite Ht.
  - unfold kernel_cap_bootstrap, bootstrap_code. cbn [run_boot]. unfold load_record. by rewrite Hr.
Qed.

End Sequential.

(** * Lemmas: the machine *)

Section Machine.
Context (img : image) (a : arch).

(** A section that does not write the factory's record. *)
Fixpoint spares (k : crit) : Prop :=
  match k with
  | CDone _ => True
  | CRead _ _ k => forall v, spares (k v)
  | CWrite p _ _ k => p <> g_factory_record_at img /\ spares k
  end.

Lemma spares_check_live p k : spares k -> spares (check_live p k).
Proof. intros Hk m. simpl. case_match; [done|]. intros v. by case_match. Qed.

Lemma spares_body o : spares_factory img o -> spares (body o).
Proof.
  destruct o as [p|p h d t i|p|]; simpl; intros H; [|by repeat split| |done].
  - by apply spares_check_live.
  - apply spares_check_live. by repeat split.
Qed.

(** What an activation may still do. *)
Definition act_spares (x : act) : Prop :=
  match x with
  | AStart o | ATry o _ | ASpin o _ => spares_factory img o
  | ACrit _ _ k => spares k
  | AIdle | AUnmask _ _ _ => True
  end.
Definition core_spares (x : core) : Prop :=
  act_spares (top x) /\ Forall (fun y => act_spares y.1) (below x).

(** A step of a machine whose activations spare the record leaves it alone,
    and they go on sparing it. *)
Lemma step_spares c b b' :
  step a c b b' -> (forall c', core_spares (cores b c')) ->
  (forall o, calls (cores b c) (cores b' c) o -> spares_factory img o) ->
  (forall c', core_spares (cores b' c')) /\
  store b' !! g_factory_record_at img = store b !! g_factory_record_at img.
Proof.
  intros Hst Hsp Hcall.
  assert (forall x, core_spares x -> forall c', core_spares (set_core (cores b) c x c')) as Hset.
  { intros x Hx c'. destruct (decide (c' = c)) as [->|]; [by rewrite set_core_eq|].
    by rewrite set_core_ne. }
  pose proof (Hsp c) as [Ht Hb].
  destruct Hst as [o E|o E|o prior E Hl|o prior E Hl|o prior E|o prior p f k r E Hr
    |o prior p f v k r E Hr|o prior res E|o prior res E|He|x f rest E Hbl];
    cbn [cores store] in *; rewrite ?E in Ht; cbn [act_spares] in Ht;
    (split; [apply Hset; split; cbn [top below]; try done|try done]).
  - apply Hcall. unfold calls, run_top. rewrite set_core_eq. by repeat split.
  - by apply spares_body.
  - by case_match.
  - apply Ht.
  - apply Ht.
  - apply lookup_insert_ne. apply Ht.
  - by constructor.
  - rewrite Hbl in Hb. by apply Forall_cons in Hb as [? _].
  - rewrite Hbl in Hb. by apply Forall_cons in Hb as [_ ?].
Qed.

(** A call whose remaining reads, if they find what the first core bound,
    lead to the lock and not to the rewriting. *)
Fixpoint on_path (k : boot_code) : Prop :=
  match k with
  | BReadR f k => on_path (k (get_field f (bound_factory_record img)))
  | BReadT f k => on_path (k (get_tfield f (bound_factory_table img)))
  | BTakeLock | BLocked => True
  | BClearLock _ | BWriteT _ _ | BWriteR _ _ _ | BReturn => False
  end.

Lemma on_path_start : on_path (bootstrap_code img).
Proof. repeat (cbn; rewrite Z.eqb_refl). done. Qed.

Record binv (st0 : gmap Z cap_record_t) (s : bsys) : Prop := {
  bi_base : reachable a st0 (base s);
  bi_spares : forall c, core_spares (cores (base s) c);
  bi_record : store (base s) !! g_factory_record_at img = Some (bound_factory_record img);
  bi_table : factory_table s = bound_factory_table img;
  bi_boots : forall c d k, boots s c = Some (d, k) -> on_path k;
  bi_returned : Forall (fun x => x.2 = caps img) (returned s) }.

Lemma set_boot_eq f c x : set_boot f c x c = x.
Proof. unfold set_boot. by rewrite decide_True. Qed.
Lemma set_boot_Some f c x c' d k :
  set_boot f c x c' = Some (d, k) -> c' = c /\ x = Some (d, k) \/ f c' = Some (d, k).
Proof. unfold set_boot. case_decide; eauto. Qed.

Lemma reachable_step st0 c b b' : reachable a st0 b -> step a c b b' -> reachable a st0 b'.
Proof.
  intros (b0 & Hb0 & Hr) Hst. exists b0. split; [done|]. eapply rtc_r; [exact Hr|]. by exists c.
Qed.

(** The invariant over a step of the base machine. *)
Lemma binv_base st0 c s b :
  binv st0 s -> step a c (base s) b ->
  (forall o, calls (cores (base s) c) (cores b c) o -> spares_factory img o) ->
  binv st0 (with_base s b).
Proof.
  intros [Hb Hsp Hr Ht Hk Hret] Hst Hcall.
  destruct (step_spares c (base s) b Hst Hsp Hcall) as [Hsp' Hr'].
  split; try done; [by eapply reachable_step|]. simpl. by rewrite Hr'.
Qed.

(** The invariant over a step of the bootstrap alone. *)
Lemma binv_goes_on st0 s c d k : binv st0 s -> on_path k -> binv st0 (goes_on s c d k).
Proof.
  intros [Hb Hsp Hr Ht Hk Hret] Hp. split; try done. intros c' d' k' H. simpl in H.
  apply set_boot_Some in H as [[_ [= -> ->]]|H]; [done|by eapply Hk].
Qed.

Lemma binv_returns st0 s c : binv st0 s -> binv st0 (returns img s c).
Proof.
  intros [Hb Hsp Hr Ht Hk Hret]. split; try done.
  - intros c' d' k' H. simpl in H. apply set_boot_Some in H as [[_ [=]]|H]. by eapply Hk.
  - simpl. apply Forall_app. by split; [|constructor].
Qed.

Lemma binv_step st0 c s s' :
  binv st0 s -> bstep img a (spares_factory img) c s s' -> binv st0 s'.
Proof.
  intros Hi Hst. pose proof (bi_boots _ _ Hi c) as Hk.
  destruct Hst as [b Hb Hcall _|Hn _|d f k r Hc _ Hr|d f k Hc _|d b Hc _ Hb Hcall|d Hc _|d k Hc _
    |d w k Hc _|d f v k r Hc _ Hr|d Hc _]; try (by specialize (Hk _ _ Hc)).
  - by eapply binv_base.
  - apply binv_goes_on; [done|apply on_path_start].
  - apply binv_goes_on; [done|]. rewrite (bi_record _ _ Hi) in Hr. simplify_eq.
    apply (Hk _ _ Hc).
  - apply binv_goes_on; [done|]. rewrite (bi_table _ _ Hi). apply (Hk _ _ Hc).
  - apply binv_goes_on; [|done]. eapply binv_base; [done|exact Hb|].
    intros o (_ & Ho & _). destruct Hcall as (_ & Ho' & _). rewrite Ho in Ho'. by simplify_eq.
  - by apply binv_returns.
Qed.

Lemma binv_reachable st0 s : breachable img a (spares_factory img) st0 s -> binv st0 s.
Proof.
  intros (s0 & [Hb Hr Ht Hk Hret] & Hst).
  assert (binv st0 s0) as Hi.
  { split; [by exists (base s0)| | |done| |by rewrite Hret].
    - intros c. destruct (b_cores _ _ Hb c) as [E E']. split; [by rewrite E|by rewrite E'].
    - by rewrite (b_store _ _ Hb).
    - intros c d k H. by rewrite Hk in H. }
  clear Hb Hr Ht Hk Hret. induction Hst as [|s1 s2 s3 [c Hc] _ IH]; [done|].
  by eapply IH, binv_step.
Qed.

(** A core inside the lock's code takes the base machine's steps. *)
Lemma bstep_inside ok c s b :
  step a c (base s) b -> top (cores (base s) c) <> AIdle -> bstep img a ok c s (with_base s b).
Proof. intros Hst Hn. apply B_sys; [done|by intros o [? _]|by intros d k _ [? _]]. Qed.

(** A core in no bootstrap calls [o]. *)
Lemma bstep_call (ok : op -> Prop) c s o :
  top (cores (base s) c) = AIdle -> boots s c = None -> ok o ->
  bstep img a ok c s (with_base s {| lock := lock (base s); store := store (base s);
    hist := hist (base s); cores := run_top (base s) c (fl (cores (base s) c)) (AStart o) |}).
Proof.
  intros Ht Hn Ho. apply B_sys; [by eapply S_call| |].
  - intros o' (_ & E & _). simpl in E. unfold run_top in E. rewrite set_core_eq in E.
    by simplify_eq/=.
  - intros d k Hk. by rewrite Hn in Hk.
Qed.

(** The base steps from the call to the end of the (empty) section. *)
Lemma lock_cycle c b :
  top (cores b c) = AStart OBootstrap -> lock b = 0 ->
  forall s, base s = b -> exists b',
    rtc (bstep img a (spares_factory img) c) s (with_base s b') /\
    top (cores b' c) = AIdle /\ below (cores b' c) = below (cores b c) /\ fl (cores b' c) = fl (cores b c).
Proof.
  intros Ht Hl s Hs. subst b. eexists. split.
  - eapply rtc_l; [eapply bstep_inside; [by eapply S_mask|by rewrite Ht]|].
    eapply rtc_l; [eapply bstep_inside; [eapply S_acquire|]; simpl; unfold run_top; by rewrite ?set_core_eq|].
    eapply rtc_l; [eapply bstep_inside; [eapply S_release|]; simpl; unfold run_top; by rewrite ?set_core_eq|].
    eapply rtc_l; [eapply bstep_inside; [eapply S_unmask|]; simpl; unfold run_top; by rewrite ?set_core_eq|].
    apply rtc_refl.
  - simpl. unfold run_top. cbn [cores]. rewrite !set_core_eq. cbn [top below fl].
    split; [done|]. split; [done|]. apply irq_restore.
Qed.

(** A call on the path, on a core that is not interrupted, with the lock
    free, returns the grant by the core's own steps. *)
Lemma call_finishes st0 c d k : forall s,
  binv st0 s -> boots s c = Some (d, k) -> at_depth (base s) c d -> lock (base s) = 0 ->
  exists s', rtc (bstep img a (spares_factory img) c) s s' /\ boots s' c = None /\
    returned s' = returned s ++ [(c, caps img)] /\ fl (cores (base s') c) = fl (cores (base s) c).
Proof.
  induction k as [f k IH|f k IH| | |k IH|w k IH|f v k IH|]; intros s Hi Hk Hd Hl;
    try (by destruct (bi_boots _ _ Hi _ _ _ Hk)).
  - pose proof (B_read_record img a (spares_factory img) c s d f k _ Hk Hd (bi_record _ _ Hi)) as Hst.
    pose proof (binv_step _ _ _ _ Hi Hst) as Hi'.
    destruct (IH _ _ Hi' (set_boot_eq _ _ _) Hd Hl) as (s' & Hs & H).
    exists s'. split; [by eapply rtc_l|done].
  - pose proof (B_read_table img a (spares_factory img) c s d f k Hk Hd) as Hst.
    pose proof (binv_step _ _ _ _ Hi Hst) as Hi'.
    destruct (IH _ _ Hi' (set_boot_eq _ _ _) Hd Hl) as (s' & Hs & H).
    exists s'. split; [by eapply rtc_l|done].
  - destruct Hd as [Ht Hd].
    pose proof (S_call a c (base s) OBootstrap Ht) as Hcall.
    match type of Hcall with step _ _ _ ?b => set (b1 := b) in * end.
    assert (calls (cores (base s) c) (cores b1 c) OBootstrap) as Hcs
      by (unfold calls, b1, run_top; simpl; rewrite set_core_eq; by repeat split).
    destruct (lock_cycle c b1 (proj1 (proj2 Hcs)) Hl
      (goes_on (with_base s b1) c d BLocked) eq_refl) as (b' & Hs & Ht' & Hb' & Hf').
    eexists. split.
    + eapply rtc_l; [by eapply (B_take img a (spares_factory img) c s d b1)|].
      eapply rtc_r; [exact Hs|]. eapply B_unlocked; [apply set_boot_eq|].
      split; [done|]. simpl. rewrite Hb', (proj2 (proj2 Hcs)). done.
    + simpl. rewrite set_boot_eq, Hf'. split; [done|]. split; [done|].
      unfold b1, run_top. simpl. by rewrite set_core_eq.
  - eexists. split; [eapply rtc_once; by eapply B_unlocked|]. simpl. by rewrite set_boot_eq.
Qed.

End Machine.

(** * Theorems *)

(** The half of the function that frees the lock and rewrites the statics. *)
Definition rewriting (k : boot_code) : bool :=
  match k with
  | BClearLock _ | BWriteT _ _ | BWriteR _ _ _ | BReturn => true
  | BReadR _ _ | BReadT _ _ | BTakeLock | BLocked => false
  end.

(** C15. A core that bootstraps on a shared image, at any moment and beside
    any number of cores that make system calls and take interrupts, joins
    the running capability world and does not disturb it.  As long as no
    CREATE names the factory's own record as its storage, then in every
    reachable state the machine below has only taken steps the lock
    protocol allows, the factory's record and table are as the first core
    bound them, no bootstrap is ever in the half that frees the lock and
    rewrites the statics although its test reads them without the lock, each
    bootstrap that has returned gave the same grant, and one that is under
    way with the lock free returns by its own core's steps, with its flags
    as they were. *)
Theorem smp_bootstrap_joins img a st0 s :
  breachable img a (spares_factory img) st0 s ->
  reachable a st0 (base s) /\
  store (base s) !! g_factory_record_at img = Some (bound_factory_record img) /\
  factory_table s = bound_factory_table img /\
  (forall c d k, boots s c = Some (d, k) -> rewriting k = false) /\
  (forall c g, (c, g) ∈ returned s -> g = caps img) /\
  (forall c d k, boots s c = Some (d, k) -> at_depth (base s) c d -> lock (base s) = 0 ->
     exists s', rtc (bstep img a (spares_factory img) c) s s' /\ boots s' c = None /\
       returned s' = returned s ++ [(c, caps img)] /\
       fl (cores (base s') c) = fl (cores (base s) c)).
Proof.
  intros Hr. apply binv_reachable in Hr. pose proof Hr as [Hb _ Hrec Ht Hk Hret].
  repeat (split; [done|]). split; [|split].
  - intros c d k H. apply Hk in H. by destruct k.
  - intros c g H. rewrite Forall_forall in Hret. by apply (Hret (c, g)).
  - intros. by eapply call_finishes.
Qed.

(** * Schedules *)

(** Concrete runs are given as schedules: which core moves, and how. *)
Inductive move := MCall (o : op) | MLock | MEnter | MBoot.

(** The next step of a core inside the lock's code. *)
Definition lock_next (a : arch) (c : nat) (s : sys) : option sys :=
  let x := cores s c in
  match top x with
  | AIdle => None
  | AStart o => Some (Build_sys (lock s) (store s)
      (run_top s c (irq_mask a (fl x)) (ATry o (fl x))) (hist s))
  | ATry o prior =>
      Some (Build_sys 1 (store s)
        (run_top s c (fl x) (if lock s =? 0 then ACrit o prior (body o) else ASpin o prior)) (hist s))
  | ASpin o prior =>
      Some (Build_sys (lock s) (store s)
        (run_top s c (fl x) (if lock s =? 0 then ATry o prior else ASpin o prior)) (hist s))
  | ACrit o prior (CRead p f k) =>
      r ← store s !! p;
      Some (Build_sys (lock s) (store s) (run_top s c (fl x) (ACrit o prior (k (get_field f r)))) (hist s))
  | ACrit o prior (CWrite p f v k) =>
      r ← store s !! p;
      Some (Build_sys (lock s) (<[p := set_field f v r]> (store s))
        (run_top s c (fl x) (ACrit o prior k)) (hist s))
  | ACrit o prior (CDone res) =>
      Some (Build_sys 0 (store s) (run_top s c (fl x) (AUnmask o prior res)) (hist s ++ [(o, res)]))
  | AUnmask o prior res =>
      Some (Build_sys (lock s) (store s)
        (run_top s c (if irq_was_enabled a prior then irq_unmask a (fl x) else fl x) AIdle) (hist s))
  end.

(** The next step of a core in its bootstrap call. *)
Definition boot_next (img : image) (c : nat) (s : bsys) : option bsys :=
  '(d, k) ← boots s c;
  if negb (length (below (cores (base s) c)) =? d)%nat then None
  else match top (cores (base s) c) with
  | AIdle =>
      match k with
      | BReadR f k =>
          r ← store (base s) !! g_factory_record_at img; Some (goes_on s c d (k (get_field f r)))
      | BReadT f k => Some (goes_on s c d (k (get_tfield f (factory_table s))))
      | BTakeLock => Some (goes_on (with_base s (Build_sys (lock (base s)) (store (base s))
          (run_top (base s) c (fl (cores (base s) c)) (AStart OBootstrap)) (hist (base s)))) c d BLocked)
      | BLocked | BReturn => Some (returns img s c)
      | BClearLock k => Some (goes_on (with_base s (set_lock (base s) 0)) c d k)
      | BWriteT w k => Some (goes_on (Build_bsys (base s) (apply_twrite w (factory_table s))
          (boots s) (returned s)) c d k)
      | BWriteR f v k =>
          r ← store (base s) !! g_factory_record_at img;
          Some (goes_on (with_base s (set_store (base s)
            (<[g_factory_record_at img := set_field f v r]> (store (base s))))) c d k)
      end
  | _ => None
  end.

Definition make_move (img : image) (a : arch) (c : nat) (m : move) (s : bsys) : option bsys :=
  match m with
  | MLock => with_base s <$> lock_next a c (base s)
  | MBoot => boot_next img c s
  | MCall o =>
      match top (cores (base s) c), boots s c with
      | AIdle, None => Some (with_base s (Build_sys (lock (base s)) (store (base s))
          (run_top (base s) c (fl (cores (base s) c)) (AStart o)) (hist (base s))))
      | _, _ => None
      end
  | MEnter =>
      match top (cores (base s) c), boots s c with
      | AIdle, None => Some (goes_on s c (length (below (cores (base s) c))) (bootstrap_code img))
      | _, _ => None
      end
  end.

Fixpoint run_moves (img : image) (a : arch) (ms : list (nat * move)) (s : bsys) : option bsys :=
  match ms with
  | [] => Some s
  | (c, m) :: ms => s ← make_move img a c m s; run_moves img a ms s
  end.

Lemma lock_next_step a c s s' :
  lock_next a c s = Some s' -> step a c s s' /\ top (cores s c) <> AIdle.
Proof.
  unfold lock_next. intros H. destruct (top (cores s c)) as [|o|o prior|o prior|o prior k|o prior res] eqn:E;
    [done|..]; (split; [|done]).
  - simplify_eq. by apply S_mask.
  - destruct (Z.eqb_spec (lock s) 0); simplify_eq; [by apply S_acquire|by apply S_busy].
  - simplify_eq. by apply S_spin.
  - destruct k as [res|p f k|p f v k].
    + simplify_eq. by apply S_release.
    + destruct (store s !! p) eqn:Hp; simplify_eq/=. by eapply S_read.
    + destruct (store s !! p) eqn:Hp; simplify_eq/=. by eapply S_write.
  - simplify_eq. by eapply S_unmask.
Qed.

Lemma boot_next_step img a ok c s s' : boot_next img c s = Some s' -> bstep img a ok c s s'.
Proof.
  unfold boot_next. intros H. destruct (boots s c) as [[d k]|] eqn:Hk; simpl in H; [|done].
  destruct (Nat.eqb_spec (length (below (cores (base s) c))) d) as [Hd|]; simpl in H; [|done].
  destruct (top (cores (base s) c)) eqn:Ht; try done.
  assert (at_depth (base s) c d) as Hat by done.
  destruct k as [f k|f k| | |k|w k|f v k|]; simplify_eq/=.
  - destruct (store (base s) !! _) eqn:Hr; simplify_eq/=. by eapply B_read_record.
  - by eapply B_read_table.
  - eapply B_take; [done|done|by apply S_call|]. unfold calls, run_top. simpl.
    rewrite set_core_eq. by repeat split.
  - by eapply B_unlocked.
  - by eapply B_clear.
  - by eapply B_write_table.
  - destruct (store (base s) !! _) eqn:Hr; simplify_eq/=. by eapply B_write_record.
  - by eapply B_return.
Qed.

Lemma make_move_step img a (ok : op -> Prop) c m s s' :
  make_move img a c m s = Some s' -> match m with MCall o => ok o | _ => True end ->
  bstep img a ok c s s'.
Proof.
  intros H Hm. destruct m as [o| | |]; simpl in H.
  - destruct (top (cores (base s) c)) eqn:Ht; [|done..].
    destruct (boots s c) eqn:Hb; simplify_eq. by apply bstep_call.
  - destruct (lock_next a c (base s)) eqn:E; simplify_eq/=.
    apply lock_next_step in E as [??]. by apply bstep_inside.
  - destruct (top (cores (base s) c)) eqn:Ht; [|done..].
    destruct (boots s c) eqn:Hb; simplify_eq. by apply B_enter.
  - by apply boot_next_step.
Qed.

Lemma run_moves_steps img a (ok : op -> Prop) ms : forall s s',
  run_moves img a ms s = Some s' ->
  Forall (fun cm => match cm.2 with MCall o => ok o | _ => True end) ms ->
  rtc (any_bstep img a ok) s s'.
Proof.
  induction ms as [|[c m] ms IH]; intros s s' H Hok; simpl in H; [simplify_eq; apply rtc_refl|].
  destruct (make_move img a c m s) as [s1|] eqn:E; simpl in H; [|done].
  apply Forall_cons in Hok as [Hm Hok].
  eapply rtc_l; [exists c; by eapply make_move_step|]. by apply IH.
Qed.

(** Core [c] makes the move [n] times. *)
Definition times (n : nat) (c : nat) (m : move) : list (nat * move) := replicate n (c, m).

(** * A run that breaks the lock *)

(** The image of the examples with its factory bound and one more slot; the
    cores have interrupts on. *)
Definition ex_shared : gmap Z cap_record_t :=
  <[0x1000 := bound_factory_record ex_img]> ex_slot.
Definition ex_shared_boot : bsys := {|
  base := {| lock := 0; store := ex_shared; hist := [];
             cores := fun _ => {| fl := 0x202; top := AIdle; below := [] |} |};
  factory_table := bound_factory_table ex_img; boots := fun _ => None; returned := [] |}.

Lemma ex_shared_boot_ok : shared_boot ex_img ex_shared ex_shared_boot.
Proof. by split. Qed.

(** A CREATE that names the factory's record as its storage. *)
Definition ex_replace : op := OCreate 0x1000 0x6000 0 0x2000 0.

(** The factory's handler beside the caller's schema table. *)
Definition ex_torn : cap_record_t := {|
  magic := CAP_RECORD_MAGIC; valid := 1; handler := factory_handler_at ex_img; data := 0;
  schema_table := 0x2000; schema_index := 0 |}.

(** Core 0 is about to store the last field when core 1 bootstraps as far as
    the handler and core 2 invokes the factory. *)
Definition ex_break : list (nat * move) :=
  (0%nat, MCall ex_replace) :: times 7 0 MLock ++
  (1%nat, MEnter) :: times 16 1 MBoot ++
  (2%nat, MCall (OInvoke 0x1000)) :: times 11 2 MLock.

(** C18. The condition on CREATE is needed.  The code refuses to destroy the
    factory but lets a CREATE name the factory's record as its storage, and
    while such a CREATE is in its critical section on one core, a second
    core that bootstraps finds the half-written record not bound, frees the
    lock the first one holds and rewrites the record without it: a third
    core's invocation then enters a section of its own and copies a record
    that nobody wrote, the factory's handler with the caller's schema
    table. *)
Theorem smp_bootstrap_can_break_lock :
  exists s prior k,
    breachable ex_img X86_64 (destroy_guarded ex_img) ex_shared s /\
    top (cores (base s) 0%nat) = ACrit ex_replace prior k /\ k <> CDone CR_stored /\
    lock (base s) = 0 /\ hist (base s) = [(OInvoke 0x1000, CR_copied ex_torn)].
Proof.
  destruct (run_moves ex_img X86_64 ex_break ex_shared_boot) as [s|] eqn:E; [|by vm_compute in E].
  assert (breachable ex_img X86_64 (destroy_guarded ex_img) ex_shared s) as Hr.
  { exists ex_shared_boot. split; [apply ex_shared_boot_ok|].
    eapply run_moves_steps; [exact E|]. clear E. by repeat constructor. }
  assert ((fun s => (top (cores (base s) 0%nat), lock (base s), hist (base s))) <$>
      run_moves ex_img X86_64 ex_break ex_shared_boot =
    Some (ACrit ex_replace 0x202 (CWrite 0x1000 F_schema_index 0 (CDone CR_stored)), 0,
      [(OInvoke 0x1000, CR_copied ex_torn)])) as Hobs by (vm_compute; reflexivity).
  rewrite E in Hobs. simpl in Hobs. injection Hobs as Ht Hl Hh. clear E.
  eexists s, _, _. split; [exact Hr|]. split; [exact Ht|]. by split.
Qed.

(** A core bootstraps while another is in the middle of a CREATE elsewhere,
    and spins until it is over. *)
Definition ex_join : list (nat * move) :=
  (0%nat, MCall ex_create) :: times 4 0 MLock ++ (1%nat, MEnter) :: times 7 1 MBoot ++
  times 2 1 MLock ++ times 5 0 MLock ++ times 4 1 MLock ++ times 1 1 MBoot.

Lemma ex_joining : exists s,
  breachable ex_img X86_64 (spares_factory ex_img) ex_shared s /\
  returned s = [(1%nat, caps ex_img)] /\
  hist (base s) = [(ex_create, CR_stored); (OBootstrap, CR_stored)].
Proof.
  destruct (run_moves ex_img X86_64 ex_join ex_shared_boot) as [s|] eqn:E; [|by vm_compute in E].
  exists s. split.
  - exists ex_shared_boot. split; [apply ex_shared_boot_ok|].
    eapply run_moves_steps; [exact E|]. clear E. by repeat constructor.
  - assert ((fun s => (returned s, hist (base s))) <$>
      run_moves ex_img X86_64 ex_join ex_shared_boot =
      Some ([(1%nat, caps ex_img)], [(ex_create, CR_stored); (OBootstrap, CR_stored)])) as Hobs
      by (vm_compute; reflexivity).
    rewrite E in Hobs. simpl in Hobs. injection Hobs as Hret Hh. clear E. by split.
Qed.

Lemma smp_bootstrap_joins_witness : exists s,
  returned s = [(1%nat, caps ex_img)] /\ reachable X86_64 ex_shared (base s) /\
  store (base s) !! 0x1000 = Some (bound_factory_record ex_img).
Proof.
  destruct ex_joining as (s & Hr & Hret & _). exists s. split; [done|].
  destruct (smp_bootstrap_joins ex_img X86_64 ex_shared s Hr) as (H1 & H2 & _). by split.
Defined.
