(* ===== verification/Fdt.v ===== *)
(** The flattened-device-tree walker: lib/fdt.c.

    The blob is a [reader] ([None] for a [NULL] pointer), so every byte the
    walker looks at is an access that could fall outside it.  A pointer into
    the blob is its offset from the blob's start; node offsets and other
    values the code keeps in an [int] or [uint32_t] are converted where the
    code converts them.  C strings handed in by callers (property names,
    paths) are the list of their characters, without the terminator, and are
    not [NULL].

    Every [for (;;)] and [while] is an [iterM] over one iteration of its
    body.  [walk_fuel] bounds the walks over the structure block, each of
    whose iterations moves forward; the one walk that need not end,
    [fdt_node_by_compatible_offset], takes its bound as an argument. *)
From S2P Require Import Prelude CMem.

(** * Constants and data *)

Definition FDT_MAGIC : Z := 0xd00dfeed.
Definition FDT_BEGIN_NODE : Z := 1.
Definition FDT_END_NODE : Z := 2.
Definition FDT_PROP : Z := 3.
Definition FDT_NOP : Z := 4.
Definition FDT_END : Z := 9.
Definition FDT_MAX_DEPTH : Z := 16.
Definition FDT_ERR_NODE : Z := -1.

Record ctx_t := {
  base : reader;
  c_s : Z;
  c_send : Z;
  c_str : Z;
  c_strend : Z }.

Record fdt_range_t := { r_base : Z; r_size : Z }.

#[export] Instance fdt_range_eq_dec : EqDecision fdt_range_t.
Proof. solve_decision. Defined.

(** The characters of the names the code looks up. *)
Definition str_compatible : list Z := [99; 111; 109; 112; 97; 116; 105; 98; 108; 101].
Definition str_address_cells : list Z :=
  [35; 97; 100; 100; 114; 101; 115; 115; 45; 99; 101; 108; 108; 115].
Definition str_size_cells : list Z := [35; 115; 105; 122; 101; 45; 99; 101; 108; 108; 115].
Definition str_reg : list Z := [114; 101; 103].
Definition str_ranges : list Z := [114; 97; 110; 103; 101; 115].
Definition str_status : list Z := [115; 116; 97; 116; 117; 115].

(** * Primitives *)

(** A [cells]-sized big-endian value; anything but 1 reads eight bytes. *)
Definition rd_cells (rd : reader) (p cells : Z) : outcome Z :=
  if cells =? 1 then rd_be32 rd p else rd_be64 rd p.

Definition ok (c : ctx_t) (p n : Z) : bool :=
  (c_s c <=? p) && (p <=? c_send c) && (n <=? u64 (c_send c - p)).

Definition ctx_init (blob : option reader) : outcome (option ctx_t) :=
  match blob with
  | None => Ret None
  | Some b =>
      m ← rd_be32 b 0;
      if negb (m =? FDT_MAGIC) then Ret None
      else
        totalsize ← rd_be32 b 4;
        off_struct ← rd_be32 b 8;
        off_strings ← rd_be32 b 12;
        size_strings ← rd_be32 b 32;
        size_struct ← rd_be32 b 36;
        if (totalsize <? off_struct) || (u32 (totalsize - off_struct) <? size_struct)
        then Ret None
        else if (totalsize <? off_strings) || (u32 (totalsize - off_strings) <? size_strings)
        then Ret None
        else
          Ret (Some {| base := b; c_s := off_struct; c_send := off_struct + size_struct;
                       c_str := off_strings; c_strend := off_strings + size_strings |})
  end.

Definition str_at (c : ctx_t) (off : Z) : option Z :=
  if u32 (c_strend c - c_str c) <=? off then None else Some (c_str c + off).

(** [str_eq a b], with [a] in the blob and [b] a caller's string. *)
Fixpoint str_eq (rd : reader) (a : Z) (b : list Z) : outcome bool :=
  x ← rd a;
  match b with
  | [] => Ret (x =? 0)
  | y :: b' => if negb (x =? 0) && (x =? y) then str_eq rd (a + 1) b' else Ret (x =? y)
  end.

Definition align4 (v : Z) : Z := Z.land (u32 (v + 3)) (u32 (Z.lnot 3)).

#[global] Arguments align4 _ : simpl never.

Definition off_of (c : ctx_t) (p : Z) : Z := s32 p.

(** Enough iterations for any walk that moves forward in the structure
    block. *)
Definition walk_fuel (c : ctx_t) : nat := S (S (Z.to_nat (c_send c - c_s c))).

(** The [while] of [node_name]: [n] counts up to the terminator or the end
    of the block. *)
Definition node_name_step (c : ctx_t) (p n : Z) : outcome (Z + Z) :=
  if ok c (p + n) 1 then
    b ← base c (p + n);
    if negb (b =? 0) then Ret (inl (u32 (n + 1))) else Ret (inr n)
  else Ret (inr n).

(** The name's length; the name itself starts at [p]. *)
Definition node_name (c : ctx_t) (p : Z) : outcome (option Z) :=
  n ← iterM (walk_fuel c) (node_name_step c p) 0;
  if negb (ok c (p + n) 1) then Ret None else Ret (Some n).

(** * Walking nodes *)

(** One iteration of [skip_node]: the variables are [p] and [depth]. *)
Definition skip_node_step (c : ctx_t) (v : Z * Z) : outcome (Z * Z + Z) :=
  let '(p, depth) := v in
  if negb (ok c p 4) then Ret (inr (-1))
  else
    token ← rd_be32 (base c) p;
    let p := p + 4 in
    if token =? FDT_BEGIN_NODE then
      nm ← node_name c p;
      match nm with
      | None => Ret (inr (-1))
      | Some namelen => Ret (inl (p + align4 (u32 (namelen + 1)), depth + 1))
      end
    else if token =? FDT_END_NODE then
      let depth := depth - 1 in
      if depth <=? 0 then Ret (inr (off_of c p)) else Ret (inl (p, depth))
    else if token =? FDT_PROP then
      if negb (ok c p 8) then Ret (inr (-1))
      else
        len ← rd_be32 (base c) p;
        if negb (ok c (p + 8) len) then Ret (inr (-1))
        else Ret (inl (p + u32 (8 + align4 len), depth))
    else if token =? FDT_NOP then Ret (inl (p, depth))
    else Ret (inr (-1)).

Definition skip_node (c : ctx_t) (off : Z) : outcome Z :=
  iterM (walk_fuel c) (skip_node_step c) (off, 0).

Definition after_name (c : ctx_t) (node_off : Z) : outcome (option Z) :=
  let p := node_off in
  if negb (ok c p 4) then Ret None
  else
    token ← rd_be32 (base c) p;
    if negb (token =? FDT_BEGIN_NODE) then Ret None
    else
      let p := p + 4 in
      nm ← node_name c p;
      match nm with
      | None => Ret None
      | Some namelen => Ret (Some (p + align4 (u32 (namelen + 1))))
      end.

Definition fdt_valid (blob : option reader) (blob_size : Z) : outcome Z :=
  match blob with
  | None => Ret 0
  | Some b =>
      if blob_size <? 40 then Ret 0
      else
        m ← rd_be32 b 0;
        if negb (m =? FDT_MAGIC) then Ret 0
        else
          totalsize ← rd_be32 b 4;
          if blob_size <? totalsize then Ret 0
          else
            oc ← ctx_init blob;
            Ret (match oc with Some _ => 1 | None => 0 end)
  end.

(** One iteration of [fdt_first_child]; [p] points at the token. *)
Definition first_child_step (c : ctx_t) (p : Z) : outcome (Z + Z) :=
  if negb (ok c p 4) then Ret (inr FDT_ERR_NODE)
  else
    token ← rd_be32 (base c) p;
    if token =? FDT_BEGIN_NODE then Ret (inr (off_of c p))
    else if token =? FDT_END_NODE then Ret (inr FDT_ERR_NODE)
    else if token =? FDT_PROP then
      len ← rd_be32 (base c) (p + 4);
      if negb (ok c (p + 12) len) then Ret (inr FDT_ERR_NODE)
      else Ret (inl (p + u32 (12 + align4 len)))
    else if token =? FDT_NOP then Ret (inl (p + 4))
    else Ret (inr FDT_ERR_NODE).

Definition fdt_first_child (blob : option reader) (parent_offset : Z) : outcome Z :=
  oc ← ctx_init blob;
  match oc with
  | None => Ret FDT_ERR_NODE
  | Some c =>
      op ← after_name c parent_offset;
      match op with
      | None => Ret FDT_ERR_NODE
      | Some p => iterM (walk_fuel c) (first_child_step c) p
      end
  end.

(** One iteration of [fdt_parent_offset]: the variables are [p], [depth] and
    [stack], whose unwritten entries are indeterminate (0 here). *)
Definition parent_step (c : ctx_t) (node_offset : Z) (v : Z * Z * list Z)
    : outcome (Z * Z * list Z + Z) :=
  let '(p, depth, stack) := v in
  if negb (ok c p 4) then Ret (inr FDT_ERR_NODE)
  else
    let here := off_of c p in
    token ← rd_be32 (base c) p;
    let p := p + 4 in
    if token =? FDT_BEGIN_NODE then
      nm ← node_name c p;
      match nm with
      | None => Ret (inr FDT_ERR_NODE)
      | Some namelen =>
          let p := p + align4 (u32 (namelen + 1)) in
          let depth := depth + 1 in
          let stack :=
            if depth <? FDT_MAX_DEPTH then <[Z.to_nat depth := here]> stack else stack in
          if here =? node_offset then
            if (depth <=? 0) || (FDT_MAX_DEPTH <=? depth - 1) then Ret (inr FDT_ERR_NODE)
            else
              match stack !! Z.to_nat (depth - 1) with
              | Some up => Ret (inr up)
              | None => Fault (depth - 1)
              end
          else Ret (inl (p, depth, stack))
      end
    else if token =? FDT_END_NODE then
      let depth := depth - 1 in
      if depth <? 0 then Ret (inr FDT_ERR_NODE) else Ret (inl (p, depth, stack))
    else if token =? FDT_PROP then
      len ← rd_be32 (base c) p;
      if negb (ok c (p + 8) len) then Ret (inr FDT_ERR_NODE)
      else Ret (inl (p + u32 (8 + align4 len), depth, stack))
    else if token =? FDT_NOP then Ret (inl (p, depth, stack))
    else Ret (inr FDT_ERR_NODE).

Definition fdt_parent_offset (blob : option reader) (node_offset : Z) : outcome Z :=
  oc ← ctx_init blob;
  match oc with
  | None => Ret FDT_ERR_NODE
  | Some c =>
      iterM (walk_fuel c) (parent_step c node_offset)
        (c_s c, -1, replicate (Z.to_nat FDT_MAX_DEPTH) 0)
  end.

(** One iteration of the scan after the previous sibling. *)
Definition next_sibling_step (c : ctx_t) (p : Z) : outcome (Z + Z) :=
  if negb (ok c p 4) then Ret (inr FDT_ERR_NODE)
  else
    token ← rd_be32 (base c) p;
    if token =? FDT_BEGIN_NODE then Ret (inr (off_of c p))
    else if token =? FDT_END_NODE then Ret (inr FDT_ERR_NODE)
    else if token =? FDT_NOP then Ret (inl (p + 4))
    else Ret (inr FDT_ERR_NODE).

Definition fdt_next_sibling (blob : option reader) (parent_offset prev_sibling : Z)
    : outcome Z :=
  oc ← ctx_init blob;
  match oc with
  | None => Ret FDT_ERR_NODE
  | Some c =>
      par ← fdt_parent_offset blob prev_sibling;
      if negb (par =? parent_offset) then Ret FDT_ERR_NODE
      else
        nxt ← skip_node c prev_sibling;
        if nxt <? 0 then Ret FDT_ERR_NODE
        else iterM (walk_fuel c) (next_sibling_step c) nxt
  end.

(** One iteration of [fdt_getprop]; the result is the value's position and
    length. *)
Definition getprop_step (c : ctx_t) (name : list Z) (p : Z)
    : outcome (Z + option (Z * Z)) :=
  if negb (ok c p 4) then Ret (inr None)
  else
    token ← rd_be32 (base c) p;
    if (token =? FDT_BEGIN_NODE) || (token =? FDT_END_NODE) then Ret (inr None)
    else if token =? FDT_NOP then Ret (inl (p + 4))
    else if negb (token =? FDT_PROP) || negb (ok c p 8) then Ret (inr None)
    else
      len ← rd_be32 (base c) (p + 4);
      nameoff ← rd_be32 (base c) (p + 8);
      if negb (ok c (p + 12) len) then Ret (inr None)
      else
        match str_at c nameoff with
        | None => Ret (inr None)
        | Some pn =>
            e ← str_eq (base c) pn name;
            if e : bool then Ret (inr (Some (p + 12, len)))
            else Ret (inl (p + u32 (12 + align4 len)))
        end.

Definition fdt_getprop (blob : option reader) (node_offset : Z) (name : list Z)
    : outcome (option (Z * Z)) :=
  oc ← ctx_init blob;
  match oc with
  | None => Ret None
  | Some c =>
      op ← after_name c node_offset;
      match op with
      | None => Ret None
      | Some p => iterM (walk_fuel c) (getprop_step c name) p
      end
  end.

(** * Searches *)

(** [for (ch = first; ch != FDT_ERR_NODE; ch = fdt_next_sibling(blob, cur, ch))]
    with [body] the loop's body on the variables [v]: [inl] to go on to the
    next child, [inr] to leave the loop. *)
Definition child_step {V R : Type} (blob : option reader) (cur : Z)
    (body : Z -> V -> outcome (V + R)) (done : V -> R) (st : Z * V)
    : outcome (Z * V + R) :=
  let '(ch, v) := st in
  if ch =? FDT_ERR_NODE then Ret (inr (done v))
  else
    r ← body ch v;
    match r with
    | inr x => Ret (inr x)
    | inl v' => nxt ← fdt_next_sibling blob cur ch; Ret (inl (nxt, v'))
    end.

(** [i == len] after [while (i < len && n[i] == start[i]) i++;]. *)
Fixpoint name_matches (rd : reader) (p : Z) (start : list Z) : outcome bool :=
  match start with
  | [] => Ret true
  | x :: start' =>
      b ← rd p;
      if b =? x then name_matches rd (p + 1) start' else Ret false
  end.

Definition path_child (c : ctx_t) (start : list Z) (ch : Z) (_ : unit)
    : outcome (unit + Z) :=
  nm ← node_name c (ch + 4);
  match nm with
  | None => Ret (inr FDT_ERR_NODE)
  | Some namelen =>
      if namelen =? Z.of_nat (length start) then
        m ← name_matches (base c) (ch + 4) start;
        if m : bool then Ret (inr ch) else Ret (inl tt)
      else Ret (inl tt)
  end.

Definition find_child (blob : option reader) (c : ctx_t) (cur : Z) (start : list Z)
    : outcome Z :=
  first ← fdt_first_child blob cur;
  iterM (walk_fuel c) (child_step blob cur (path_child c start) (fun _ => FDT_ERR_NODE))
    (first, tt).

Definition SLASH : Z := 47.

Fixpoint skip_slashes (p : list Z) : list Z :=
  match p with
  | x :: p' => if x =? SLASH then skip_slashes p' else p
  | [] => []
  end.

(** [while ( *p && *p != '/') p++]: the component and what follows it. *)
Fixpoint component (p : list Z) : list Z * list Z :=
  match p with
  | x :: p' => if x =? SLASH then ([], p) else let '(w, r) := component p' in (x :: w, r)
  | [] => ([], [])
  end.

(** One iteration of the loop over path components. *)
Definition path_step (blob : option reader) (c : ctx_t) (v : list Z * Z)
    : outcome (list Z * Z + Z) :=
  let '(p, cur) := v in
  match p with
  | [] => Ret (inr cur)
  | _ =>
      let '(start, rest) := component p in
      found ← find_child blob c cur start;
      if found =? FDT_ERR_NODE then Ret (inr FDT_ERR_NODE)
      else Ret (inl (skip_slashes rest, found))
  end.

Definition fdt_path_offset (blob : option reader) (path : list Z) : outcome Z :=
  oc ← ctx_init blob;
  match oc with
  | None => Ret FDT_ERR_NODE
  | Some c =>
      match path with
      | x :: _ =>
          if negb (x =? SLASH) then Ret FDT_ERR_NODE
          else
            let cur := off_of c (c_s c) in
            if negb (ok c (c_s c) 4) then Ret FDT_ERR_NODE
            else
              token ← rd_be32 (base c) (c_s c);
              if negb (token =? FDT_BEGIN_NODE) then Ret FDT_ERR_NODE
              else
                match skip_slashes path with
                | [] => Ret cur
                | p => iterM (S (S (length p))) (path_step blob c) (p, cur)
                end
      | [] => Ret FDT_ERR_NODE
      end
  end.

(** ** compatible *)

(** [while (i + j < len && entry[j]) j++;] *)
Definition entry_len_step (rd : reader) (list_at len i j : Z) : outcome (Z + Z) :=
  if u32 (i + j) <? len then
    b ← rd (list_at + i + j);
    if negb (b =? 0) then Ret (inl (u32 (j + 1))) else Ret (inr j)
  else Ret (inr j).

Definition compatible_step (rd : reader) (list_at len : Z) (want : list Z) (i : Z)
    : outcome (Z + bool) :=
  if i <? len then
    j ← iterM (S (S (Z.to_nat len))) (entry_len_step rd list_at len i) 0;
    m ← (if u32 (i + j) <? len then str_eq rd (list_at + i) want else Ret false);
    if m : bool then Ret (inr true) else Ret (inl (u32 (i + (j + 1))))
  else Ret (inr false).

Definition compatible_match (rd : reader) (list_at len : Z) (want : list Z) : outcome bool :=
  iterM (S (S (Z.to_nat len))) (compatible_step rd list_at len want) 0.

Definition FDT_STACK0 : list Z := replicate (Z.to_nat FDT_MAX_DEPTH) 0.

(** [stack[i]]. *)
Definition stack_get (stack : list Z) (i : Z) : outcome Z :=
  match stack !! Z.to_nat i with Some x => Ret x | None => Fault i end.

(** The inner [for (;;)]: to a sibling, climbing as needed. *)
Definition climb_step (blob : option reader) (v : Z * list Z)
    : outcome (Z * list Z + option (Z * list Z)) :=
  let '(depth, stack) := v in
  if depth =? 0 then Ret (inr None)
  else
    par ← stack_get stack (depth - 1);
    cur ← stack_get stack depth;
    sib ← fdt_next_sibling blob par cur;
    if negb (sib =? FDT_ERR_NODE) then
      Ret (inr (Some (depth, <[Z.to_nat depth := sib]> stack)))
    else Ret (inl (depth - 1, stack)).

(** The scan over the too-deep node's remaining children. *)
Definition drain_step (blob : option reader) (cur sib : Z) : outcome (Z + unit) :=
  if sib =? FDT_ERR_NODE then Ret (inr tt)
  else nxt ← fdt_next_sibling blob cur sib; Ret (inl nxt).

Definition compatible_scan (blob : option reader) (c : ctx_t) (want : list Z)
    (v : Z * list Z) : outcome (Z * list Z + Z) :=
  let '(depth, stack) := v in
  cur ← stack_get stack depth;
  op ← fdt_getprop blob cur str_compatible;
  hit ← match op with
        | Some (cp, len) => compatible_match (base c) cp len want
        | None => Ret false
        end;
  if hit : bool then Ret (inr cur)
  else
    ch ← fdt_first_child blob cur;
    if negb (ch =? FDT_ERR_NODE) then
      if FDT_MAX_DEPTH <=? depth + 1 then
        sib ← fdt_next_sibling blob cur ch;
        _ ← iterM (walk_fuel c) (drain_step blob cur) sib;
        if depth =? 0 then Ret (inr FDT_ERR_NODE) else Ret (inl (depth - 1, stack))
      else
        Ret (inl (depth + 1, <[Z.to_nat (depth + 1) := ch]> stack))
    else
      r ← iterM (S (Z.to_nat FDT_MAX_DEPTH)) (climb_step blob) (depth, stack);
      match r with
      | None => Ret (inr FDT_ERR_NODE)
      | Some v' => Ret (inl v')
      end.

Definition fdt_node_by_compatible_offset (fuel : nat) (blob : option reader)
    (compatible : list Z) : outcome Z :=
  oc ← ctx_init blob;
  match oc with
  | None => Ret FDT_ERR_NODE
  | Some c =>
      if negb (ok c (c_s c) 4) then Ret FDT_ERR_NODE
      else
        token ← rd_be32 (base c) (c_s c);
        if negb (token =? FDT_BEGIN_NODE) then Ret FDT_ERR_NODE
        else
          iterM fuel (compatible_scan blob c compatible)
            (0, <[0%nat := off_of c (c_s c)]> FDT_STACK0)
  end.

(** * Cell counts and addresses *)

Definition own_cells (blob : option reader) (c : ctx_t) (node_off : Z) (name : list Z)
    : outcome (option Z) :=
  op ← fdt_getprop blob node_off name;
  match op with
  | None => Ret None
  | Some (v, len) => if len <? 4 then Ret None else x ← rd_be32 (base c) v; Ret (Some x)
  end.

(** One iteration of the walk up; [None] is "not found yet". *)
Definition parent_cells_step (blob : option reader) (c : ctx_t)
    (v : Z * option Z * option Z) : outcome (Z * option Z * option Z + option Z * option Z) :=
  let '(cur, ac, sc) := v in
  if cur <? 0 then Ret (inr (ac, sc))
  else
    ac ← match ac with
         | Some _ => Ret ac
         | None => own_cells blob c cur str_address_cells
         end;
    sc ← match sc with
         | Some _ => Ret sc
         | None => own_cells blob c cur str_size_cells
         end;
    match ac, sc with
    | Some _, Some _ => Ret (inr (ac, sc))
    | _, _ => cur ← fdt_parent_offset blob cur; Ret (inl (cur, ac, sc))
    end.

(** The two counts, or [None] where the function returns 0. *)
Definition fdt_parent_cells (blob : option reader) (node_offset : Z)
    : outcome (option (Z * Z)) :=
  oc ← ctx_init blob;
  match oc with
  | None => Ret None
  | Some c =>
      cur ← fdt_parent_offset blob node_offset;
      '(ac, sc) ← iterM (walk_fuel c) (parent_cells_step blob c) (cur, None, None);
      Ret (Some (default 2 ac, default 2 sc))
  end.

(** One iteration of [fdt_reserved_ranges]: [off] and the entries written. *)
Definition reserved_step (rd : reader) (totalsize max : Z) (v : Z * list fdt_range_t)
    : outcome (Z * list fdt_range_t + list fdt_range_t) :=
  let '(off, out) := v in
  if negb (Z.of_nat (length out) <? max) then Ret (inr out)
  else if (totalsize <? off) || (u32 (totalsize - off) <? 16) then Ret (inr out)
  else
    addr ← rd_be64 rd off;
    size ← rd_be64 rd (off + 8);
    if (addr =? 0) && (size =? 0) then Ret (inr out)
    else Ret (inl (u32 (off + 16), out ++ [{| r_base := addr; r_size := size |}])).

(** The entries written to [out]; their number is the return value. *)
Definition fdt_reserved_ranges (blob : option reader) (max : Z) : outcome (list fdt_range_t) :=
  oc ← ctx_init blob;
  match oc with
  | None => Ret []
  | Some c =>
      off ← rd_be32 (base c) 16;
      totalsize ← rd_be32 (base c) 4;
      iterM (S (S (Z.to_nat (totalsize / 16)))) (reserved_step (base c) totalsize max) (off, [])
  end.

(** One entry of a reg-style property: [rd_cells(e, ac)] and
    [sc ? rd_cells(e + ac * 4, sc) : 0]. *)
Definition rd_reg (rd : reader) (e ac sc : Z) : outcome fdt_range_t :=
  b ← rd_cells rd e ac;
  sz ← (if sc =? 0 then Ret 0 else rd_cells rd (e + u32 (ac * 4)) sc);
  Ret {| r_base := b; r_size := sz |}.

(** One window of a [ranges] property: the translated address if [addr]
    falls in it. *)
Definition ranges_step (rd : reader) (ranges rentry own_ac ra rs n addr i : Z)
    : outcome (Z + option Z) :=
  if i <? n then
    let e := ranges + u64 (i * rentry) in
    cbase ← rd_cells rd e own_ac;
    pbase ← rd_cells rd (e + u32 (own_ac * 4)) ra;
    rsize ← rd_cells rd (e + u32 ((own_ac + ra) * 4)) rs;
    if (cbase <=? addr) && (addr <? u64 (cbase + rsize)) then
      Ret (inr (Some (u64 (pbase + u64 (addr - cbase)))))
    else Ret (inl (u32 (i + 1)))
  else Ret (inr None).

(** The part of the loop body that applies one bus's [ranges]: [None] where
    the function returns 0. *)
Definition apply_ranges (blob : option reader) (c : ctx_t) (cur ranges rlen addr : Z)
    : outcome (option Z) :=
  bus ← fdt_parent_cells blob cur;
  match bus with
  | None => Ret None
  | Some (bus_ac, _) =>
      own_ac ← own_cells blob c cur str_address_cells;
      own_sc ← own_cells blob c cur str_size_cells;
      let own_ac := default 2 own_ac in
      let own_sc := default 2 own_sc in
      let own_ac := if own_ac =? 0 then 2 else own_ac in
      let ra := if bus_ac =? 0 then 2 else bus_ac in
      let rs := if own_sc =? 0 then 2 else own_sc in
      let rentry := u32 ((own_ac + ra + rs) * 4) in
      if rentry =? 0 then Ret None
      else
        let n := rlen / rentry in
        iterM (S (S (Z.to_nat n)))
          (ranges_step (base c) ranges rentry own_ac ra rs n addr) 0
  end.

(** One iteration of the walk up the buses: [cur] and the address so far;
    the result is [None] where the function returns 0. *)
Definition bus_step (blob : option reader) (c : ctx_t) (v : Z * Z)
    : outcome (Z * Z + option Z) :=
  let '(cur, addr) := v in
  parent ← fdt_parent_offset blob cur;
  if parent <? 0 then Ret (inr (Some addr))
  else
    op ← fdt_getprop blob cur str_ranges;
    match op with
    | None => Ret (inl (parent, addr))
    | Some (ranges, rlen) =>
        if rlen =? 0 then Ret (inl (parent, addr))
        else
          oa ← apply_ranges blob c cur ranges rlen addr;
          match oa with
          | None => Ret (inr None)
          | Some addr' =>
              if parent =? 0 then Ret (inr (Some addr')) else Ret (inl (parent, addr'))
          end
    end.

(** [None] where the function returns 0, else what it writes to [out]. *)
Definition fdt_reg_to_cpu_addr (blob : option reader) (node_offset index : Z)
    : outcome (option fdt_range_t) :=
  oc ← ctx_init blob;
  match oc with
  | None => Ret None
  | Some c =>
      cells ← fdt_parent_cells blob node_offset;
      match cells with
      | None => Ret None
      | Some (ac, sc) =>
          op ← fdt_getprop blob node_offset str_reg;
          match op with
          | None => Ret None
          | Some (reg, len) =>
              if ac =? 0 then Ret None
              else
                let entry := u32 ((ac + sc) * 4) in
                if (entry =? 0) || (len <? u64 (u32 (index + 1) * entry)) then Ret None
                else
                  r ← rd_reg (base c) (reg + u64 (index * entry)) ac sc;
                  oa ← iterM (walk_fuel c) (bus_step blob c) (node_offset, r_base r);
                  match oa with
                  | None => Ret None
                  | Some a => Ret (Some {| r_base := a; r_size := r_size r |})
                  end
          end
      end
  end.

(** [for (i = 0; i < n_entries && count < max; i++)]. *)
Definition reg_entries_step (rd : reader) (reg entry ac sc n max : Z)
    (v : Z * list fdt_range_t) : outcome (Z * list fdt_range_t + list fdt_range_t) :=
  let '(i, out) := v in
  if (i <? n) && (Z.of_nat (length out) <? max) then
    r ← rd_reg rd (reg + u64 (i * entry)) ac sc;
    Ret (inl (u32 (i + 1), out ++ [r]))
  else Ret (inr out).

Definition str_memory : list Z := [109; 101; 109; 111; 114; 121].
Definition CHAR_AT : Z := 64.

(** The body of the loop over the root's children. *)
Definition memory_child (blob : option reader) (c : ctx_t) (max ch : Z)
    (out : list fdt_range_t) : outcome (list fdt_range_t + list fdt_range_t) :=
  nm ← node_name c (ch + 4);
  match nm with
  | None => Ret (inl out)
  | Some namelen =>
      if namelen <? 6 then Ret (inl out)
      else
        m ← name_matches (base c) (ch + 4) str_memory;
        tail ← (if negb m then Ret false
                else if namelen =? 6 then Ret true
                else b ← base c (ch + 4 + 6); Ret (b =? CHAR_AT));
        if negb tail then Ret (inl out)
        else
          cells ← fdt_parent_cells blob ch;
          match cells with
          | None => Ret (inl out)
          | Some (ac, sc) =>
              op ← fdt_getprop blob ch str_reg;
              match op with
              | None => Ret (inl out)
              | Some (reg, len) =>
                  if ac =? 0 then Ret (inl out)
                  else
                    let entry := u32 ((ac + sc) * 4) in
                    if entry =? 0 then Ret (inl out)
                    else
                      let n := len / entry in
                      out ← iterM (S (S (Z.to_nat n)))
                              (reg_entries_step (base c) reg entry ac sc n max) (0, out);
                      Ret (inl out)
              end
          end
  end.

Definition fdt_memory_ranges (blob : option reader) (max : Z) : outcome (list fdt_range_t) :=
  oc ← ctx_init blob;
  match oc with
  | None => Ret []
  | Some c =>
      let root := off_of c (c_s c) in
      if negb (ok c (c_s c) 4) then Ret []
      else
        token ← rd_be32 (base c) (c_s c);
        if negb (token =? FDT_BEGIN_NODE) then Ret []
        else
          first ← fdt_first_child blob root;
          iterM (walk_fuel c) (child_step blob root (memory_child blob c max) (fun out => out))
            (first, [])
  end.

(** * Wrappers *)

(** The return value and the cursor afterwards. *)
Definition fdt_next_child (blob : option reader) (parent_offset cursor : Z) : outcome (Z * Z) :=
  c ← (if cursor =? 0 then fdt_first_child blob parent_offset
       else fdt_next_sibling blob parent_offset cursor);
  if c =? FDT_ERR_NODE then Ret (0, 0) else Ret (c, c).

Definition fdt_node_by_compatible (fuel : nat) (blob : option reader) (compatible : list Z)
    : outcome (option Z) :=
  off ← fdt_node_by_compatible_offset fuel blob compatible;
  Ret (if off =? FDT_ERR_NODE then None else Some off).

(** Enabled unless a [status] property says otherwise. *)
Definition fdt_is_enabled (blob : option reader) (node_offset : Z) : outcome bool :=
  op ← fdt_getprop blob node_offset str_status;
  match op, blob with
  | Some (st, len), Some rd =>
      if len =? 0 then Ret true
      else
        okay ← (if 5 <=? len then name_matches rd st [111; 107; 97; 121] else Ret false);
        if okay : bool then Ret true
        else
          isok ← (if 3 <=? len then name_matches rd st [111; 107] else Ret false);
          if isok : bool then
            b ← rd (st + 2); Ret ((b =? 0) || (len =? 3))
          else Ret false
  | _, _ => Ret true
  end.

Definition fdt_cell_counts (blob : option reader) (node_offset : Z) : outcome (option (Z * Z)) :=
  cells ← fdt_parent_cells blob node_offset;
  match cells with
  | None => Ret None
  | Some (ac, sc) => Ret (Some (s32 ac, s32 sc))
  end.

Definition fdt_reg_to_addr (blob : option reader) (node_offset : Z)
    : outcome (option (Z * Z)) :=
  r ← fdt_reg_to_cpu_addr blob node_offset 0;
  match r with
  | None => Ret None
  | Some r => Ret (Some (r_base r, r_size r))
  end.

(** The outputs written ([None]: left untouched); the function returns 1 if
    there is one. *)
Definition fdt_own_cell_counts (blob : option reader) (node_offset : Z)
    : outcome (option Z * option Z) :=
  oc ← ctx_init blob;
  match oc with
  | None => Ret (None, None)
  | Some c =>
      ac ← own_cells blob c node_offset str_address_cells;
      sc ← own_cells blob c node_offset str_size_cells;
      Ret (option_map s32 ac, option_map s32 sc)
  end.
