(* ===== verification/FdtSafe.v ===== *)
(** Memory safety and termination of lib/fdt.c on arbitrary blobs, and where
    each walk ends up.

    The blob is any object with [n] readable bytes.  The walks test each
    position against the structure block before they read a token, but some
    read a field that follows the token before testing it, and property names
    are compared up to the length of the name asked for.  [ctx_ok] states how
    far past the two blocks those reads can go: four bytes past the structure
    block and [slack] bytes past the strings block. *)
From S2P Require Import Prelude CMem Fdt.

(** A context over [n] readable bytes, with node offsets that fit an [int]. *)
Record ctx_ok (c : ctx_t) (n slack : Z) : Prop := {
  co_read : readable (base c) 0 n;
  co_s : 0 <= c_s c <= c_send c;
  co_send : c_send c + 4 <= n;
  co_int : c_send c < 2 ^ 31;
  co_str : 0 <= c_str c <= c_strend c;
  co_strend : c_strend c + slack <= n;
  co_str32 : c_strend c < 2 ^ 32 }.

(** * Lemmas: primitives *)

Lemma align4_spec v :
  0 <= v < 2 ^ 32 - 3 -> v <= align4 v <= v + 3 /\ align4 v mod 4 = 0.
Proof.
  intros Hv. unfold align4. rewrite u32_small by ulia.
  change (u32 (Z.lnot 3)) with (Z.shiftl (2 ^ 30 - 1) 2).
  assert (Z.land (v + 3) (Z.shiftl (2 ^ 30 - 1) 2) = (v + 3) / 4 * 4) as ->.
  { change 4 with (2 ^ 2). rewrite <- Z.shiftl_mul_pow2, <- (Z.shiftr_div_pow2 (v + 3)) by lia.
    apply Z.bits_inj'. intros i Hi. rewrite Z.land_spec.
    destruct (Z.ltb_spec i 2).
    - by rewrite !Z.shiftl_spec_low, andb_false_r by lia.
    - rewrite !Z.shiftl_spec, Z.shiftr_spec by lia. replace (i - 2 + 2) with i by lia.
      change (2 ^ 30 - 1) with (Z.ones 30). rewrite Z.testbit_ones_nonneg by lia.
      destruct (Z.ltb_spec (i - 2) 30); [by rewrite andb_true_r|].
      rewrite andb_false_r. symmetry. apply Z.testbit_false; [lia|].
      rewrite Z.div_small; [done|]. split; [lia|].
      apply Z.lt_le_trans with (2 ^ 32); [lia|]. apply Z.pow_le_mono_r; lia. }
  Z.to_euclidean_division_equations; lia.
Qed.

Section Ctx.
Context (c : ctx_t) (n slack : Z) (Hc : ctx_ok c n slack).

Lemma ok_true p k : 0 <= k -> ok c p k = true <-> c_s c <= p /\ p + k <= c_send c.
Proof.
  intros Hk. destruct Hc as [_ Hs _ Hi _ _ _]. unfold ok.
  rewrite !andb_true_iff, !Z.leb_le. split.
  - intros [[? ?] Hle]. rewrite u64_small in Hle by ulia. lia.
  - intros [? ?]. rewrite u64_small by ulia. lia.
Qed.

Lemma ok_false p k : 0 <= k -> ok c p k = false <-> p < c_s c \/ c_send c < p + k.
Proof.
  intros Hk. rewrite <- not_true_iff_false, ok_true by done. lia.
Qed.

Lemma wp_token p : 0 <= p -> p + 4 <= n -> wp (rd_be32 (base c) p) is_u32.
Proof.
  intros. apply wp_rd_be32. destruct Hc. eapply readable_mono; eauto; lia.
Qed.

Lemma off_of_exact p : 0 <= p < 2 ^ 31 -> off_of c p = p.
Proof. intros. apply s32_small. lia. Qed.

(** How far a position in the block is from its end. *)
Definition remaining (p : Z) : nat := Z.to_nat (c_send c - Z.max p (c_s c)).

Lemma remaining_lt p q : c_s c <= p -> p < q -> p + 1 <= c_send c -> (remaining q < remaining p)%nat.
Proof. intros. unfold remaining. lia. Qed.

Lemma remaining_fuel p : (remaining p < walk_fuel c)%nat.
Proof. destruct Hc. unfold remaining, walk_fuel. lia. Qed.

(** A node name: where it ends, and that it is a C string. *)
Definition name_at (p len : Z) : Prop :=
  c_s c <= p /\ 0 <= len /\ p + len < c_send c /\ base c (p + len) = Ret 0 /\
  forall i, 0 <= i < len -> exists b, base c (p + i) = Ret b /\ b <> 0.

Lemma wp_node_name p :
  wp (node_name c p) (fun o => match o with Some len => name_at p len | None => True end).
Proof.
  pose proof Hc as [Hr Hs Hn Hi _ _ _]. unfold node_name. apply wp_bind.
  eapply wp_iter with
    (I := fun k => 0 <= k /\ (k = 0 \/ c_s c <= p /\ p + k <= c_send c) /\
       forall i, 0 <= i < k -> exists b, base c (p + i) = Ret b /\ b <> 0)
    (measure := fun k => remaining (p + k)).
  - intros k (Hk0 & Hk & Hall). unfold node_name_step.
    destruct (ok c (p + k) 1) eqn:Hok.
    + apply ok_true in Hok as [? ?]; [|lia]. apply wp_bind.
      destruct (wp_inv _ _ (Hr (p + k) ltac:(lia))) as (b & Hb & _). rewrite Hb. simpl.
      destruct (Z.eqb_spec b 0) as [->|Hb0]; simpl.
      * rewrite (proj2 (ok_true (p + k) 1 ltac:(lia))) by lia. simpl.
        repeat split; try (done || lia).
      * rewrite u32_small by ulia. split; [split; [lia|split; [lia|]]|apply remaining_lt; lia].
        intros i Hi'. destruct (decide (i = k)) as [->|]; [eauto|]. apply Hall. lia.
    + simpl. by rewrite Hok.
  - split; [lia|]. split; [by left|]. lia.
  - apply remaining_fuel.
Qed.

(** Where the position after a name is. *)
Lemma after_name_pos p len :
  name_at p len -> p + align4 (u32 (len + 1)) = p + align4 (len + 1) /\
  p + len < p + align4 (len + 1).
Proof.
  intros (? & ? & ? & _). destruct Hc as [_ Hs _ Hi _ _ _]. rewrite u32_small by ulia.
  pose proof (align4_spec (len + 1) ltac:(lia)). lia.
Qed.

(** Positions after a property value that passed its bounds test. *)
Lemma prop_pos p k len :
  0 <= k <= 12 -> is_u32 len -> ok c (p + k) len = true ->
  p + k <= p + u32 (k + align4 len).
Proof.
  intros Hk Hl Hok. apply ok_true in Hok as [? ?]; [|ulia].
  destruct Hc as [_ Hs _ Hi _ _ _]. unfold is_u32 in Hl.
  destruct (align4_spec len); [lia|]. rewrite u32_small by ulia. lia.
Qed.

(** Total correctness of one iteration, and of a walk over the block. *)
Lemma wp_walk {S R} (step : S -> outcome (S + R)) (pos : S -> Z) (I : S -> Prop) (P : R -> Prop) s :
  (forall v, I v -> wp (step v) (fun r =>
     match r with
     | inl v' => I v' /\ c_s c <= pos v < c_send c /\ pos v < pos v'
     | inr x => P x
     end)) ->
  I s -> wp (iterM (walk_fuel c) step s) P.
Proof.
  intros Hstep Hs. eapply wp_iter with (I := I) (measure := fun v => remaining (pos v)).
  - intros v Hv. eapply wp_mono; [by apply Hstep|]. intros [v'|x]; [|done].
    intros (? & ? & ?). split; [done|]. apply remaining_lt; lia.
  - done.
  - eapply remaining_fuel.
Qed.

Lemma wp_skip_node off :
  wp (skip_node c off) (fun r => r = -1 \/ c_s c <= off < r /\ r <= c_send c).
Proof.
  pose proof Hc as [_ Hs Hn Hi _ _ _].
  apply wp_walk with (pos := fst) (I := fun v => off <= v.1 /\ (v.1 = off \/ c_s c <= off));
    [|simpl; lia].
  intros [p depth] Hp. simpl in Hp. unfold skip_node_step.
  destruct (ok c p 4) eqn:Hok; simpl; [|by left]. apply ok_true in Hok as [? ?]; [|lia].
  apply wp_bind. eapply wp_mono; [apply wp_token; lia|]. intros tok Ht.
  case_if; [|case_if; [|case_if; [|case_if]]].
  - apply wp_bind. eapply wp_mono; [apply wp_node_name|]. intros [len|] Hl; [|by left].
    apply after_name_pos in Hl as Hpos. destruct Hl as (? & ? & _). simpl. lia.
  - cbv zeta. case_if; simpl.
    + right. rewrite off_of_exact by lia. lia.
    + lia.
  - destruct (ok c (p + 4) 8) eqn:Hok8; simpl; [|by left].
    apply ok_true in Hok8 as [? ?]; [|lia].
    apply wp_bind. eapply wp_mono; [apply wp_token; lia|]. intros len Hl.
    destruct (ok c (p + 4 + 8) len) eqn:Hokl; simpl; [|by left].
    apply prop_pos in Hokl; [|lia|done]. lia.
  - simpl. lia.
  - by left.
Qed.

Lemma wp_after_name off :
  wp (after_name c off) (fun o =>
    match o with Some p => c_s c <= off /\ off + 4 < p /\ off + 4 <= c_send c | None => True end).
Proof.
  pose proof Hc as [_ Hs Hn Hi _ _ _]. unfold after_name.
  destruct (ok c off 4) eqn:Hok; simpl; [|done]. apply ok_true in Hok as [? ?]; [|lia].
  apply wp_bind. eapply wp_mono; [apply wp_token; lia|]. intros tok Ht. case_if; [done|].
  apply wp_bind. eapply wp_mono; [apply wp_node_name|]. intros [len|] Hl; [|done].
  apply after_name_pos in Hl as Hpos. destruct Hl as (? & ? & _). simpl. lia.
Qed.

(** A node's position: where a node token may start. *)
Definition node_pos (p : Z) : Prop := c_s c <= p /\ p + 4 <= c_send c.

Lemma wp_first_child_walk p :
  0 <= p ->
  wp (iterM (walk_fuel c) (first_child_step c) p)
     (fun r => r = FDT_ERR_NODE \/ p <= r /\ node_pos r).
Proof.
  intros Hp0. pose proof Hc as [_ Hs Hn Hi _ _ _].
  apply wp_walk with (pos := fun q => q) (I := fun q => p <= q); [|lia].
  intros q Hq. unfold first_child_step.
  destruct (ok c q 4) eqn:Hok; simpl; [|by left]. apply ok_true in Hok as [? ?]; [|lia].
  apply wp_bind. eapply wp_mono; [apply wp_token; lia|]. intros tok Ht.
  case_if; [|case_if; [|case_if; [|case_if]]].
  - right. rewrite off_of_exact by lia. unfold node_pos. lia.
  - by left.
  - apply wp_bind. eapply wp_mono; [apply wp_token; lia|]. intros len Hl.
    destruct (ok c (q + 12) len) eqn:Hokl; simpl; [|by left].
    apply prop_pos in Hokl; [|lia|done]. lia.
  - simpl. lia.
  - by left.
Qed.

Lemma wp_next_sibling_walk p :
  0 <= p ->
  wp (iterM (walk_fuel c) (next_sibling_step c) p)
     (fun r => r = FDT_ERR_NODE \/ p <= r /\ node_pos r).
Proof.
  intros Hp0. pose proof Hc as [_ Hs Hn Hi _ _ _].
  apply wp_walk with (pos := fun q => q) (I := fun q => p <= q); [|lia].
  intros q Hq. unfold next_sibling_step.
  destruct (ok c q 4) eqn:Hok; simpl; [|by left]. apply ok_true in Hok as [? ?]; [|lia].
  apply wp_bind. eapply wp_mono; [apply wp_token; lia|]. intros tok Ht.
  case_if; [|case_if; [|case_if]].
  - right. rewrite off_of_exact by lia. unfold node_pos. lia.
  - by left.
  - simpl. lia.
  - by left.
Qed.

(** The ancestors on the stack of [fdt_parent_offset] lie before [p]. *)
Definition stack_ok (p depth : Z) (stack : list Z) : Prop :=
  length stack = Z.to_nat FDT_MAX_DEPTH /\
  forall i, 0 <= i <= depth -> i < FDT_MAX_DEPTH ->
    exists x, stack !! Z.to_nat i = Some x /\ c_s c <= x < p.

Lemma stack_ok_push p q depth stack :
  stack_ok p depth stack -> c_s c <= p < q -> -1 <= depth ->
  stack_ok q (depth + 1)
    (if depth + 1 <? FDT_MAX_DEPTH then <[Z.to_nat (depth + 1) := p]> stack else stack).
Proof.
  intros [Hlen Hst] Hpq Hd. unfold stack_ok. case_if.
  - rewrite length_insert. split; [done|]. intros i Hi Hm.
    destruct (decide (i = depth + 1)) as [->|].
    + exists p. rewrite list_lookup_insert_eq by (unfold FDT_MAX_DEPTH in *; lia). split; [done|lia].
    + rewrite list_lookup_insert_ne by lia. destruct (Hst i) as (x & ? & ?); [lia..|].
      exists x. split; [done|lia].
  - split; [done|]. intros i Hi Hm. destruct (Hst i) as (x & ? & ?); [lia..|].
    exists x. split; [done|lia].
Qed.

Lemma stack_ok_mono p q d d' stack :
  stack_ok p d stack -> p <= q -> d' <= d -> stack_ok q d' stack.
Proof.
  intros [Hlen Hst] Hpq Hd. split; [done|]. intros i Hi Hm.
  destruct (Hst i) as (x & ? & ?); [lia..|]. exists x. split; [done|lia].
Qed.

Lemma wp_parent_walk node :
  wp (iterM (walk_fuel c) (parent_step c node) (c_s c, -1, replicate (Z.to_nat FDT_MAX_DEPTH) 0))
     (fun r => r = FDT_ERR_NODE \/ c_s c <= r < node /\ node_pos node).
Proof.
  pose proof Hc as [_ Hs Hn Hi _ _ _].
  apply wp_walk with (pos := fun v => v.1.1)
    (I := fun v => -1 <= v.1.2 /\ stack_ok v.1.1 v.1.2 v.2).
  2:{ split; [done|]. split; [done|]. simpl. lia. }
  intros [[p depth] stack] [Hd Hst]. simpl in Hd, Hst. unfold parent_step.
  destruct (ok c p 4) eqn:Hok; simpl; [|by left]. apply ok_true in Hok as [? ?]; [|lia].
  rewrite off_of_exact by lia.
  apply wp_bind. eapply wp_mono; [apply wp_token; lia|]. intros tok Ht.
  case_if; [|case_if; [|case_if; [|case_if]]].
  - apply wp_bind. eapply wp_mono; [apply wp_node_name|]. intros [len|] Hl; [|by left].
    pose proof Hl as (? & ? & _). apply after_name_pos in Hl as [-> Hpos].
    pose proof (stack_ok_push p (p + 4 + align4 (len + 1)) depth stack Hst ltac:(lia) Hd) as Hpush.
    set (stack' := if depth + 1 <? FDT_MAX_DEPTH then _ else _) in *.
    case_if; [|simpl; repeat split; try (done || apply Hpush || lia)].
    case_if; [by left|]. unfold FDT_MAX_DEPTH in *.
    destruct (proj2 Hst depth) as (x & Hx & Hxp); [lia|unfold FDT_MAX_DEPTH; lia|].
    replace (depth + 1 - 1) with depth by lia.
    assert (stack' !! Z.to_nat depth = Some x) as ->.
    { unfold stack'. case_if; [|done]. by rewrite list_lookup_insert_ne by lia. }
    right. unfold node_pos. lia.
  - cbv zeta. case_if; [by left|]. simpl.
    split; [split; [lia|eapply stack_ok_mono; [exact Hst|lia|lia]]|lia].
  - apply wp_bind. eapply wp_mono; [apply wp_token; lia|]. intros len Hl.
    destruct (ok c (p + 4 + 8) len) eqn:Hokl; simpl; [|by left].
    apply prop_pos in Hokl; [|lia|done].
    split; [split; [lia|eapply stack_ok_mono; [exact Hst|lia|lia]]|lia].
  - simpl. split; [split; [lia|eapply stack_ok_mono; [exact Hst|lia|lia]]|lia].
  - by left.
Qed.
Lemma wp_str_eq a b :
  0 <= a -> a + Z.of_nat (length b) + 1 <= n -> wp (str_eq (base c) a b) (fun _ => True).
Proof.
  destruct Hc as [Hr _ _ _ _ _ _]. revert a.
  induction b as [|y b IH]; intros a Ha Hn; simpl in *;
    (apply wp_bind; eapply wp_mono; [apply Hr; lia|]; intros x _); [done|].
  case_if; [|done]. apply IH; lia.
Qed.

(** A property value inside the structure block. *)
Definition value_in (v len : Z) : Prop :=
  c_s c <= v /\ v + len <= c_send c /\ is_u32 len.

Lemma wp_getprop_walk name p :
  0 <= p -> Z.of_nat (length name) <= slack ->
  wp (iterM (walk_fuel c) (getprop_step c name) p)
     (fun o => match o with Some (v, len) => value_in v len | None => True end).
Proof.
  intros Hp0 Hname. pose proof Hc as [_ Hs Hn Hi Hstr Hstrend Hstr32].
  apply wp_walk with (pos := fun q => q) (I := fun q => p <= q); [|lia].
  intros q Hq. unfold getprop_step.
  destruct (ok c q 4) eqn:Hok; simpl; [|done]. apply ok_true in Hok as [? ?]; [|lia].
  apply wp_bind. eapply wp_mono; [apply wp_token; lia|]. intros tok Ht.
  case_if; [done|]. case_if; [simpl; lia|].
  destruct (negb (tok =? FDT_PROP)); simpl; [done|].
  destruct (ok c q 8) eqn:Hok8; simpl; [|done]. apply ok_true in Hok8 as [? ?]; [|lia].
  apply wp_bind. eapply wp_mono; [apply wp_token; lia|]. intros len Hl.
  apply wp_bind. eapply wp_mono; [apply wp_token; lia|]. intros nameoff Hno.
  destruct (ok c (q + 12) len) eqn:Hokl; simpl; [|done].
  assert (value_in (q + 12) len) as Hv.
  { apply ok_true in Hokl as [? ?]; [done|ulia]. }
  unfold str_at. rewrite u32_small by ulia. case_if; [done|].
  apply wp_bind. eapply wp_mono; [apply wp_str_eq; ulia|]. intros [] _; [done|].
  apply prop_pos in Hokl; [|lia|done]. simpl. lia.
Qed.

End Ctx.

(** * The blob *)

(** [n] readable bytes that hold the header and, past the size the header
    declares, [slack] more; the declared size fits an [int]. *)
Record blob_ok (rd : reader) (n slack : Z) : Prop := {
  bo_read : readable rd 0 n;
  bo_header : 40 <= n;
  bo_slack : 4 <= slack;
  bo_size : forall t, rd_be32 rd 4 = Ret t -> t < 2 ^ 31 /\ t + slack <= n }.

Lemma ctx_init_ok rd n slack :
  blob_ok rd n slack ->
  wp (ctx_init (Some rd)) (fun o =>
    match o with Some c => base c = rd /\ ctx_ok c n slack | None => True end).
Proof.
  intros [Hr Hh Hsl Hsz]. unfold ctx_init.
  assert (forall p, 0 <= p -> p + 4 <= 40 -> wp (rd_be32 rd p) is_u32) as Hw.
  { intros p ? ?. apply wp_rd_be32. eapply readable_mono; eauto; lia. }
  apply wp_bind. eapply wp_mono; [apply Hw; lia|]. intros m _. case_if; [done|].
  destruct (wp_inv _ _ (Hw 4 ltac:(lia) ltac:(lia))) as (t & Ht & Ht32).
  rewrite Ht, ret_bind. destruct (Hsz t Ht) as [Ht31 Htn].
  apply wp_bind. eapply wp_mono; [apply Hw; lia|]. intros os Hos.
  apply wp_bind. eapply wp_mono; [apply Hw; lia|]. intros ost Host.
  apply wp_bind. eapply wp_mono; [apply Hw; lia|]. intros sst Hsst.
  apply wp_bind. eapply wp_mono; [apply Hw; lia|]. intros sz Hszr.
  unfold_ints. case_if; [done|]. case_if; [done|].
  rewrite u32_small in * by ulia.
  simpl. split; [done|]. constructor; simpl; (done || lia).
Qed.

Section Blob.
Context (rd : reader) (n slack : Z) (Hb : blob_ok rd n slack).
Let blob := Some rd.

(** Runs code after [ctx_init] in the context it set up. *)
Lemma wp_with_ctx {A} (k : ctx_t -> outcome A) (none : A) (P : A -> Prop) :
  P none -> (forall c, base c = rd -> ctx_ok c n slack -> ctx_init blob = Ret (Some c) ->
    wp (k c) P) ->
  wp (oc ← ctx_init blob; match oc with None => Ret none | Some c => k c end) P.
Proof.
  intros Hn Hk. destruct (wp_inv _ _ (ctx_init_ok rd n slack Hb)) as (o & Ho & Hco).
  unfold blob. rewrite Ho, ret_bind. destruct o as [c|]; [|done].
  apply Hk; [apply Hco..|done].
Qed.

(** The context is the same for every call. *)
Lemma ctx_unique c c' : ctx_init blob = Ret (Some c) -> ctx_init blob = Ret (Some c') -> c = c'.
Proof. congruence. Qed.

Lemma wp_parent_offset node :
  wp (fdt_parent_offset blob node) (fun r => r = FDT_ERR_NODE \/
    forall c, ctx_init blob = Ret (Some c) -> c_s c <= r < node /\ node_pos c node).
Proof.
  apply wp_with_ctx; [by left|]. intros c Hbase Hc Hinit.
  eapply wp_mono; [by eapply wp_parent_walk|]. intros r [->|H]; [by left|right].
  intros c' Hc'. by rewrite (ctx_unique c' c Hc' Hinit).
Qed.

Lemma wp_first_child parent :
  wp (fdt_first_child blob parent) (fun r => r = FDT_ERR_NODE \/
    forall c, ctx_init blob = Ret (Some c) -> parent < r /\ node_pos c parent /\ node_pos c r).
Proof.
  apply wp_with_ctx; [by left|]. intros c Hbase Hc Hinit. pose proof Hc as [_ Hs _ _ _ _ _].
  apply wp_bind. eapply wp_mono; [by eapply wp_after_name|]. intros [p|] Hp; [|by left].
  eapply wp_mono; [eapply wp_first_child_walk; [exact Hc|lia]|].
  intros r [->|[Hr Hnp]]; [by left|right]. intros c' Hc'.
  rewrite (ctx_unique c' c Hc' Hinit). unfold node_pos in *. lia.
Qed.

Lemma wp_next_sibling parent prev :
  wp (fdt_next_sibling blob parent prev) (fun r => r = FDT_ERR_NODE \/
    forall c, ctx_init blob = Ret (Some c) -> prev < r /\ node_pos c r).
Proof.
  unfold fdt_next_sibling. apply wp_with_ctx; [by left|]. intros c Hbase Hc Hinit.
  pose proof Hc as [_ Hs _ _ _ _ _].
  apply wp_bind. eapply wp_mono; [apply wp_parent_offset|]. intros par _. case_if; [by left|].
  apply wp_bind. eapply wp_mono; [by eapply wp_skip_node|]. intros nxt Hnxt. cbv beta in Hnxt. case_if; [by left|].
  eapply wp_mono; [eapply wp_next_sibling_walk; [exact Hc|lia]|].
  intros r [->|[Hr Hnp]]; [by left|right]. intros c' Hc'.
  rewrite (ctx_unique c' c Hc' Hinit). split; [lia|done].
Qed.

Lemma wp_getprop node name :
  Z.of_nat (length name) <= slack ->
  wp (fdt_getprop blob node name) (fun o =>
    match o with
    | Some (v, len) => forall c, ctx_init blob = Ret (Some c) -> value_in c v len
    | None => True
    end).
Proof.
  intros Hl. apply wp_with_ctx; [done|]. intros c Hbase Hc Hinit.
  pose proof Hc as [_ Hs _ _ _ _ _].
  apply wp_bind. eapply wp_mono; [by eapply wp_after_name|]. intros [p|] Hp; [|done].
  eapply wp_mono; [eapply wp_getprop_walk; [exact Hc|lia|done]|].
  intros [[v len]|] Hv; [|done]. intros c' Hc'. by rewrite (ctx_unique c' c Hc' Hinit).
Qed.

End Blob.
