(* ===== verification/FdtTotal.v ===== *)
(** The compound operations of lib/fdt.c on arbitrary blobs: they return,
    and read nothing outside, because the walks they are made of move
    strictly forward (children, siblings) or strictly back (parents). *)
From S2P Require Import Prelude CMem Fdt FdtSafe.

(** Cell counts small enough that [(ac + sc) * 4] and the like do not wrap:
    the declared value of every [#address-cells] and [#size-cells]. *)
Definition cells_sane (rd : reader) : Prop :=
  forall node name v len x,
    name = str_address_cells \/ name = str_size_cells ->
    fdt_getprop (Some rd) node name = Ret (Some (v, len)) ->
    rd_be32 rd v = Ret x -> x < 2 ^ 28.

Lemma length_skip_slashes p : (length (skip_slashes p) <= length p)%nat.
Proof. induction p as [|x p IH]; simpl; [done|]. case_if; simpl; lia. Qed.

Lemma component_length p w r : component p = (w, r) -> length p = (length w + length r)%nat.
Proof.
  revert w r. induction p as [|x p IH]; intros w r; simpl.
  - intros [= <- <-]. done.
  - case_if; [by intros [= <- <-]|]. destruct (component p) as [w' r'].
    intros [= <- <-]. specialize (IH _ _ eq_refl). simpl. lia.
Qed.

(** One round of the path loop consumes at least one character. *)
Lemma component_progress x p w r :
  component (x :: p) = (w, r) -> (length (skip_slashes r) < length (x :: p))%nat.
Proof.
  intros H. pose proof (component_length _ _ _ H) as Hl. simpl in H.
  destruct (Z.eqb_spec x SLASH) as [->|].
  - injection H as <- <-. simpl. pose proof (length_skip_slashes p). lia.
  - destruct (component p) as [w' r']. injection H as <- <-.
    pose proof (length_skip_slashes r'). simpl in *. lia.
Qed.

Section Blob.
Context (rd : reader) (n slack : Z) (Hb : blob_ok rd n slack) (Hslack : 16 <= slack).
Let blob := Some rd.
Context (c : ctx_t) (Hinit : ctx_init blob = Ret (Some c)).

Lemma base_rd : base c = rd.
Proof.
  pose proof (ctx_init_ok rd n slack Hb) as H. unfold blob in Hinit.
  rewrite Hinit in H. apply H.
Qed.

Lemma ctx_is_ok : ctx_ok c n slack.
Proof.
  pose proof (ctx_init_ok rd n slack Hb) as H. unfold blob in Hinit.
  rewrite Hinit in H. apply H.
Qed.

(** ** Loops over children *)

Lemma wp_children {V R} cur (body : Z -> V -> outcome (V + R)) done (J : V -> Prop)
    (P : R -> Prop) first v :
  (forall ch v, node_pos c ch -> J v -> wp (body ch v) (fun r =>
     match r with inl v' => J v' | inr x => P x end)) ->
  (forall v, J v -> P (done v)) ->
  (first = FDT_ERR_NODE \/ node_pos c first) -> J v ->
  wp (iterM (walk_fuel c) (child_step blob cur body done) (first, v)) P.
Proof.
  intros Hbody Hdone Hfirst Hv. pose proof ctx_is_ok as [_ Hs _ _ _ _ _].
  eapply wp_iter with
    (I := fun st => (st.1 = FDT_ERR_NODE \/ node_pos c st.1) /\ J st.2)
    (measure := fun st => if decide (st.1 = FDT_ERR_NODE) then 0%nat
                          else S (Z.to_nat (c_send c - st.1))).
  - intros [ch w] [Hch Hw]. simpl in Hch, Hw. unfold child_step.
    destruct (Z.eqb_spec ch FDT_ERR_NODE); [by apply Hdone|].
    destruct Hch as [|Hch]; [done|]. apply wp_bind. eapply wp_mono; [by apply Hbody|].
    intros [v'|x] Hr; [|done]. apply wp_bind.
    eapply wp_mono; [by eapply wp_next_sibling|]. intros nxt Hnxt. simpl.
    split; [split; [|done]|].
    + destruct Hnxt as [->|Hnxt]; [by left|]. right. by apply Hnxt.
    + case_decide; [case_decide; [done|lia]|]. case_decide; [done|].
      destruct Hnxt as [->|Hnxt]; [done|]. destruct (Hnxt c Hinit) as [? [? ?]]. lia.
  - done.
  - simpl. unfold walk_fuel. case_decide; [lia|].
    destruct Hfirst as [|[? ?]]; [done|]. lia.
Qed.

Lemma wp_first_child_pos parent :
  wp (fdt_first_child blob parent) (fun r => r = FDT_ERR_NODE \/ node_pos c r).
Proof.
  eapply wp_mono; [by eapply wp_first_child|]. intros r [->|H]; [by left|right]. by apply H.
Qed.

(** Reading the characters of a name that was measured. *)
Lemma wp_name_matches p len s :
  name_at c p len -> Z.of_nat (length s) <= len + 1 ->
  wp (name_matches (base c) p s) (fun _ => True).
Proof.
  intros Hname. pose proof ctx_is_ok as [Hr Hs Hn _ _ _ _].
  destruct Hname as (Hp & Hlen & Hend & _). intros Hl.
  assert (forall q k, 0 <= q -> q + Z.of_nat (length k) <= n ->
    wp (name_matches (base c) q k) (fun _ => True)) as Hgen; [|apply Hgen; lia].
  intros q k. revert q. induction k as [|x k IH]; intros q Hq Hk; simpl in *; [done|].
  apply wp_bind. eapply wp_mono; [apply Hr; lia|]. intros b _. case_if; [apply IH; lia|done].
Qed.

Lemma wp_find_child cur start :
  wp (find_child blob c cur start) (fun r => r = FDT_ERR_NODE \/ node_pos c r).
Proof.
  unfold find_child. apply wp_bind. eapply wp_mono; [apply wp_first_child_pos|].
  intros first Hf. apply wp_children with (J := fun _ => True); [|by left|done|done].
  intros ch [] Hch _. unfold path_child. apply wp_bind.
  eapply wp_mono; [eapply wp_node_name; apply ctx_is_ok|]. intros [len|] Hl; [|by left].
  case_if; [|done]. apply wp_bind.
  eapply wp_mono; [eapply wp_name_matches; [exact Hl|lia]|]. intros [] _; [by right|done].
Qed.

Lemma wp_path_walk fuel p cur :
  (length p < fuel)%nat -> wp (iterM fuel (path_step blob c) (p, cur)) (fun _ => True).
Proof.
  intros Hf.
  eapply wp_iter with (I := fun _ => True) (measure := fun v => length v.1); [|done|done].
  intros [[|z q] cur'] _; [done|]. unfold path_step.
  destruct (component (z :: q)) as [start rest] eqn:Hcomp. apply wp_bind.
  eapply wp_mono; [apply wp_find_child|]. intros found _. case_if; [done|].
  split; [done|]. simpl. by eapply component_progress in Hcomp.
Qed.

Lemma wp_path_offset path : wp (fdt_path_offset blob path) (fun _ => True).
Proof.
  unfold fdt_path_offset. rewrite Hinit, ret_bind. pose proof ctx_is_ok as [_ Hs Hn _ _ _ _].
  destruct path as [|x path]; [done|]. case_if; [done|]. cbv zeta. case_if; [done|].
  apply wp_bind. eapply wp_mono; [eapply wp_token; [apply ctx_is_ok|lia|lia]|].
  intros tok _. case_if; [done|]. destruct (skip_slashes (x :: path)) as [|y p]; [done|].
  apply wp_path_walk. simpl. lia.
Qed.

(** ** Walks towards the root *)

Lemma wp_parent_pos node :
  wp (fdt_parent_offset blob node) (fun r =>
    r = FDT_ERR_NODE \/ c_s c <= r < node /\ node_pos c node).
Proof.
  eapply wp_mono; [by eapply wp_parent_offset|]. intros r [->|H]; [by left|right]. by apply H.
Qed.

Lemma wp_getprop_in node name :
  Z.of_nat (length name) <= 16 ->
  wp (fdt_getprop blob node name) (fun o =>
    match o with Some (v, len) => value_in c v len | None => True end).
Proof.
  intros Hl. eapply wp_mono; [eapply wp_getprop; [exact Hb|lia]|].
  intros [[v len]|] H; [|done]. by apply H.
Qed.

(** What is known of every declared cell count, [Q]. *)
Definition cells_are (Q : Z -> Prop) : Prop :=
  Q 2 /\ forall node name v len x,
    name = str_address_cells \/ name = str_size_cells ->
    fdt_getprop blob node name = Ret (Some (v, len)) ->
    rd_be32 rd v = Ret x -> is_u32 x -> Q x.

Lemma cells_are_u32 : cells_are is_u32.
Proof. split; [by_compute|done]. Qed.

Lemma cells_are_sane : cells_sane rd -> cells_are (fun x => 0 <= x < 2 ^ 28).
Proof.
  intros H. split; [lia|]. intros node name v len x Hn Hg Hx Hu.
  specialize (H node name v len x Hn Hg Hx). ulia.
Qed.

Definition opt_is (Q : Z -> Prop) (o : option Z) : Prop :=
  match o with Some x => Q x | None => True end.

Lemma wp_own_cells Q node name :
  cells_are Q -> name = str_address_cells \/ name = str_size_cells ->
  wp (own_cells blob c node name) (opt_is Q).
Proof.
  intros [_ HQ] Hn. unfold own_cells.
  assert (Z.of_nat (length name) <= 16) as Hl by (by destruct Hn as [-> | ->]).
  destruct (wp_inv _ _ (wp_getprop_in node name Hl)) as (o & Ho & Hv).
  rewrite Ho, ret_bind. destruct o as [[v len]|]; [|done]. case_if; [done|].
  destruct Hv as (? & ? & ?). pose proof ctx_is_ok as [_ Hs Hn' _ _ _ _].
  assert (wp (rd_be32 (base c) v) is_u32) as Hw
    by (eapply wp_token; [apply ctx_is_ok|lia|lia]).
  apply wp_inv in Hw as (x & Hx & Hx32). rewrite Hx, ret_bind. simpl.
  rewrite base_rd in Hx. eapply HQ; eauto.
Qed.

(** Climbing strictly towards the root: [cur] is one of the loop's
    variables, and each round replaces it by its parent or stops. *)
Lemma wp_climb {V R} (step : V -> outcome (V + R)) (cur : V -> Z) (I : V -> Prop) (P : R -> Prop) s :
  (forall v, I v -> wp (step v) (fun r =>
     match r with
     | inl v' => I v' /\ (cur v' < 0 /\ 0 <= cur v \/
                          c_s c <= cur v' < cur v /\ cur v < c_send c)
     | inr x => P x
     end)) ->
  I s -> wp (iterM (walk_fuel c) step s) P.
Proof.
  intros Hstep Hs. pose proof ctx_is_ok as [_ Hcs _ _ _ _ _].
  eapply wp_iter with (I := I) (measure := fun v =>
    if decide (cur v < 0) then 0%nat
    else S (Z.to_nat (Z.min (cur v) (c_send c) - c_s c))).
  - intros v Hv. eapply wp_mono; [by apply Hstep|]. intros [v'|x]; [|done].
    intros [Hv' Hlt]. split; [done|]. repeat case_decide; lia.
  - done.
  - unfold walk_fuel. case_decide; lia.
Qed.

Lemma wp_parent_cells Q node :
  cells_are Q ->
  wp (fdt_parent_cells blob node) (fun o =>
    match o with Some (ac, sc) => Q ac /\ Q sc | None => False end).
Proof.
  intros HQ. unfold fdt_parent_cells. rewrite Hinit, ret_bind. apply wp_bind.
  eapply wp_mono; [apply wp_parent_pos|]. intros cur Hcur. apply wp_bind.
  eapply wp_mono.
  - apply wp_climb with (cur := fun v => v.1.1)
      (I := fun v => (v.1.1 < 0 \/ c_s c <= v.1.1 < c_send c) /\ opt_is Q v.1.2 /\ opt_is Q v.2)
      (P := fun r => opt_is Q r.1 /\ opt_is Q r.2).
    + intros [[cur' ac] sc] (Hc' & Ha & Hs'). simpl in Hc', Ha, Hs'. unfold parent_cells_step.
      case_if; [done|]. apply wp_bind.
      eapply wp_mono with (P := opt_is Q).
      { destruct ac; [done|]. apply wp_own_cells; auto. }
      intros ac' Ha'. apply wp_bind. eapply wp_mono with (P := opt_is Q).
      { destruct sc; [done|]. apply wp_own_cells; auto. }
      intros sc' Hsc'. destruct ac' as [x|], sc' as [y|]; try done.
      all: apply wp_bind; eapply wp_mono; [apply wp_parent_pos|]; intros up [->|[Hup _]];
        simpl; unfold FDT_ERR_NODE; (split; [split; [lia|split; done]|lia]).
    + repeat split; try done. destruct Hcur as [->|[? [? ?]]]; [by left|]. right. simpl. lia.
  - destruct HQ as [H2 _]. intros [ac sc] [Ha Hs']. simpl in Ha, Hs'.
    split; [destruct ac|destruct sc]; done.
Qed.

(** ** Reading reg and ranges *)

(** [cells] cells at [p] fit before [hi]. *)
Lemma wp_rd_cells p cells hi :
  0 <= p -> 1 <= cells -> p + cells * 4 <= hi -> hi <= n ->
  wp (rd_cells (base c) p cells) is_u64.
Proof.
  intros Hp Hc Hh Hn. pose proof ctx_is_ok as [Hr _ _ _ _ _ _]. unfold rd_cells. case_if.
  - eapply wp_mono; [apply wp_rd_be32; eapply readable_mono; eauto; lia|].
    intros x ?. ulia.
  - apply wp_rd_be64. eapply readable_mono; eauto; lia.
Qed.

(** A range of 64-bit numbers. *)
Definition range_u64 (r : fdt_range_t) : Prop := is_u64 (r_base r) /\ is_u64 (r_size r).

Lemma wp_rd_reg e ac sc hi :
  0 <= e -> 1 <= ac < 2 ^ 28 -> 0 <= sc < 2 ^ 28 -> e + (ac + sc) * 4 <= hi -> hi <= n ->
  wp (rd_reg (base c) e ac sc) range_u64.
Proof.
  intros He Ha Hs Hh Hn. unfold rd_reg. apply wp_bind.
  eapply wp_mono; [apply wp_rd_cells with hi; lia|]. intros b Hb'.
  apply wp_bind. eapply wp_mono with (P := is_u64).
  - case_if; [by_compute|]. rewrite u32_small by ulia. apply wp_rd_cells with hi; lia.
  - done.
Qed.

(** An entry of a table of [count / size] entries of [size] bytes. *)
Lemma entry_in len size i :
  0 < size -> 0 <= len -> 0 <= i < len / size -> 0 <= i * size /\ i * size + size <= len.
Proof. intros. Z.to_euclidean_division_equations; nia. Qed.

Lemma wp_reg_entries reg len ac sc max out :
  value_in c reg len -> 1 <= ac < 2 ^ 28 -> 0 <= sc < 2 ^ 28 ->
  Forall range_u64 out -> Z.of_nat (length out) <= max ->
  let entry := (ac + sc) * 4 in
  wp (iterM (S (S (Z.to_nat (len / entry))))
        (reg_entries_step (base c) reg entry ac sc (len / entry) max) (0, out))
     (fun out' => Forall range_u64 out' /\ Z.of_nat (length out') <= max).
Proof.
  intros (Hv1 & Hv2 & Hl) Ha Hs Hout Hmax entry.
  pose proof ctx_is_ok as [_ Hcs Hn Hi _ _ _]. unfold is_u32 in Hl.
  assert (0 <= len / entry <= len) as Hdiv.
  { unfold entry. Z.to_euclidean_division_equations; nia. }
  eapply wp_iter with
    (I := fun v => 0 <= v.1 <= len / entry /\ Forall range_u64 v.2 /\ Z.of_nat (length v.2) <= max)
    (measure := fun v => Z.to_nat (len / entry - v.1)); [|simpl; split; [lia|done]|simpl; lia].
  intros [i o] (Hi' & Ho & Hlen). simpl in Hi', Ho, Hlen. unfold reg_entries_step.
  case_if; [|done].
  destruct (entry_in len entry i) as [He1 He2]; [unfold entry; lia|lia|lia|].
  rewrite u64_small by ulia. apply wp_bind.
  eapply wp_mono; [apply wp_rd_reg with (c_send c); [lia|lia|lia|unfold entry in *; lia|lia]|].
  intros r Hr. rewrite u32_small by ulia. simpl. rewrite length_app, Forall_app. simpl.
  repeat split; try (done || lia). by constructor.
Qed.

(** ** Memory and reservations *)

Lemma wp_memory_child max ch out :
  cells_sane rd -> Forall range_u64 out /\ Z.of_nat (length out) <= max ->
  wp (memory_child blob c max ch out) (fun r =>
    match r with
    | inl out' | inr out' => Forall range_u64 out' /\ Z.of_nat (length out') <= max
    end).
Proof.
  intros Hsane [Hout Hmax]. unfold memory_child. apply wp_bind.
  eapply wp_mono; [eapply wp_node_name; apply ctx_is_ok|]. intros [nl|] Hnl; [|done].
  case_if; [done|]. apply wp_bind. eapply wp_mono; [eapply wp_name_matches; [exact Hnl|simpl; lia]|].
  intros m _. apply wp_bind. eapply wp_mono with (P := fun _ => True).
  { pose proof ctx_is_ok as [Hr Hs Hn _ _ _ _]. destruct Hnl as (? & ? & ? & _).
    case_if; [done|]. case_if; [done|]. apply wp_bind. eapply wp_mono; [apply Hr; lia|done]. }
  intros tail _. case_if; [done|]. apply wp_bind.
  eapply wp_mono; [apply wp_parent_cells, cells_are_sane, Hsane|].
  intros [[ac sc]|]; [|done]. intros [Ha Hs']. apply wp_bind.
  eapply wp_mono; [by apply wp_getprop_in|]. intros [[reg len]|] Hreg; [|done].
  case_if; [done|]. cbv zeta. rewrite u32_small by ulia. case_if; [done|]. apply wp_bind.
  eapply wp_mono; [apply wp_reg_entries; (done || lia)|]. done.
Qed.

Lemma wp_memory_ranges max :
  cells_sane rd -> 0 <= max ->
  wp (fdt_memory_ranges blob max)
     (fun out => Forall range_u64 out /\ Z.of_nat (length out) <= max).
Proof.
  intros Hsane Hmax. unfold fdt_memory_ranges. rewrite Hinit, ret_bind. cbv zeta.
  pose proof ctx_is_ok as [_ Hs Hn _ _ _ _].
  case_if; [done|]. apply wp_bind.
  eapply wp_mono; [eapply wp_token; [apply ctx_is_ok|lia|lia]|]. intros tok _. case_if; [done|].
  apply wp_bind. eapply wp_mono; [apply wp_first_child_pos|]. intros first Hf.
  apply wp_children with (J := fun out => Forall range_u64 out /\ Z.of_nat (length out) <= max);
    [|done|done|done].
  intros ch out _ Hout. by apply wp_memory_child.
Qed.
Lemma wp_reserved_ranges max :
  0 <= max ->
  wp (fdt_reserved_ranges blob max)
     (fun out => Forall range_u64 out /\ Z.of_nat (length out) <= max).
Proof.
  intros Hmax. unfold fdt_reserved_ranges. rewrite Hinit, ret_bind.
  pose proof Hb as [Hr Hh _ Hsz].
  assert (forall p, 0 <= p -> p + 4 <= 40 -> wp (rd_be32 (base c) p) is_u32) as Hw.
  { intros p ? ?. rewrite base_rd. apply wp_rd_be32. eapply readable_mono; eauto; lia. }
  apply wp_bind. eapply wp_mono; [apply Hw; lia|]. intros off Hoff.
  destruct (wp_inv _ _ (Hw 4 ltac:(lia) ltac:(lia))) as (t & Ht & Ht32).
  rewrite Ht, ret_bind. rewrite base_rd in *. destruct (Hsz t Ht) as [Ht31 Htn].
  unfold is_u32 in Hoff, Ht32.
  eapply wp_iter with
    (I := fun v => 0 <= v.1 /\ Forall range_u64 v.2 /\ Z.of_nat (length v.2) <= max)
    (measure := fun v => Z.to_nat ((t - v.1) / 16)).
  - intros [o out] (Ho & Hout & Hlen). simpl in Ho, Hout, Hlen. unfold reserved_step.
    case_if; [done|]. case_if; [done|]. rewrite u32_small in * by ulia.
    apply wp_bind. eapply wp_mono.
    { apply wp_rd_be64. eapply readable_mono; [exact Hr|lia|lia]. }
    intros addr Haddr. apply wp_bind. eapply wp_mono.
    { apply wp_rd_be64. eapply readable_mono; [exact Hr|lia|lia]. }
    intros size Hsize. case_if; [done|].
    simpl. rewrite length_app, Forall_app. simpl. split.
    + repeat split; try (done || lia). by constructor.
    + Z.to_euclidean_division_equations; lia.
  - simpl. split; [lia|]. done.
  - simpl. Z.to_euclidean_division_equations; lia.
Qed.

(** ** Bus translation *)

Lemma wp_ranges_walk ranges rlen own_ac ra rs addr :
  value_in c ranges rlen -> 1 <= own_ac < 2 ^ 28 -> 1 <= ra < 2 ^ 28 -> 1 <= rs < 2 ^ 28 ->
  let rentry := (own_ac + ra + rs) * 4 in
  wp (iterM (S (S (Z.to_nat (rlen / rentry))))
        (ranges_step (base c) ranges rentry own_ac ra rs (rlen / rentry) addr) 0)
     (opt_is is_u64).
Proof.
  intros (Hv1 & Hv2 & Hl) Ho Hra Hrs rentry.
  pose proof ctx_is_ok as [_ Hcs Hn Hi _ _ _]. unfold is_u32 in Hl.
  assert (0 <= rlen / rentry <= rlen) as Hdiv.
  { unfold rentry. Z.to_euclidean_division_equations; nia. }
  eapply wp_iter with (I := fun i => 0 <= i <= rlen / rentry)
    (measure := fun i => Z.to_nat (rlen / rentry - i)); [|lia|lia].
  intros i Hi'. unfold ranges_step. case_if; [|done]. cbv zeta.
  destruct (entry_in rlen rentry i) as [He1 He2]; [unfold rentry; lia|lia|lia|].
  rewrite u64_small by ulia. rewrite !u32_small by (unfold rentry in *; ulia).
  do 3 (apply wp_bind; eapply wp_mono;
    [apply wp_rd_cells with (c_send c); unfold rentry in *; lia|]; intros ? ?).
  case_if; [apply u64_range|]. simpl. lia.
Qed.

Lemma wp_apply_ranges cur ranges rlen addr :
  cells_sane rd -> value_in c ranges rlen ->
  wp (apply_ranges blob c cur ranges rlen addr) (opt_is is_u64).
Proof.
  intros Hsane Hv. pose proof (cells_are_sane Hsane) as HQ. unfold apply_ranges.
  apply wp_bind. eapply wp_mono; [by apply wp_parent_cells|].
  intros [[bus_ac bus_sc]|]; [|done]. intros [Hba _].
  apply wp_bind. eapply wp_mono; [eapply wp_own_cells; [exact HQ|by left]|]. intros oac Hoac.
  apply wp_bind. eapply wp_mono; [eapply wp_own_cells; [exact HQ|by right]|]. intros osc Hosc.
  cbv zeta.
  assert (forall x, 0 <= x < 2 ^ 28 -> 1 <= (if x =? 0 then 2 else x) < 2 ^ 28) as Hnz.
  { intros x Hx. case_if; lia. }
  assert (forall o, opt_is (fun x => 0 <= x < 2 ^ 28) o -> 0 <= default 2 o < 2 ^ 28) as Hdef.
  { intros [x|] Hx; [exact Hx|]. simpl. lia. }
  pose proof (Hnz _ (Hdef _ Hoac)) as Ha. pose proof (Hnz _ (Hdef _ Hosc)) as Hs'.
  pose proof (Hnz _ Hba) as Hra.
  rewrite u32_small by ulia. case_if; [done|]. by apply wp_ranges_walk.
Qed.

Lemma wp_reg_to_cpu_addr node index :
  cells_sane rd -> 0 <= index < 2 ^ 32 - 1 ->
  wp (fdt_reg_to_cpu_addr blob node index)
     (fun o => match o with Some r => range_u64 r | None => True end).
Proof.
  intros Hsane Hix. pose proof ctx_is_ok as [_ Hcs Hn Hi _ _ _].
  unfold fdt_reg_to_cpu_addr. rewrite Hinit, ret_bind. apply wp_bind.
  eapply wp_mono; [apply wp_parent_cells, cells_are_sane, Hsane|].
  intros [[ac sc]|]; [|done]. intros [Ha Hs]. apply wp_bind.
  eapply wp_mono; [by apply wp_getprop_in|]. intros [[reg len]|] Hreg; [|done].
  case_if; [done|]. cbv zeta. rewrite !u32_small by ulia.
  destruct Hreg as (Hr1 & Hr2 & Hl). unfold is_u32 in Hl.
  rewrite (u64_small ((index + 1) * _)) by (unfold is_u64; nia). case_if; [done|].
  rewrite u64_small by (unfold is_u64; nia). apply wp_bind.
  eapply wp_mono; [apply wp_rd_reg with (c_send c); [nia|lia|lia|nia|lia]|]. intros r Hr.
  apply wp_bind. eapply wp_mono with (P := opt_is is_u64).
  2:{ intros [x|] Hx; [|done]. split; [done|apply Hr]. }
  apply wp_climb with (cur := fst) (I := fun v => is_u64 v.2); [|apply Hr].
  intros [cur addr] Haddr. simpl in Haddr. unfold bus_step.
  apply wp_bind. eapply wp_mono; [apply wp_parent_pos|]. intros parent Hp.
  case_if; [done|]. destruct Hp as [->|[Hp [? ?]]]; [unfold FDT_ERR_NODE in *; lia|].
  assert (c_s c <= parent < cur /\ cur < c_send c) as Hlt by lia.
  apply wp_bind. eapply wp_mono; [by apply wp_getprop_in|]. intros [[ranges rlen]|] Hv.
  - case_if; [split; [done|by right]|]. apply wp_bind.
    eapply wp_mono; [by apply wp_apply_ranges|]. intros [a'|] Ha'; [|done].
    case_if; [done|]. split; [done|by right].
  - split; [done|by right].
Qed.

(** ** String properties *)

Lemma wp_str_eq_in p b k :
  0 <= p -> p + k < n -> base c (p + k) = Ret 0 -> 0 <= k ->
  wp (str_eq (base c) p b) (fun _ => True).
Proof.
  pose proof ctx_is_ok as [Hr _ _ _ _ _ _]. revert p k.
  induction b as [|y b IH]; intros p k Hp Hk Hz Hk0; simpl.
  - apply wp_bind. eapply wp_mono; [apply Hr; lia|done].
  - apply wp_bind. destruct (wp_inv _ _ (Hr p ltac:(lia))) as (x & Hx & _). rewrite Hx. simpl.
    case_if; [|done]. apply (IH (p + 1) (k - 1)); try lia.
    + by replace (p + 1 + (k - 1)) with (p + k) by lia.
    + destruct (decide (k = 0)) as [->|]; [|lia]. rewrite Z.add_0_r in Hz. assert (x = 0) by congruence. lia.
Qed.

Lemma wp_compatible_match v len want :
  value_in c v len -> wp (compatible_match (base c) v len want) (fun _ => True).
Proof.
  intros (Hv1 & Hv2 & Hl). pose proof ctx_is_ok as [Hr Hcs Hn Hi _ _ _]. unfold is_u32 in Hl.
  eapply wp_iter with (I := fun i => 0 <= i <= len + 1)
    (measure := fun i => Z.to_nat (len - i)); [|lia|lia].
  intros i Hi'. unfold compatible_step. case_if; [|done]. apply wp_bind.
  eapply wp_mono.
  - eapply wp_iter with (I := fun j => 0 <= j /\ i + j <= len)
      (measure := fun j => Z.to_nat (len - i - j))
      (P := fun j => 0 <= j /\ i + j <= len /\ (i + j < len -> base c (v + i + j) = Ret 0));
      [|lia|lia].
    intros j [Hj1 Hj2]. unfold entry_len_step. rewrite (u32_small (i + j)) by ulia. case_if.
    + destruct (wp_inv _ _ (Hr (v + i + j) ltac:(lia))) as (b & Hb' & _).
      rewrite Hb', ret_bind. destruct (Z.eqb_spec b 0) as [->|]; simpl; [done|].
      rewrite u32_small by ulia. lia.
    + simpl. lia.
  - intros j (Hj1 & Hj2 & Hz). rewrite (u32_small (i + j)) by ulia. apply wp_bind.
    eapply wp_mono with (P := fun _ => True).
    { case_if; [|done]. apply wp_str_eq_in with j; try lia. by apply Hz. }
    intros [] _; [done|]. rewrite u32_small by ulia. simpl. lia.
Qed.

Lemma wp_is_enabled node : wp (fdt_is_enabled blob node) (fun _ => True).
Proof.
  unfold fdt_is_enabled. pose proof ctx_is_ok as [Hr Hcs Hn Hi _ _ _]. rewrite base_rd in Hr.
  apply wp_bind. eapply wp_mono; [by apply wp_getprop_in|]. intros [[v len]|] Hv; [|done].
  destruct Hv as (Hv1 & Hv2 & Hl). cbv beta iota delta [blob]. case_if; [done|].
  assert (forall q k, 0 <= q -> q + Z.of_nat (length k) <= n ->
    wp (name_matches rd q k) (fun _ => True)) as Hgen.
  { intros q k. revert q. induction k as [|x k IH]; intros q Hq Hk; simpl in *; [done|].
    apply wp_bind. eapply wp_mono; [apply Hr; lia|]. intros b _. case_if; [apply IH; lia|done]. }
  apply wp_bind. eapply wp_mono with (P := fun _ => True).
  { case_if; [|done]. apply Hgen; simpl; lia. }
  intros [] _; [done|]. destruct (Z.leb_spec 3 len); [|done].
  apply wp_bind. eapply wp_mono; [apply Hgen; simpl; lia|]. intros [] _; [|done].
  apply wp_bind. eapply wp_mono; [apply Hr; lia|done].
Qed.

End Blob.

(** * Theorems *)

(** Either the header is refused or there is a context to walk. *)
Lemma ctx_cases rd n slack :
  blob_ok rd n slack ->
  ctx_init (Some rd) = Ret None \/ exists c, ctx_init (Some rd) = Ret (Some c).
Proof.
  intros Hb. destruct (wp_inv _ _ (ctx_init_ok rd n slack Hb)) as ([c|] & Ho & _); eauto.
Qed.

(** The [k] bytes at [p] lie in the structure block the header gives. *)
Definition in_struct_block (rd : reader) (p k : Z) : Prop :=
  exists off_struct size_struct,
    rd_be32 rd 8 = Ret off_struct /\ rd_be32 rd 36 = Ret size_struct /\
    off_struct <= p /\ p + k <= off_struct + size_struct.

(** The block a context walks is that one. *)
Lemma ctx_struct_block rd c p k :
  ctx_init (Some rd) = Ret (Some c) -> c_s c <= p -> p + k <= c_send c -> in_struct_block rd p k.
Proof.
  unfold ctx_init. intros H. apply bind_ret_inv in H as (m & _ & H). destruct (negb _); [done|].
  apply bind_ret_inv in H as (total & _ & H). apply bind_ret_inv in H as (off & Ho & H).
  apply bind_ret_inv in H as (offs & _ & H). apply bind_ret_inv in H as (ss & _ & H).
  apply bind_ret_inv in H as (size & Hs & H).
  destruct (_ || _); [done|]. destruct (_ || _); [done|].
  injection H as <-. simpl. by exists off, size.
Qed.

(** The range of a C [int]. *)
Definition is_int (x : Z) : Prop := - 2 ^ 31 <= x < 2 ^ 31.

Lemma opt_is_s32 o : opt_is is_int (option_map s32 o).
Proof.
  destruct o as [x|]; [|done]. simpl. unfold is_int, s32, u32.
  pose proof (Z.mod_pos_bound x (2 ^ 32) ltac:(lia)). case_if; lia.
Qed.

(** C26. Tree navigation is safe, terminates and makes progress on every
    blob, however malformed: with [slack] bytes readable past the declared
    size, none of the walks reads outside the blob or runs for ever.  Each
    offset returned is that of a token of the structure block the header
    gives; a child lies after its parent, a sibling after its predecessor
    and a parent before its child, the given node then being in the block
    too; and a property value lies inside that block and the blob. *)
Theorem fdt_navigation_total rd n slack node prev name :
  blob_ok rd n slack -> Z.of_nat (length name) <= slack ->
  (exists r, fdt_first_child (Some rd) node = Ret r /\
     (r = FDT_ERR_NODE \/ 0 <= node < r /\ in_struct_block rd node 4 /\ in_struct_block rd r 4)) /\
  (exists r, fdt_next_sibling (Some rd) node prev = Ret r /\
     (r = FDT_ERR_NODE \/ prev < r /\ in_struct_block rd r 4)) /\
  (exists r, fdt_parent_offset (Some rd) node = Ret r /\
     (r = FDT_ERR_NODE \/ 0 <= r < node /\ in_struct_block rd r 4 /\ in_struct_block rd node 4)) /\
  (exists o, fdt_getprop (Some rd) node name = Ret o /\
     forall v len, o = Some (v, len) -> in_struct_block rd v len /\ 0 <= v /\ v + len <= n).
Proof.
  intros Hb Hl. destruct (ctx_cases rd n slack Hb) as [Hnone|[c Hinit]].
  { unfold fdt_first_child, fdt_next_sibling, fdt_parent_offset, fdt_getprop.
    rewrite Hnone, !ret_bind. repeat split; eexists; split; eauto; done. }
  pose proof (ctx_is_ok rd n slack Hb c Hinit) as [_ Hs Hn _ _ _ _].
  pose proof (fun p k => ctx_struct_block rd c p k Hinit) as Hblk. unfold node_pos in *.
  destruct (wp_inv _ _ (wp_first_child rd n slack Hb node)) as (r1 & H1 & P1).
  destruct (wp_inv _ _ (wp_next_sibling rd n slack Hb node prev)) as (r2 & H2 & P2).
  destruct (wp_inv _ _ (wp_parent_offset rd n slack Hb node)) as (r3 & H3 & P3).
  destruct (wp_inv _ _ (wp_getprop rd n slack Hb node name Hl)) as (o & H4 & P4).
  split; [|split; [|split]]; eexists; (split; [eassumption|]).
  - destruct P1 as [->|P1]; [by left|right].
    destruct (P1 c Hinit) as (? & [? ?] & [? ?]). repeat split; (lia || apply Hblk; lia).
  - destruct P2 as [->|P2]; [by left|right].
    destruct (P2 c Hinit) as (? & [? ?]). split; [done|apply Hblk; lia].
  - destruct P3 as [->|P3]; [by left|right].
    destruct (P3 c Hinit) as ([? ?] & [? ?]). repeat split; (lia || apply Hblk; lia).
  - intros v len ->. destruct (P4 c Hinit) as (? & ? & ?). repeat split; (lia || apply Hblk; lia).
Qed.

(** C27. The queries built from walks return on every blob too: path
    lookup, property lookup, a node's own cell counts and the counts with
    inheritance (machine integers), the reservation list (at most [max]
    entries) and the status check read nothing outside the blob and
    terminate, whatever the blob holds; a property value found lies in the
    structure block. *)
Theorem fdt_queries_total rd n slack node path name max :
  blob_ok rd n slack -> 16 <= slack -> Z.of_nat (length name) <= slack -> 0 <= max ->
  (exists r, fdt_path_offset (Some rd) path = Ret r) /\
  (exists o, fdt_getprop (Some rd) node name = Ret o /\
     forall v len, o = Some (v, len) -> in_struct_block rd v len) /\
  (exists oac osc, fdt_own_cell_counts (Some rd) node = Ret (oac, osc) /\
     opt_is is_int oac /\ opt_is is_int osc) /\
  (exists o, fdt_cell_counts (Some rd) node = Ret o) /\
  (exists out, fdt_reserved_ranges (Some rd) max = Ret out /\ Z.of_nat (length out) <= max) /\
  (exists b, fdt_is_enabled (Some rd) node = Ret b).
Proof.
  intros Hb Hsl Hname Hmax. destruct (ctx_cases rd n slack Hb) as [Hnone|[c Hinit]].
  { unfold fdt_path_offset, fdt_own_cell_counts, fdt_cell_counts, fdt_parent_cells,
      fdt_reserved_ranges, fdt_is_enabled, fdt_getprop.
    rewrite Hnone, !ret_bind. simpl. repeat split; repeat eexists; eauto; done. }
  destruct (wp_inv _ _ (wp_path_offset rd n slack Hb c Hinit path)) as (r1 & H1 & _).
  destruct (wp_inv _ _ (wp_getprop rd n slack Hb node name Hname)) as (o & H2 & P2).
  pose proof (wp_own_cells rd n slack Hb Hsl c Hinit is_u32 node) as Hown.
  destruct (wp_inv _ _ (Hown str_address_cells (cells_are_u32 rd) ltac:(by left))) as (oac & H3 & _).
  destruct (wp_inv _ _ (Hown str_size_cells (cells_are_u32 rd) ltac:(by right))) as (osc & H4 & _).
  destruct (wp_inv _ _ (wp_parent_cells rd n slack Hb Hsl c Hinit is_u32 node
    (cells_are_u32 rd))) as ([[ac sc]|] & H5 & P5); [|done].
  destruct (wp_inv _ _ (wp_reserved_ranges rd n slack Hb Hsl c Hinit max Hmax)) as (r3 & H6 & _ & P6).
  destruct (wp_inv _ _ (wp_is_enabled rd n slack Hb Hsl c Hinit node)) as (r4 & H7 & _).
  unfold fdt_cell_counts, fdt_own_cell_counts.
  rewrite H5, Hinit, !ret_bind, H3, ret_bind, H4, !ret_bind.
  split; [by eexists|]. split.
  { exists o. split; [done|]. intros v len ->.
    destruct (P2 c Hinit) as (? & ? & ?). by apply (ctx_struct_block rd c). }
  split; [|split; [|split]]; repeat eexists; eauto; apply opt_is_s32.
Qed.

(** Reading memory banks and translated registers is safe when the
    tree's cell counts are sane (below 2^28, so that the entry sizes computed
    from them do not wrap): the functions return, stay inside the blob, and
    give at most [max] ranges of 64-bit numbers. *)
Theorem fdt_reg_reads_total rd n slack node index max :
  blob_ok rd n slack -> 16 <= slack -> 0 <= max -> cells_sane rd -> 0 <= index < 2 ^ 32 - 1 ->
  (exists out, fdt_memory_ranges (Some rd) max = Ret out /\
     Forall range_u64 out /\ Z.of_nat (length out) <= max) /\
  (exists o, fdt_reg_to_cpu_addr (Some rd) node index = Ret o /\
     forall r, o = Some r -> range_u64 r).
Proof.
  intros Hb Hsl Hmax Hsane Hix. destruct (ctx_cases rd n slack Hb) as [Hnone|[c Hinit]].
  { unfold fdt_memory_ranges, fdt_reg_to_cpu_addr. rewrite Hnone, !ret_bind.
    split; eexists; repeat split; eauto; done. }
  destruct (wp_inv _ _ (wp_memory_ranges rd n slack Hb Hsl c Hinit max Hsane Hmax))
    as (r1 & H1 & P1).
  destruct (wp_inv _ _ (wp_reg_to_cpu_addr rd n slack Hb Hsl c Hinit node index Hsane Hix))
    as (r2 & H2 & P2).
  split; eexists; split; eauto. intros r ->. exact P2.
Qed.
