(* ===== verification/FdtTree.v ===== *)
(** What lib/fdt.c computes on a well-formed tree.

    [tree] is a device tree as data and [enc_node] its encoding in the
    structure block.  [located t p q u anc] says that in tree [t], encoded at
    offset [p], the node [u] starts at offset [q] below the ancestors at the
    offsets [anc], nearest first.  The theorems say that the walker's
    navigation is navigation in that tree. *)
From S2P Require Import Prelude CMem Fdt FdtSafe FdtTotal.

#[local] Set Warnings "-register-all".

(** * Trees and their encoding *)

(** A property is the offset of its name in the strings block and its
    value. *)
Inductive tree : Type :=
| Node (t_name : list Z) (t_props : list (Z * list Z)) (t_children : list tree).

Definition t_name (t : tree) : list Z := let 'Node n _ _ := t in n.
Definition t_props (t : tree) : list (Z * list Z) := let 'Node _ ps _ := t in ps.
Definition t_children (t : tree) : list tree := let 'Node _ _ cs := t in cs.

(** Zero bytes up to the next multiple of four. *)
Definition pad4 (l : list Z) : list Z :=
  l ++ replicate (Z.to_nat (align4 (Z.of_nat (length l)) - Z.of_nat (length l))) 0.

Definition enc_prop (p : Z * list Z) : list Z :=
  be_bytes 4 FDT_PROP ++ be_bytes 4 (Z.of_nat (length p.2)) ++ be_bytes 4 p.1 ++ pad4 p.2.

Definition enc_props (ps : list (Z * list Z)) : list Z := concat (enc_prop <$> ps).

Fixpoint enc_node (t : tree) : list Z :=
  match t with
  | Node name props children =>
      be_bytes 4 FDT_BEGIN_NODE ++ pad4 (name ++ [0]) ++ enc_props props ++
      concat (map enc_node children) ++ be_bytes 4 FDT_END_NODE
  end.

Definition enc_nodes (ts : list tree) : list Z := concat (map enc_node ts).

Definition blen (l : list Z) : Z := Z.of_nat (length l).

(** Names are C strings and values are bytes. *)
Fixpoint tree_ok (t : tree) : Prop :=
  match t with
  | Node name props children =>
      Forall (fun b => is_u8 b /\ b <> 0) name /\
      Forall (fun p => is_u32 p.1 /\ bytes_ok p.2) props /\
      (fix all ts := match ts with [] => True | t :: ts' => tree_ok t /\ all ts' end) children
  end.

Lemma tree_ok_children name props children :
  tree_ok (Node name props children) <->
  Forall (fun b => is_u8 b /\ b <> 0) name /\
  Forall (fun p => is_u32 p.1 /\ bytes_ok p.2) props /\ Forall tree_ok children.
Proof.
  simpl. split.
  - intros (H1 & H2 & H3). split; [done|]. split; [done|].
    induction children as [|t ts IH]; [constructor|]. destruct H3. constructor; auto.
  - intros (H1 & H2 & H3). split; [done|]. split; [done|].
    induction H3; [done|]. split; auto.
Qed.

(** Induction over a tree and, for each node, over its children. *)
Lemma tree_induction (P : tree -> Prop) :
  (forall name props children, Forall P children -> P (Node name props children)) ->
  forall t, P t.
Proof.
  intros H. fix IH 1. intros [name props children]. apply H.
  induction children as [|t ts IHts]; constructor; [apply IH|exact IHts].
Qed.

(** ** Sizes *)

Lemma blen_app a b : blen (a ++ b) = blen a + blen b.
Proof. unfold blen. rewrite length_app. lia. Qed.

Lemma blen_be4 z : blen (be_bytes 4 z) = 4.
Proof. unfold blen. by rewrite length_be_bytes. Qed.

Lemma blen_nonneg l : 0 <= blen l.
Proof. unfold blen. lia. Qed.

Lemma blen_pad4 l : blen l < 2 ^ 32 - 3 -> blen (pad4 l) = align4 (blen l).
Proof.
  intros H. unfold pad4. rewrite blen_app. unfold blen in *. rewrite length_replicate.
  pose proof (align4_spec (Z.of_nat (length l)) ltac:(lia)). lia.
Qed.

Lemma blen_pad4_ge l : blen l <= blen (pad4 l).
Proof. unfold pad4. rewrite blen_app. match goal with |- _ <= _ + ?x => assert (0 <= x) end;
  [apply blen_nonneg|lia]. Qed.

(** The position of the first property, relative to the node. *)
Definition head_len (t : tree) : Z := 4 + blen (pad4 (t_name t ++ [0])).
(** The position of the first child, relative to the node. *)
Definition body_len (t : tree) : Z := head_len t + blen (enc_props (t_props t)).

Lemma blen_node t : blen (enc_node t) = body_len t + blen (enc_nodes (t_children t)) + 4.
Proof.
  destruct t as [name props children]. unfold body_len, head_len. cbn [enc_node t_name t_props t_children].
  rewrite !blen_app, !blen_be4. fold (enc_nodes children). lia.
Qed.

Lemma blen_nodes_cons t ts : blen (enc_nodes (t :: ts)) = blen (enc_node t) + blen (enc_nodes ts).
Proof. unfold enc_nodes. simpl. by rewrite blen_app. Qed.

(** ** Where nodes are *)

(** [placed ts p ch q]: in the list [ts], encoded from [p] on, the tree [ch]
    starts at [q], after the trees [pre] and before [post]. *)
Inductive placed : list tree -> Z -> list tree -> tree -> Z -> list tree -> Prop :=
| placed_here t ts p : placed (t :: ts) p [] t p ts
| placed_later t ts p pre u q post :
    placed ts (p + blen (enc_node t)) pre u q post ->
    placed (t :: ts) p (t :: pre) u q post.

Inductive located : tree -> Z -> Z -> tree -> list Z -> Prop :=
| located_here t p : located t p p t []
| located_below t p pre ch q0 post q u anc :
    placed (t_children t) (p + body_len t) pre ch q0 post ->
    located ch q0 q u anc ->
    located t p q u (anc ++ [p]).

Lemma placed_eq ts p pre ch q post :
  placed ts p pre ch q post -> ts = pre ++ ch :: post /\ q = p + blen (enc_nodes pre).
Proof.
  induction 1 as [|t ts p pre u q post _ [-> ->]].
  - unfold enc_nodes, blen. simpl. split; [done|lia].
  - rewrite blen_nodes_cons. split; [done|lia].
Qed.

Lemma blen_node_pos t : 8 <= blen (enc_node t).
Proof.
  rewrite blen_node. unfold body_len, head_len.
  pose proof (blen_nonneg (pad4 (t_name t ++ [0]))).
  pose proof (blen_nonneg (enc_props (t_props t))).
  pose proof (blen_nonneg (enc_nodes (t_children t))). lia.
Qed.

Lemma blen_nodes_app a b : blen (enc_nodes (a ++ b)) = blen (enc_nodes a) + blen (enc_nodes b).
Proof. unfold enc_nodes. by rewrite map_app, concat_app, blen_app. Qed.

(** Any split of a list places its middle element. *)
Lemma placed_split p pre ch post :
  placed (pre ++ ch :: post) p pre ch (p + blen (enc_nodes pre)) post.
Proof.
  revert p. induction pre as [|x pre IH]; intros p; simpl.
  - change (blen (enc_nodes [])) with 0. rewrite Z.add_0_r. constructor.
  - constructor. rewrite blen_nodes_cons, Z.add_assoc. apply IH.
Qed.

Lemma placed_range ts p pre ch q post :
  placed ts p pre ch q post ->
  p <= q /\ q + blen (enc_node ch) <= p + blen (enc_nodes ts).
Proof.
  intros H. apply placed_eq in H as [-> ->].
  rewrite blen_nodes_app, blen_nodes_cons.
  pose proof (blen_nonneg (enc_nodes pre)). pose proof (blen_nonneg (enc_nodes post)). lia.
Qed.

Lemma body_len_pos t : 4 <= body_len t.
Proof.
  unfold body_len, head_len. pose proof (blen_nonneg (pad4 (t_name t ++ [0]))).
  pose proof (blen_nonneg (enc_props (t_props t))). lia.
Qed.

(** A child of a located node is located, one level down. *)
Lemma located_child t p q u anc pre ch q0 post :
  located t p q u anc -> placed (t_children u) (q + body_len u) pre ch q0 post ->
  located t p q0 ch (q :: anc).
Proof.
  intros Hl Hpl. induction Hl as [t p|t p pre' ch' q1 post' q u anc Hpl' _ IH].
  - apply (located_below t p pre ch q0 post q0 ch []); [done|constructor].
  - apply (located_below t p pre' ch' q1 post' q0 ch (q :: anc)); [done|]. by apply IH.
Qed.

(** A located node's encoding lies inside the tree's. *)
Lemma located_range t p q u anc :
  located t p q u anc -> p <= q /\ q + blen (enc_node u) <= p + blen (enc_node t).
Proof.
  induction 1 as [|t p pre ch q0 post q u anc Hpl _ IH]; [lia|].
  apply placed_range in Hpl. rewrite (blen_node t). pose proof (body_len_pos t). lia.
Qed.

(** * The walker on an encoded tree *)

Section Walk.
Context (c : ctx_t) (n slack : Z) (Hc : ctx_ok c n slack).

(** The node [t] is stored at [p], inside the structure block. *)
Record at_node (p : Z) (t : tree) : Prop := {
  an_lo : c_s c <= p;
  an_hi : p + blen (enc_node t) <= c_send c;
  an_holds : holds (base c) p (enc_node t);
  an_ok : tree_ok t }.

Lemma ok_in p k : 0 <= k -> c_s c <= p -> p + k <= c_send c -> ok c p k = true.
Proof. intros. eapply ok_true; eauto. Qed.

(** The parts of a stored node. *)
Lemma at_node_parts p t :
  at_node p t ->
  rd_be32 (base c) p = Ret FDT_BEGIN_NODE /\
  holds (base c) (p + 4) (t_name t ++ [0]) /\
  holds (base c) (p + head_len t) (enc_props (t_props t)) /\
  holds (base c) (p + body_len t) (enc_nodes (t_children t)) /\
  rd_be32 (base c) (p + blen (enc_node t) - 4) = Ret FDT_END_NODE.
Proof.
  intros [_ _ H _]. pose proof (blen_node t) as Hlen. destruct t as [name props children].
  unfold body_len, head_len in *. cbn [enc_node t_name t_props t_children] in *.
  fold (enc_nodes children) in *. rewrite !holds_app in H.
  destruct H as (H1 & H2 & H3 & H4 & H5). rewrite !length_be_bytes in *.
  fold (blen (pad4 (name ++ [0]))) in *. fold (blen (enc_props props)) in *.
  fold (blen (enc_nodes children)) in *.
  split; [by apply rd_be32_holds|]. split.
  { unfold pad4 in H2. rewrite holds_app in H2. apply H2. }
  split; [by replace (p + (4 + blen (pad4 (name ++ [0])))) with
    (p + Z.of_nat 4 + blen (pad4 (name ++ [0]))) by lia|].
  split; [by replace (p + (4 + blen (pad4 (name ++ [0])) + blen (enc_props props))) with
    (p + Z.of_nat 4 + blen (pad4 (name ++ [0])) + blen (enc_props props)) by lia|].
  apply rd_be32_holds; [by_compute|].
  match goal with |- holds _ ?a _ =>
    match type of H5 with holds _ ?b _ => replace a with b by lia end end. done.
Qed.

Lemma at_child p t pre ch q post :
  at_node p t -> placed (t_children t) (p + body_len t) pre ch q post -> at_node q ch.
Proof.
  intros Hat Hpl. pose proof (at_node_parts p t Hat) as (_ & _ & _ & Hcs & _).
  destruct Hat as [Hlo Hhi _ Hok]. pose proof (placed_range _ _ _ _ _ _ Hpl) as Hr.
  pose proof (body_len_pos t). rewrite blen_node in Hhi.
  pose proof (placed_eq _ _ _ _ _ _ Hpl) as [Heq ->].
  constructor.
  - lia.
  - lia.
  - rewrite Heq in Hcs. unfold enc_nodes in Hcs. rewrite map_app, concat_app in Hcs.
    simpl in Hcs. rewrite !holds_app in Hcs. apply Hcs.
  - destruct t as [name props children]. apply tree_ok_children in Hok as (_ & _ & Hcok).
    simpl in Heq. rewrite Heq, Forall_app, Forall_cons in Hcok. apply Hcok.
Qed.

Lemma at_located p t q u anc : at_node p t -> located t p q u anc -> at_node q u.
Proof. intros Hat Hl. revert Hat. induction Hl; intros Hat; [done|]. eauto using at_child. Qed.

(** A stored name is measured exactly. *)
Lemma node_name_exact p name :
  Forall (fun b => is_u8 b /\ b <> 0) name -> holds (base c) p (name ++ [0]) ->
  c_s c <= p -> p + blen name < c_send c ->
  node_name c p = Ret (Some (blen name)).
Proof.
  intros Hname Hh Hp Hend. pose proof Hc as [_ Hs _ Hi _ _ _]. unfold node_name.
  pose proof (blen_nonneg name) as Hnn.
  assert (forall i, 0 <= i <= blen name -> reaches (node_name_step c p) 0 i) as Hreach.
  { intros i Hi'. rewrite <- (Z2Nat.id i) by lia. assert (Z.to_nat i <= length name)%nat as Hle
      by (unfold blen in *; lia). clear Hi'. revert Hle.
    generalize (Z.to_nat i) as k. induction k as [|k IH]; intros Hle; [reflexivity|].
    transitivity (Z.of_nat k); [apply IH; lia|]. apply reaches_one. unfold node_name_step.
    unfold blen in *. rewrite ok_in by lia.
    destruct (lookup_lt_is_Some_2 name k) as [b Hb]; [lia|].
    rewrite (Hh k b) by (by apply lookup_app_l_Some). rewrite ret_bind.
    destruct (Forall_lookup_1 _ _ _ _ Hname Hb) as [_ Hnz].
    destruct (Z.eqb_spec b 0); [done|]. simpl. rewrite u32_small by ulia. do 2 f_equal. lia. }
  assert (node_name_step c p (blen name) = Ret (inr (blen name))) as Hstop.
  { unfold node_name_step. rewrite ok_in by lia. unfold blen.
    rewrite (Hh (length name) 0) by (by rewrite lookup_app_r, Nat.sub_diag by lia). done. }
  pose proof (wp_node_name c n slack Hc p) as Hw. unfold node_name in Hw.
  apply wp_bind_inv in Hw as (r & Hr & _).
  rewrite (reaches_ret _ _ _ (blen name) (blen name) (fun _ => True)).
  - rewrite ret_bind, ok_in by lia. done.
  - by rewrite Hr.
  - apply Hreach. pose proof (blen_nonneg name). lia.
  - done.
Qed.

Lemma at_node_name p t :
  at_node p t ->
  node_name c (p + 4) = Ret (Some (blen (t_name t))) /\
  p + 4 + align4 (u32 (blen (t_name t) + 1)) = p + head_len t.
Proof.
  intros Hat. pose proof (at_node_parts p t Hat) as (_ & Hn & _).
  destruct Hat as [Hlo Hhi _ Hok]. pose proof Hc as [_ Hs _ Hi _ _ _].
  pose proof (blen_node t) as Hl. unfold body_len, head_len in *.
  pose proof (blen_nonneg (enc_props (t_props t))).
  pose proof (blen_nonneg (enc_nodes (t_children t))).
  assert (blen (t_name t ++ [0]) = blen (t_name t) + 1) as Hl1 by (rewrite blen_app; done).
  pose proof (blen_pad4_ge (t_name t ++ [0])) as Hpad.
  pose proof (blen_nonneg (t_name t)).
  split.
  - apply node_name_exact; [|done|lia|lia]. destruct t. apply tree_ok_children in Hok. apply Hok.
  - rewrite blen_pad4 by lia. rewrite Hl1, u32_small by ulia. lia.
Qed.
(** A property stored at [q]. *)
Record at_prop (q : Z) (pr : Z * list Z) : Prop := {
  ap_lo : c_s c <= q;
  ap_hi : q + blen (enc_prop pr) <= c_send c;
  ap_len : blen (enc_prop pr) = 12 + align4 (blen pr.2);
  ap_small : 0 <= blen pr.2 <= align4 (blen pr.2);
  ap_token : rd_be32 (base c) q = Ret FDT_PROP;
  ap_vlen : rd_be32 (base c) (q + 4) = Ret (blen pr.2);
  ap_name : rd_be32 (base c) (q + 8) = Ret pr.1;
  ap_value : holds (base c) (q + 12) pr.2 }.

Lemma at_prop_intro q pr :
  holds (base c) q (enc_prop pr) -> is_u32 pr.1 -> c_s c <= q ->
  q + blen (enc_prop pr) <= c_send c -> at_prop q pr.
Proof.
  intros Hh Hu Hlo Hhi. pose proof Hc as [_ Hs _ Hi _ _ _].
  pose proof (blen_nonneg pr.2). pose proof (blen_pad4_ge pr.2) as Hpad.
  assert (blen (enc_prop pr) = 12 + blen (pad4 pr.2)) as Hlen.
  { unfold enc_prop. rewrite !blen_app, !blen_be4. lia. }
  assert (blen (pad4 pr.2) = align4 (blen pr.2)) as Hp4 by (apply blen_pad4; lia).
  unfold enc_prop in Hh. rewrite !holds_app, !length_be_bytes in Hh.
  destruct Hh as (H1 & H2 & H3 & H4). fold (blen pr.2) in H2.
  replace (q + Z.of_nat 4 + Z.of_nat 4 + Z.of_nat 4) with (q + 12) in H4 by lia.
  replace (q + Z.of_nat 4 + Z.of_nat 4) with (q + 8) in H3 by lia.
  replace (q + Z.of_nat 4) with (q + 4) in H2 by lia.
  constructor; try (done || lia).
  - by apply rd_be32_holds.
  - apply rd_be32_holds; [ulia|done].
  - by apply rd_be32_holds.
  - unfold pad4 in H4. rewrite holds_app in H4. apply H4.
Qed.

Lemma enc_props_cons pr ps : enc_props (pr :: ps) = enc_prop pr ++ enc_props ps.
Proof. done. Qed.

(** A walk that steps over each property steps over all of them. *)
Lemma props_walk {V R} (step : V -> outcome (V + R)) (mk : Z -> V) ps q :
  (forall q pr, pr ∈ ps -> at_prop q pr -> step (mk q) = Ret (inl (mk (q + blen (enc_prop pr))))) ->
  holds (base c) q (enc_props ps) -> Forall (fun p => is_u32 p.1 /\ bytes_ok p.2) ps ->
  c_s c <= q -> q + blen (enc_props ps) <= c_send c ->
  reaches step (mk q) (mk (q + blen (enc_props ps))).
Proof.
  revert q. induction ps as [|pr ps IH]; intros q Hstep Hh Hok Hlo Hhi.
  - unfold enc_props, blen. simpl. rewrite Z.add_0_r. reflexivity.
  - rewrite enc_props_cons in *. rewrite blen_app in *. rewrite holds_app in Hh.
    destruct Hh as [Hh1 Hh2]. apply Forall_cons in Hok as [[Hu _] Hok].
    fold (blen (enc_prop pr)) in Hh2.
    pose proof (blen_nonneg (enc_props ps)). pose proof (blen_nonneg (enc_prop pr)).
    eapply reaches_step.
    + apply Hstep; [by left|]. apply at_prop_intro; (done || lia).
    + rewrite Z.add_assoc. apply IH; [|done|done|lia|lia].
      intros q' pr' Hin. apply Hstep. by right.
Qed.

(** The facts a walk over a node's own properties needs. *)
Lemma at_node_props p t :
  at_node p t ->
  holds (base c) (p + head_len t) (enc_props (t_props t)) /\
  Forall (fun p => is_u32 p.1 /\ bytes_ok p.2) (t_props t) /\
  c_s c <= p + head_len t /\ p + head_len t + blen (enc_props (t_props t)) <= c_send c /\
  p + head_len t + blen (enc_props (t_props t)) = p + body_len t.
Proof.
  intros Hat. pose proof (at_node_parts p t Hat) as (_ & _ & Hp & _).
  destruct Hat as [Hlo Hhi _ Hok]. rewrite blen_node in Hhi. unfold body_len, head_len in *.
  pose proof (blen_nonneg (enc_nodes (t_children t))).
  pose proof (blen_nonneg (pad4 (t_name t ++ [0]))).
  split; [done|]. split; [destruct t; apply tree_ok_children in Hok; apply Hok|]. lia.
Qed.

Lemma at_node_token p t :
  at_node p t -> ok c p 4 = true /\ c_s c <= p /\ p + 8 <= c_send c.
Proof.
  intros Hat. pose proof (blen_node_pos t). destruct Hat as [Hlo Hhi _ _].
  split; [apply ok_in|]; lia.
Qed.

Lemma after_name_exact p t : at_node p t -> after_name c p = Ret (Some (p + head_len t)).
Proof.
  intros Hat. pose proof (at_node_parts p t Hat) as (Htok & _).
  destruct (at_node_name p t Hat) as [Hn Hpos]. destruct (at_node_token p t Hat) as [Hok _].
  unfold after_name. rewrite Hok, Htok, ret_bind. simpl. by rewrite Hn, ret_bind, Hpos.
Qed.

(** ** First child *)

(** The offset of the first child, or the error value. *)
Definition first_child_of (p : Z) (t : tree) : Z :=
  match t_children t with [] => FDT_ERR_NODE | _ => p + body_len t end.

Lemma end_token p t :
  at_node p t -> t_children t = [] -> rd_be32 (base c) (p + body_len t) = Ret FDT_END_NODE.
Proof.
  intros Hat He. pose proof (at_node_parts p t Hat) as (_ & _ & _ & _ & Hend).
  rewrite blen_node, He in Hend. change (blen (enc_nodes [])) with 0 in Hend.
  by replace (p + (body_len t + 0 + 4) - 4) with (p + body_len t) in Hend by lia.
Qed.

Lemma first_child_walk p t :
  at_node p t ->
  iterM (walk_fuel c) (first_child_step c) (p + head_len t) = Ret (first_child_of p t).
Proof.
  intros Hat. pose proof Hc as [_ Hs _ Hi _ _ _].
  destruct (at_node_props p t Hat) as (Hh & Hok & Hlo & Hhi & Heq).
  pose proof (body_len_pos t) as Hbp. pose proof Hat as [Hlo' Hhi' _ _]. rewrite blen_node in Hhi'.
  pose proof (blen_nonneg (enc_nodes (t_children t))).
  eapply reaches_ret with (s' := p + body_len t).
  - eapply wp_first_child_walk; [exact Hc|lia].
  - rewrite <- Heq. apply (props_walk (first_child_step c) (fun q => q)); [|done..].
    intros q pr _ [Ha Hb Hlen Hsm Ht Hv _ _]. unfold first_child_step.
    rewrite ok_in by lia. simpl negb. cbv iota. rewrite Ht, ret_bind. simpl Z.eqb. cbv iota.
    rewrite Hv, ret_bind, ok_in by lia. simpl negb. cbv iota. rewrite u32_small by ulia. by rewrite Hlen.
  - unfold first_child_step. rewrite ok_in by lia. simpl negb. cbv iota.
    unfold first_child_of. destruct (t_children t) as [|ch cs] eqn:Hcs.
    + by rewrite (end_token p t Hat Hcs).
    + pose proof (at_child p t [] ch (p + body_len t) cs Hat) as Hch. rewrite Hcs in Hch.
      specialize (Hch (placed_here _ _ _)).
      rewrite (proj1 (at_node_parts _ _ Hch)), ret_bind. simpl. f_equal.
      erewrite off_of_exact; [done|lia].
Qed.

(** ** Skipping a subtree *)

Lemma skip_begin p t d :
  at_node p t -> reaches (skip_node_step c) (p, d) (p + body_len t, d + 1).
Proof.
  intros Hat. destruct (at_node_props p t Hat) as (Hh & Hok & Hlo & Hhi & Heq).
  pose proof (at_node_parts p t Hat) as (Htok & _). destruct (at_node_name p t Hat) as [Hn Hpos].
  destruct (at_node_token p t Hat) as [Hokp _]. pose proof Hc as [_ Hs _ Hi _ _ _].
  eapply reaches_step.
  - unfold skip_node_step. rewrite Hokp. simpl negb. cbv iota. rewrite Htok, ret_bind. simpl Z.eqb.
    cbv iota. by rewrite Hn, ret_bind, Hpos.
  - rewrite <- Heq. apply (props_walk (skip_node_step c) (fun q => (q, d + 1))); [|done..].
    intros q pr _ [Ha Hb Hlen Hsm Ht Hv _ _]. unfold skip_node_step.
    rewrite ok_in by lia. simpl negb. cbv iota. rewrite Ht, ret_bind. simpl Z.eqb. cbv iota.
    rewrite ok_in by lia. simpl negb. cbv iota.
    rewrite Hv, ret_bind, ok_in by lia. simpl negb. cbv iota. rewrite u32_small by ulia.
    do 3 f_equal. lia.
Qed.

Lemma skip_end p d :
  rd_be32 (base c) p = Ret FDT_END_NODE -> c_s c <= p -> p + 4 <= c_send c ->
  skip_node_step c (p, d) =
    if d - 1 <=? 0 then Ret (inr (p + 4)) else Ret (inl (p + 4, d - 1)).
Proof.
  intros Ht Hlo Hhi. pose proof Hc as [_ Hs _ Hi _ _ _]. unfold skip_node_step.
  rewrite ok_in by lia. simpl negb. cbv iota. rewrite Ht, ret_bind. simpl Z.eqb. cbv iota zeta.
  case_if; [|done]. erewrite off_of_exact; [done|lia].
Qed.

(** Every tree of [ts], stored one after the other from [q] on. *)
Definition at_nodes (q : Z) (ts : list tree) : Prop :=
  forall pre ch q' post, placed ts q pre ch q' post -> at_node q' ch.

Lemma at_nodes_cons q t ts :
  at_nodes q (t :: ts) -> at_node q t /\ at_nodes (q + blen (enc_node t)) ts.
Proof.
  intros H. split; [eapply H; constructor|]. intros pre ch q' post Hpl. eapply H. by constructor.
Qed.

Lemma at_node_children p t : at_node p t -> at_nodes (p + body_len t) (t_children t).
Proof. intros Hat pre ch q post Hpl. by eapply at_child. Qed.

(** A walk that steps over each of a run of nodes steps over the run. *)
Lemma nodes_walk {V R} (step : V -> outcome (V + R)) (J : Z -> V -> Prop) ts q v :
  (forall pre ch q' post v, placed ts q pre ch q' post -> at_node q' ch -> J q' v ->
     exists v', reaches step v v' /\ J (q' + blen (enc_node ch)) v') ->
  at_nodes q ts -> J q v ->
  exists v', reaches step v v' /\ J (q + blen (enc_nodes ts)) v'.
Proof.
  revert q v. induction ts as [|t ts IH]; intros q v Hstep Hat HJ.
  - exists v. split; [reflexivity|]. unfold enc_nodes, blen. simpl. by rewrite Z.add_0_r.
  - apply at_nodes_cons in Hat as [Ht Hts].
    destruct (Hstep [] t q ts v) as (v1 & Hr1 & HJ1); [constructor|done|done|].
    destruct (IH (q + blen (enc_node t)) v1) as (v2 & Hr2 & HJ2); [|done|done|].
    + intros pre ch q' post v' Hpl. eapply Hstep. by constructor.
    + exists v2. split; [by transitivity v1|]. rewrite blen_nodes_cons.
      by replace (q + (blen (enc_node t) + blen (enc_nodes ts)))
        with (q + blen (enc_node t) + blen (enc_nodes ts)) by lia.
Qed.

Lemma placed_in ts p pre ch q post : placed ts p pre ch q post -> ch ∈ ts.
Proof. intros H. apply placed_eq in H as [-> _]. apply elem_of_app. right. by left. Qed.

Lemma placed_prefix a b p pre ch q post :
  placed a p pre ch q post -> placed (a ++ b) p pre ch q (post ++ b).
Proof. induction 1; simpl; by constructor. Qed.

Lemma at_nodes_prefix q a b : at_nodes q (a ++ b) -> at_nodes q a.
Proof. intros H pre ch q' post Hpl. eapply H. by apply placed_prefix. Qed.

(** The end token of a stored node. *)
Lemma at_node_end p t :
  at_node p t ->
  rd_be32 (base c) (p + blen (enc_node t) - 4) = Ret FDT_END_NODE /\
  c_s c <= p + blen (enc_node t) - 4 /\ p + blen (enc_node t) - 4 + 4 <= c_send c.
Proof.
  intros Hat. pose proof (at_node_parts p t Hat) as (_ & _ & _ & _ & Hend).
  pose proof (blen_node_pos t). destruct Hat as [? ? _ _]. split; [done|]. lia.
Qed.

(** From a node's start to its own end token, one level deeper. *)
Lemma skip_body t p d :
  at_node p t -> 0 <= d ->
  reaches (skip_node_step c) (p, d) (p + blen (enc_node t) - 4, d + 1).
Proof.
  revert p d. induction t as [name props children IH] using tree_induction. intros p d Hat Hd.
  set (t := Node name props children) in *.
  transitivity (p + body_len t, d + 1); [by apply skip_begin|].
  replace (p + blen (enc_node t) - 4) with (p + body_len t + blen (enc_nodes children))
    by (rewrite blen_node; simpl; lia).
  destruct (nodes_walk (skip_node_step c) (fun q v => v = (q, d + 1)) children (p + body_len t)
    (p + body_len t, d + 1)) as (v' & Hr & ->); [|by apply (at_node_children p t)|done|done].
  intros pre ch q post v Hpl Hch ->. apply placed_in in Hpl. rewrite Forall_forall in IH.
  destruct (at_node_end q ch Hch) as (Hend & Hlo & Hhi).
  eexists. split; [|reflexivity].
  transitivity (q + blen (enc_node ch) - 4, d + 1 + 1); [apply IH; (done || lia)|].
  apply reaches_one. rewrite skip_end by done.
  destruct (Z.leb_spec (d + 1 + 1 - 1) 0); [lia|]. do 3 f_equal; lia.
Qed.

Lemma skip_node_exact p t : at_node p t -> skip_node c p = Ret (p + blen (enc_node t)).
Proof.
  intros Hat. destruct (at_node_end p t Hat) as (Hend & Hlo & Hhi).
  eapply reaches_ret; [by eapply wp_skip_node|by apply skip_body|].
  rewrite skip_end by done. simpl Z.leb. cbv iota. do 2 f_equal. lia.
Qed.

(** ** Finding the parent *)

(** The stack after entering a node at [p] whose parent has depth [d]. *)
Definition push (d p : Z) (st : list Z) : list Z :=
  if d + 1 <? FDT_MAX_DEPTH then <[Z.to_nat (d + 1) := p]> st else st.

Lemma length_push d p st : length (push d p st) = length st.
Proof. unfold push. case_if; [by rewrite length_insert|done]. Qed.

Lemma push_below d p st i : 0 <= i <= d -> push d p st !! Z.to_nat i = st !! Z.to_nat i.
Proof. intros. unfold push. case_if; [|done]. by rewrite list_lookup_insert_ne by lia. Qed.

Lemma push_top d p st :
  -1 <= d -> d + 1 < FDT_MAX_DEPTH -> length st = Z.to_nat FDT_MAX_DEPTH ->
  push d p st !! Z.to_nat (d + 1) = Some p.
Proof.
  intros Hd Hlt Hl. unfold push. destruct (Z.ltb_spec (d + 1) FDT_MAX_DEPTH); [|lia].
  apply list_lookup_insert_eq. unfold FDT_MAX_DEPTH in *. lia.
Qed.

Lemma parent_begin target p t d st :
  at_node p t -> p <> target ->
  reaches (parent_step c target) (p, d, st) (p + body_len t, d + 1, push d p st).
Proof.
  intros Hat Hne. destruct (at_node_props p t Hat) as (Hh & Hok & Hlo & Hhi & Heq).
  pose proof (at_node_parts p t Hat) as (Htok & _). destruct (at_node_name p t Hat) as [Hn Hpos].
  destruct (at_node_token p t Hat) as (Hokp & ? & ?). pose proof Hc as [_ Hs _ Hi _ _ _].
  eapply reaches_step.
  - unfold parent_step. rewrite Hokp. simpl negb. cbv iota. rewrite Htok, ret_bind. simpl Z.eqb.
    cbv iota. rewrite Hn, ret_bind, Hpos. erewrite off_of_exact by lia.
    rewrite (proj2 (Z.eqb_neq p target) Hne). fold (push d p st). reflexivity.
  - rewrite <- Heq.
    apply (props_walk (parent_step c target) (fun q => (q, d + 1, push d p st))); [|done..].
    intros q pr _ [Ha Hb Hlen Hsm Ht Hv _ _]. unfold parent_step.
    rewrite ok_in by lia. simpl negb. cbv iota. rewrite Ht, ret_bind. simpl Z.eqb. cbv iota.
    rewrite Hv, ret_bind, ok_in by lia. simpl negb. cbv iota. rewrite u32_small by ulia.
    do 4 f_equal. lia.
Qed.

Lemma parent_end target p d st :
  rd_be32 (base c) p = Ret FDT_END_NODE -> c_s c <= p -> p + 4 <= c_send c -> 1 <= d ->
  parent_step c target (p, d, st) = Ret (inl (p + 4, d - 1, st)).
Proof.
  intros Ht Hlo Hhi Hd. pose proof Hc as [_ Hs _ Hi _ _ _]. unfold parent_step.
  rewrite ok_in by lia. simpl negb. cbv iota. rewrite Ht, ret_bind. simpl Z.eqb. cbv iota zeta.
  by destruct (Z.ltb_spec (d - 1) 0); [lia|].
Qed.

(** What a subtree passed over leaves of the stack: its first [d + 1]
    entries. *)
Definition passed (d : Z) (st : list Z) (q : Z) (v : Z * Z * list Z) : Prop :=
  exists st', v = (q, d, st') /\ length st' = length st /\
    forall i, 0 <= i <= d -> st' !! Z.to_nat i = st !! Z.to_nat i.

Lemma parent_skip target t p d st :
  at_node p t -> 0 <= d -> target < p \/ p + blen (enc_node t) <= target ->
  exists v, reaches (parent_step c target) (p, d, st) v /\ passed d st (p + blen (enc_node t)) v.
Proof.
  revert p d st. induction t as [name props children IH] using tree_induction.
  intros p d st Hat Hd Hout. set (t := Node name props children) in *.
  pose proof (blen_node t) as Hlen. pose proof (body_len_pos t). simpl t_children in Hlen.
  pose proof (blen_nonneg (enc_nodes children)).
  destruct (nodes_walk (parent_step c target) (passed (d + 1) (push d p st))
    children (p + body_len t) (p + body_len t, d + 1, push d p st))
    as (v' & Hr & st' & -> & Hl & Hst).
  - intros pre ch q post v Hpl Hch (st1 & -> & Hl1 & Hst1).
    pose proof (placed_range _ _ _ _ _ _ Hpl). rewrite Forall_forall in IH.
    destruct (IH ch (placed_in _ _ _ _ _ _ Hpl) q (d + 1) st1) as (v & Hr & st2 & -> & Hl2 & Hst2);
      [done|lia|lia|].
    eexists. split; [exact Hr|]. exists st2. split; [done|]. split; [congruence|].
    intros i Hi. rewrite Hst2, Hst1 by lia. done.
  - by apply (at_node_children p t).
  - by exists (push d p st).
  - destruct (at_node_end p t Hat) as (Hend & Hlo & Hhi).
    exists (p + blen (enc_node t), d, st'). split.
    + transitivity (p + body_len t, d + 1, push d p st); [apply parent_begin; [done|lia]|].
      transitivity (p + body_len t + blen (enc_nodes children), d + 1, st'); [done|].
      replace (p + body_len t + blen (enc_nodes children)) with (p + blen (enc_node t) - 4) by lia.
      apply reaches_one. rewrite parent_end by (done || lia). do 4 f_equal; lia.
    + exists st'. split; [done|]. rewrite length_push in Hl. split; [done|].
      intros i Hi. rewrite Hst by lia. by apply push_below.
Qed.

(** At the node itself the walk answers with the entry below it. *)
Lemma parent_here t p d st par0 :
  at_node p t -> -1 <= d < FDT_MAX_DEPTH -> length st = Z.to_nat FDT_MAX_DEPTH ->
  (if d <? 0 then par0 = FDT_ERR_NODE else st !! Z.to_nat d = Some par0) ->
  parent_step c p (p, d, st) = Ret (inr par0).
Proof.
  intros Hat Hd Hlen Hpar. pose proof Hc as [_ Hs _ Hi _ _ _].
  pose proof (at_node_parts p t Hat) as (Htok & _). destruct (at_node_name p t Hat) as [Hn Hpos].
  destruct (at_node_token p t Hat) as (Hokp & ? & ?).
  unfold parent_step. rewrite Hokp. simpl negb. cbv iota. rewrite Htok, ret_bind. simpl Z.eqb.
  cbv iota. rewrite Hn, ret_bind, Hpos. erewrite off_of_exact by lia. rewrite Z.eqb_refl.
  fold (push d p st). replace (d + 1 - 1) with d by lia. destruct (Z.ltb_spec d 0).
  - destruct (Z.leb_spec (d + 1) 0); [|lia]. by subst par0.
  - destruct (Z.leb_spec (d + 1) 0); [lia|].
    destruct (Z.leb_spec FDT_MAX_DEPTH d); [lia|]. simpl orb. cbv iota.
    by rewrite push_below, Hpar by lia.
Qed.

(** The nearest of the ancestors [anc], or [none]. *)
Definition nearest (anc : list Z) (none : Z) : Z := match anc with [] => none | x :: _ => x end.

(** From the start of a subtree the walk finds the parent of any node in it;
    [d] is the depth of the subtree's own parent, at [par0]. *)
Lemma parent_find t p target u anc d st par0 :
  located t p target u anc -> at_node p t -> -1 <= d -> d + Z.of_nat (length anc) < FDT_MAX_DEPTH ->
  length st = Z.to_nat FDT_MAX_DEPTH ->
  (if d <? 0 then par0 = FDT_ERR_NODE else st !! Z.to_nat d = Some par0) ->
  exists v, reaches (parent_step c target) (p, d, st) v /\
    parent_step c target v = Ret (inr (nearest anc par0)).
Proof.
  intros Hloc. revert d st par0. pose proof Hc as [_ Hs _ Hi _ _ _].
  induction Hloc as [t p|t p pre ch q0 post target u anc Hpl Hloc IH];
    intros d st par0 Hat Hd Hdep Hlen Hpar.
  - exists (p, d, st). split; [reflexivity|]. simpl in Hdep. eapply parent_here; [exact Hat|lia|done|done].
  - pose proof (placed_range _ _ _ _ _ _ Hpl) as Hr0. pose proof (located_range _ _ _ _ _ Hloc) as Hr1.
    pose proof (body_len_pos t). pose proof (blen_node_pos ch) as Hch8. pose proof (blen_node_pos u).
    rewrite length_app in Hdep. simpl in Hdep.
    pose proof (placed_eq _ _ _ _ _ _ Hpl) as [Hcs Hq0].
    pose proof (at_node_children p t Hat) as Hats. rewrite Hcs in Hats.
    destruct (nodes_walk (parent_step c target) (passed (d + 1) (push d p st))
      pre (p + body_len t) (p + body_len t, d + 1, push d p st))
      as (v' & Hr & st' & -> & Hl & Hst).
    + intros pre' ch' q post' v Hpl' Hch' (st1 & -> & Hl1 & Hst1).
      pose proof (placed_range _ _ _ _ _ _ Hpl').
      destruct (parent_skip target ch' q (d + 1) st1) as (v & Hrv & st2 & -> & Hl2 & Hst2);
        [done|lia|lia|].
      eexists. split; [exact Hrv|]. exists st2. split; [done|]. split; [congruence|].
      intros i Hi'. rewrite Hst2, Hst1 by lia. done.
    + by eapply at_nodes_prefix.
    + by exists (push d p st).
    + rewrite <- Hq0 in *. destruct (IH (d + 1) st' p) as (v & Hrv & Hstep).
      * by eapply at_child.
      * lia.
      * lia.
      * by rewrite Hl, length_push.
      * destruct (Z.ltb_spec (d + 1) 0); [lia|]. rewrite Hst by lia. apply push_top; (done || lia).
      * exists v. split.
        -- transitivity (p + body_len t, d + 1, push d p st); [apply parent_begin; [done|lia]|].
           by transitivity (q0, d + 1, st').
        -- rewrite Hstep. do 2 f_equal. by destruct anc.
Qed.

(** ** Properties *)

(** The strings block holds the name [s] at offset [off]. *)
Record name_string (off : Z) (s : list Z) : Prop := {
  ns_in : 0 <= off < c_strend c - c_str c;
  ns_chars : Forall (fun b => b <> 0) s;
  ns_holds : holds (base c) (c_str c + off) (s ++ [0]) }.

Lemma str_eq_exact a s b :
  holds (base c) a (s ++ [0]) -> Forall (fun x => x <> 0) s -> Forall (fun x => x <> 0) b ->
  str_eq (base c) a b = Ret (bool_decide (s = b)).
Proof.
  revert a b. induction s as [|x s IH]; intros a b Hh Hs Hb; simpl in Hh.
  - apply holds_cons in Hh as [Hx _]. destruct b as [|y b]; simpl; rewrite Hx; simpl; [done|].
    apply Forall_cons in Hb as [Hy _]. destruct y; done.
  - apply holds_cons in Hh as [Hx Hh]. apply Forall_cons in Hs as [Hx0 Hs].
    destruct b as [|y b]; simpl; rewrite Hx; simpl.
    + by destruct (Z.eqb_spec x 0).
    + apply Forall_cons in Hb as [_ Hb]. destruct (Z.eqb_spec x 0); [done|]. simpl.
      destruct (Z.eqb_spec x y) as [->|Hne].
      * rewrite IH by done. f_equal. apply bool_decide_ext. split; congruence.
      * f_equal. symmetry. apply bool_decide_eq_false. congruence.
Qed.

(** The step of [fdt_getprop] at a stored property. *)
Lemma getprop_at_prop name q pr s :
  Forall (fun x => x <> 0) name -> at_prop q pr -> name_string pr.1 s ->
  getprop_step c name q =
    if decide (s = name) then Ret (inr (Some (q + 12, blen pr.2)))
    else Ret (inl (q + blen (enc_prop pr))).
Proof.
  intros Hname [Ha Hb Hlen Hsm Ht Hv Hno _] [Hin Hs Hh]. pose proof Hc as [_ Hcs _ Hi Hstr _ Hs32].
  unfold getprop_step. rewrite ok_in by lia. simpl negb. cbv iota. rewrite Ht, ret_bind.
  simpl Z.eqb. simpl orb. cbv iota. rewrite ok_in by lia. simpl. rewrite Hv, ret_bind, Hno, ret_bind.
  rewrite ok_in by lia. simpl negb. cbv iota. unfold str_at. rewrite u32_small by ulia.
  destruct (Z.leb_spec (c_strend c - c_str c) pr.1); [lia|].
  rewrite (str_eq_exact _ s) by done. rewrite ret_bind.
  case_decide; [by rewrite bool_decide_eq_true_2|]. rewrite bool_decide_eq_false_2 by done.
  rewrite u32_small by ulia. by rewrite Hlen.
Qed.

(** The token after the last property ends the search. *)
Lemma getprop_stop name p t :
  at_node p t -> getprop_step c name (p + body_len t) = Ret (inr None).
Proof.
  intros Hat. pose proof Hat as [Hlo Hhi _ _]. rewrite blen_node in Hhi.
  pose proof (body_len_pos t). pose proof (blen_nonneg (enc_nodes (t_children t))).
  unfold getprop_step. rewrite ok_in by lia. simpl negb. cbv iota.
  destruct (t_children t) as [|ch cs] eqn:Hcs.
  - by rewrite (end_token p t Hat Hcs).
  - pose proof (at_child p t [] ch (p + body_len t) cs Hat) as Hch. rewrite Hcs in Hch.
    specialize (Hch (placed_here _ _ _)). by rewrite (proj1 (at_node_parts _ _ Hch)).
Qed.

(** The value of the first property named [name]: where it is stored. *)
Fixpoint prop_lookup (names : Z -> list Z) (name : list Z) (ps : list (Z * list Z)) (q : Z)
    : option (Z * Z) :=
  match ps with
  | [] => None
  | pr :: ps' =>
      if decide (names pr.1 = name) then Some (q + 12, blen pr.2)
      else prop_lookup names name ps' (q + blen (enc_prop pr))
  end.

Lemma getprop_walk names name ps q p t :
  Forall (fun x => x <> 0) name -> at_node p t -> q + blen (enc_props ps) = p + body_len t ->
  holds (base c) q (enc_props ps) -> Forall (fun pr => is_u32 pr.1 /\ bytes_ok pr.2) ps ->
  c_s c <= q -> Forall (fun pr => name_string pr.1 (names pr.1)) ps ->
  exists v, reaches (getprop_step c name) q v /\
    getprop_step c name v = Ret (inr (prop_lookup names name ps q)).
Proof.
  intros Hname Hat. revert q. induction ps as [|pr ps IH]; intros q Heq Hh Hok Hlo Hns.
  - exists q. split; [reflexivity|]. unfold enc_props, blen in Heq. simpl in Heq.
    replace q with (p + body_len t) by lia. by apply getprop_stop.
  - rewrite enc_props_cons in *. rewrite blen_app in Heq. rewrite holds_app in Hh.
    destruct Hh as [Hh1 Hh2]. apply Forall_cons in Hok as [[Hu _] Hok].
    apply Forall_cons in Hns as [Hn Hns].
    pose proof (blen_nonneg (enc_props ps)). pose proof (blen_nonneg (enc_prop pr)).
    destruct (at_node_props p t Hat) as (_ & _ & _ & Hhi & Heq').
    assert (at_prop q pr) as Hpr by (apply at_prop_intro; (done || lia)).
    pose proof (getprop_at_prop name q pr _ Hname Hpr Hn) as Hstep. simpl prop_lookup.
    case_decide.
    + exists q. split; [reflexivity|done].
    + destruct (IH (q + blen (enc_prop pr))) as (v & Hr & Hv); [lia|done|done|lia|done|].
      exists v. split; [by eapply reaches_step|done].
Qed.

End Walk.

(** * The operations on a blob that stores a tree *)

(** [rd] is a blob of [n] bytes whose structure block starts with [root]. *)
Record stores (rd : reader) (n slack : Z) (c : ctx_t) (root : tree) : Prop := {
  st_blob : blob_ok rd n slack;
  st_slack : 16 <= slack;
  st_init : ctx_init (Some rd) = Ret (Some c);
  st_root : at_node c (c_s c) root }.

Section Stored.
Context (rd : reader) (n slack : Z) (c : ctx_t) (root : tree) (Hst : stores rd n slack c root).
Let blob := Some rd.

Lemma stored_ctx : ctx_ok c n slack.
Proof. destruct Hst as [Hb _ Hi _]. by eapply ctx_is_ok. Qed.

Lemma stored_at q u anc : located root (c_s c) q u anc -> at_node c q u.
Proof. intros Hl. destruct Hst as [_ _ _ Hr]. eapply at_located; eauto. Qed.

Lemma parent_offset_exact q u anc :
  located root (c_s c) q u anc -> Z.of_nat (length anc) <= FDT_MAX_DEPTH ->
  fdt_parent_offset blob q = Ret (nearest anc FDT_ERR_NODE).
Proof.
  intros Hl Hd. pose proof Hst as [Hb _ Hi Hr]. unfold fdt_parent_offset, blob.
  rewrite Hi, ret_bind.
  destruct (parent_find c n slack stored_ctx root (c_s c) q u anc (-1)
    (replicate (Z.to_nat FDT_MAX_DEPTH) 0) FDT_ERR_NODE) as (v & Hrv & Hv);
    [done|done|lia|lia|done|done|].
  eapply reaches_ret; [eapply wp_parent_walk; apply stored_ctx|exact Hrv|exact Hv].
Qed.

Lemma first_child_exact q u anc :
  located root (c_s c) q u anc -> fdt_first_child blob q = Ret (first_child_of q u).
Proof.
  intros Hl. pose proof Hst as [Hb _ Hi Hr]. pose proof (stored_at _ _ _ Hl) as Hat.
  unfold fdt_first_child, blob. rewrite Hi, ret_bind.
  erewrite after_name_exact; [|apply stored_ctx|done]. rewrite ret_bind.
  eapply first_child_walk; [apply stored_ctx|done].
Qed.

Lemma getprop_exact q u anc names name :
  located root (c_s c) q u anc -> Forall (fun x => x <> 0) name ->
  Forall (fun pr => name_string c pr.1 (names pr.1)) (t_props u) ->
  Z.of_nat (length name) <= slack ->
  fdt_getprop blob q name = Ret (prop_lookup names name (t_props u) (q + head_len u)).
Proof.
  intros Hl Hname Hns Hlen. pose proof Hst as [Hb _ Hi Hr]. pose proof (stored_at _ _ _ Hl) as Hat.
  unfold fdt_getprop, blob. rewrite Hi, ret_bind.
  erewrite after_name_exact; [|apply stored_ctx|done]. rewrite ret_bind.
  destruct (at_node_props c q u Hat) as (Hh & Hok & Hlo & Hhi & Heq).
  destruct (getprop_walk c n slack stored_ctx names name (t_props u) (q + head_len u) q u)
    as (v & Hrv & Hv); [done..|].
  eapply reaches_ret; [eapply wp_getprop_walk; [apply stored_ctx| |done]|exact Hrv|exact Hv].
  pose proof stored_ctx as [_ Hs _ _ _ _ _]. lia.
Qed.

(** The sibling after a child, or the error value. *)
Definition next_sibling_of (q : Z) (ch : tree) (post : list tree) : Z :=
  match post with [] => FDT_ERR_NODE | _ => q + blen (enc_node ch) end.

Lemma next_sibling_exact p t anc pre ch q post :
  located root (c_s c) p t anc -> Z.of_nat (length anc) < FDT_MAX_DEPTH ->
  placed (t_children t) (p + body_len t) pre ch q post ->
  fdt_next_sibling blob p q = Ret (next_sibling_of q ch post).
Proof.
  intros Hl Hd Hpl. pose proof Hst as [Hb _ Hi Hr]. pose proof stored_ctx as [_ Hs _ Hint _ _ _].
  pose proof (located_child _ _ _ _ _ _ _ _ _ Hl Hpl) as Hlc.
  pose proof (stored_at _ _ _ Hl) as Hat. pose proof (stored_at _ _ _ Hlc) as Hatc.
  pose proof (blen_node_pos ch) as H8. pose proof Hatc as [Hlo Hhi _ _].
  unfold fdt_next_sibling. rewrite (Hi : ctx_init blob = _), ret_bind.
  rewrite (parent_offset_exact q ch (p :: anc)) by (simpl; (done || lia)).
  rewrite ret_bind. simpl nearest. rewrite Z.eqb_refl. simpl negb. cbv iota.
  erewrite skip_node_exact; [|apply stored_ctx|done]. rewrite ret_bind.
  destruct (Z.ltb_spec (q + blen (enc_node ch)) 0); [lia|].
  eapply reaches_ret; [eapply wp_next_sibling_walk; [apply stored_ctx|lia]|reflexivity|].
  pose proof (placed_eq _ _ _ _ _ _ Hpl) as [Hcs Hq].
  assert (q + blen (enc_node ch) + blen (enc_nodes post) = p + blen (enc_node t) - 4) as Hend.
  { rewrite (blen_node t), Hcs, blen_nodes_app, blen_nodes_cons. lia. }
  pose proof Hat as [Hlo' Hhi' _ _]. unfold next_sibling_step, next_sibling_of.
  pose proof (blen_nonneg (enc_nodes post)).
  erewrite ok_in; [|apply stored_ctx|lia|lia|lia]. simpl negb. cbv iota.
  destruct post as [|s ss].
  - change (blen (enc_nodes [])) with 0 in Hend. rewrite Z.add_0_r in Hend. rewrite Hend.
    destruct (at_node_end c p t Hat) as (-> & _). done.
  - assert (at_node c (q + blen (enc_node ch)) s) as Hats.
    { eapply at_child; [exact Hat|].
      pose proof (placed_split (p + body_len t) (pre ++ [ch]) s ss) as Hpl'.
      rewrite <- app_assoc, blen_nodes_app, blen_nodes_cons in Hpl'. simpl app in Hpl'.
      change (blen (enc_nodes [])) with 0 in Hpl'.
      replace (p + body_len t + (blen (enc_nodes pre) + (blen (enc_node ch) + 0)))
        with (q + blen (enc_node ch)) in Hpl' by lia. rewrite Hcs. exact Hpl'. }
    rewrite (proj1 (at_node_parts _ _ _ Hats)), ret_bind. simpl. f_equal.
    erewrite off_of_exact; [done|]. lia.
Qed.
End Stored.
