(* ===== verification/FdtPath.v ===== *)
(** Path lookup of lib/fdt.c, and its navigation and property access as
    theorems about stored trees. *)
From S2P Require Import Prelude CMem Fdt FdtSafe FdtTotal FdtTree.

(** * What a path names *)

(** The first of the trees [ts], stored from [q] on, with the name [nm]. *)
Fixpoint find_named (ts : list tree) (q : Z) (nm : list Z) : option (Z * tree) :=
  match ts with
  | [] => None
  | t :: ts' =>
      if decide (t_name t = nm) then Some (q, t)
      else find_named ts' (q + blen (enc_node t)) nm
  end.

(** The node a list of names leads to, by first match at each level. *)
Fixpoint path_lookup (t : tree) (p : Z) (names : list (list Z)) : option (Z * tree) :=
  match names with
  | [] => Some (p, t)
  | nm :: names' =>
      match find_named (t_children t) (p + body_len t) nm with
      | Some (q, u) => path_lookup u q names'
      | None => None
      end
  end.

Definition offset_or_err (o : option (Z * tree)) : Z :=
  match o with Some (q, _) => q | None => FDT_ERR_NODE end.

(** "/a/b/c". *)
Definition path_string (names : list (list Z)) : list Z := concat (map (cons SLASH) names).

(** The rest of the path once the slashes before [names] are skipped. *)
Definition path_rest (names : list (list Z)) : list Z :=
  match names with [] => [] | nm :: names' => nm ++ path_string names' end.

Definition path_name (nm : list Z) : Prop := nm <> [] /\ Forall (fun x => x <> SLASH) nm.

Lemma skip_slashes_path names :
  Forall path_name names -> skip_slashes (path_string names) = path_rest names.
Proof.
  destruct names as [|nm names]; [done|]. intros H. apply Forall_cons in H as [[Hne Hns] _].
  unfold path_string. simpl. destruct nm as [|x nm]; [done|].
  apply Forall_cons in Hns as [Hx _]. simpl. by destruct (Z.eqb_spec x SLASH).
Qed.

Lemma component_path nm names :
  path_name nm -> component (nm ++ path_string names) = (nm, path_string names).
Proof.
  intros [_ Hns]. induction Hns as [|x nm Hx _ IH]; simpl.
  - destruct names as [|w names]; [done|]. unfold path_string. simpl. done.
  - destruct (Z.eqb_spec x SLASH); [done|]. by rewrite IH.
Qed.

Lemma find_named_placed ts p nm q u :
  find_named ts p nm = Some (q, u) -> exists pre post, placed ts p pre u q post.
Proof.
  revert p. induction ts as [|t ts IH]; intros p; simpl; [done|]. case_decide.
  - intros [= <- <-]. exists [], ts. constructor.
  - intros H'. destruct (IH _ H') as (pre & post & Hpl). exists (t :: pre), post. by constructor.
Qed.

Section Path.
Context (rd : reader) (n slack : Z) (c : ctx_t) (root : tree) (Hst : stores rd n slack c root).
#[local] Abbreviation blob := (Some rd).

Lemma name_matches_exact p s b :
  holds (base c) p s -> length s = length b ->
  name_matches (base c) p b = Ret (bool_decide (s = b)).
Proof.
  revert p b. induction s as [|x s IH]; intros p [|y b] Hh Hl; try done.
  apply holds_cons in Hh as [Hx Hh]. simpl. rewrite Hx, ret_bind.
  destruct (Z.eqb_spec x y) as [->|Hne].
  - rewrite IH by (simpl in Hl; (done || lia)). f_equal. apply bool_decide_ext. split; congruence.
  - f_equal. symmetry. apply bool_decide_eq_false. congruence.
Qed.

(** One child compared with a path component. *)
Lemma path_child_exact q ch nm :
  at_node c q ch ->
  path_child c nm q tt = if decide (t_name ch = nm) then Ret (inr q) else Ret (inl tt).
Proof.
  intros Hat. pose proof (stored_ctx rd n slack c root Hst) as Hc.
  destruct (at_node_name c n slack Hc q ch Hat) as [Hn _].
  pose proof (at_node_parts c q ch Hat) as (_ & Hname & _). apply holds_app in Hname as [Hname _].
  unfold path_child. rewrite Hn, ret_bind. unfold blen.
  destruct (Z.eqb_spec (Z.of_nat (length (t_name ch))) (Z.of_nat (length nm))) as [Hl|Hl].
  - rewrite (name_matches_exact _ (t_name ch)), ret_bind by (done || lia).
    case_decide; [by rewrite bool_decide_eq_true_2|by rewrite bool_decide_eq_false_2].
  - case_decide; [congruence|done].
Qed.

Lemma find_child_exact p t anc nm :
  located root (c_s c) p t anc -> Z.of_nat (length anc) < FDT_MAX_DEPTH ->
  find_child blob c p nm =
    Ret (offset_or_err (find_named (t_children t) (p + body_len t) nm)).
Proof.
  intros Hl Hd. pose proof (stored_ctx rd n slack c root Hst) as Hc.
  pose proof Hc as [_ Hs _ _ _ _ _]. pose proof Hst as [Hb Hsl Hi Hr].
  pose proof (stored_at rd n slack c root Hst _ _ _ Hl) as Hat.
  unfold find_child. erewrite first_child_exact by done. rewrite ret_bind.
  set (step := child_step blob p (path_child c nm) (fun _ => FDT_ERR_NODE)).
  assert (forall ts pre, t_children t = pre ++ ts ->
    let q := p + body_len t + blen (enc_nodes pre) in
    exists v, reaches step (match ts with [] => FDT_ERR_NODE | _ => q end, tt) v /\
      step v = Ret (inr (offset_or_err (find_named ts q nm)))) as Hwalk.
  { induction ts as [|ch ts IH]; intros pre Hcs q.
    - eexists. split; [reflexivity|]. done.
    - assert (placed (t_children t) (p + body_len t) pre ch q ts) as Hpl.
      { rewrite Hcs. apply placed_split. }
      assert (at_node c q ch) as Hch by (by eapply at_child).
      pose proof Hch as [Hlo _ _ _].
      assert (step (q, tt) = if decide (t_name ch = nm) then Ret (inr q)
        else Ret (inl (next_sibling_of q ch ts, tt))) as Hstep.
      { unfold step, child_step.
        destruct (Z.eqb_spec q FDT_ERR_NODE); [unfold FDT_ERR_NODE in *; lia|].
        rewrite (path_child_exact q ch) by done. case_decide; [done|]. rewrite ret_bind.
        by rewrite (next_sibling_exact rd n slack c root Hst p t anc pre ch q ts). }
      simpl find_named. case_decide.
      + exists (q, tt). split; [reflexivity|done].
      + destruct (IH (pre ++ [ch])) as (v & Hr' & Hv); [by rewrite Hcs, <- app_assoc|].
        assert (p + body_len t + blen (enc_nodes (pre ++ [ch])) = q + blen (enc_node ch)) as Hq.
        { rewrite blen_nodes_app, blen_nodes_cons. change (blen (enc_nodes [])) with 0.
          unfold q. lia. }
        rewrite Hq in *. exists v. split; [|done]. eapply reaches_step; [exact Hstep|].
        by destruct ts. }
  destruct (Hwalk (t_children t) [] eq_refl) as (v & Hr' & Hv).
  change (blen (enc_nodes [])) with 0 in *. rewrite Z.add_0_r in *.
  assert ((match t_children t with [] => FDT_ERR_NODE | _ => p + body_len t end) = first_child_of p t)
    as Hfc by done. rewrite Hfc in Hr'.
  eapply reaches_ret; [|exact Hr'|exact Hv].
  pose proof (wp_find_child rd n slack Hb c Hi p nm) as Hw. unfold find_child in Hw.
  erewrite first_child_exact in Hw by done. exact Hw.
Qed.
(** One round of the path loop, and all of them. *)
Lemma path_walk t p anc names :
  located root (c_s c) p t anc -> Forall path_name names ->
  Z.of_nat (length anc) + Z.of_nat (length names) <= FDT_MAX_DEPTH ->
  exists v, reaches (path_step blob c) (path_rest names, p) v /\
    path_step blob c v = Ret (inr (offset_or_err (path_lookup t p names))).
Proof.
  revert t p anc. induction names as [|nm names IH]; intros t p anc Hl Hns Hd.
  - exists ([], p). split; [reflexivity|done].
  - apply Forall_cons in Hns as [Hnm Hns]. simpl length in Hd.
    assert (path_step blob c (path_rest (nm :: names), p) =
      match find_named (t_children t) (p + body_len t) nm with
      | Some (q, _) => Ret (inl (path_rest names, q))
      | None => Ret (inr FDT_ERR_NODE)
      end) as Hstep.
    { unfold path_step. destruct (path_rest (nm :: names)) as [|x r] eqn:Hrest.
      { destruct Hnm as [Hne _]. by destruct nm. }
      rewrite <- Hrest. simpl path_rest. rewrite component_path by done.
      rewrite (find_child_exact p t anc) by (done || lia). rewrite ret_bind.
      destruct (find_named _ _ _) as [[q u]|] eqn:Hf; simpl.
      - destruct (find_named_placed _ _ _ _ _ Hf) as (pre & post & Hpl).
        pose proof (located_child _ _ _ _ _ _ _ _ _ Hl Hpl) as Hlc.
        pose proof (stored_at rd n slack c root Hst _ _ _ Hlc) as [Hlo _ _ _].
        pose proof (stored_ctx rd n slack c root Hst) as [_ Hs _ _ _ _ _].
        destruct (Z.eqb_spec q FDT_ERR_NODE); [unfold FDT_ERR_NODE in *; lia|].
        by rewrite skip_slashes_path.
      - done. }
    simpl path_lookup. destruct (find_named _ _ _) as [[q u]|] eqn:Hf.
    + destruct (find_named_placed _ _ _ _ _ Hf) as (pre & post & Hpl).
      pose proof (located_child _ _ _ _ _ _ _ _ _ Hl Hpl) as Hlc.
      destruct (IH u q (p :: anc) Hlc Hns) as (v & Hr & Hv); [simpl; lia|].
      exists v. split; [by eapply reaches_step|done].
    + eexists. split; [reflexivity|]. by rewrite Hstep.
Qed.

Lemma path_offset_exact names :
  Forall path_name names -> Z.of_nat (length names) <= FDT_MAX_DEPTH ->
  fdt_path_offset blob (match names with [] => [SLASH] | _ => path_string names end) =
    Ret (offset_or_err (path_lookup root (c_s c) names)).
Proof.
  intros Hns Hd. pose proof (stored_ctx rd n slack c root Hst) as Hc.
  pose proof Hc as [_ Hs _ Hint _ _ _]. pose proof Hst as [Hb Hsl Hi Hr].
  destruct (at_node_token c n slack Hc _ _ Hr) as (Hok & _).
  pose proof (at_node_parts c _ _ Hr) as (Htok & _).
  assert (off_of c (c_s c) = c_s c) as Hoff by (eapply off_of_exact; lia).
  unfold fdt_path_offset. rewrite Hi, ret_bind.
  destruct names as [|nm names].
  - simpl. rewrite Hok, Htok. simpl. by rewrite Hoff.
  - unfold path_string at 1. simpl map. simpl concat. cbv iota. simpl Z.eqb. simpl negb. cbv iota zeta.
    rewrite Hok. simpl negb. cbv iota. rewrite Htok, ret_bind. simpl Z.eqb. simpl negb. cbv iota.
    change (SLASH :: nm ++ concat (map (cons SLASH) names)) with (path_string (nm :: names)).
    rewrite skip_slashes_path by done. rewrite Hoff.
    destruct (path_walk root (c_s c) [] (nm :: names)) as (v & Hrv & Hv);
      [constructor|done|simpl in *; lia|].
    destruct (path_rest (nm :: names)) as [|x r] eqn:Hrest.
    { apply Forall_cons in Hns as [[Hne _] _]. by destruct nm. }
    rewrite <- Hrest in *. eapply reaches_ret; [|exact Hrv|exact Hv].
    eapply wp_path_walk; [exact Hb|exact Hi|lia].
Qed.

End Path.
