(* ===== verification/FdtBlob.v ===== *)
(** Whole device-tree blobs: the header, the reservation block, the
    structure block of a tree and the strings block, put together as the
    specification lays them out, and the operations of lib/fdt.c on them. *)
From S2P Require Import Prelude CMem Fdt FdtSafe FdtTotal FdtTree FdtPath.

(** * Encoding *)

Definition enc_range (r : fdt_range_t) : list Z := be_bytes 8 (r_base r) ++ be_bytes 8 (r_size r).

Definition rsv_block (rs : list fdt_range_t) : list Z :=
  concat (enc_range <$> rs) ++ be_bytes 8 0 ++ be_bytes 8 0.

Definition struct_block (root : tree) : list Z := enc_node root ++ be_bytes 4 FDT_END.

Definition rsv_len (rs : list fdt_range_t) : Z := blen (rsv_block rs).
Definition struct_len (root : tree) : Z := blen (struct_block root).

Definition total_len (root : tree) (strings : list Z) (rs : list fdt_range_t) : Z :=
  40 + rsv_len rs + struct_len root + blen strings.

Definition enc_header (root : tree) (strings : list Z) (rs : list fdt_range_t) : list Z :=
  be_bytes 4 FDT_MAGIC ++ be_bytes 4 (total_len root strings rs) ++
  be_bytes 4 (40 + rsv_len rs) ++ be_bytes 4 (40 + rsv_len rs + struct_len root) ++
  be_bytes 4 40 ++ be_bytes 4 17 ++ be_bytes 4 16 ++ be_bytes 4 0 ++
  be_bytes 4 (blen strings) ++ be_bytes 4 (struct_len root).

Definition enc_blob (root : tree) (strings : list Z) (rs : list fdt_range_t) : list Z :=
  enc_header root strings rs ++ rsv_block rs ++ struct_block root ++ strings.

(** The blob in memory, with [slack] further bytes mapped after it. *)
Definition blob_mem (root : tree) (strings : list Z) (rs : list fdt_range_t) (slack : nat) : reader :=
  of_bytes (enc_blob root strings rs ++ replicate slack 0).

(** The context the walker sets up for an object [rd] that starts with the
    blob, and for this one. *)
Definition image_ctx (root : tree) (strings : list Z) (rs : list fdt_range_t) (rd : reader) : ctx_t := {|
  base := rd;
  c_s := 40 + rsv_len rs;
  c_send := 40 + rsv_len rs + struct_len root;
  c_str := 40 + rsv_len rs + struct_len root;
  c_strend := 40 + rsv_len rs + struct_len root + blen strings |}.

Definition blob_ctx (root : tree) (strings : list Z) (rs : list fdt_range_t) (slack : nat) : ctx_t :=
  image_ctx root strings rs (blob_mem root strings rs slack).

Record blob_wf (root : tree) (strings : list Z) (rs : list fdt_range_t) : Prop := {
  bw_tree : tree_ok root;
  bw_strings : bytes_ok strings;
  bw_size : total_len root strings rs < 2 ^ 31 }.

(** * Lemmas *)

Lemma pad4_ok l : bytes_ok l -> bytes_ok (pad4 l).
Proof.
  intros H. apply Forall_app. split; [done|]. apply Forall_replicate. by_compute.
Qed.

Lemma enc_props_ok ps :
  Forall (fun p => is_u32 p.1 /\ bytes_ok p.2) ps -> bytes_ok (enc_props ps).
Proof.
  induction 1 as [|pr ps [_ Hv] _ IH]; [by apply Forall_nil|]. rewrite enc_props_cons.
  unfold bytes_ok, enc_prop. rewrite !Forall_app.
  repeat split; try apply be_bytes_ok; [by apply pad4_ok|exact IH].
Qed.

Lemma enc_node_ok t : tree_ok t -> bytes_ok (enc_node t).
Proof.
  induction t as [name props children IH] using tree_induction. intros Hok.
  apply tree_ok_children in Hok as (Hn & Hp & Hcs). cbn [enc_node]. unfold bytes_ok.
  rewrite !Forall_app. repeat split; try apply be_bytes_ok.
  - apply pad4_ok, Forall_app. split; [|by_compute].
    eapply Forall_impl; [exact Hn|]. by intros x [? _].
  - by apply enc_props_ok.
  - clear Hn Hp. induction Hcs as [|ch cs Hch _ IHcs]; [by apply Forall_nil|].
    apply Forall_cons in IH as [IHch IH]. simpl. apply Forall_app. split; [by apply IHch|by apply IHcs].
Qed.

Lemma blen_header root strings rs : blen (enc_header root strings rs) = 40.
Proof. unfold enc_header. rewrite !blen_app, !blen_be4. done. Qed.

Lemma blen_blob root strings rs : blen (enc_blob root strings rs) = total_len root strings rs.
Proof.
  unfold enc_blob. rewrite !blen_app, blen_header. unfold total_len, rsv_len, struct_len. lia.
Qed.

Lemma rsv_block_ok rs : bytes_ok (rsv_block rs).
Proof.
  unfold rsv_block, bytes_ok. rewrite !Forall_app. repeat split; try apply be_bytes_ok.
  induction rs as [|r rs IH]; [by apply Forall_nil|]. rewrite fmap_cons. cbn [concat].
  unfold enc_range at 1. rewrite !Forall_app. repeat split; try apply be_bytes_ok. exact IH.
Qed.

Lemma length_enc_ranges l : length (concat (enc_range <$> l)) = (16 * length l)%nat.
Proof.
  induction l as [|x l IH]; [done|]. rewrite fmap_cons. cbn [concat].
  rewrite length_app, IH. unfold enc_range. rewrite length_app, !length_be_bytes. simpl. lia.
Qed.

(** Any object that starts with an encoded blob and has sixteen more
    bytes. *)
Section Image.
Context (root : tree) (strings : list Z) (rs : list fdt_range_t) (rd : reader) (pad : list Z).
Context (Hwf : blob_wf root strings rs) (Himg : holds rd 0 (enc_blob root strings rs ++ pad)).
Context (Hpad : bytes_ok pad) (Hslack : (16 <= length pad)%nat).
#[local] Abbreviation slack := (length pad).
#[local] Abbreviation c := (image_ctx root strings rs rd).

Lemma image_parts :
  holds rd 0 (enc_header root strings rs) /\ holds rd 40 (rsv_block rs) /\
  holds rd (40 + rsv_len rs) (struct_block root) /\
  holds rd (40 + rsv_len rs + struct_len root) strings.
Proof.
  pose proof Himg as H. rewrite holds_app in H. destruct H as [H _].
  unfold enc_blob in H. rewrite !holds_app in H. destruct H as (H1 & H2 & H3 & H4).
  fold (blen (enc_header root strings rs)) in H2, H3, H4. rewrite blen_header in *.
  fold (blen (rsv_block rs)) in H3, H4. fold (rsv_len rs) in H3, H4.
  fold (blen (struct_block root)) in H4. fold (struct_len root) in H4. done.
Qed.

(** The header's words. *)
Lemma image_fields :
  rd_be32 rd 0 = Ret FDT_MAGIC /\ rd_be32 rd 4 = Ret (total_len root strings rs) /\
  rd_be32 rd 8 = Ret (40 + rsv_len rs) /\
  rd_be32 rd 12 = Ret (40 + rsv_len rs + struct_len root) /\ rd_be32 rd 16 = Ret 40 /\
  rd_be32 rd 32 = Ret (blen strings) /\ rd_be32 rd 36 = Ret (struct_len root).
Proof.
  destruct image_parts as [H _]. destruct Hwf as [_ _ Hsz]. unfold total_len in Hsz.
  pose proof (blen_nonneg strings) as Hn0. pose proof (blen_nonneg (struct_block root)) as Hs0.
  pose proof (blen_nonneg (rsv_block rs)) as Hr0. unfold struct_len, rsv_len in *.
  unfold enc_header in H. rewrite !holds_app, !length_be_bytes in H.
  destruct H as (H0 & H1 & H2 & H3 & H4 & _ & _ & _ & H8 & H9).
  unfold total_len in *. unfold struct_len, rsv_len in *.
  assert (forall p q z, holds rd p (be_bytes 4 z) -> p = q -> is_u32 z -> rd_be32 rd q = Ret z)
    as Hrd by (intros p q z Hh <- Hz; by apply rd_be32_holds).
  split; [exact (Hrd _ 0 _ H0 eq_refl ltac:(by_compute))|].
  split; [exact (Hrd _ 4 _ H1 eq_refl ltac:(ulia))|].
  split; [exact (Hrd _ 8 _ H2 eq_refl ltac:(ulia))|].
  split; [exact (Hrd _ 12 _ H3 eq_refl ltac:(ulia))|].
  split; [exact (Hrd _ 16 _ H4 eq_refl ltac:(by_compute))|].
  split; [exact (Hrd _ 32 _ H8 eq_refl ltac:(ulia))|].
  exact (Hrd _ 36 _ H9 eq_refl ltac:(ulia)).
Qed.

Lemma image_readable : readable rd 0 (total_len root strings rs + Z.of_nat slack).
Proof.
  rewrite <- blen_blob. unfold blen. rewrite <- Nat2Z.inj_add, <- length_app.
  apply (holds_readable _ 0); [|exact Himg].
  unfold enc_blob, enc_header, struct_block, bytes_ok. rewrite !Forall_app.
  destruct Hwf as [Ht Hs _]. pose proof (rsv_block_ok rs) as Hr. pose proof (enc_node_ok root Ht) as Hn.
  repeat split; try apply be_bytes_ok; done.
Qed.

Lemma image_is_ok : blob_ok rd (total_len root strings rs + Z.of_nat slack) (Z.of_nat slack).
Proof.
  destruct image_fields as (_ & H4 & _). destruct Hwf as [_ _ Hsz].
  pose proof (blen_nonneg strings). pose proof (blen_nonneg (struct_block root)).
  pose proof (blen_nonneg (rsv_block rs)).
  constructor; [apply image_readable|unfold total_len, struct_len, rsv_len; lia|lia|].
  intros t Ht. rewrite H4 in Ht. simplify_eq. lia.
Qed.

Lemma image_init : ctx_init (Some rd) = Ret (Some c).
Proof.
  destruct image_fields as (H0 & H4 & H8 & H12 & _ & H32 & H36). destruct Hwf as [_ _ Hsz].
  pose proof (blen_nonneg strings) as Hn0. pose proof (blen_nonneg (struct_block root)) as Hs0.
  pose proof (blen_nonneg (rsv_block rs)) as Hr0. unfold ctx_init.
  rewrite H0, ret_bind, Z.eqb_refl. simpl negb. cbv iota.
  rewrite H4, ret_bind, H8, ret_bind, H12, ret_bind, H32, ret_bind, H36, ret_bind.
  unfold total_len in *. unfold struct_len, rsv_len in *. rewrite !u32_small by ulia.
  do 2 (case_if; [lia|]). done.
Qed.

(** An encoded blob stores its tree. *)
Lemma image_stores :
  stores rd (total_len root strings rs + Z.of_nat slack) (Z.of_nat slack) c root.
Proof.
  constructor; [apply image_is_ok|lia|apply image_init|].
  destruct image_parts as (_ & _ & H & _). unfold struct_block in H. rewrite holds_app in H.
  constructor; simpl; [lia| |apply H|apply Hwf].
  unfold struct_len, struct_block. rewrite blen_app, blen_be4. lia.
Qed.

End Image.

Section Blob.
Context (root : tree) (strings : list Z) (rs : list fdt_range_t) (slack : nat).
Context (Hwf : blob_wf root strings rs) (Hslack : (16 <= slack)%nat).
#[local] Abbreviation rd := (blob_mem root strings rs slack).
#[local] Abbreviation c := (blob_ctx root strings rs slack).

Lemma blob_holds : holds rd 0 (enc_blob root strings rs ++ replicate slack 0).
Proof.
  pose proof (holds_of_bytes [] (enc_blob root strings rs ++ replicate slack 0) []) as H.
  by rewrite app_nil_r in H.
Qed.

Lemma blob_parts :
  holds rd 0 (enc_header root strings rs) /\ holds rd 40 (rsv_block rs) /\
  holds rd (40 + rsv_len rs) (struct_block root) /\
  holds rd (40 + rsv_len rs + struct_len root) strings.
Proof. exact (image_parts root strings rs rd _ blob_holds). Qed.

Lemma header_fields :
  rd_be32 rd 0 = Ret FDT_MAGIC /\ rd_be32 rd 4 = Ret (total_len root strings rs) /\
  rd_be32 rd 8 = Ret (40 + rsv_len rs) /\
  rd_be32 rd 12 = Ret (40 + rsv_len rs + struct_len root) /\ rd_be32 rd 16 = Ret 40 /\
  rd_be32 rd 32 = Ret (blen strings) /\ rd_be32 rd 36 = Ret (struct_len root).
Proof. apply (image_fields root strings rs rd _ Hwf blob_holds). by rewrite length_replicate. Qed.

Lemma blob_init : ctx_init (Some rd) = Ret (Some c).
Proof. apply (image_init root strings rs rd _ Hwf blob_holds). by rewrite length_replicate. Qed.

Lemma zeros_ok : bytes_ok (replicate slack 0).
Proof. apply Forall_replicate. by_compute. Qed.

Lemma blob_is_ok : blob_ok rd (total_len root strings rs + Z.of_nat slack) (Z.of_nat slack).
Proof.
  pose proof (image_is_ok root strings rs rd _ Hwf blob_holds zeros_ok) as H.
  rewrite length_replicate in H. by apply H.
Qed.

(** An encoded blob stores its tree. *)
Lemma blob_stores :
  stores rd (total_len root strings rs + Z.of_nat slack) (Z.of_nat slack) c root.
Proof.
  pose proof (image_stores root strings rs rd _ Hwf blob_holds zeros_ok) as H.
  rewrite length_replicate in H. by apply H.
Qed.

(** ** Reservations *)

Lemma rsv_read r rs1 rs2 :
  rs = rs1 ++ r :: rs2 -> is_u64 (r_base r) -> is_u64 (r_size r) ->
  let off := 40 + 16 * Z.of_nat (length rs1) in
  rd_be64 rd off = Ret (r_base r) /\ rd_be64 rd (off + 8) = Ret (r_size r).
Proof.
  intros Heq Hb Hs off. destruct blob_parts as (_ & H & _). unfold rsv_block in H.
  rewrite Heq, fmap_app, fmap_cons, concat_app in H. cbn [concat] in H.
  unfold enc_range at 2 in H. rewrite !holds_app in H.
  destruct H as ((H1 & (H2 & H3) & _) & _).
  rewrite length_enc_ranges, length_be_bytes in *. unfold off.
  replace (40 + 16 * Z.of_nat (length rs1)) with (40 + Z.of_nat (16 * length rs1)) by lia.
  change (Z.of_nat 8) with 8 in H3. rewrite <- Heq in H2, H3.
  split; (apply rd_be64_holds; [assumption|]); [exact H2|exact H3].
Qed.

(** The terminator after the last entry. *)
Lemma rsv_end :
  let off := 40 + 16 * Z.of_nat (length rs) in
  rd_be64 rd off = Ret 0 /\ rd_be64 rd (off + 8) = Ret 0 /\ rsv_len rs = 16 * Z.of_nat (length rs) + 16.
Proof.
  intros off. destruct blob_parts as (_ & H & _). unfold rsv_len, rsv_block in *.
  rewrite !holds_app in H. destruct H as (_ & H2 & H3).
  rewrite !blen_app. unfold blen. rewrite length_enc_ranges, !length_be_bytes in *.
  unfold off. replace (40 + 16 * Z.of_nat (length rs)) with (40 + Z.of_nat (16 * length rs)) by lia.
  change (Z.of_nat 8) with 8 in *. split; [|split; [|lia]].
  - apply rd_be64_holds; [by_compute|exact H2].
  - apply rd_be64_holds; [by_compute|exact H3].
Qed.

Definition range_nonzero (r : fdt_range_t) : Prop :=
  is_u64 (r_base r) /\ is_u64 (r_size r) /\ ~ (r_base r = 0 /\ r_size r = 0).

Lemma reserved_exact max :
  Forall range_nonzero rs -> 0 <= max ->
  fdt_reserved_ranges (Some rd) max = Ret (take (Z.to_nat max) rs).
Proof.
  intros Hrs Hmax. destruct header_fields as (_ & H4 & _ & _ & H16 & _).
  destruct rsv_end as (He1 & He2 & Hrl). destruct Hwf as [_ _ Hsz].
  pose proof (blen_nonneg strings) as Hn0. pose proof (blen_nonneg (struct_block root)) as Hs0.
  set (T := total_len root strings rs) in *.
  assert (40 + 16 * Z.of_nat (length rs) + 16 <= T) as HT.
  { unfold T, total_len, struct_len. rewrite Hrl. lia. }
  assert (wp (fdt_reserved_ranges (Some rd) max) (fun _ => True)) as Hw.
  { eapply wp_mono; [eapply wp_reserved_ranges;
      [apply blob_is_ok|lia|apply blob_init|done]|done]. }
  unfold fdt_reserved_ranges in *. rewrite blob_init, ret_bind in *.
  change (base c) with rd in *. rewrite H16, ret_bind, H4, ret_bind in *.
  set (step := reserved_step rd T max) in *.
  assert (forall k, (k <= length (take (Z.to_nat max) rs))%nat ->
    reaches step (40, []) (40 + 16 * Z.of_nat k, take k rs)) as Hreach.
  { induction k as [|k IH]; intros Hk; [rewrite Z.mul_0_r, Z.add_0_r; reflexivity|].
    transitivity (40 + 16 * Z.of_nat k, take k rs); [apply IH; lia|].
    rewrite length_take in Hk. destruct (lookup_lt_is_Some_2 rs k) as [r Hr]; [lia|].
    pose proof (take_drop_middle _ _ _ Hr) as Hsplit.
    destruct (Forall_lookup_1 _ _ _ _ Hrs Hr) as (Hb & Hs & Hnz).
    destruct (rsv_read r (take k rs) (drop (S k) rs)) as [Hr1 Hr2]; [done|done|done|].
    rewrite length_take, Nat.min_l in Hr1, Hr2 by lia.
    apply reaches_one. unfold step, reserved_step. rewrite length_take, Nat.min_l by lia.
    destruct (Z.ltb_spec (Z.of_nat k) max); [|lia]. simpl negb. cbv iota.
    rewrite u32_small by ulia. case_if; [lia|]. rewrite Hr1, ret_bind, Hr2, ret_bind.
    case_if; [exfalso; tauto|]. rewrite u32_small by ulia.
    assert (take (S k) rs = take k rs ++ [r]) as -> by (by apply take_S_r).
    destruct r as [rb rz]. do 3 f_equal. lia. }
  set (k := length (take (Z.to_nat max) rs)) in *.
  eapply reaches_ret; [exact Hw|apply (Hreach k); lia|].
  assert (take k rs = take (Z.to_nat max) rs) as Htk.
  { unfold k. rewrite length_take. destruct (decide (Z.to_nat max <= length rs)%nat).
    - by rewrite Nat.min_l.
    - rewrite Nat.min_r, (take_ge rs (Z.to_nat max)) by lia. by apply take_ge. }
  rewrite Htk. unfold step, reserved_step. fold k.
  destruct (Z.ltb_spec (Z.of_nat k) max) as [Hlt|]; [|done]. simpl negb. cbv iota.
  assert (k = length rs) as Hk by (unfold k in *; rewrite length_take in *; lia).
  rewrite Hk, u32_small by ulia. case_if; [lia|]. by rewrite He1, ret_bind, He2.
Qed.

End Blob.

(** * Theorems *)

(** The strings block holds the C string [s] at offset [off]. *)
Definition string_at (strings : list Z) (off : Z) (s : list Z) : Prop :=
  exists pre post, strings = pre ++ s ++ 0 :: post /\ off = blen pre /\
    Forall (fun b => b <> 0) s.

Lemma string_at_image root strings rs rd pad off s :
  holds rd 0 (enc_blob root strings rs ++ pad) -> string_at strings off s ->
  name_string (image_ctx root strings rs rd) off s.
Proof.
  intros Hrd (pre & post & Heq & -> & Hnz). pose proof (blen_nonneg pre). constructor; simpl.
  - replace (40 + rsv_len rs + struct_len root + blen strings -
      (40 + rsv_len rs + struct_len root)) with (blen strings) by lia.
    rewrite Heq, !blen_app. pose proof (blen_nonneg s).
    assert (1 <= blen (0 :: post)) by (unfold blen; simpl; lia). lia.
  - done.
  - destruct (image_parts root strings rs rd pad Hrd) as (_ & _ & _ & Hh).
    clear Hrd. rewrite Heq in Hh. change (0 :: post) with ([0] ++ post) in Hh.
    rewrite !holds_app in Hh. destruct Hh as (_ & H1 & H2 & _). apply holds_app. by split.
Qed.

Lemma string_at_name root strings rs slack off s :
  string_at strings off s -> name_string (blob_ctx root strings rs slack) off s.
Proof. apply (string_at_image root strings rs _ (replicate slack 0)), blob_holds. Qed.

Section Claims.
Context (root : tree) (strings : list Z) (rs : list fdt_range_t) (slack : nat).
#[local] Abbreviation rd := (blob_mem root strings rs slack).
#[local] Abbreviation start := (40 + rsv_len rs).

(** C28. Navigation in an encoded blob is navigation in the tree it encodes:
    for every node at most sixteen levels down, the parent's offset is that
    of its nearest ancestor (and the root has none), the first child is the
    first child, and the sibling after a child is the next child of the same
    parent, or none after the last. *)
Theorem device_tree_navigation q u anc :
  blob_wf root strings rs -> (16 <= slack)%nat ->
  located root start q u anc -> Z.of_nat (length anc) < FDT_MAX_DEPTH ->
  fdt_parent_offset (Some rd) q = Ret (nearest anc FDT_ERR_NODE) /\
  fdt_first_child (Some rd) q = Ret (first_child_of q u) /\
  forall pre ch qc post, placed (t_children u) (q + body_len u) pre ch qc post ->
    fdt_parent_offset (Some rd) qc = Ret q /\
    fdt_next_sibling (Some rd) q qc = Ret (next_sibling_of qc ch post).
Proof.
  intros Hwf Hsl Hl Hd. pose proof (blob_stores root strings rs slack Hwf Hsl) as Hst.
  split; [eapply parent_offset_exact; [exact Hst|exact Hl|lia]|].
  split; [by eapply first_child_exact|]. intros pre ch qc post Hpl.
  split; [|by eapply next_sibling_exact].
  eapply (parent_offset_exact _ _ _ _ _ Hst qc ch (q :: anc)); [|simpl length; lia].
  by eapply located_child.
Qed.

(** C29. Property lookup returns the first property of the node with that
    name, as the offset and length of its value, and nothing when the node
    has none, whatever its children and siblings declare; the bytes there
    are the value. *)
Theorem device_tree_getprop q u anc names name :
  blob_wf root strings rs -> (16 <= slack)%nat -> located root start q u anc ->
  Forall (fun x => x <> 0) name -> (length name <= slack)%nat ->
  Forall (fun pr => string_at strings pr.1 (names pr.1)) (t_props u) ->
  fdt_getprop (Some rd) q name =
    Ret (prop_lookup names name (t_props u) (q + head_len u)).
Proof.
  intros Hwf Hsl Hl Hname Hlen Hns. pose proof (blob_stores root strings rs slack Hwf Hsl) as Hst.
  eapply getprop_exact; [exact Hst|exact Hl|done| |lia].
  eapply Forall_impl; [exact Hns|]. intros pr. apply string_at_name.
Qed.

(** A path resolves to the node reached from the root by taking at each
    level the first child with that exact name, and to the error value when
    there is none; "/" is the root. *)
Theorem device_tree_path names :
  blob_wf root strings rs -> (16 <= slack)%nat ->
  Forall path_name names -> Z.of_nat (length names) <= FDT_MAX_DEPTH ->
  fdt_path_offset (Some rd) (match names with [] => [SLASH] | _ => path_string names end) =
    Ret (offset_or_err (path_lookup root start names)).
Proof.
  intros Hwf Hsl Hns Hd. pose proof (blob_stores root strings rs slack Hwf Hsl) as Hst.
  exact (path_offset_exact _ _ _ _ _ Hst names Hns Hd).
Qed.

(** The reservation block round-trips: whatever list of ranges is
    encoded in it, none of them all zero, the reader gives back its first
    [max] entries, in order and unchanged. *)
Theorem reservations_roundtrip max :
  blob_wf root strings rs -> (16 <= slack)%nat -> Forall range_nonzero rs -> 0 <= max ->
  fdt_reserved_ranges (Some rd) max = Ret (take (Z.to_nat max) rs).
Proof. intros Hwf Hsl Hrs Hmax. by apply reserved_exact. Qed.

End Claims.
