(* ===== verification/FdtSearch.v ===== *)
(** The search by compatible string of lib/fdt.c on stored trees: on a tree
    of at most sixteen levels [fdt_node_by_compatible_offset] returns, after
    as many rounds as the tree has nodes, the first node in document order
    that lists the string. *)
From S2P Require Import Prelude CMem Fdt FdtSafe FdtTotal FdtTree FdtPath FdtBlob.

(** * What the search means *)

(** The value of the first property named [name]. *)
Fixpoint prop_value (names : Z -> list Z) (name : list Z) (ps : list (Z * list Z))
    : option (list Z) :=
  match ps with
  | [] => None
  | pr :: ps' => if decide (names pr.1 = name) then Some pr.2 else prop_value names name ps'
  end.

(** The terminated strings of a string-list value; [cur] is the one being
    read. *)
Fixpoint strings_of (cur v : list Z) : list (list Z) :=
  match v with
  | [] => []
  | b :: v' => if b =? 0 then cur :: strings_of [] v' else strings_of (cur ++ [b]) v'
  end.

Definition compatible_with (names : Z -> list Z) (want : list Z) (t : tree) : Prop :=
  match prop_value names str_compatible (t_props t) with
  | Some v => want ∈ strings_of [] v
  | None => False
  end.

#[export] Instance compatible_with_dec names want t : Decision (compatible_with names want t).
Proof. unfold compatible_with. destruct (prop_value _ _ _); apply _. Defined.

(** The first compatible node of [t], stored at [p], in document order. *)
Fixpoint find_compatible (names : Z -> list Z) (want : list Z) (t : tree) (p : Z) : option Z :=
  if decide (compatible_with names want t) then Some p
  else
    (fix go (ts : list tree) (q : Z) :=
       match ts with
       | [] => None
       | ch :: ts' =>
           match find_compatible names want ch q with
           | Some r => Some r
           | None => go ts' (q + blen (enc_node ch))
           end
       end) (t_children t) (p + body_len t).

Fixpoint find_compatibles (names : Z -> list Z) (want : list Z) (ts : list tree) (q : Z) : option Z :=
  match ts with
  | [] => None
  | ch :: ts' =>
      match find_compatible names want ch q with
      | Some r => Some r
      | None => find_compatibles names want ts' (q + blen (enc_node ch))
      end
  end.

Fixpoint tree_size (t : tree) : nat :=
  S ((fix go ts := match ts with [] => O | ch :: ts' => (tree_size ch + go ts')%nat end) (t_children t)).
Fixpoint forest_size (ts : list tree) : nat :=
  match ts with [] => O | ch :: ts' => (tree_size ch + forest_size ts')%nat end.

(** The number of levels. *)
Fixpoint height (t : tree) : Z :=
  1 + (fix go ts := match ts with [] => 0 | ch :: ts' => Z.max (height ch) (go ts') end) (t_children t).
Fixpoint heights (ts : list tree) : Z :=
  match ts with [] => 0 | ch :: ts' => Z.max (height ch) (heights ts') end.

Lemma find_compatible_node names want t p :
  find_compatible names want t p =
    if decide (compatible_with names want t) then Some p
    else find_compatibles names want (t_children t) (p + body_len t).
Proof.
  destruct t as [nm ps cs]. cbn [find_compatible t_children]. case_decide; [done|].
  generalize (p + body_len (Node nm ps cs)).
  induction cs as [|ch cs IH]; intros q; simpl; [done|]. by rewrite IH.
Qed.

Lemma tree_size_node t : tree_size t = S (forest_size (t_children t)).
Proof. by destruct t. Qed.

Lemma heights_nonneg ts : 0 <= heights ts.
Proof. induction ts; simpl; lia. Qed.

Lemma height_pos t : 1 <= height t.
Proof. destruct t as [? ? cs]. pose proof (heights_nonneg cs). change (1 <= 1 + heights cs). lia. Qed.

Lemma heights_pos ch cs : 1 <= heights (ch :: cs).
Proof. simpl. pose proof (height_pos ch). lia. Qed.

Lemma height_node t : height t = 1 + heights (t_children t).
Proof. by destruct t. Qed.

(** * String lists *)

Lemma strings_of_terminated s rest : forall cur,
  Forall (fun b => b <> 0) s -> strings_of cur (s ++ 0 :: rest) = (cur ++ s) :: strings_of [] rest.
Proof.
  induction s as [|b s IH]; intros cur Hs; simpl; [by rewrite app_nil_r|].
  apply Forall_cons in Hs as [Hb Hs]. destruct (Z.eqb_spec b 0); [done|].
  by rewrite IH, <- app_assoc.
Qed.

Lemma strings_of_open v : forall cur, Forall (fun b => b <> 0) v -> strings_of cur v = [].
Proof.
  induction v as [|b v IH]; intros cur Hv; [done|]. apply Forall_cons in Hv as [Hb Hv]. simpl.
  destruct (Z.eqb_spec b 0); [done|]. by apply IH.
Qed.

(** A value is a terminated string and the rest, or has no terminator. *)
Lemma split_string v :
  (exists s rest, v = s ++ 0 :: rest /\ Forall (fun b => b <> 0) s) \/ Forall (fun b => b <> 0) v.
Proof.
  induction v as [|b v [(s & rest & -> & Hs)|Hv]]; [by right|..].
  - destruct (decide (b = 0)) as [->|]; left; [by exists [], (s ++ 0 :: rest)|].
    exists (b :: s), rest. split; [done|]. by constructor.
  - destruct (decide (b = 0)) as [->|]; [left; by exists [], v|right; by constructor].
Qed.


Section Search.
Context (rd : reader) (n slack : Z) (c : ctx_t) (root : tree) (Hst : stores rd n slack c root).
#[local] Abbreviation blob := (Some rd).
Let Hc : ctx_ok c n slack := stored_ctx rd n slack c root Hst.

(** The length of the entry at [i], within the value. *)
Lemma entry_len_exact p len i s k :
  0 <= i -> i + blen s <= len -> len < 2 ^ 31 ->
  holds (base c) (p + i) s -> Forall (fun b => b <> 0) s ->
  (i + blen s < len -> base c (p + i + blen s) = Ret 0) -> (length s < k)%nat ->
  iterM k (entry_len_step (base c) p len i) 0 = Ret (blen s).
Proof.
  intros Hi Hle Hl Hh Hnz Hend Hk. unfold blen in *.
  apply (iterM_leaves _ (length s) _ _ (Z.of_nat (length s))); [| |done].
  2:{ unfold entry_len_step. rewrite u32_small by ulia. case_if; [by rewrite Hend by lia|done]. }
  assert (forall j, (j <= length s)%nat ->
    stepsM j (entry_len_step (base c) p len i) 0 = Some (Z.of_nat j)) as Hreach; [|by apply Hreach].
  induction j as [|j IH]; intros Hj; [done|]. rewrite <- Nat.add_1_r.
  apply (stepsM_app _ _ _ _ (Z.of_nat j)); [apply IH; lia|]. apply stepsM_one.
  unfold entry_len_step. destruct (lookup_lt_is_Some_2 s j) as [b Hb]; [lia|].
  rewrite u32_small by ulia. destruct (Z.ltb_spec (i + Z.of_nat j) len); [|lia].
  rewrite (Hh _ _ Hb), ret_bind. pose proof (Forall_lookup_1 _ _ _ _ Hnz Hb) as Hb0.
  destruct (Z.eqb_spec b 0); [done|]. simpl. rewrite u32_small by ulia. do 2 f_equal. lia.
Qed.

(** One round at a terminated entry. *)
Lemma compatible_step_entry p len i s want :
  0 <= i -> i + blen s < len -> len < 2 ^ 31 ->
  holds (base c) (p + i) (s ++ [0]) -> Forall (fun b => b <> 0) s -> Forall (fun b => b <> 0) want ->
  compatible_step (base c) p len want i =
    if decide (want = s) then Ret (inr true) else Ret (inl (i + blen s + 1)).
Proof.
  intros Hi Hl Hlen Hh Hs Hw. pose proof (blen_nonneg s). pose proof Hh as Hh'.
  apply holds_app in Hh' as [H1 H2]. apply holds_cons in H2 as [H2 _]. fold (blen s) in H2.
  unfold compatible_step. destruct (Z.ltb_spec i len); [|lia].
  rewrite (entry_len_exact _ _ _ s) by (done || lia || (unfold blen in *; lia)).
  rewrite ret_bind, !u32_small by ulia. destruct (Z.ltb_spec (i + blen s) len); [|lia].
  rewrite (str_eq_exact _ _ s) by done. rewrite ret_bind.
  case_decide; [subst; by rewrite bool_decide_eq_true_2|].
  rewrite bool_decide_eq_false_2 by congruence. by rewrite Z.add_assoc.
Qed.

(** The round, or the two, at an unterminated end. *)
Lemma compatible_step_open p i s want :
  0 <= i -> i + blen s < 2 ^ 31 -> holds (base c) (p + i) s -> Forall (fun b => b <> 0) s ->
  exists w, reaches (compatible_step (base c) p (i + blen s) want) i w /\
    compatible_step (base c) p (i + blen s) want w = Ret (inr false).
Proof.
  intros Hi Hl Hh Hs. pose proof (blen_nonneg s).
  destruct (Z.ltb_spec i (i + blen s)).
  - exists (i + blen s + 1). split.
    + apply reaches_one. unfold compatible_step. destruct (Z.ltb_spec i (i + blen s)); [|lia].
      rewrite (entry_len_exact _ _ _ s) by (done || lia || (unfold blen in *; lia)).
      rewrite ret_bind, !u32_small by ulia. rewrite Z.ltb_irrefl, ret_bind. by rewrite Z.add_assoc.
    + unfold compatible_step. by destruct (Z.ltb_spec (i + blen s + 1) (i + blen s)); [lia|].
  - exists i. split; [reflexivity|]. unfold compatible_step. by destruct (Z.ltb_spec i (i + blen s)); [lia|].
Qed.

Lemma compatible_walk p v want : 
  holds (base c) p v -> blen v < 2 ^ 31 -> Forall (fun b => b <> 0) want ->
  forall k rest pre, (length rest <= k)%nat -> v = pre ++ rest ->
  exists w, reaches (compatible_step (base c) p (blen v) want) (blen pre) w /\
    compatible_step (base c) p (blen v) want w = Ret (inr (bool_decide (want ∈ strings_of [] rest))).
Proof.
  intros Hh Hl Hw. induction k as [k IH] using lt_wf_ind. intros rest pre Hk Heq.
  pose proof (blen_nonneg pre). assert (blen v = blen pre + blen rest) as Hlen by (by rewrite Heq, blen_app).
  assert (holds (base c) (p + blen pre) rest) as Hr by (rewrite Heq in Hh; by apply holds_app in Hh as [_ ?]).
  destruct (split_string rest) as [(s & rest' & -> & Hs)|Hopen].
  - rewrite strings_of_terminated by done. simpl app.
    replace (s ++ 0 :: rest') with ((s ++ [0]) ++ rest') in * by (by rewrite <- app_assoc).
    rewrite holds_app in Hr. destruct Hr as [Hr _]. rewrite !blen_app in Hlen.
    change (blen [0]) with 1 in Hlen. pose proof (blen_nonneg rest').
    pose proof (compatible_step_entry p (blen v) (blen pre) s want ltac:(lia) ltac:(lia) Hl Hr Hs Hw)
      as Hstep. case_decide as Hd.
    + exists (blen pre). split; [reflexivity|]. rewrite Hstep. subst.
      by rewrite bool_decide_eq_true_2 by left.
    + destruct (IH (length rest')) with (rest := rest') (pre := pre ++ s ++ [0]) as (w & Hrw & Hw');
        [rewrite !length_app in Hk; simpl in Hk; lia|lia|by rewrite Heq, <- !app_assoc|].
      rewrite !blen_app, Z.add_assoc in Hrw. exists w. split; [by eapply reaches_step|]. rewrite Hw'.
      do 2 f_equal. apply bool_decide_ext. rewrite elem_of_cons. naive_solver.
  - rewrite strings_of_open by done. rewrite Hlen in *. by apply compatible_step_open; [|lia|..].
Qed.

(** [compatible_match] is membership in the string list. *)
Lemma compatible_match_exact p v want :
  holds (base c) p v -> blen v < 2 ^ 31 -> Forall (fun b => b <> 0) want ->
  value_in c p (blen v) ->
  compatible_match (base c) p (blen v) want = Ret (bool_decide (want ∈ strings_of [] v)).
Proof.
  intros Hh Hl Hw Hin. pose proof Hst as [Hb _ Hi _].
  destruct (compatible_walk p v want Hh Hl Hw (length v) v [] ltac:(lia) eq_refl) as (w & Hr & Hw').
  eapply reaches_ret; [by eapply wp_compatible_match|exact Hr|exact Hw'].
Qed.

(** * Properties of stored nodes *)

(** Every property name of the tree is in the strings block. *)
Definition named (names : Z -> list Z) (u : tree) : Prop :=
  Forall (fun pr => name_string c pr.1 (names pr.1)) (t_props u).

(** Where the value of a looked-up property is stored. *)
Lemma prop_lookup_value names name ps q :
  holds (base c) q (enc_props ps) ->
  match prop_value names name ps with
  | Some val => exists v, prop_lookup names name ps q = Some (v, blen val) /\ holds (base c) v val /\
      q <= v /\ v + blen val <= q + blen (enc_props ps)
  | None => prop_lookup names name ps q = None
  end.
Proof.
  revert q. induction ps as [|pr ps IH]; intros q Hh; simpl; [done|].
  rewrite enc_props_cons in *. rewrite blen_app. apply holds_app in Hh as [H1 H2]. fold (blen (enc_prop pr)) in H2.
  pose proof (blen_nonneg (enc_props ps)).
  assert (blen (enc_prop pr) = 12 + blen (pad4 pr.2)) as Hlen
    by (unfold enc_prop; rewrite !blen_app, !blen_be4; lia).
  case_decide.
  - exists (q + 12). split; [done|]. pose proof (blen_pad4_ge pr.2). split; [|lia].
    unfold enc_prop in H1. rewrite !holds_app in H1. destruct H1 as (_ & _ & _ & H1).
    rewrite !length_be_bytes in H1. unfold pad4 in H1. apply holds_app in H1 as [H1 _].
    replace (q + 12) with (q + Z.of_nat 4 + Z.of_nat 4 + Z.of_nat 4) by lia. exact H1.
  - specialize (IH _ H2). destruct (prop_value names name ps); [|done].
    destruct IH as (v & ? & ? & ? & ?). pose proof (blen_nonneg (pad4 pr.2)).
    exists v. repeat split; (done || lia).
Qed.

(** [fdt_getprop] on a stored node, with the value's bytes. *)
Lemma getprop_value q u anc names name :
  located root (c_s c) q u anc -> named names u -> Forall (fun x => x <> 0) name ->
  (length name <= 16)%nat ->
  match prop_value names name (t_props u) with
  | Some val => exists v, fdt_getprop blob q name = Ret (Some (v, blen val)) /\
      holds (base c) v val /\ value_in c v (blen val) /\ blen val < 2 ^ 31
  | None => fdt_getprop blob q name = Ret None
  end.
Proof.
  intros Hl Hn Hname Hlen. pose proof (stored_at rd n slack c root Hst _ _ _ Hl) as Hat.
  pose proof Hst as [_ Hsl _ _].
  pose proof (getprop_exact rd n slack c root Hst q u anc names name Hl Hname Hn ltac:(lia)) as Hg.
  destruct (at_node_props c q u Hat) as (Hh & _ & Hlo & Hhi & _).
  pose proof (prop_lookup_value names name (t_props u) _ Hh) as Hv.
  destruct (prop_value names name (t_props u)) as [val|]; [|by rewrite Hg, Hv].
  destruct Hv as (v & Hv & Hhv & Hv1 & Hv2). rewrite Hg, Hv. exists v.
  pose proof (blen_nonneg val). destruct Hc as [_ Hcs _ Hi _ _ _]. unfold value_in.
  repeat split; (done || ulia).
Qed.

(** * The depth-first scan *)

(** The search's stack holds the node it is at and its ancestors. *)
Fixpoint on_stack (st : list Z) (path : list Z) : Prop :=
  match path with
  | [] => True
  | p :: up => st !! length up = Some p /\ on_stack st up
  end.

Definition stack_ok (st : list Z) (path : list Z) : Prop :=
  length st = Z.to_nat FDT_MAX_DEPTH /\ on_stack st path.

Lemma on_stack_above st path k x : (length path <= k)%nat -> on_stack st path -> on_stack (<[k := x]> st) path.
Proof.
  induction path as [|p up IH]; [done|]. simpl. intros Hk [H1 H2].
  split; [rewrite list_lookup_insert_ne by lia; done|]. apply IH; [lia|done].
Qed.

Lemma search_stack_push st path q :
  (length path < Z.to_nat FDT_MAX_DEPTH)%nat -> stack_ok st path ->
  stack_ok (<[length path := q]> st) (q :: path).
Proof.
  intros Hl [Hlen Hst']. split; [by rewrite length_insert|]. simpl.
  split; [apply list_lookup_insert_eq; lia|]. by apply on_stack_above.
Qed.

Lemma stack_ok_pop st q path : stack_ok st (q :: path) -> stack_ok st path.
Proof. intros [H1 [_ H2]]. by split. Qed.

Lemma stack_get_top st q path d :
  stack_ok st (q :: path) -> d = Z.of_nat (length path) -> stack_get st d = Ret q.
Proof. intros [_ [H _]] ->. unfold stack_get. by rewrite Nat2Z.id, H. Qed.

(** What a round does at a node with no children left below it. *)
Definition climbed (v : Z * list Z) : outcome (Z * list Z + Z) :=
  r ← iterM (S (Z.to_nat FDT_MAX_DEPTH)) (climb_step blob) v;
  match r with None => Ret (inr FDT_ERR_NODE) | Some v' => Ret (inl v') end.

(** Each step of the climb goes up one level. *)
Lemma climb_depth k v v' : stepsM k (climb_step blob) v = Some v' -> v'.1 = v.1 - Z.of_nat k.
Proof.
  revert v. induction k as [|k IH]; intros v H; simpl in H; [simplify_eq; lia|].
  destruct v as [d st]. destruct (climb_step blob (d, st)) as [[v1|]| | |] eqn:E; simplify_eq/=.
  apply IH in H. assert (v1.1 = d - 1); [|lia]. revert E. unfold climb_step.
  destruct (d =? 0); [done|]. destruct (stack_get st (d - 1)) as [x| | |]; [|done..]. rewrite ret_bind.
  destruct (stack_get st d) as [y| | |]; [|done..]. rewrite ret_bind.
  destruct (fdt_next_sibling blob x y) as [z| | |]; [|done..]. rewrite ret_bind.
  case_if; intros; by simplify_eq.
Qed.

Lemma climbed_to w v r :
  reaches (climb_step blob) w v -> w.1 < FDT_MAX_DEPTH -> 0 <= v.1 ->
  climb_step blob v = Ret (inr r) ->
  climbed w = match r with None => Ret (inr FDT_ERR_NODE) | Some v' => Ret (inl v') end.
Proof.
  intros [k Hk] Hw Hv Hr. unfold climbed. pose proof (climb_depth _ _ _ Hk).
  rewrite (iterM_leaves _ k _ _ _ _ Hk Hr) by (unfold FDT_MAX_DEPTH in *; lia). done.
Qed.

Section Names.
Context (names : Z -> list Z) (want : list Z).
Context (Hnames : forall q u anc, located root (c_s c) q u anc -> named names u).
Context (Hwant : Forall (fun b => b <> 0) want).
#[local] Abbreviation scan := (compatible_scan blob c want).

(** The round at a stored node, up to the test of its children. *)
Lemma scan_node q u anc st :
  located root (c_s c) q u anc -> stack_ok st (q :: anc) ->
  scan (Z.of_nat (length anc), st) =
    if decide (compatible_with names want u) then Ret (inr q)
    else match t_children u with
         | [] => climbed (Z.of_nat (length anc), st)
         | _ =>
             if FDT_MAX_DEPTH <=? Z.of_nat (length anc) + 1 then
               sib ← fdt_next_sibling blob q (q + body_len u);
               _ ← iterM (walk_fuel c) (drain_step blob q) sib;
               if Z.of_nat (length anc) =? 0 then Ret (inr FDT_ERR_NODE)
               else Ret (inl (Z.of_nat (length anc) - 1, st))
             else Ret (inl (Z.of_nat (length anc) + 1,
                            <[S (length anc) := q + body_len u]> st))
         end.
Proof.
  intros Hl Hs. pose proof (stored_at rd n slack c root Hst _ _ _ Hl) as [Hlo Hhi _ _].
  pose proof Hc as [_ Hcs _ _ _ _ _]. pose proof (body_len_pos u).
  unfold compatible_scan. rewrite (stack_get_top _ _ _ _ Hs eq_refl), ret_bind.
  pose proof (getprop_value q u anc names str_compatible Hl (Hnames _ _ _ Hl) ltac:(by_compute)
    ltac:(by_compute)) as Hg.
  rewrite (first_child_exact rd n slack c root Hst q u anc Hl). unfold first_child_of.
  assert (exists b, (op ← fdt_getprop blob q str_compatible;
      match op with Some (cp, len) => compatible_match (base c) cp len want | None => Ret false end)
      = Ret b /\ (b = true <-> compatible_with names want u)) as (b & Hb & Hbd).
  { unfold compatible_with. destruct (prop_value _ _ _) as [val|].
    - destruct Hg as (v & -> & Hh & Hv & Hlen). rewrite ret_bind.
      rewrite compatible_match_exact by done. eexists. split; [done|]. apply bool_decide_eq_true.
    - rewrite Hg. by exists false. }
  apply bind_ret_inv in Hb as (op & -> & Hb). rewrite ret_bind, Hb, ret_bind.
  destruct b; case_decide as Hd; [done|naive_solver|naive_solver|].
  rewrite ret_bind. destruct (t_children u) as [|ch cs]; [done|].
  destruct (Z.eqb_spec (q + body_len u) FDT_ERR_NODE); [unfold FDT_ERR_NODE in *; lia|]. simpl negb.
  cbv iota. by replace (Z.to_nat (Z.of_nat (length anc) + 1)) with (S (length anc)) by lia.
Qed.

(** ** The induction over the tree *)

(** From the node on top of the stack, within [size] rounds, the scan either
    finds [r] or is about to climb from it, with its ancestors [path] on the
    stack as they were. *)
Definition scanned (d : Z) (st : list Z) (path : list Z) (size : nat) (r : option Z) : Prop :=
  exists k v, (k < size)%nat /\ stepsM k scan (d, st) = Some v /\
    match r with
    | Some q => scan v = Ret (inr q)
    | None => exists w st', scan v = climbed w /\ w.1 < FDT_MAX_DEPTH /\
        reaches (climb_step blob) w (Z.of_nat (length path) - 1, st') /\ stack_ok st' path
    end.

Lemma scanned_later d st d' st' path k size size' r :
  stepsM k scan (d, st) = Some (d', st') -> scanned d' st' path size r -> (k + size <= size')%nat ->
  scanned d st path size' r.
Proof.
  intros Hk (k' & v & Hlt & Hv & Hr) Hle. exists (k + k')%nat, v.
  split; [lia|]. split; [by eapply stepsM_app|done].
Qed.

Definition scans_tree (t : tree) : Prop := forall p anc st,
  located root (c_s c) p t anc -> Z.of_nat (length anc) + height t <= FDT_MAX_DEPTH ->
  stack_ok st (p :: anc) ->
  scanned (Z.of_nat (length anc)) st (p :: anc) (tree_size t) (find_compatible names want t p).

(** The climb at a finished child: on to its sibling, or up to its parent. *)
Lemma climb_child p t anc pre ch q post st :
  located root (c_s c) p t anc -> Z.of_nat (length anc) + 1 < FDT_MAX_DEPTH ->
  placed (t_children t) (p + body_len t) pre ch q post -> stack_ok st (q :: p :: anc) ->
  climb_step blob (Z.of_nat (length anc) + 1, st) =
    match post with
    | [] => Ret (inl (Z.of_nat (length anc), st))
    | _ => Ret (inr (Some (Z.of_nat (length anc) + 1,
             <[S (length anc) := q + blen (enc_node ch)]> st)))
    end.
Proof.
  intros Hl Hd Hpl Hs. pose proof Hc as [_ Hcs _ _ _ _ _].
  pose proof (located_child _ _ _ _ _ _ _ _ _ Hl Hpl) as Hlc.
  pose proof (stored_at rd n slack c root Hst _ _ _ Hlc) as [Hlo _ _ _].
  unfold climb_step. destruct (Z.eqb_spec (Z.of_nat (length anc) + 1) 0); [lia|].
  rewrite Z.add_simpl_r, (stack_get_top _ _ _ _ (stack_ok_pop _ _ _ Hs) eq_refl), ret_bind.
  rewrite (stack_get_top _ _ _ _ Hs) by (simpl; lia).
  rewrite ret_bind, (next_sibling_exact rd n slack c root Hst p t anc pre ch q post Hl ltac:(lia) Hpl).
  rewrite ret_bind. unfold next_sibling_of. destruct post as [|s ss]; [done|].
  pose proof (blen_node_pos ch).
  destruct (Z.eqb_spec (q + blen (enc_node ch)) FDT_ERR_NODE); [unfold FDT_ERR_NODE in *; lia|].
  by replace (Z.to_nat (Z.of_nat (length anc) + 1)) with (S (length anc)) by lia.
Qed.

(** The children of the node at [p], from [ts] on, the first of which is on
    top of the stack. *)
Lemma scan_children p t anc ts : forall pre st,
  located root (c_s c) p t anc -> t_children t = pre ++ ts -> ts <> [] -> Forall scans_tree ts ->
  Z.of_nat (length anc) + 1 + heights ts <= FDT_MAX_DEPTH ->
  let q := p + body_len t + blen (enc_nodes pre) in
  stack_ok st (q :: p :: anc) ->
  scanned (Z.of_nat (length anc) + 1) st (p :: anc) (forest_size ts) (find_compatibles names want ts q).
Proof.
  induction ts as [|ch ts IH]; intros pre st Hl Hcs Hne Hts Hh q Hs; [done|].
  apply Forall_cons in Hts as [Hch Hts]. simpl heights in Hh. simpl forest_size. simpl find_compatibles.
  assert (placed (t_children t) (p + body_len t) pre ch q ts) as Hpl
    by (rewrite Hcs; apply placed_split).
  pose proof (located_child _ _ _ _ _ _ _ _ _ Hl Hpl) as Hlc.
  assert (Z.of_nat (length (p :: anc)) = Z.of_nat (length anc) + 1) as Hd by (simpl; lia).
  destruct (Hch q (p :: anc) st Hlc ltac:(lia) Hs) as (k & v & Hk & Hv & Hr). rewrite Hd in *.
  destruct (find_compatible names want ch q) as [r|].
  - exists k, v. split; [lia|done].
  - destruct Hr as (w & st' & Hw & Hwd & Hclimb & Hs'). simpl length in Hclimb.
    replace (Z.of_nat (S (S (length anc))) - 1) with (Z.of_nat (length anc) + 1) in Hclimb by lia.
    pose proof (height_pos ch).
    pose proof (climb_child p t anc pre ch q ts st' Hl ltac:(lia) Hpl Hs') as Hstep.
    destruct ts as [|s ss].
    + exists k, v. split; [lia|]. split; [done|]. exists w, st'. split; [done|]. split; [done|].
      split; [|by eapply stack_ok_pop]. etransitivity; [exact Hclimb|]. apply reaches_one.
      rewrite Hstep. do 3 f_equal. simpl. lia.
    + assert (q + blen (enc_node ch) = p + body_len t + blen (enc_nodes (pre ++ [ch]))) as Hq.
      { unfold q. rewrite blen_nodes_app, blen_nodes_cons. change (blen (enc_nodes [])) with 0. lia. }
      pose proof (climbed_to w _ _ Hclimb Hwd ltac:(simpl; lia) Hstep) as Hcl. rewrite <- Hw in Hcl.
      rewrite Hq in *. eapply scanned_later; [| |].
      * eapply stepsM_app; [exact Hv|]. apply stepsM_one. exact Hcl.
      * apply IH; [done|by rewrite <- app_assoc|done|done|lia|].
        apply (search_stack_push st' (p :: anc)); [simpl; unfold FDT_MAX_DEPTH in *; lia|].
        by eapply stack_ok_pop.
      * lia.
Qed.

Lemma scan_tree t : scans_tree t.
Proof.
  induction t as [nm ps cs IH] using tree_induction. intros p anc st Hl Hh Hs.
  set (t := Node nm ps cs) in *. rewrite find_compatible_node, tree_size_node.
  pose proof (scan_node p t anc st Hl Hs) as Hstep. rewrite height_node in Hh.
  case_decide.
  - exists 0%nat, (Z.of_nat (length anc), st). split; [lia|]. by split.
  - change (t_children t) with cs in *. destruct cs as [|ch cs].
    + exists 0%nat, (Z.of_nat (length anc), st). split; [lia|]. split; [done|]. simpl.
      exists (Z.of_nat (length anc), st), st. split; [done|]. split; [simpl in *; lia|].
      split; [|done]. replace (Z.of_nat (S (length anc)) - 1) with (Z.of_nat (length anc)) by lia.
      reflexivity.
    + pose proof (heights_pos ch cs).
      destruct (Z.leb_spec FDT_MAX_DEPTH (Z.of_nat (length anc) + 1)); [lia|].
      eapply (scanned_later _ _ _ _ _ 1 (forest_size (ch :: cs)));
        [apply stepsM_one; exact Hstep| |lia].
      pose proof (scan_children p t anc (ch :: cs) []) as Hch.
      change (blen (enc_nodes [])) with 0 in Hch. rewrite Z.add_0_r in Hch.
      apply Hch; [done|done|done|done|lia|].
      apply (search_stack_push st (p :: anc)); [simpl; unfold FDT_MAX_DEPTH in *; lia|done].
Qed.

(** The search on the stored tree. *)
Lemma node_by_compatible_exact fuel :
  height root <= FDT_MAX_DEPTH -> (tree_size root <= fuel)%nat ->
  fdt_node_by_compatible_offset fuel blob want =
    Ret (default FDT_ERR_NODE (find_compatible names want root (c_s c))).
Proof.
  intros Hh Hf. pose proof Hst as [Hb Hsl Hi Hr]. pose proof Hc as [_ Hs _ Hint _ _ _].
  destruct (at_node_token c n slack Hc _ _ Hr) as (Hok & _).
  pose proof (at_node_parts c _ _ Hr) as (Htok & _).
  unfold fdt_node_by_compatible_offset. rewrite Hi, ret_bind, Hok. simpl negb. cbv iota.
  rewrite Htok, ret_bind, Z.eqb_refl. simpl negb. cbv iota.
  erewrite off_of_exact by lia. set (st := <[_ := _]> FDT_STACK0).
  assert (stack_ok st [c_s c]) as Hsk by (apply (search_stack_push FDT_STACK0 []); [by_compute|by split]).
  destruct (scan_tree root (c_s c) [] st (located_here _ _) ltac:(simpl; lia) Hsk)
    as (k & v & Hk & Hv & Hr').
  destruct (find_compatible names want root (c_s c)) as [q|]; simpl.
  - eapply iterM_leaves; [exact Hv|exact Hr'|lia].
  - destruct Hr' as (w & st' & Hw & Hwd & Hclimb & _).
    rewrite (climbed_to w _ None Hclimb Hwd) in Hw by done.
    eapply iterM_leaves; [exact Hv|exact Hw|lia].
Qed.

End Names.
End Search.

(** * Whole blobs *)

(** All properties of a tree. *)
Fixpoint tree_props (t : tree) : list (Z * list Z) :=
  t_props t ++ (fix go ts := match ts with [] => [] | ch :: ts' => tree_props ch ++ go ts' end) (t_children t).

Lemma tree_props_node t : tree_props t = t_props t ++ concat (map tree_props (t_children t)).
Proof. destruct t as [nm ps cs]. simpl. f_equal. induction cs; simpl; congruence. Qed.

Lemma located_props t p q u anc : located t p q u anc -> t_props u ⊆ tree_props t.
Proof.
  induction 1 as [t p|t p pre ch q0 post q u anc Hpl _ IH]; rewrite tree_props_node.
  - intros x Hx. apply elem_of_app. by left.
  - intros x Hx. apply elem_of_app. right. apply placed_eq in Hpl as [-> _].
    rewrite map_app, concat_app. apply elem_of_app. right. simpl. apply elem_of_app. left. by apply IH.
Qed.

(** The names [names] of every property are what the strings block says. *)
Definition tree_named (strings : list Z) (names : Z -> list Z) (t : tree) : Prop :=
  Forall (fun pr => string_at strings pr.1 (names pr.1)) (tree_props t).

Lemma tree_named_image root strings rs rd pad names q u anc :
  holds rd 0 (enc_blob root strings rs ++ pad) -> tree_named strings names root ->
  located root (40 + rsv_len rs) q u anc -> named (image_ctx root strings rs rd) names u.
Proof.
  intros Hrd Hn Hl. apply located_props in Hl. apply Forall_forall. intros pr Hpr.
  eapply string_at_image; [exact Hrd|]. unfold tree_named in Hn. rewrite Forall_forall in Hn. by apply Hn, Hl.
Qed.

Lemma tree_named_located root strings rs slack names q u anc :
  tree_named strings names root -> located root (40 + rsv_len rs) q u anc ->
  named (blob_ctx root strings rs slack) names u.
Proof. apply (tree_named_image _ _ _ _ (replicate slack 0)), blob_holds. Qed.

(** C20. The search by compatible string finds, in the blob of any tree of at
    most sixteen levels, the first node in document order whose
    [compatible] property lists the string among its terminated entries, and
    the error value when there is none; it ends after as many rounds as the
    tree has nodes. *)
Theorem device_tree_search root strings rs slack names want fuel :
  blob_wf root strings rs -> (16 <= slack)%nat -> tree_named strings names root ->
  Forall (fun b => b <> 0) want -> height root <= FDT_MAX_DEPTH -> (tree_size root <= fuel)%nat ->
  fdt_node_by_compatible_offset fuel (Some (blob_mem root strings rs slack)) want =
    Ret (default FDT_ERR_NODE (find_compatible names want root (40 + rsv_len rs))).
Proof.
  intros Hwf Hsl Hn Hw Hh Hf. pose proof (blob_stores root strings rs slack Hwf Hsl) as Hst.
  apply (node_by_compatible_exact _ _ _ _ _ Hst names want); try done.
  intros q u anc. by apply tree_named_located.
Qed.
