(* ===== verification/FdtReg.v ===== *)
(** Cell counts, memory banks and register addresses of lib/fdt.c on stored
    trees: what [fdt_parent_cells], [fdt_memory_ranges] and
    [fdt_reg_to_cpu_addr] compute, as functions of the tree. *)
From S2P Require Import Prelude CMem Fdt FdtSafe FdtTotal FdtTree FdtPath FdtBlob FdtSearch.

(** * Meaning *)

(** A cell-count property of a node: the first four bytes of its value. *)
Definition cells_prop (names : Z -> list Z) (name : list Z) (t : tree) : option Z :=
  match prop_value names name (t_props t) with
  | Some v => if blen v <? 4 then None else Some (be_val (take 4 v))
  | None => None
  end.

(** The count the nearest of a node's ancestors declares, nearest first. *)
Fixpoint inherited (names : Z -> list Z) (name : list Z) (up : list tree) : option Z :=
  match up with
  | [] => None
  | t :: up' =>
      match cells_prop names name t with Some x => Some x | None => inherited names name up' end
  end.

(** The address and size cells of a node's [reg], below the ancestors [up]. *)
Definition reg_cells (names : Z -> list Z) (up : list tree) : Z * Z :=
  (default 2 (inherited names str_address_cells up), default 2 (inherited names str_size_cells up)).

(** The number in [cells] cells at [off]: the kernel reads one cell, or the
    first two. *)
Definition cells_at (v : list Z) (off cells : Z) : Z :=
  be_val (take (if decide (cells = 1) then 4 else 8) (drop (Z.to_nat off) v)).

(** Entry [i] of a [reg] value. *)
Definition reg_entry (v : list Z) (ac sc i : Z) : fdt_range_t :=
  let e := i * ((ac + sc) * 4) in
  {| r_base := cells_at v e ac; r_size := if decide (sc = 0) then 0 else cells_at v (e + ac * 4) sc |}.

Definition reg_count (v : list Z) (ac sc : Z) : nat := Z.to_nat (blen v / ((ac + sc) * 4)).

Definition reg_entries (v : list Z) (ac sc : Z) : list fdt_range_t :=
  (fun i => reg_entry v ac sc (Z.of_nat i)) <$> seq 0 (reg_count v ac sc).

(** "memory", or "memory@" and anything. *)
Definition is_memory (nm : list Z) : Prop :=
  nm = str_memory \/ take 7 nm = str_memory ++ [CHAR_AT].

#[export] Instance is_memory_dec nm : Decision (is_memory nm).
Proof. unfold is_memory. apply _. Defined.

(** The memory banks a child of the root [t] describes. *)
Definition banks_of (names : Z -> list Z) (t ch : tree) : list fdt_range_t :=
  let '(ac, sc) := reg_cells names [t] in
  if decide (is_memory (t_name ch)) then
    match prop_value names str_reg (t_props ch) with
    | Some v => if decide (ac = 0) then [] else reg_entries v ac sc
    | None => []
    end
  else [].

Definition memory_banks (names : Z -> list Z) (t : tree) : list fdt_range_t :=
  concat (map (banks_of names t) (t_children t)).

(** ** Status *)

Definition str_okay : list Z := [111; 107; 97; 121].
Definition str_ok : list Z := [111; 107].

(** A node is enabled unless its [status] says otherwise: "okay" and more
    bytes, or "ok" terminated or followed by exactly one byte. *)
Definition enabled (names : Z -> list Z) (t : tree) : Prop :=
  match prop_value names str_status (t_props t) with
  | None | Some [] => True
  | Some v =>
      5 <= blen v /\ take 4 v = str_okay \/
      3 <= blen v /\ take 2 v = str_ok /\ (v !! 2%nat = Some 0 \/ blen v = 3)
  end.

#[export] Instance enabled_dec names t : Decision (enabled names t).
Proof. unfold enabled. destruct (prop_value _ _ _) as [[|b v]|]; apply _. Defined.

(** ** Translation *)

(** One window of a bus's [ranges], of [own_ac] + [ra] + [rs] cells. *)
Definition window (v : list Z) (own_ac ra rs addr i : Z) : option Z :=
  let e := i * ((own_ac + ra + rs) * 4) in
  let cbase := cells_at v e own_ac in
  let pbase := cells_at v (e + own_ac * 4) ra in
  let rsize := cells_at v (e + (own_ac + ra) * 4) rs in
  if decide (cbase <= addr < u64 (cbase + rsize)) then Some (u64 (pbase + u64 (addr - cbase))) else None.

(** The first window that contains the address. *)
Fixpoint first_window (v : list Z) (own_ac ra rs addr : Z) (n : nat) (i : Z) : option Z :=
  match n with
  | O => None
  | S n' =>
      match window v own_ac ra rs addr i with
      | Some a => Some a
      | None => first_window v own_ac ra rs addr n' (i + 1)
      end
  end.

Definition nonzero_or (d x : Z) : Z := if decide (x = 0) then d else x.

(** An address on the bus [t] as its parents see it: [None] when no window
    of its [ranges] contains it. *)
Definition through (names : Z -> list Z) (t : tree) (up : list tree) (v : list Z) (addr : Z) : option Z :=
  let own_ac := nonzero_or 2 (default 2 (cells_prop names str_address_cells t)) in
  let rs := nonzero_or 2 (default 2 (cells_prop names str_size_cells t)) in
  let ra := nonzero_or 2 (reg_cells names up).1 in
  first_window v own_ac ra rs addr (Z.to_nat (blen v / ((own_ac + ra + rs) * 4))) 0.

(** An address below [t], whose ancestors are [up], as the processor sees
    it. *)
Fixpoint to_cpu (names : Z -> list Z) (t : tree) (up : list tree) (addr : Z) : option Z :=
  match up with
  | [] => Some addr
  | t' :: up' =>
      match prop_value names str_ranges (t_props t) with
      | None | Some [] => to_cpu names t' up' addr
      | Some v =>
          match through names t up v addr with
          | Some a => to_cpu names t' up' a
          | None => None
          end
      end
  end.

(** Entry [i] of the node's registers, as the processor sees it. *)
Definition cpu_range (names : Z -> list Z) (t : tree) (up : list tree) (i : Z) : option fdt_range_t :=
  let '(ac, sc) := reg_cells names up in
  match prop_value names str_reg (t_props t) with
  | None => None
  | Some v =>
      if decide (ac = 0 \/ blen v < (i + 1) * ((ac + sc) * 4)) then None
      else
        let r := reg_entry v ac sc i in
        match to_cpu names t up (r_base r) with
        | Some a => Some {| r_base := a; r_size := r_size r |}
        | None => None
        end
  end.

(** * Ancestors *)

(** [route t p q u up]: the node [u] is at [q] in the tree [t] stored at
    [p], below the nodes [up], nearest first. *)
Inductive route : tree -> Z -> Z -> tree -> list (Z * tree) -> Prop :=
| route_here t p : route t p p t []
| route_below t p pre ch q0 post q u up :
    placed (t_children t) (p + body_len t) pre ch q0 post ->
    route ch q0 q u up ->
    route t p q u (up ++ [(p, t)]).

Lemma route_located t p q u up : route t p q u up -> located t p q u up.*1.
Proof. induction 1; [constructor|]. rewrite fmap_app. simpl. econstructor; eauto. Qed.

(** The nearest ancestor, with its own. *)
Lemma route_up t p q u q' u' up : route t p q u ((q', u') :: up) -> route t p q' u' up.
Proof.
  intros H. remember ((q', u') :: up) as l eqn:El. revert up El.
  induction H as [|t p pre ch q0 post q u up0 Hpl Hr IH]; intros up El; [done|].
  destruct up0 as [|[q1 u1] up1]; simplify_eq/=.
  - constructor.
  - econstructor; [exact Hpl|]. by apply IH.
Qed.

Lemma route_deep t p q u up : route t p q u up -> p + Z.of_nat (length up) <= q.
Proof.
  induction 1 as [|t p pre ch q0 post q u up Hpl _ IH]; simpl; [lia|].
  rewrite length_app. simpl. apply placed_range in Hpl. pose proof (body_len_pos t). lia.
Qed.

Lemma le_val_app a b : le_val (a ++ b) = le_val a + 2 ^ (8 * Z.of_nat (length a)) * le_val b.
Proof.
  induction a as [|x a IH]; cbn [app le_val length]; [rewrite Z.mul_0_r; lia|]. rewrite IH.
  replace (8 * Z.of_nat (S (length a))) with (8 + 8 * Z.of_nat (length a)) by lia.
  rewrite Z.pow_add_r by lia. change (2 ^ 8) with 256. lia.
Qed.

Lemma be_val_app a b : be_val (a ++ b) = be_val a * 2 ^ (8 * Z.of_nat (length b)) + be_val b.
Proof. unfold be_val. rewrite rev_app_distr, le_val_app, length_rev. lia. Qed.

Lemma take_take_app {A} k (a b : list A) : take k (take k a ++ b) = take k (a ++ b).
Proof.
  rewrite !take_app, length_take, take_take, Nat.min_id. f_equal.
  destruct (decide (k <= length a)%nat); [|by rewrite Nat.min_r by lia].
  rewrite Nat.min_l by lia. by rewrite Nat.sub_diag, (proj2 (Nat.sub_0_le _ _)) by lia.
Qed.

Section Reg.
Context (rd : reader) (n slack : Z) (c : ctx_t) (root : tree) (Hst : stores rd n slack c root).
Context (names : Z -> list Z).
Context (Hnames : forall q u anc, located root (c_s c) q u anc -> named c names u).
#[local] Abbreviation blob := (Some rd).
Let Hc : ctx_ok c n slack := stored_ctx rd n slack c root Hst.

Lemma route_getprop q u up name :
  route root (c_s c) q u up -> Forall (fun x => x <> 0) name -> (length name <= 16)%nat ->
  match prop_value names name (t_props u) with
  | Some val => exists v, fdt_getprop blob q name = Ret (Some (v, blen val)) /\
      holds (base c) v val /\ value_in c v (blen val) /\ blen val < 2 ^ 31
  | None => fdt_getprop blob q name = Ret None
  end.
Proof. intros Hr. apply route_located in Hr. by eapply getprop_value; eauto. Qed.

(** Big-endian loads from stored bytes. *)
Lemma rd_be32_val p v : holds (base c) p v -> 4 <= blen v -> bytes_ok v ->
  rd_be32 (base c) p = Ret (be_val (take 4 v)).
Proof.
  intros Hh Hl Hok. unfold blen in Hl. destruct v as [|b0 [|b1 [|b2 [|b3 v]]]]; simpl in Hl; try lia.
  rewrite !holds_cons in Hh. destruct Hh as (H0 & H1 & H2 & H3 & _).
  unfold bytes_ok in Hok. rewrite !Forall_cons in Hok. destruct Hok as (_ & ? & ? & ? & _).
  unfold rd_be32. replace (p + 2) with (p + 1 + 1) by lia. replace (p + 3) with (p + 1 + 1 + 1) by lia.
  rewrite H0, ret_bind, H1, ret_bind, H2, ret_bind, H3, ret_bind. by rewrite be32_shifts.
Qed.

Lemma rd_be64_val p v : holds (base c) p v -> 8 <= blen v -> bytes_ok v ->
  rd_be64 (base c) p = Ret (be_val (take 8 v)).
Proof.
  intros Hh Hl Hok. unfold rd_be64.
  pose proof Hh as Hh'. rewrite <- (take_drop 4 v) in Hh'. apply holds_app in Hh' as [_ Hh2].
  unfold blen in Hl. rewrite length_take, Nat.min_l in Hh2 by lia. change (Z.of_nat 4) with 4 in Hh2.
  rewrite (rd_be32_val p v) by (done || (unfold blen; lia)). rewrite ret_bind.
  rewrite (rd_be32_val (p + 4) (drop 4 v)) by
    (done || (unfold blen; rewrite length_drop; lia) || by apply Forall_drop).
  rewrite ret_bind. f_equal.
  replace (take 8 v) with (take 4 v ++ take 4 (drop 4 v)) by (by rewrite take_take_drop).
  assert (bytes_ok (take 4 (drop 4 v))) as H2 by (by apply Forall_take, Forall_drop).
  apply be_val_range in H2. rewrite length_take, length_drop, Nat.min_l in H2 by lia.
  change (8 * Z.of_nat 4) with 32 in H2. rewrite lor_shiftl by lia.
  rewrite be_val_app, length_take, length_drop, Nat.min_l by lia.
  change (8 * Z.of_nat 4) with 32. done.
Qed.

Lemma rd_cells_val p v off cells :
  holds (base c) p v -> bytes_ok v -> 0 <= off -> 1 <= cells -> off + cells * 4 <= blen v ->
  rd_cells (base c) (p + off) cells = Ret (cells_at v off cells) /\ is_u64 (cells_at v off cells).
Proof.
  intros Hh Hok Ho Hce Hl. unfold rd_cells, cells_at.
  assert (holds (base c) (p + off) (drop (Z.to_nat off) v)) as Hd.
  { rewrite <- (take_drop (Z.to_nat off) v) in Hh. apply holds_app in Hh as [_ Hh].
    unfold blen in Hl. rewrite length_take, Nat.min_l in Hh by lia. by rewrite Z2Nat.id in Hh. }
  assert (bytes_ok (drop (Z.to_nat off) v)) as Hok' by by apply Forall_drop.
  assert (blen (drop (Z.to_nat off) v) = blen v - off) as Hl'
    by (unfold blen in *; rewrite length_drop; lia).
  assert (forall k, (k <= 8)%nat -> is_u64 (be_val (take k (drop (Z.to_nat off) v)))) as Hu.
  { intros k Hk. pose proof (be_val_range (take k (drop (Z.to_nat off) v))
      ltac:(by apply Forall_take)) as Hr. unfold is_u64.
    assert (length (take k (drop (Z.to_nat off) v)) <= 8)%nat by (rewrite length_take; lia).
    pose proof (Z.pow_le_mono_r 2 (8 * Z.of_nat (length (take k (drop (Z.to_nat off) v)))) 64). lia. }
  case_if; case_decide; try lia; (split; [|apply Hu; lia]).
  - by apply rd_be32_val; [|lia|].
  - by apply rd_be64_val; [|lia|].
Qed.

(** * Cell counts *)

Lemma prop_value_ok q u anc name v :
  located root (c_s c) q u anc -> prop_value names name (t_props u) = Some v -> bytes_ok v.
Proof.
  intros Hl. pose proof (stored_at rd n slack c root Hst _ _ _ Hl) as Hat.
  destruct (at_node_props c q u Hat) as (_ & Hok & _). revert Hok. generalize (t_props u).
  induction 1 as [|pr ps [_ Hb] _ IH]; simpl; [done|]. case_decide; [by intros [= <-]|done].
Qed.

Lemma own_cells_exact q u up name :
  route root (c_s c) q u up -> name = str_address_cells \/ name = str_size_cells ->
  own_cells blob c q name = Ret (cells_prop names name u).
Proof.
  intros Hr Hn. unfold own_cells, cells_prop.
  pose proof (route_getprop q u up name Hr ltac:(destruct Hn as [-> | ->]; by_compute)
    ltac:(destruct Hn as [-> | ->]; by_compute)) as Hg.
  destruct (prop_value names name (t_props u)) as [v|] eqn:Hv; [|by rewrite Hg].
  destruct Hg as (p & -> & Hh & _ & _). rewrite ret_bind. case_if; [done|].
  apply route_located in Hr. by rewrite (rd_be32_val p v Hh E (prop_value_ok _ _ _ _ _ Hr Hv)).
Qed.

(** The walk up the ancestors. *)
Lemma parent_cells_walk up : forall q u ac sc,
  route root (c_s c) q u up -> Z.of_nat (length up) <= FDT_MAX_DEPTH ->
  ac = None \/ sc = None ->
  exists k v, (k <= length up)%nat /\
    stepsM k (parent_cells_step blob c) (nearest up.*1 FDT_ERR_NODE, ac, sc) = Some v /\
    parent_cells_step blob c v = Ret (inr
      (match ac with Some x => Some x | None => inherited names str_address_cells up.*2 end,
       match sc with Some x => Some x | None => inherited names str_size_cells up.*2 end)).
Proof.
  induction up as [|[q' u'] up IH]; intros q u ac sc Hr Hd Hns.
  - exists 0%nat, (FDT_ERR_NODE, ac, sc). split; [done|]. split; [done|]. by destruct ac, sc.
  - apply route_up in Hr as Hr'. simpl length in Hd.
    pose proof (stored_at rd n slack c root Hst _ _ _ (route_located _ _ _ _ _ Hr')) as [Hlo _ _ _].
    pose proof Hc as [_ Hcs _ _ _ _ _].
    set (ac' := match ac with Some x => Some x | None => cells_prop names str_address_cells u' end).
    set (sc' := match sc with Some x => Some x | None => cells_prop names str_size_cells u' end).
    assert (parent_cells_step blob c (q', ac, sc) =
      match ac', sc' with
      | Some _, Some _ => Ret (inr (ac', sc'))
      | _, _ => Ret (inl (nearest up.*1 FDT_ERR_NODE, ac', sc'))
      end) as Hstep.
    { unfold parent_cells_step. destruct (Z.ltb_spec q' 0); [lia|].
      rewrite (own_cells_exact q' u' up _ Hr' (or_introl eq_refl)).
      rewrite (own_cells_exact q' u' up _ Hr' (or_intror eq_refl)).
      rewrite (parent_offset_exact rd n slack c root Hst q' u' up.*1)
        by (by apply route_located || (rewrite length_fmap; lia)).
      unfold ac', sc'. by destruct ac, sc, (cells_prop names str_address_cells u'),
        (cells_prop names str_size_cells u'). }
    cbn [fmap list_fmap nearest fst snd inherited].
    assert (ac' <> None /\ sc' <> None \/ ac' = None \/ sc' = None) as [[Ha Hs]|Hn]
      by (destruct ac', sc'; naive_solver).
    + exists 0%nat, (q', ac, sc). split; [lia|]. split; [done|]. rewrite Hstep. unfold ac', sc' in *.
      destruct ac, sc, (cells_prop names str_address_cells u'), (cells_prop names str_size_cells u');
        naive_solver.
    + destruct (IH q' u' ac' sc' Hr' ltac:(lia) Hn) as (k & v & Hk & Hv & Hres).
      exists (S k), v. split; [simpl; lia|]. split.
      * rewrite <- Nat.add_1_l. eapply stepsM_app; [|exact Hv]. apply stepsM_one. rewrite Hstep.
        by destruct ac', sc', Hn.
      * rewrite Hres. unfold ac', sc'. by destruct ac, sc.
Qed.

Lemma parent_cells_exact q u up :
  route root (c_s c) q u up -> Z.of_nat (length up) <= FDT_MAX_DEPTH ->
  fdt_parent_cells blob q = Ret (Some (reg_cells names up.*2)).
Proof.
  intros Hr Hd. pose proof Hst as [_ _ Hi _]. unfold fdt_parent_cells. rewrite Hi, ret_bind.
  rewrite (parent_offset_exact rd n slack c root Hst q u up.*1)
    by (by apply route_located || (rewrite length_fmap; lia)).
  rewrite ret_bind.
  destruct (parent_cells_walk up q u None None Hr Hd ltac:(by left)) as (k & v & Hk & Hv & Hres).
  rewrite (iterM_leaves _ k _ _ _ _ Hv Hres); [done|].
  pose proof (route_deep _ _ _ _ _ Hr). apply route_located in Hr.
  pose proof (stored_at rd n slack c root Hst _ _ _ Hr) as [_ Hhi _ _].
  pose proof (blen_node_pos u). unfold walk_fuel. lia.
Qed.

(** * Registers and memory banks *)

Lemma rd_reg_val p v ac sc i :
  holds (base c) p v -> bytes_ok v -> 1 <= ac < 2 ^ 28 -> 0 <= sc < 2 ^ 28 -> 0 <= i ->
  (i + 1) * ((ac + sc) * 4) <= blen v ->
  rd_reg (base c) (p + i * ((ac + sc) * 4)) ac sc = Ret (reg_entry v ac sc i) /\
  is_u64 (r_base (reg_entry v ac sc i)).
Proof.
  intros Hh Hok Ha Hs Hi Hl. unfold rd_reg, reg_entry. set (e := i * ((ac + sc) * 4)) in *.
  assert (0 <= e /\ e + (ac + sc) * 4 <= blen v) as [He Hl'] by (unfold e; nia).
  destruct (rd_cells_val p v e ac) as [-> Hu]; [done|done|lia|lia|lia|]. rewrite ret_bind.
  split; [|done]. destruct (Z.eqb_spec sc 0) as [->|].
  - rewrite ret_bind. by case_decide.
  - rewrite u32_small by ulia. rewrite <- Z.add_assoc.
    destruct (rd_cells_val p v (e + ac * 4) sc) as [-> _]; [done|done|lia|lia|lia|].
    rewrite ret_bind. by case_decide.
Qed.

Lemma reg_entries_walk p v ac sc max out :
  holds (base c) p v -> bytes_ok v -> blen v < 2 ^ 31 -> 1 <= ac < 2 ^ 28 -> 0 <= sc < 2 ^ 28 ->
  Z.of_nat (length out) <= max ->
  let entry := (ac + sc) * 4 in
  iterM (S (S (Z.to_nat (blen v / entry))))
    (reg_entries_step (base c) p entry ac sc (blen v / entry) max) (0, out) =
  Ret (take (Z.to_nat max) (out ++ reg_entries v ac sc)).
Proof.
  intros Hh Hok Hlen Ha Hs Hmax entry. assert (0 < entry) as He by (unfold entry; lia).
  pose proof (blen_nonneg v). set (cnt := reg_count v ac sc).
  assert (Z.of_nat cnt = blen v / entry) as Hcnt
    by (unfold cnt, reg_count; rewrite Z2Nat.id; [done|by apply Z.div_pos]).
  assert (Z.of_nat cnt * entry <= blen v) as Hfit by (rewrite Hcnt; Z.to_euclidean_division_equations; nia).
  set (es := reg_entries v ac sc).
  assert (length es = cnt) as Hles by (unfold es, reg_entries; by rewrite length_fmap, length_seq).
  set (m := Nat.min cnt (Z.to_nat max - length out)).
  assert (forall j, (j <= m)%nat ->
    stepsM j (reg_entries_step (base c) p entry ac sc (blen v / entry) max) (0, out) =
      Some (Z.of_nat j, out ++ take j es)) as Hsteps.
  { induction j as [|j IH]; intros Hj; [by rewrite take_0, app_nil_r|].
    rewrite <- Nat.add_1_r at 1. eapply stepsM_app; [apply IH; lia|]. apply stepsM_one.
    unfold reg_entries_step. rewrite <- Hcnt.
    destruct (Z.ltb_spec (Z.of_nat j) (Z.of_nat cnt)); [|lia].
    rewrite length_app, length_take.
    destruct (Z.ltb_spec (Z.of_nat (length out + Nat.min j (length es))) max); [|lia]. simpl.
    assert (Z.of_nat j * entry + entry <= blen v) by nia.
    rewrite u64_small by ulia.
    destruct (rd_reg_val p v ac sc (Z.of_nat j)) as [Hrd _]; [done..|lia|fold entry; lia|].
    fold entry in Hrd. rewrite Hrd, ret_bind, u32_small by ulia.
    assert (es !! j = Some (reg_entry v ac sc (Z.of_nat j))) as Hj'.
    { unfold es, reg_entries. rewrite list_lookup_fmap, lookup_seq_lt by lia. done. }
    rewrite (take_S_r _ _ _ Hj'), app_assoc. do 3 f_equal. lia. }
  rewrite (iterM_leaves _ m _ _ _ (out ++ take m es) (Hsteps m ltac:(lia))); [|clear Hsteps|lia].
  - f_equal. rewrite take_app. rewrite (take_ge out) by lia. f_equal.
    unfold m. destruct (decide (cnt <= Z.to_nat max - length out)%nat).
    + rewrite Nat.min_l by lia. rewrite !take_ge by lia. done.
    + by rewrite Nat.min_r by lia.
  - unfold reg_entries_step. rewrite <- Hcnt, length_app, length_take.
    destruct (Z.ltb_spec (Z.of_nat m) (Z.of_nat cnt)); [|done].
    destruct (Z.ltb_spec (Z.of_nat (length out + Nat.min m (length es))) max); [lia|done].
Qed.

(** The name test of [fdt_memory_ranges]. *)
Definition memory_name_test (ch namelen : Z) : outcome bool :=
  m ← name_matches (base c) (ch + 4) str_memory;
  if negb m then Ret false
  else if namelen =? 6 then Ret true
  else b ← base c (ch + 4 + 6); Ret (b =? CHAR_AT).

Lemma memory_name_exact ch t :
  at_node c ch t -> 6 <= blen (t_name t) ->
  memory_name_test ch (blen (t_name t)) = Ret (bool_decide (is_memory (t_name t))).
Proof.
  intros Hat Hl. pose proof (at_node_parts c ch t Hat) as (_ & Hn & _).
  apply holds_app in Hn as [Hn _]. set (nm := t_name t) in *. unfold memory_name_test.
  pose proof Hn as Hn6. rewrite <- (take_drop 6 nm) in Hn6. apply holds_app in Hn6 as [Hn6 Hd].
  unfold blen in Hl. rewrite length_take, Nat.min_l in Hd by lia.
  rewrite (name_matches_exact c (ch + 4) (take 6 nm)) by (done || (rewrite length_take; change (length str_memory) with 6%nat; lia)).
  rewrite ret_bind. case_bool_decide as H6; simpl negb; cbv iota.
  2:{ f_equal. symmetry. apply bool_decide_eq_false_2. intros [-> | H7]; [done|].
      apply H6. apply (f_equal (take 6)) in H7. rewrite take_take in H7. exact H7. }
  unfold blen. destruct (Z.eqb_spec (Z.of_nat (length nm)) 6) as [E|E].
  - f_equal. symmetry. apply bool_decide_eq_true_2. left. rewrite take_ge in H6 by lia. done.
  - destruct (drop 6 nm) as [|b rest] eqn:Hdr.
    { apply (f_equal length) in Hdr. rewrite length_drop in Hdr. simpl in Hdr. lia. }
    apply holds_cons in Hd as [Hb _]. change (Z.of_nat 6) with 6 in Hb. rewrite Hb, ret_bind. f_equal.
    assert (take 7 nm = str_memory ++ [b]) as H7.
    { rewrite <- (take_drop 6 nm), H6, Hdr. done. }
    destruct (Z.eqb_spec b CHAR_AT) as [->|Hne]; symmetry.
    + apply bool_decide_eq_true_2. by right.
    + apply bool_decide_eq_false_2. intros [Hm|Hm].
      * rewrite Hm in E. done.
      * rewrite H7 in Hm. apply (inj (app str_memory)) in Hm. congruence.
Qed.

Definition cells_fit (up : list tree) : Prop :=
  0 <= (reg_cells names up).1 < 2 ^ 28 /\ 0 <= (reg_cells names up).2 < 2 ^ 28.

Lemma memory_child_exact max pre ch q post out :
  cells_fit [root] -> placed (t_children root) (c_s c + body_len root) pre ch q post ->
  Z.of_nat (length out) <= max ->
  memory_child blob c max q out = Ret (inl (take (Z.to_nat max) (out ++ banks_of names root ch))).
Proof.
  intros [Hac Hsc] Hpl Hmax.
  assert (route root (c_s c) q ch [(c_s c, root)]) as Hr
    by (apply (route_below _ _ pre ch q post _ _ []); [done|constructor]).
  pose proof (stored_at rd n slack c root Hst _ _ _ (route_located _ _ _ _ _ Hr)) as Hat.
  destruct (at_node_name c n slack Hc q ch Hat) as [Hn _].
  unfold memory_child, banks_of. rewrite Hn, ret_bind.
  assert (take (Z.to_nat max) (out ++ []) = out) as Hkeep
    by (rewrite app_nil_r; apply take_ge; lia).
  destruct (reg_cells names [root]) as [ac sc] eqn:Hcells. simpl in Hac, Hsc.
  destruct (Z.ltb_spec (blen (t_name ch)) 6) as [Hlt|Hge].
  { rewrite decide_False; [by rewrite Hkeep|].
    unfold blen in Hlt. intros [Hm|Hm]; [rewrite Hm in Hlt; done|].
    apply (f_equal length) in Hm. rewrite length_take, length_app in Hm.
    change (length str_memory) with 6%nat in Hm. simpl length in Hm. lia. }
  pose proof (memory_name_exact q ch Hat Hge) as Hm. unfold memory_name_test in Hm.
  apply bind_ret_inv in Hm as (m & -> & Hm). rewrite ret_bind, Hm, ret_bind.
  case_bool_decide as Hmem; simpl negb; cbv iota; [rewrite decide_True by done|by rewrite decide_False, Hkeep by done].
  rewrite (parent_cells_exact q ch [(c_s c, root)] Hr ltac:(by_compute)), ret_bind.
  cbn [fmap list_fmap snd]. rewrite Hcells. cbv iota.
  pose proof (route_getprop q ch _ str_reg Hr ltac:(by_compute) ltac:(by_compute)) as Hg.
  destruct (prop_value names str_reg (t_props ch)) as [v|] eqn:Hv; [|by rewrite Hg, Hkeep].
  destruct Hg as (p & -> & Hh & _ & Hlen). rewrite ret_bind.
  destruct (Z.eqb_spec ac 0); case_decide; try done; [by rewrite Hkeep|].
  rewrite u32_small by ulia. destruct (Z.eqb_spec ((ac + sc) * 4) 0); [lia|].
  rewrite reg_entries_walk; [done|done| |done|lia|lia|done].
  eapply prop_value_ok; [by apply route_located|exact Hv].
Qed.

Lemma blen_nodes_length ts : 8 * Z.of_nat (length ts) <= blen (enc_nodes ts).
Proof. induction ts as [|t ts IH]; [done|]. rewrite blen_nodes_cons. pose proof (blen_node_pos t). simpl length. lia. Qed.

(** The loop over the root's children. *)
Lemma memory_walk max ts : cells_fit [root] -> 0 <= max -> forall pre out,
  t_children root = pre ++ ts -> Z.of_nat (length out) <= max ->
  let q := c_s c + body_len root + blen (enc_nodes pre) in
  exists k v, (k <= length ts)%nat /\
    stepsM k (child_step blob (c_s c) (memory_child blob c max) (fun out => out))
      (match ts with [] => FDT_ERR_NODE | _ => q end, out) = Some v /\
    child_step blob (c_s c) (memory_child blob c max) (fun out => out) v =
      Ret (inr (take (Z.to_nat max) (out ++ concat (map (banks_of names root) ts)))).
Proof.
  intros Hfit Hmax. pose proof Hc as [_ Hcs _ _ _ _ _].
  induction ts as [|ch ts IH]; intros pre out Hch Hlen q.
  - exists 0%nat. eexists. split; [done|]. split; [done|]. simpl.
    rewrite app_nil_r, take_ge by lia. done.
  - assert (placed (t_children root) (c_s c + body_len root) pre ch q ts) as Hpl
      by (rewrite Hch; apply placed_split).
    pose proof (located_child _ _ _ _ _ _ _ _ _ (located_here root (c_s c)) Hpl) as Hlc.
    pose proof (stored_at rd n slack c root Hst _ _ _ Hlc) as [Hlo _ _ _].
    set (out' := take (Z.to_nat max) (out ++ banks_of names root ch)).
    destruct (IH (pre ++ [ch]) out') as (k & v & Hk & Hv & Hr);
      [by rewrite Hch, <- app_assoc|unfold out'; rewrite length_take; lia|].
    exists (S k), v. split; [simpl; lia|]. split.
    + rewrite <- Nat.add_1_l. eapply stepsM_app; [|exact Hv]. apply stepsM_one. unfold child_step.
      destruct (Z.eqb_spec q FDT_ERR_NODE); [unfold FDT_ERR_NODE in *; lia|].
      rewrite (memory_child_exact max pre ch q ts out) by done. rewrite ret_bind.
      rewrite (next_sibling_exact rd n slack c root Hst _ root [] pre ch q ts (located_here _ _) ltac:(by_compute) Hpl).
      rewrite ret_bind. do 3 f_equal. unfold next_sibling_of. destruct ts; [done|].
      unfold q. rewrite blen_nodes_app, blen_nodes_cons. change (blen (enc_nodes [])) with 0. lia.
    + rewrite Hr. do 2 f_equal. unfold out'. simpl. rewrite app_assoc, take_take_app. done.
Qed.

(** [fdt_memory_ranges] lists the banks of the tree. *)
Lemma memory_ranges_exact max :
  cells_fit [root] -> 0 <= max ->
  fdt_memory_ranges blob max = Ret (take (Z.to_nat max) (memory_banks names root)).
Proof.
  intros Hfit Hmax. pose proof Hst as [_ _ Hi Hat]. pose proof Hc as [_ Hcs _ Hint _ _ _].
  destruct (at_node_token c n slack Hc _ _ Hat) as (Hok & _).
  pose proof (at_node_parts c _ _ Hat) as (Htok & _).
  unfold fdt_memory_ranges. rewrite Hi, ret_bind, Hok. simpl negb. cbv zeta iota.
  rewrite Htok, ret_bind, Z.eqb_refl. simpl negb. cbv iota. erewrite off_of_exact by lia.
  rewrite (first_child_exact rd n slack c root Hst _ root [] (located_here _ _)), ret_bind.
  destruct (memory_walk max (t_children root) Hfit Hmax [] []) as (k & v & Hk & Hv & Hr);
    [done|simpl; lia|].
  change (blen (enc_nodes [])) with 0 in Hv. rewrite Z.add_0_r in Hv. unfold first_child_of.
  eapply iterM_leaves; [exact Hv|exact Hr|]. destruct Hat as [_ Hhi _ _]. rewrite blen_node in Hhi.
  pose proof (blen_nodes_length (t_children root)). pose proof (body_len_pos root). unfold walk_fuel. lia.
Qed.

(** * Address translation *)

(** Every declared cell count is small enough not to wrap. *)
Definition small_cells : Prop := forall q u up name x,
  route root (c_s c) q u up -> name = str_address_cells \/ name = str_size_cells ->
  cells_prop names name u = Some x -> x < 2 ^ 28.

Lemma cells_prop_nonneg q u up name x :
  route root (c_s c) q u up -> cells_prop names name u = Some x -> 0 <= x.
Proof.
  intros Hr. unfold cells_prop. destruct (prop_value names name (t_props u)) as [v|] eqn:Hv; [|done].
  case_if; [done|]. intros [= <-].
  pose proof (prop_value_ok _ _ _ _ _ (route_located _ _ _ _ _ Hr) Hv) as Hok.
  pose proof (be_val_range (take 4 v) ltac:(by apply Forall_take)). lia.
Qed.

Lemma inherited_fit up : forall q u name, small_cells -> route root (c_s c) q u up ->
  name = str_address_cells \/ name = str_size_cells ->
  0 <= default 2 (inherited names name up.*2) < 2 ^ 28.
Proof.
  induction up as [|[q' u'] up IH]; intros q u name Hsm Hr Hn; [done|].
  apply route_up in Hr. cbn [fmap list_fmap snd inherited].
  destruct (cells_prop names name u') as [x|] eqn:Hx; [|by eapply IH].
  simpl. split; [by eapply cells_prop_nonneg|by eapply Hsm].
Qed.

Lemma reg_cells_fit q u up : small_cells -> route root (c_s c) q u up -> cells_fit up.*2.
Proof.
  intros Hsm Hr. split; simpl; eapply inherited_fit; eauto.
Qed.

Lemma root_cells_fit : small_cells -> cells_fit [root].
Proof.
  intros Hsm. assert (forall name, name = str_address_cells \/ name = str_size_cells ->
    0 <= default 2 (inherited names name [root]) < 2 ^ 28) as H; [|unfold cells_fit, reg_cells; cbn [fst snd]; auto].
  intros name Hn. simpl. destruct (cells_prop names name root) as [x|] eqn:Hx; [|done]. simpl.
  split; [eapply cells_prop_nonneg; [constructor|exact Hx]|eapply Hsm; [constructor|exact Hn|exact Hx]].
Qed.

Lemma nonzero_or_fit x : 0 <= x < 2 ^ 28 -> 1 <= nonzero_or 2 x < 2 ^ 28.
Proof. intros. unfold nonzero_or. case_decide; lia. Qed.

Lemma own_fit q u up name : small_cells -> route root (c_s c) q u up ->
  name = str_address_cells \/ name = str_size_cells ->
  1 <= nonzero_or 2 (default 2 (cells_prop names name u)) < 2 ^ 28.
Proof.
  intros Hsm Hr Hn. apply nonzero_or_fit. destruct (cells_prop names name u) as [x|] eqn:Hx; [|simpl; lia].
  simpl. split; [by eapply cells_prop_nonneg|by eapply Hsm].
Qed.

(** The scan of a bus's windows. *)
Lemma ranges_walk p v own_ac ra rs addr :
  holds (base c) p v -> bytes_ok v -> blen v < 2 ^ 31 ->
  1 <= own_ac < 2 ^ 28 -> 1 <= ra < 2 ^ 28 -> 1 <= rs < 2 ^ 28 ->
  let rentry := (own_ac + ra + rs) * 4 in
  forall m i fuel, 0 <= i -> i + Z.of_nat m = blen v / rentry -> (m < fuel)%nat ->
  iterM fuel (ranges_step (base c) p rentry own_ac ra rs (blen v / rentry) addr) i =
    Ret (first_window v own_ac ra rs addr m i).
Proof.
  intros Hh Hok Hlen Ho Hra Hrs rentry.
  assert (0 < rentry < 2 ^ 32) as He by (unfold rentry; lia). pose proof (blen_nonneg v).
  assert (forall i, 0 <= i < blen v / rentry ->
    ranges_step (base c) p rentry own_ac ra rs (blen v / rentry) addr i =
      match window v own_ac ra rs addr i with
      | Some a => Ret (inr (Some a)) | None => Ret (inl (i + 1)) end) as Hstep.
  { intros i Hi. unfold ranges_step. destruct (Z.ltb_spec i (blen v / rentry)); [|lia].
    assert (0 <= i * rentry /\ i * rentry + rentry <= blen v /\ i <= blen v) as (Hpos & Hfit & Hsm)
      by (Z.to_euclidean_division_equations; nia).
    rewrite (u64_small (i * rentry)), !u32_small by ulia. rewrite <- !Z.add_assoc.
    destruct (rd_cells_val p v (i * rentry) own_ac) as [-> _]; [done|done|lia..|]. rewrite ret_bind.
    destruct (rd_cells_val p v (i * rentry + own_ac * 4) ra) as [-> _]; [done|done|lia..|].
    rewrite ret_bind.
    destruct (rd_cells_val p v (i * rentry + (own_ac + ra) * 4) rs) as [-> _]; [done|done|lia..|].
    rewrite ret_bind. unfold window. fold rentry.
    by case_if; case_decide; try lia. }
  induction m as [|m IH]; intros i fuel Hi Hm Hf; (destruct fuel as [|fuel]; [lia|]); cbn [iterM].
  - unfold ranges_step. destruct (Z.ltb_spec i (blen v / rentry)); [lia|done].
  - rewrite Hstep by lia. simpl first_window. destruct (window v own_ac ra rs addr i); [done|].
    rewrite ret_bind. apply IH; lia.
Qed.

Lemma apply_ranges_exact q t up p v addr :
  small_cells -> route root (c_s c) q t up -> Z.of_nat (length up) <= FDT_MAX_DEPTH ->
  holds (base c) p v -> bytes_ok v -> blen v < 2 ^ 31 ->
  apply_ranges blob c q p (blen v) addr = Ret (through names t up.*2 v addr).
Proof.
  intros Hsm Hr Hd Hh Hok Hlen. unfold apply_ranges, through.
  rewrite (parent_cells_exact q t up Hr Hd), ret_bind.
  destruct (reg_cells_fit q t up Hsm Hr) as [Hac _].
  destruct (reg_cells names up.*2) as [bus_ac bus_sc]. simpl in Hac. cbn [fst snd].
  rewrite (own_cells_exact q t up _ Hr (or_introl eq_refl)), ret_bind.
  rewrite (own_cells_exact q t up _ Hr (or_intror eq_refl)), ret_bind.
  pose proof (own_fit q t up _ Hsm Hr (or_introl eq_refl)) as Hoa.
  pose proof (own_fit q t up _ Hsm Hr (or_intror eq_refl)) as Hos.
  pose proof (nonzero_or_fit bus_ac Hac) as Hra.
  assert (forall x, (if x =? 0 then 2 else x) = nonzero_or 2 x) as Hnz
    by (intros x; unfold nonzero_or; case_if; by case_decide).
  rewrite !Hnz.
  set (oa := nonzero_or 2 (default 2 (cells_prop names str_address_cells t))) in *.
  set (os := nonzero_or 2 (default 2 (cells_prop names str_size_cells t))) in *.
  set (ra := nonzero_or 2 bus_ac) in *. rewrite u32_small by ulia.
  destruct (Z.eqb_spec ((oa + ra + os) * 4) 0); [lia|].
  apply ranges_walk; try done; [|lia]. rewrite Z2Nat.id; [done|]. apply Z.div_pos; [apply blen_nonneg|lia].
Qed.

(** The walk up the buses. *)
Lemma bus_walk up : forall q t addr,
  small_cells -> 0 < c_s c -> route root (c_s c) q t up -> Z.of_nat (length up) <= FDT_MAX_DEPTH ->
  exists k v, (k <= length up)%nat /\ stepsM k (bus_step blob c) (q, addr) = Some v /\
    bus_step blob c v = Ret (inr (to_cpu names t up.*2 addr)).
Proof.
  induction up as [|[q' t'] up IH]; intros q t addr Hsm Hs Hr Hd.
  - exists 0%nat, (q, addr). split; [done|]. split; [done|]. unfold bus_step.
    rewrite (parent_offset_exact rd n slack c root Hst q t []) by (by apply route_located in Hr).
    done.
  - apply route_up in Hr as Hr'. simpl length in Hd.
    pose proof (stored_at rd n slack c root Hst _ _ _ (route_located _ _ _ _ _ Hr')) as [Hlo _ _ _].
    pose proof (route_getprop q t _ str_ranges Hr ltac:(by_compute) ltac:(by_compute)) as Hg.
    assert (bus_step blob c (q, addr) =
      match prop_value names str_ranges (t_props t) with
      | None | Some [] => Ret (inl (q', addr))
      | Some v => match through names t (t' :: up.*2) v addr with
                  | Some a => Ret (inl (q', a)) | None => Ret (inr None) end
      end) as Hstep.
    { unfold bus_step.
      rewrite (parent_offset_exact rd n slack c root Hst q t (q' :: up.*1))
        by first [exact (route_located _ _ _ _ _ Hr)|simpl; rewrite length_fmap; lia].
      rewrite ret_bind. simpl nearest. destruct (Z.ltb_spec q' 0); [lia|].
      destruct (prop_value names str_ranges (t_props t)) as [v|] eqn:Hv; [|by rewrite Hg].
      destruct Hg as (p & -> & Hh & _ & Hlen). rewrite ret_bind.
      destruct v as [|b v]; [done|].
      destruct (Z.eqb_spec (blen (b :: v)) 0); [unfold blen in *; simpl in *; lia|].
      pose proof (prop_value_ok _ _ _ _ _ (route_located _ _ _ _ _ Hr) Hv) as Hok.
      rewrite (apply_ranges_exact q t ((q', t') :: up) p (b :: v) addr Hsm Hr
        ltac:(simpl length; lia) Hh Hok Hlen).
      rewrite ret_bind. cbn [fmap list_fmap snd]. destruct (through _ _ _ _ _); [|done].
      destruct (Z.eqb_spec q' 0); [lia|done]. }
    cbn [fmap list_fmap snd to_cpu].
    assert (forall a, bus_step blob c (q, addr) = Ret (inl (q', a)) ->
      exists k v, (k <= length ((q', t') :: up))%nat /\ stepsM k (bus_step blob c) (q, addr) = Some v /\
        bus_step blob c v = Ret (inr (to_cpu names t' up.*2 a))) as Hnext.
    { intros a Ha. destruct (IH q' t' a Hsm Hs Hr' ltac:(lia)) as (k & v & Hk & Hv & Hres).
      exists (S k), v. split; [simpl; lia|]. split; [|done]. rewrite <- Nat.add_1_l.
      eapply stepsM_app; [by apply stepsM_one|done]. }
    destruct (prop_value names str_ranges (t_props t)) as [[|b v]|]; [by apply Hnext| |by apply Hnext].
    destruct (through names t (t' :: up.*2) (b :: v) addr) as [a|]; [by apply Hnext|].
    exists 0%nat, (q, addr). split; [lia|]. by split.
Qed.

(** [fdt_reg_to_cpu_addr] on a stored node. *)
Lemma reg_to_cpu_exact q t up i :
  small_cells -> 0 < c_s c -> route root (c_s c) q t up -> Z.of_nat (length up) <= FDT_MAX_DEPTH ->
  0 <= i < 2 ^ 32 - 1 ->
  fdt_reg_to_cpu_addr blob q i = Ret (cpu_range names t up.*2 i).
Proof.
  intros Hsm Hs Hr Hd Hi. pose proof Hst as [_ _ Hin _]. pose proof Hc as [_ _ _ Hint _ _ _].
  pose proof (reg_cells_fit q t up Hsm Hr) as [Hac Hsc]. pose proof (route_located _ _ _ _ _ Hr) as Hl.
  unfold fdt_reg_to_cpu_addr, cpu_range. rewrite Hin, ret_bind.
  rewrite (parent_cells_exact q t up Hr Hd), ret_bind.
  destruct (reg_cells names up.*2) as [ac sc]. simpl in Hac, Hsc.
  pose proof (route_getprop q t up str_reg Hr ltac:(by_compute) ltac:(by_compute)) as Hg.
  destruct (prop_value names str_reg (t_props t)) as [v|] eqn:Hv; [|by rewrite Hg].
  destruct Hg as (p & -> & Hh & _ & Hlen). rewrite ret_bind.
  pose proof (prop_value_ok _ _ _ _ _ Hl Hv) as Hok.
  destruct (Z.eqb_spec ac 0) as [->|Hne]; [by rewrite decide_True by (by left)|].
  rewrite (u32_small ((ac + sc) * 4)), (u32_small (i + 1)) by ulia.
  destruct (Z.eqb_spec ((ac + sc) * 4) 0); [lia|]. simpl orb. cbv iota.
  rewrite u64_small by (unfold is_u64; nia).
  case_if; [by rewrite decide_True by (by right)|]. rewrite decide_False by lia.
  rewrite u64_small by (unfold is_u64; nia).
  destruct (rd_reg_val p v ac sc i) as [-> _]; [done|done|lia|lia|lia|lia|]. rewrite ret_bind.
  destruct (bus_walk up q t (r_base (reg_entry v ac sc i)) Hsm Hs Hr Hd) as (k & w & Hk & Hw & Hres).
  rewrite (iterM_leaves _ k _ _ _ _ Hw Hres); [by destruct (to_cpu _ _ _ _)|].
  pose proof (route_deep _ _ _ _ _ Hr). pose proof (stored_at rd n slack c root Hst _ _ _ Hl) as [_ Hhi _ _].
  pose proof (blen_node_pos t). unfold walk_fuel. lia.
Qed.

(** * Status *)

(** The comparison of a non-empty [status] value at [st]. *)
Definition status_test (st len : Z) : outcome bool :=
  okay ← (if 5 <=? len then name_matches (base c) st str_okay else Ret false);
  if okay : bool then Ret true
  else
    isok ← (if 3 <=? len then name_matches (base c) st str_ok else Ret false);
    if isok : bool then b ← base c (st + 2); Ret ((b =? 0) || (len =? 3)) else Ret false.

Lemma status_test_exact p v :
  holds (base c) p v ->
  status_test p (blen v) = Ret (bool_decide (5 <= blen v /\ take 4 v = str_okay \/
    3 <= blen v /\ take 2 v = str_ok /\ (v !! 2%nat = Some 0 \/ blen v = 3))).
Proof.
  intros Hh.
  assert (forall s, Z.of_nat (length s) <= blen v ->
    name_matches (base c) p s = Ret (bool_decide (take (length s) v = s))) as Hm.
  { intros s Hk. apply name_matches_exact; [|rewrite length_take; unfold blen in Hk; lia].
    rewrite <- (take_drop (length s) v) in Hh. by apply holds_app in Hh as [Hh _]. }
  unfold status_test. destruct (Z.leb_spec 5 (blen v)).
  - rewrite (Hm str_okay ltac:(simpl; lia)), ret_bind. case_bool_decide as H4; simpl in H4.
    { f_equal. symmetry. apply bool_decide_eq_true_2. by left. }
    destruct (Z.leb_spec 3 (blen v)); [|lia].
    rewrite (Hm str_ok ltac:(simpl; lia)), ret_bind. case_bool_decide as H2; simpl in H2.
    + destruct (lookup_lt_is_Some_2 v 2) as [b Hb]; [unfold blen in *; lia|].
      rewrite (Hh _ _ Hb : base c (p + 2) = Ret b), ret_bind. f_equal.
      destruct (Z.eqb_spec (blen v) 3); [lia|]. rewrite orb_false_r.
      destruct (Z.eqb_spec b 0) as [->|Hne]; symmetry.
      * apply bool_decide_eq_true_2. auto.
      * apply bool_decide_eq_false_2. intros [[_ ?]|(_ & _ & [?|?])]; [done|congruence|lia].
    + f_equal. symmetry. apply bool_decide_eq_false_2. naive_solver.
  - rewrite ret_bind. destruct (Z.leb_spec 3 (blen v)).
    + rewrite (Hm str_ok ltac:(simpl; lia)), ret_bind. case_bool_decide as H2; simpl in H2.
      * destruct (lookup_lt_is_Some_2 v 2) as [b Hb]; [unfold blen in *; lia|].
        rewrite (Hh _ _ Hb : base c (p + 2) = Ret b), ret_bind. f_equal.
        destruct (Z.eqb_spec b 0) as [->|Hne]; [symmetry; apply bool_decide_eq_true_2; auto|].
        destruct (Z.eqb_spec (blen v) 3); symmetry; [apply bool_decide_eq_true_2; auto|].
        apply bool_decide_eq_false_2. intros [[? _]|(_ & _ & [?|?])]; [lia|congruence|lia].
      * f_equal. symmetry. apply bool_decide_eq_false_2. intros [[? _]|(_ & ? & _)]; [lia|done].
    + rewrite ret_bind. f_equal. symmetry. apply bool_decide_eq_false_2. lia.
Qed.

Lemma is_enabled_exact q t up :
  route root (c_s c) q t up -> fdt_is_enabled blob q = Ret (bool_decide (enabled names t)).
Proof.
  intros Hr. pose proof Hst as [Hb _ Hi _].
  assert (base c = rd) as Hbase by (eapply base_rd; eauto).
  pose proof (route_getprop q t up str_status Hr ltac:(by_compute) ltac:(by_compute)) as Hg.
  assert (exists b, fdt_is_enabled blob q = Ret b /\ (b = true <-> enabled names t)) as (b & -> & Hbe).
  2:{ f_equal. symmetry. destruct b; [apply bool_decide_eq_true_2|apply bool_decide_eq_false_2]; naive_solver. }
  unfold fdt_is_enabled, enabled.
  destruct (prop_value names str_status (t_props t)) as [v|]; [|rewrite Hg; by exists true].
  destruct Hg as (p & -> & Hh & _ & _). rewrite ret_bind.
  destruct v as [|b v]; [by exists true|].
  destruct (Z.eqb_spec (blen (b :: v)) 0); [unfold blen in *; simpl in *; lia|].
  pose proof (status_test_exact p (b :: v) Hh) as Hs. unfold status_test in Hs. rewrite Hbase in Hs.
  eexists. split; [exact Hs|]. apply bool_decide_eq_true.
Qed.

End Reg.

(** * Whole blobs *)

(** All nodes of a tree. *)
Fixpoint tree_nodes (t : tree) : list tree :=
  t :: (fix go ts := match ts with [] => [] | ch :: ts' => tree_nodes ch ++ go ts' end) (t_children t).

Lemma tree_nodes_node t : tree_nodes t = t :: concat (map tree_nodes (t_children t)).
Proof. destruct t as [nm ps cs]. simpl. f_equal. induction cs; simpl; congruence. Qed.

Lemma route_node t p q u up : route t p q u up -> u ∈ tree_nodes t.
Proof.
  induction 1 as [t p|t p pre ch q0 post q u up Hpl _ IH]; rewrite tree_nodes_node; [by left|].
  right. apply placed_eq in Hpl as [-> _]. rewrite map_app, concat_app. apply elem_of_app. right.
  simpl. apply elem_of_app. by left.
Qed.

(** The node's own cell counts are below 2^28, so that no entry size
    wraps. *)
Definition cells_modest (names : Z -> list Z) (u : tree) : Prop :=
  default 0 (cells_prop names str_address_cells u) < 2 ^ 28 /\
  default 0 (cells_prop names str_size_cells u) < 2 ^ 28.

Lemma modest_small c root names :
  Forall (cells_modest names) (tree_nodes root) -> small_cells c root names.
Proof.
  intros Hm q u up name x Hr Hn Hx. apply route_node in Hr. rewrite Forall_forall in Hm.
  destruct (Hm u Hr) as [Ha Hs]. destruct Hn as [-> | ->]; [rewrite Hx in Ha|rewrite Hx in Hs]; done.
Qed.

Section Claims.
Context (root : tree) (strings : list Z) (rs : list fdt_range_t) (slack : nat) (names : Z -> list Z).
#[local] Abbreviation rd := (blob_mem root strings rs slack).
#[local] Abbreviation start := (40 + rsv_len rs).

Lemma start_pos : 0 < start.
Proof. pose proof (blen_nonneg (rsv_block rs)). unfold rsv_len. lia. Qed.

(** C21. The memory banks reported are those the tree describes: the [reg]
    entries of the root's children named "memory" or "memory@...", in
    order, decoded with the root's cell counts (2 and 2 when it declares
    none), up to the caller's limit.  Declared cell counts are below 2^28, so
    that no entry size wraps. *)
Theorem device_tree_memory max :
  blob_wf root strings rs -> (16 <= slack)%nat -> tree_named strings names root ->
  Forall (cells_modest names) (tree_nodes root) -> 0 <= max ->
  fdt_memory_ranges (Some rd) max = Ret (take (Z.to_nat max) (memory_banks names root)).
Proof.
  intros Hwf Hsl Hn Hm Hmax. pose proof (blob_stores root strings rs slack Hwf Hsl) as Hst.
  assert (forall q u anc, located root (c_s (blob_ctx root strings rs slack)) q u anc ->
    named (blob_ctx root strings rs slack) names u) as Hnames
    by (intros q u anc; by apply tree_named_located).
  eapply memory_ranges_exact; [exact Hst|exact Hnames| |done].
  eapply root_cells_fit; [exact Hst|]. by apply modest_small.
Qed.

(** C22. A device's registers are reported where the processor sees them: entry
    [i] of the node's [reg], decoded with the cell counts its nearest
    ancestors declare, translated through the [ranges] of every bus above
    it in turn (an absent or empty [ranges] passes the address on), and
    nothing when the entry does not exist, the address falls in no window
    of some bus, or the counts make the entry meaningless.  The node has at
    most sixteen ancestors, and declared cell counts are below 2^28. *)
Theorem device_tree_reg q u up i :
  blob_wf root strings rs -> (16 <= slack)%nat -> tree_named strings names root ->
  Forall (cells_modest names) (tree_nodes root) ->
  route root start q u up -> Z.of_nat (length up) <= FDT_MAX_DEPTH -> 0 <= i < 2 ^ 32 - 1 ->
  fdt_reg_to_cpu_addr (Some rd) q i = Ret (cpu_range names u up.*2 i).
Proof.
  intros Hwf Hsl Hn Hm Hr Hd Hi. pose proof (blob_stores root strings rs slack Hwf Hsl) as Hst.
  eapply reg_to_cpu_exact; [exact Hst| |by apply modest_small|apply start_pos|exact Hr|done|done].
  intros q' u' anc. by apply tree_named_located.
Qed.

End Claims.
