(* ===== verification/FdtEdge.v ===== *)
(** A sample tree, the theorems about lib/fdt.c applied to it, and the
    places where the walker does not keep its contract: blobs that make it
    read outside, or never return. *)
From S2P Require Import Prelude CMem Fdt FdtSafe FdtTotal FdtTree FdtPath FdtBlob FdtSearch FdtReg.

(** * A sample tree *)

(** "#address-cells", "#size-cells", "reg", "compatible", each terminated,
    at offsets 0, 15, 27 and 31. *)
Definition ex_strings : list Z :=
  str_address_cells ++ [0] ++ str_size_cells ++ [0] ++ str_reg ++ [0] ++ str_compatible ++ [0].

Definition ex_names (off : Z) : list Z :=
  if off =? 0 then str_address_cells else if off =? 15 then str_size_cells
  else if off =? 27 then str_reg else str_compatible.

(** "memory@0", "soc" and "uart". *)
Definition ex_memory : tree :=
  Node [109; 101; 109; 111; 114; 121; 64; 48]
    [(27, be_bytes 4 0x80000000 ++ be_bytes 4 0x10000000)] [].
Definition ex_uart : tree :=
  Node [117; 97; 114; 116] [(31, [97; 44; 98; 0]); (27, be_bytes 4 0x1000 ++ be_bytes 4 0x100)] [].
Definition ex_soc : tree := Node [115; 111; 99] [] [ex_uart].
Definition ex_root : tree :=
  Node [] [(0, be_bytes 4 1); (15, be_bytes 4 1)] [ex_memory; ex_soc].

Definition ex_rsv : list fdt_range_t :=
  [{| r_base := 0x40000000; r_size := 0x1000 |}; {| r_base := 0x48000000; r_size := 0 |}].

Lemma ex_blob_wf : blob_wf ex_root ex_strings ex_rsv.
Proof. constructor; [|by_compute|by_compute]. simpl. repeat split; repeat constructor; by_compute. Qed.

(** The tree starts at 88; the memory node at 128, soc at 168, uart at 176. *)
Lemma ex_memory_placed :
  placed (t_children ex_root) (88 + body_len ex_root) [] ex_memory 128 [ex_soc].
Proof. constructor. Qed.

Lemma ex_soc_placed :
  placed (t_children ex_root) (88 + body_len ex_root) [ex_memory] ex_soc 168 [].
Proof. constructor. constructor. Qed.

Lemma device_tree_navigation_witness :
  fdt_next_sibling (Some (blob_mem ex_root ex_strings ex_rsv 16)) 88 128 = Ret 168.
Proof.
  destruct (device_tree_navigation ex_root ex_strings ex_rsv 16 88 ex_root [] ex_blob_wf
    ltac:(lia) (located_here _ _) ltac:(by_compute)) as (_ & _ & H).
  exact (proj2 (H [] ex_memory 128 [ex_soc] ex_memory_placed)).
Defined.

Lemma device_tree_getprop_witness :
  fdt_getprop (Some (blob_mem ex_root ex_strings ex_rsv 16)) 128 str_reg = Ret (Some (156, 8)).
Proof.
  apply (device_tree_getprop ex_root ex_strings ex_rsv 16 128 ex_memory [88] ex_names str_reg
    ex_blob_wf ltac:(lia)).
  - apply (located_below _ _ _ _ _ _ _ _ [] ex_memory_placed). constructor.
  - by_compute.
  - by_compute.
  - constructor; [|constructor].
    exists (str_address_cells ++ [0] ++ str_size_cells ++ [0]), (str_compatible ++ [0]).
    repeat split; by_compute.
Defined.

(** "/soc/uart". *)
Lemma device_tree_path_witness :
  fdt_path_offset (Some (blob_mem ex_root ex_strings ex_rsv 16))
    [47; 115; 111; 99; 47; 117; 97; 114; 116] = Ret 176.
Proof.
  apply (device_tree_path ex_root ex_strings ex_rsv 16 [[115; 111; 99]; [117; 97; 114; 116]]
    ex_blob_wf ltac:(lia)); [|by_compute].
  repeat constructor; by_compute.
Defined.

Lemma reservations_roundtrip_witness :
  fdt_reserved_ranges (Some (blob_mem ex_root ex_strings ex_rsv 16)) 5 = Ret ex_rsv.
Proof.
  apply (reservations_roundtrip ex_root ex_strings ex_rsv 16 5 ex_blob_wf ltac:(lia));
    [|lia].
  unfold range_nonzero. repeat constructor; simpl; try ulia; intros [? ?]; lia.
Defined.

Lemma fdt_navigation_total_witness :
  exists r, fdt_first_child (Some (blob_mem ex_root ex_strings ex_rsv 16)) 168 = Ret r.
Proof.
  destruct (fdt_navigation_total (blob_mem ex_root ex_strings ex_rsv 16) _ 16 168 0 str_reg
    (blob_is_ok ex_root ex_strings ex_rsv 16 ex_blob_wf ltac:(lia)) ltac:(by_compute))
    as ((r & H & _) & _).
  by exists r.
Defined.

Lemma fdt_queries_total_witness :
  exists o, fdt_cell_counts (Some (blob_mem ex_root ex_strings ex_rsv 16)) 176 = Ret o.
Proof.
  destruct (fdt_queries_total (blob_mem ex_root ex_strings ex_rsv 16) _ 16 176 [47] str_reg 4
    (blob_is_ok ex_root ex_strings ex_rsv 16 ex_blob_wf ltac:(lia)) ltac:(lia)
    ltac:(by_compute) ltac:(lia)) as (_ & _ & _ & H & _).
  exact H.
Defined.

(** ** A tree with a bus *)

(** ["ranges"] follows at offset 42. *)
Definition ex_bus_strings : list Z := ex_strings ++ str_ranges ++ [0].
Definition ex_bus_names (off : Z) : list Z := if off =? 42 then str_ranges else ex_names off.

(** A bus whose first megabyte the processor sees at 0x40000000. *)
Definition ex_bus : tree :=
  Node [115; 111; 99]
    [(0, be_bytes 4 1); (15, be_bytes 4 1);
     (42, be_bytes 4 0 ++ be_bytes 4 0x40000000 ++ be_bytes 4 0x100000)] [ex_uart].
Definition ex_bus_root : tree :=
  Node [] [(0, be_bytes 4 1); (15, be_bytes 4 1)] [ex_memory; ex_bus].

Lemma ex_bus_wf : blob_wf ex_bus_root ex_bus_strings [].
Proof. constructor; [|by_compute|by_compute]. simpl. repeat split; repeat constructor; by_compute. Qed.

Lemma ex_bus_named : tree_named ex_bus_strings ex_bus_names ex_bus_root.
Proof.
  assert (string_at ex_bus_strings 0 str_address_cells) as H0
    by (exists [], (str_size_cells ++ [0] ++ str_reg ++ [0] ++ str_compatible ++ [0] ++ str_ranges ++ [0]);
        repeat split; by_compute).
  assert (string_at ex_bus_strings 15 str_size_cells) as H15
    by (exists (str_address_cells ++ [0]), (str_reg ++ [0] ++ str_compatible ++ [0] ++ str_ranges ++ [0]);
        repeat split; by_compute).
  assert (string_at ex_bus_strings 27 str_reg) as H27
    by (exists (str_address_cells ++ [0] ++ str_size_cells ++ [0]), (str_compatible ++ [0] ++ str_ranges ++ [0]);
        repeat split; by_compute).
  assert (string_at ex_bus_strings 31 str_compatible) as H31
    by (exists (str_address_cells ++ [0] ++ str_size_cells ++ [0] ++ str_reg ++ [0]), (str_ranges ++ [0]);
        repeat split; by_compute).
  assert (string_at ex_bus_strings 42 str_ranges) as H42
    by (exists ex_strings, []; repeat split; by_compute).
  repeat constructor; assumption.
Qed.

(** ["a,b"], the compatible string of the uart. *)
Lemma device_tree_search_witness :
  fdt_node_by_compatible_offset 4 (Some (blob_mem ex_bus_root ex_bus_strings [] 16)) [97; 44; 98]
    = Ret 200.
Proof.
  apply (device_tree_search ex_bus_root ex_bus_strings [] 16 ex_bus_names [97; 44; 98] 4
    ex_bus_wf ltac:(lia) ex_bus_named); by_compute.
Defined.

Lemma device_tree_memory_witness :
  fdt_memory_ranges (Some (blob_mem ex_bus_root ex_bus_strings [] 16)) 8
    = Ret [{| r_base := 0x80000000; r_size := 0x10000000 |}].
Proof.
  apply (device_tree_memory ex_bus_root ex_bus_strings [] 16 ex_bus_names 8
    ex_bus_wf ltac:(lia) ex_bus_named); by_compute.
Defined.

Lemma ex_uart_route :
  route ex_bus_root 56 200 ex_uart [(136, ex_bus); (56, ex_bus_root)].
Proof.
  apply (route_below ex_bus_root 56 [ex_memory] ex_bus 136 [] 200 ex_uart [(136, ex_bus)]);
    [constructor; constructor|].
  apply (route_below ex_bus 136 [] ex_uart 200 [] 200 ex_uart []); constructor.
Qed.

Lemma device_tree_reg_witness :
  fdt_reg_to_cpu_addr (Some (blob_mem ex_bus_root ex_bus_strings [] 16)) 200 0
    = Ret (Some {| r_base := 0x40001000; r_size := 0x100 |}).
Proof.
  apply (device_tree_reg ex_bus_root ex_bus_strings [] 16 ex_bus_names 200 ex_uart
    [(136, ex_bus); (56, ex_bus_root)] 0 ex_bus_wf ltac:(lia) ex_bus_named);
    [by_compute|exact ex_uart_route|by_compute|lia].
Defined.

(** ** Cell counts that can be checked *)

(** Outside the structure block there is no node, so no property. *)
Lemma getprop_outside rd n slack c node name :
  blob_ok rd n slack -> ctx_init (Some rd) = Ret (Some c) -> ~ (c_s c <= node < c_send c) ->
  fdt_getprop (Some rd) node name = Ret None.
Proof.
  intros Hb Hi Hout. unfold fdt_getprop, after_name. rewrite Hi, ret_bind.
  pose proof (ctx_is_ok rd n slack Hb c Hi) as Hc.
  rewrite (proj2 (ok_false c n slack Hc node 4 ltac:(lia))) by lia. done.
Qed.

(** A declared count of one node is below the bound. *)
Definition cell_ok (rd : reader) (node : Z) (name : list Z) : bool :=
  match fdt_getprop (Some rd) node name with
  | Ret (Some (v, _)) => match rd_be32 rd v with Ret x => x <? 2 ^ 28 | _ => true end
  | _ => true
  end.

Definition cells_check (rd : reader) (c : ctx_t) : bool :=
  forallb (fun k => let node := c_s c + Z.of_nat k in
    cell_ok rd node str_address_cells && cell_ok rd node str_size_cells)
    (seq 0 (Z.to_nat (c_send c - c_s c))).

Lemma cells_check_sane rd n slack c :
  blob_ok rd n slack -> ctx_init (Some rd) = Ret (Some c) -> cells_check rd c = true ->
  cells_sane rd.
Proof.
  intros Hb Hi Hchk node name v len x Hname Hg Hx.
  destruct (decide (c_s c <= node < c_send c)) as [Hin|Hout].
  2:{ rewrite (getprop_outside rd n slack c) in Hg by done. done. }
  unfold cells_check in Hchk. rewrite forallb_forall in Hchk.
  specialize (Hchk (Z.to_nat (node - c_s c))). cbv zeta in Hchk.
  rewrite Z2Nat.id in Hchk by lia. replace (c_s c + (node - c_s c)) with node in Hchk by lia.
  rewrite in_seq, andb_true_iff in Hchk. destruct Hchk as [H1 H2]; [lia|].
  destruct Hname as [-> | ->]; [unfold cell_ok in H1|unfold cell_ok in H2];
    rewrite Hg, Hx in *; lia.
Qed.

Lemma fdt_reg_reads_total_witness :
  exists out, fdt_memory_ranges (Some (blob_mem ex_root ex_strings ex_rsv 16)) 4 = Ret out /\
    out = [{| r_base := 0x80000000; r_size := 0x10000000 |}].
Proof.
  assert (blob_ok (blob_mem ex_root ex_strings ex_rsv 16)
    (total_len ex_root ex_strings ex_rsv + 16) 16) as Hb
    by (apply (blob_is_ok ex_root ex_strings ex_rsv 16); [apply ex_blob_wf|lia]).
  destruct (fdt_reg_reads_total (blob_mem ex_root ex_strings ex_rsv 16)
    (total_len ex_root ex_strings ex_rsv + 16) 16 176 0 4 Hb) as ((out & H & _) & _);
    [lia|lia| |lia|].
  - eapply (cells_check_sane _ _ _ (blob_ctx ex_root ex_strings ex_rsv 16) Hb).
    + apply (blob_init ex_root ex_strings ex_rsv 16 ex_blob_wf); lia.
    + vm_compute. reflexivity.
  - exists out. split; [exact H|]. vm_compute in H. congruence.
Defined.

(** * Outside the contract *)

(** Root cell counts 0x400 and 0x3FFFFC01, whose sum times four is 4 modulo
    2^32, over a memory node with a four-byte reg. *)
Definition wrap_root : tree :=
  Node [] [(0, be_bytes 4 0x400); (15, be_bytes 4 0x3FFFFC01)]
    [Node [109; 101; 109; 111; 114; 121] [(27, be_bytes 4 7)] []].

(** A hostile tree makes the memory scan read far outside the blob:
    cell counts whose sum wraps to a small entry size pass the length check,
    and the size cell is then read at [ac * 4] bytes past the entry, here 4
    KiB past a property of four bytes, in a blob [fdt_valid] accepts. *)
Theorem wrapped_cells_read_outside :
  let blob := blob_mem wrap_root ex_strings [] 16 in
  let size := total_len wrap_root ex_strings [] in
  size = 178 /\ fdt_valid (Some blob) size = Ret 1 /\
  fdt_memory_ranges (Some blob) 1 = Fault 4216.
Proof. vm_compute. done. Qed.

(** A blob whose structure block ends in a property token. *)
Definition cut_blob : list Z :=
  be_bytes 4 FDT_MAGIC ++ be_bytes 4 52 ++ be_bytes 4 40 ++ be_bytes 4 40 ++
  be_bytes 4 40 ++ be_bytes 4 17 ++ be_bytes 4 16 ++ be_bytes 4 0 ++
  be_bytes 4 0 ++ be_bytes 4 12 ++
  be_bytes 4 FDT_BEGIN_NODE ++ [0; 0; 0; 0] ++ be_bytes 4 FDT_PROP.

(** The walks read up to four bytes past the blob: the first-child and
    parent walks fetch a property's length before testing that it is there.
    On a blob that [fdt_valid] accepts and that ends with a property token
    both touch the byte after its last. *)
Theorem property_length_read_past_end :
  length cut_blob = 52%nat /\ fdt_valid (Some (of_bytes cut_blob)) 52 = Ret 1 /\
  fdt_first_child (Some (of_bytes cut_blob)) 40 = Fault 52 /\
  fdt_parent_offset (Some (of_bytes cut_blob)) 48 = Fault 52.
Proof. vm_compute. done. Qed.

(** A chain of [n] nodes below a node. *)
Fixpoint chain (n : nat) : tree :=
  match n with O => Node [] [] [] | S n' => Node [] [] [chain n'] end.

(** The search by compatible string need not end: on a chain of
    seventeen nested nodes it goes back and forth between depths 14 and 15
    for ever, since at the depth limit it drops back to the parent and the
    parent sends it down to the same child again. *)
Theorem compatible_search_diverges fuel :
  let blob := Some (blob_mem (chain 16) [] [] 16) in
  fdt_node_by_compatible_offset fuel blob [120] = NoFuel.
Proof.
  intros blob. unfold fdt_node_by_compatible_offset.
  assert (ctx_init blob = Ret (Some (blob_ctx (chain 16) [] [] 16))) as ->
    by (vm_compute; reflexivity).
  rewrite ret_bind. set (c := blob_ctx (chain 16) [] [] 16).
  assert (ok c (c_s c) 4 = true) as -> by (vm_compute; reflexivity). simpl negb. cbv iota.
  assert (rd_be32 (base c) (c_s c) = Ret FDT_BEGIN_NODE) as -> by (vm_compute; reflexivity).
  rewrite ret_bind. simpl Z.eqb. simpl negb. cbv iota.
  set (s0 := (0, <[0%nat := off_of c (c_s c)]> FDT_STACK0)).
  set (s := (14, map (fun k => 56 + 8 * Z.of_nat k) (seq 0 16))).
  assert (stepsM 16 (compatible_scan blob c [120]) s0 = Some s) as Hs by (vm_compute; reflexivity).
  assert (stepsM 2 (compatible_scan blob c [120]) s = Some s) as Hcyc by (vm_compute; reflexivity).
  destruct (decide (fuel <= 16)%nat) as [Hle|Hgt].
  - by eapply iterM_stepsM_short.
  - replace fuel with (16 + (fuel - 16))%nat by lia. rewrite (iterM_stepsM _ _ _ _ _ Hs).
    by eapply iterM_cycle.
Qed.
