(* ===== verification/FdtTest.v ===== *)
(** The project's own test of the device tree reader, run on the model.

    tests/fdt_test.c links lib/fdt.c into a host program that walks the blob
    dtc makes of tests/fdt_test.dts and counts its assertions.  Here the tree
    of that file is encoded in the format dtc writes and the test's [main] is
    run on the definitions of Fdt.v, with exactly the blob's bytes mapped.
    Passing it ties the model to the behaviour the project itself checks. *)
From Stdlib Require Import String.
From S2P Require Import Prelude CMem Console Fdt FdtTree FdtBlob.
Open Scope string_scope.

(** * tests/fdt_test.dts *)

(** A property before its name has a place in the strings block. *)
Record dts_prop := { p_name : string; p_value : list Z }.

Definition cells (ws : list Z) : list Z := concat (be_bytes 4 <$> ws).
Definition str (s : string) : list Z := (bytes_of s ++ [0])%list.
Definition strs (l : list string) : list Z := concat (str <$> l).
Definition prop (name : string) (value : list Z) : dts_prop := Build_dts_prop name value.

(** The property names in the order they first appear. *)
Definition dts_names : list string := [
  "#address-cells"; "#size-cells"; "compatible"; "model"; "device_type"; "reg"; "ranges";
  "interrupt-controller"; "#interrupt-cells"; "status"].
Definition dts_strings : list Z := strs dts_names.

Fixpoint name_offset (name : string) (l : list string) : Z :=
  match l with
  | [] => 0
  | s :: rest => if String.eqb s name then 0 else blen (str s) + name_offset name rest
  end.

Definition node (name : string) (ps : list dts_prop) (children : list tree) : tree :=
  Node (bytes_of name) ((fun p => (name_offset (p_name p) dts_names, p_value p)) <$> ps) children.

Definition dts_cpu (i : Z) (name : string) : tree :=
  node name [prop "device_type" (str "cpu"); prop "reg" (cells [i]);
             prop "compatible" (str "arm,cortex-a53")] [].

Definition dts_soc : tree :=
  node "soc" [prop "#address-cells" (cells [1]); prop "#size-cells" (cells [1]);
              prop "compatible" (str "simple-bus");
              prop "ranges" (cells [0x0; 0x0; 0x80000000; 0x10000])] [
    node "interrupt-controller@1000" [
      prop "compatible" (strs ["arm,gic-v3"; "arm,gic"]); prop "reg" (cells [0x1000; 0x10000]);
      prop "interrupt-controller" []; prop "#interrupt-cells" (cells [3])] [];
    node "serial@2000" [
      prop "compatible" (strs ["arm,pl011"; "arm,primecell"]); prop "reg" (cells [0x2000; 0x1000]);
      prop "status" (str "okay")] [];
    node "serial@3000" [
      prop "compatible" (strs ["arm,pl011"; "arm,primecell"]); prop "reg" (cells [0x3000; 0x1000]);
      prop "status" (str "disabled")] []].

Definition dts_root : tree :=
  node "" [prop "#address-cells" (cells [2]); prop "#size-cells" (cells [2]);
           prop "compatible" (str "saski,fdt-test"); prop "model" (str "saski fdt test")] [
    node "memory@80000000" [
      prop "device_type" (str "memory"); prop "reg" (cells [0x0; 0x80000000; 0x0; 0x10000000])] [];
    node "cpus" [prop "#address-cells" (cells [1]); prop "#size-cells" (cells [0])]
      [dts_cpu 0 "cpu@0"; dts_cpu 1 "cpu@1"; dts_cpu 2 "cpu@2"];
    dts_soc].

Definition dts_reserved : list fdt_range_t := [{| r_base := 0x80000000; r_size := 0x1000 |}].
Definition dts_blob : list Z := enc_blob dts_root dts_strings dts_reserved.

(** The tree is one the theorems about encoded trees apply to. *)
Lemma dts_wf : blob_wf dts_root dts_strings dts_reserved.
Proof. constructor; [|by_compute|by_compute]. simpl. repeat split; repeat constructor; by_compute. Qed.

Open Scope Z_scope.

(** * tests/fdt_test.c *)

(** [cell32], and [strcmp(m, s) == 0]. *)
Definition cell32 (rd : reader) (p : Z) : outcome Z := rd_be32 rd p.
Fixpoint strcmp_eq (rd : reader) (p : Z) (s : list Z) : outcome bool :=
  match s with
  | [] => b ← rd p; Ret (b =? 0)
  | c :: s' => b ← rd p; if b =? c then strcmp_eq rd (p + 1) s' else Ret false
  end.

Section Test.
(** [search] bounds the searches by compatible string. *)
Context (search : nat) (blob : list Z).
#[local] Abbreviation rd := (of_bytes blob).
#[local] Abbreviation b := (Some (of_bytes blob)).
#[local] Abbreviation n := (Z.of_nat (length blob)).

(** The checks, section by section; the [ok] calls' conditions in order. *)
Definition test_validity : outcome (list bool) :=
  v1 ← fdt_valid b n; v2 ← fdt_valid b (u64 (n - 40)); v3 ← fdt_valid None 0;
  Ret [v1 =? 1; v2 =? 0; v3 =? 0].

Definition test_paths (root soc serial gic : Z) : outcome (list bool) :=
  x ← fdt_path_offset b (bytes_of "/soc/serial@9999");
  y ← fdt_path_offset b (bytes_of "/soc/serial");
  Ret [0 <=? root; 0 <=? soc; 0 <=? serial; 0 <=? gic; x =? FDT_ERR_NODE; y =? FDT_ERR_NODE].

Definition test_properties (root gic : Z) : outcome (list bool) :=
  m ← fdt_getprop b root (bytes_of "model");
  eq ← match m with Some (p, _) => strcmp_eq rd p (bytes_of "saski fdt test") | None => Ret false end;
  absent ← fdt_getprop b root (bytes_of "nosuchprop");
  flag ← fdt_getprop b gic (bytes_of "interrupt-controller");
  ic ← fdt_getprop b gic (bytes_of "#interrupt-cells");
  ok3 ← match ic with
        | Some (p, len) => if len =? 4 then c ← cell32 rd p; Ret (c =? 3) else Ret false
        | None => Ret false
        end;
  Ret [match m with Some (_, len) => len =? blen (bytes_of "saski fdt test") + 1 | None => false end;
       eq; match absent with None => true | Some _ => false end;
       match flag with Some (_, len) => len =? 0 | None => false end; ok3].

Definition counts_are (ac sc : Z) (o : option (Z * Z)) : bool :=
  match o with Some (x, y) => (x =? ac) && (y =? sc) | None => false end.

Definition test_cells (root soc serial : Z) : outcome (list bool) :=
  c1 ← fdt_cell_counts b soc; c2 ← fdt_cell_counts b serial;
  '(a3, s3) ← fdt_own_cell_counts b soc;
  '(a4, s4) ← fdt_own_cell_counts b root;
  '(a5, s5) ← fdt_own_cell_counts b serial;
  c6 ← fdt_cell_counts b soc;
  Ret [counts_are 2 2 c1; counts_are 1 1 c2;
       bool_decide (a3 = Some 1 /\ s3 = Some 1); bool_decide (a4 = Some 2 /\ s4 = Some 2);
       bool_decide (a5 = None /\ s5 = None);
       (default (-1) a5 =? -1) && (default (-1) s5 =? -1); counts_are 2 2 c6].

Definition test_translation (serial gic : Z) : outcome (list bool) :=
  r ← fdt_reg_to_addr b serial; g ← fdt_reg_to_addr b gic;
  Ret [match r with Some _ => true | None => false end;
       match r with Some (base, _) => base =? 0x80002000 | None => false end;
       match r with Some (_, size) => size =? 0x1000 | None => false end;
       match g with Some (base, _) => base =? 0x80001000 | None => false end].

Definition one_range (base size : Z) (l : list fdt_range_t) : bool :=
  match l with [r] => (r_base r =? base) && (r_size r =? size) | _ => false end.

Definition test_memory : outcome (list bool) :=
  m ← fdt_memory_ranges b 8; q ← fdt_reserved_ranges b 8;
  Ret [one_range 0x80000000 0x10000000 m; one_range 0x80000000 0x1000 q].

Definition found (o : option Z) : bool := match o with Some off => 0 <=? off | None => false end.

Definition test_compatible : outcome (list bool) :=
  x ← fdt_node_by_compatible search b (bytes_of "arm,pl011");
  y ← fdt_node_by_compatible search b (bytes_of "arm,primecell");
  z ← fdt_node_by_compatible search b (bytes_of "arm,gic-v3");
  w ← fdt_node_by_compatible search b (bytes_of "no,such,thing");
  Ret [found x; found y; found z; match w with None => true | Some _ => false end].

(** [while ((c = fdt_next_child(blob, cpus, &cursor)) != 0) count++] *)
Definition count_step (cpus : Z) (v : Z * Z) : outcome (Z * Z + Z) :=
  let '(cursor, count) := v in
  '(c, cursor) ← fdt_next_child b cpus cursor;
  Ret (if c =? 0 then inr count else inl (cursor, count + 1)).

Definition test_children (cpus : Z) : outcome (list bool) :=
  count ← iterM search (count_step cpus) (0, 0); Ret [count =? 3].

Definition test_enabled (soc : Z) : outcome (list bool) :=
  enabled ← fdt_path_offset b (bytes_of "/soc/serial@2000");
  disabled ← fdt_path_offset b (bytes_of "/soc/serial@3000");
  x ← fdt_is_enabled b enabled; y ← fdt_is_enabled b disabled; z ← fdt_is_enabled b soc;
  Ret [x; negb y; z].

(** One turn of the loop over [cut]: the blob it walks is the whole one. *)
Definition walk_cut (cut : Z) : outcome unit :=
  _ ← fdt_valid b cut;
  o ← fdt_path_offset b (bytes_of "/soc/serial@2000");
  _ ← fdt_reg_to_addr b (if 0 <=? o then o else 0);
  _ ← fdt_node_by_compatible search b (bytes_of "arm,pl011");
  _ ← fdt_memory_ranges b 8;
  _ ← fdt_reserved_ranges b 8;
  Ret tt.

Fixpoint walk_cuts (turns : nat) (cut : Z) : outcome unit :=
  match turns with O => Ret tt | S t => _ ← walk_cut cut; walk_cuts t (cut + 7) end.

Definition test_truncation : outcome (list bool) :=
  _ ← walk_cuts (Z.to_nat ((n + 6) / 7)) 0; Ret [true].

Definition test_corrupted : outcome (list bool) :=
  let copy := Some (of_bytes (<[0%nat := 0]> blob)) in
  v ← fdt_valid copy n; o ← fdt_path_offset copy (bytes_of "/");
  Ret [v =? 0; o =? FDT_ERR_NODE].

(** [main], up to printing: the checks before the truncation loop, and the
    numbers passed and failed. *)
Definition test_before : outcome (list bool) :=
  t1 ← test_validity;
  root ← fdt_path_offset b (bytes_of "/");
  soc ← fdt_path_offset b (bytes_of "/soc");
  serial ← fdt_path_offset b (bytes_of "/soc/serial@2000");
  gic ← fdt_path_offset b (bytes_of "/soc/interrupt-controller@1000");
  t2 ← test_paths root soc serial gic;
  t3 ← test_properties root gic;
  t4 ← test_cells root soc serial;
  t5 ← test_translation serial gic;
  t6 ← test_memory;
  t7 ← test_compatible;
  cpus ← fdt_path_offset b (bytes_of "/cpus");
  t8 ← test_children cpus;
  t9 ← test_enabled soc;
  Ret (t1 ++ t2 ++ t3 ++ t4 ++ t5 ++ t6 ++ t7 ++ t8 ++ t9)%list.

Definition test_main : outcome (nat * nat) :=
  before ← test_before; t10 ← test_truncation; t11 ← test_corrupted;
  let all := (before ++ t10 ++ t11)%list in
  Ret (length (filter (fun x => x = true) all), length (filter (fun x => x = false) all)).

(** Every turn of the truncation loop is the same walk. *)
Lemma walk_cuts_ok turns : forall cut,
  (forall cut, walk_cut cut = Ret tt) -> walk_cuts turns cut = Ret tt.
Proof. induction turns as [|t IH]; intros cut H; [done|]. simpl. rewrite H, ret_bind. by apply IH. Qed.

End Test.

(** * Truncation *)

(** The first eight bytes of a blob decide against every size below the one
    they state. *)
Lemma fdt_valid_short rd total size :
  rd_be32 rd 0 = Ret FDT_MAGIC -> rd_be32 rd 4 = Ret total -> size < total ->
  fdt_valid (Some rd) size = Ret 0.
Proof.
  intros Hm Ht Hs. unfold fdt_valid. destruct (size <? 40); [done|].
  rewrite Hm, ret_bind, Z.eqb_refl. cbn [negb]. rewrite Ht, ret_bind.
  by rewrite (proj2 (Z.ltb_lt _ _) Hs).
Qed.

(** A truncated device tree is rejected before it is walked: of the blob
    of any well-formed tree, cut off after any number of bytes, with nothing
    at all mapped behind the cut, [fdt_valid] told the cut size returns 0 and
    reads no byte that is not there.  (The project's test of this walks the
    whole blob instead.) *)
Theorem truncation_rejected root strings rs cut :
  blob_wf root strings rs -> 0 <= cut < total_len root strings rs ->
  fdt_valid (Some (of_bytes (take (Z.to_nat cut) (enc_blob root strings rs)))) cut = Ret 0.
Proof.
  intros Hwf Hcut. destruct (Z.ltb_spec cut 40) as [Hlt|Hge].
  { unfold fdt_valid. by rewrite (proj2 (Z.ltb_lt _ _) Hlt). }
  assert (exists rest, take (Z.to_nat cut) (enc_blob root strings rs) =
    (be_bytes 4 FDT_MAGIC ++ be_bytes 4 (total_len root strings rs) ++ rest)%list) as [rest ->].
  { unfold enc_blob, enc_header. rewrite <- !app_assoc.
    rewrite take_app_ge by (rewrite length_be_bytes; lia). rewrite length_be_bytes.
    rewrite take_app_ge by (rewrite length_be_bytes; lia).
    eexists. reflexivity. }
  set (bs := (_ ++ _ ++ rest)%list).
  pose proof (holds_of_bytes [] bs []) as H. rewrite app_nil_r in H. simpl in H.
  unfold bs in H. rewrite !holds_app in H. destruct H as (H0 & H4 & _).
  rewrite length_be_bytes in H4.
  apply (fdt_valid_short _ (total_len root strings rs)); [| |lia].
  - apply rd_be32_holds; [by_compute|exact H0].
  - apply rd_be32_holds; [|exact H4]. pose proof (bw_size _ _ _ Hwf). unfold is_u32. lia.
Qed.

(** * The test's result *)

Lemma dts_walk cut : walk_cut 64 dts_blob cut = Ret tt.
Proof.
  assert (exists v, fdt_valid (Some (of_bytes dts_blob)) cut = Ret v) as [v Hv].
  { unfold fdt_valid. destruct (cut <? 40); [by eexists|].
    assert (rd_be32 (of_bytes dts_blob) 0 = Ret FDT_MAGIC) as -> by (by vm_compute).
    assert (rd_be32 (of_bytes dts_blob) 4 = Ret (total_len dts_root dts_strings dts_reserved)) as ->
      by (by vm_compute).
    rewrite ret_bind. cbn [negb Z.eqb]. rewrite Z.eqb_refl. cbn [negb]. rewrite ret_bind.
    destruct (cut <? _); [by eexists|].
    assert (exists c, ctx_init (Some (of_bytes dts_blob)) = Ret c) as [c ->]
      by (eexists; vm_compute; reflexivity). by eexists. }
  unfold walk_cut. rewrite Hv, ret_bind. vm_compute. reflexivity.
Qed.

(** Every assertion holds, and no call reads outside the blob. *)
Lemma fdt_test_passes : test_main 64 dts_blob = Ret (38%nat, 0%nat).
Proof.
  unfold test_main.
  assert (test_before 64 dts_blob = Ret (replicate 35 true)) as -> by (vm_compute; reflexivity).
  unfold test_truncation. rewrite walk_cuts_ok by apply dts_walk. rewrite !ret_bind.
  assert (test_corrupted dts_blob = Ret [true; true]) as -> by (vm_compute; reflexivity).
  rewrite ret_bind. reflexivity.
Qed.

Lemma truncation_rejected_witness :
  fdt_valid (Some (of_bytes (take 500 dts_blob))) 500 = Ret 0.
Proof.
  apply (truncation_rejected dts_root dts_strings dts_reserved 500 dts_wf). by_compute.
Defined.
