(* ===== verification/Uart.v ===== *)
(** The console transports: kernel/serial_x86_64.c and
    kernel/serial_aarch64.c.

    The hardware is a parameter: a type of device states with the accesses
    the code makes to it.  A register read may change the device, as time
    passes between two polls.  What the code relies on is stated as one
    class per device ([NS16550], [PL011], [CadenceUart]), from the devices'
    documentation.  [Transport] is what kernel/serial.c in turn relies on:
    that [serial_putc] delivers one byte.  Each device provides it. *)
From S2P Require Import Prelude CMem Console Fdt FdtTree FdtBlob FdtEdge.

(** [while (poll()) {}], at most [fuel] times; the state after the poll that
    said no. *)
Definition spin {D} (fuel : nat) (poll : D -> bool * D) (d : D) : outcome D :=
  iterM fuel (fun d => let r := poll d in Ret (if r.1 then inl r.2 else inr r.2)) d.

(** * COM1 *)

Definition COM1 : Z := 0x3F8.

Section Com1.
Context {D : Type} (inb : D -> Z -> Z * D) (outb : D -> Z -> Z -> D).

Definition serial_init_x86_64 (d : D) : D :=
  let d := outb d (COM1 + 1) 0x00 in
  let d := outb d (COM1 + 3) 0x80 in
  let d := outb d (COM1 + 0) 0x03 in
  let d := outb d (COM1 + 1) 0x00 in
  let d := outb d (COM1 + 3) 0x03 in
  let d := outb d (COM1 + 2) 0xC7 in
  outb d (COM1 + 4) 0x0B.

Definition transmit_empty (d : D) : Z * D :=
  let '(v, d) := inb d (COM1 + 5) in (Z.land v 0x20, d).

(** [fuel] bounds the number of polls. *)
Definition serial_putc_x86_64 (fuel : nat) (d : D) (c : Z) : outcome D :=
  d ← spin fuel (fun d => let '(t, d) := transmit_empty d in (t =? 0, d)) d;
  Ret (outb d COM1 (u8 c)).

End Com1.

(** * The memory-mapped UARTs *)

Definition PL011_DEFAULT_BASE : Z := 0x09000000.
Definition PL011_DR : Z := 0x000.
Definition PL011_FR : Z := 0x018.
Definition PL011_FR_TXFF : Z := Z.shiftl 1 5.
Definition CADENCE_CR : Z := 0x000.
Definition CADENCE_CR_RX_DIS : Z := Z.shiftl 1 3.
Definition CADENCE_CR_TX_EN : Z := Z.shiftl 1 4.
Definition CADENCE_CR_TX_DIS : Z := Z.shiftl 1 5.
Definition CADENCE_SR : Z := 0x02c.
Definition CADENCE_FIFO : Z := 0x030.
Definition CADENCE_SR_TXFULL : Z := Z.shiftl 1 4.

(** ["cdns,uart-r1p12"], ["xlnx,zynqmp-uart"], ["arm,pl011"]. *)
Definition str_cdns_uart : list Z :=
  [99; 100; 110; 115; 44; 117; 97; 114; 116; 45; 114; 49; 112; 49; 50].
Definition str_zynqmp_uart : list Z :=
  [120; 108; 110; 120; 44; 122; 121; 110; 113; 109; 112; 45; 117; 97; 114; 116].
Definition str_pl011 : list Z := [97; 114; 109; 44; 112; 108; 48; 49; 49].

(** The two statics. *)
Record uart_globals := { g_uart_base : Z; g_uart_is_cadence : bool }.
Definition uart_globals0 : uart_globals :=
  {| g_uart_base := PL011_DEFAULT_BASE; g_uart_is_cadence := false |}.

(** What the device tree offered. *)
Inductive uart_found := FoundNone | FoundCadence (at_ : Z) | FoundPl011 (at_ : Z).

#[export] Instance uart_found_eq_dec : EqDecision uart_found.
Proof. solve_decision. Defined.

(** [node != FDT_ERR_NODE && fdt_is_enabled(..) && fdt_reg_to_cpu_addr(..)] *)
Definition usable_uart (blob : option reader) (node : Z) : outcome (option Z) :=
  if node =? FDT_ERR_NODE then Ret None
  else
    en ← fdt_is_enabled blob node;
    if negb en then Ret (@None Z)
    else
      r ← fdt_reg_to_cpu_addr blob node 0;
      Ret (match r with Some r => Some (r_base r) | None => None end).

(** The search of [serial_init]; [fuel] bounds each walk of the tree. *)
Definition uart_probe (fuel : nat) (blob : option reader) (size : Z) : outcome uart_found :=
  match blob with
  | None => Ret FoundNone
  | Some _ =>
      ok ← fdt_valid blob size;
      if ok =? 0 then Ret FoundNone
      else
        node ← fdt_node_by_compatible_offset fuel blob str_cdns_uart;
        node ← (if node =? FDT_ERR_NODE
                then fdt_node_by_compatible_offset fuel blob str_zynqmp_uart else Ret node);
        r ← usable_uart blob node;
        match r with
        | Some p => Ret (FoundCadence p)
        | None =>
            node ← fdt_node_by_compatible_offset fuel blob str_pl011;
            r ← usable_uart blob node;
            Ret (match r with Some p => FoundPl011 p | None => FoundNone end)
        end
  end.

Definition uart_adopt (g : uart_globals) (f : uart_found) : uart_globals :=
  match f with
  | FoundNone => g
  | FoundCadence p => {| g_uart_base := p; g_uart_is_cadence := true |}
  | FoundPl011 p => {| g_uart_base := p; g_uart_is_cadence := g_uart_is_cadence g |}
  end.

Section Mmio.
Context {D : Type} (rd32 : D -> Z -> Z * D) (wr32 : D -> Z -> Z -> D).

(** The read-modify-write of the Cadence control register. *)
Definition cadence_enable (base : Z) (d : D) : D :=
  let control := u64 (base + CADENCE_CR) in
  let '(value, d) := rd32 d control in
  let value := Z.land value (u32 (Z.lnot (Z.lor CADENCE_CR_TX_DIS CADENCE_CR_RX_DIS))) in
  let value := Z.lor value CADENCE_CR_TX_EN in
  wr32 d control value.

Definition serial_init_aarch64 (fuel : nat) (blob : option reader) (size : Z)
    (g : uart_globals) (d : D) : outcome (uart_globals * D) :=
  f ← uart_probe fuel blob size;
  Ret (uart_adopt g f, match f with FoundCadence p => cadence_enable p d | _ => d end).

Definition serial_putc_aarch64 (g : uart_globals) (fuel : nat) (d : D) (c : Z) : outcome D :=
  let status := if g_uart_is_cadence g then CADENCE_SR else PL011_FR in
  let full := if g_uart_is_cadence g then CADENCE_SR_TXFULL else PL011_FR_TXFF in
  d ← spin fuel (fun d =>
        let '(v, d) := rd32 d (u64 (g_uart_base g + status)) in
        (negb (Z.land v full =? 0), d)) d;
  Ret (wr32 d (u64 (g_uart_base g + (if g_uart_is_cadence g then CADENCE_FIFO else PL011_DR)))
         (u8 c)).

End Mmio.

(** * What the formatter relies on *)

(** A transport: [putc fuel d c] with enough polls delivers the byte [c] and
    is ready for the next one. *)
Class Transport {D : Type} (putc : nat -> D -> Z -> outcome D) := {
  ready : D -> Prop;
  sent : D -> list Z;
  putc_sends d c : ready d ->
    exists d' n0, (forall n, (n0 <= n)%nat -> putc n d c = Ret d') /\
      sent d' = sent d ++ [u8 c] /\ ready d' }.

(** [serial_putc] for each byte of a run of the formatter. *)
Fixpoint emit {D} (putc : nat -> D -> Z -> outcome D) (n : nat) (d : D) (out : list Z) : outcome D :=
  match out with
  | [] => Ret d
  | c :: out' => d' ← putc n d c; emit putc n d' out'
  end.

Definition kprintf_to {D} (putc : nat -> D -> Z -> outcome D) (n : nat) (d : D)
    (fmt : list Z) (ap : list varg) : outcome D :=
  out ← kprintf fmt ap; emit putc n d out.

(** * The devices *)

(** The registers of a 16550 that [serial_init] writes. *)
Record ns_regs := { ier : Z; fcr : Z; lcr : Z; mcr : Z; dll : Z; dlm : Z }.

Definition dlab (r : ns_regs) : bool := Z.testbit (lcr r) 7.

(** A write to register [i]: with the divisor latch open, the first two
    addresses are the divisor. *)
Definition ns_write (r : ns_regs) (i v : Z) : ns_regs :=
  if i =? 0 then
    if dlab r then {| ier := ier r; fcr := fcr r; lcr := lcr r; mcr := mcr r; dll := v; dlm := dlm r |}
    else r
  else if i =? 1 then
    if dlab r then {| ier := ier r; fcr := fcr r; lcr := lcr r; mcr := mcr r; dll := dll r; dlm := v |}
    else {| ier := v; fcr := fcr r; lcr := lcr r; mcr := mcr r; dll := dll r; dlm := dlm r |}
  else if i =? 2 then
    {| ier := ier r; fcr := v; lcr := lcr r; mcr := mcr r; dll := dll r; dlm := dlm r |}
  else if i =? 3 then
    {| ier := ier r; fcr := fcr r; lcr := v; mcr := mcr r; dll := dll r; dlm := dlm r |}
  else if i =? 4 then
    {| ier := ier r; fcr := fcr r; lcr := lcr r; mcr := v; dll := dll r; dlm := dlm r |}
  else r.

(** A 16550 at [COM1].  [ns_accepted] is the bytes its transmitter was given;
    reading the line status sends nothing, reports an empty holding register
    in bit 5, and a busy transmitter is busy only so long ([ns_lag]). *)
Class NS16550 {D : Type} (inb : D -> Z -> Z * D) (outb : D -> Z -> Z -> D) := {
  ns_regs_of : D -> ns_regs;
  ns_accepted : D -> list Z;
  ns_empty : D -> Prop;
  ns_lag : D -> nat;
  ns_outb d i v : 0 <= i < 5 -> is_u8 v ->
    ns_regs_of (outb d (COM1 + i) v) = ns_write (ns_regs_of d) i v;
  ns_quiet d i v : 0 <= i < 5 -> is_u8 v -> i <> 0 \/ dlab (ns_regs_of d) = true ->
    ns_accepted (outb d (COM1 + i) v) = ns_accepted d;
  ns_status d v d' : inb d (COM1 + 5) = (v, d') ->
    ns_regs_of d' = ns_regs_of d /\ ns_accepted d' = ns_accepted d /\
    if Z.testbit v 5 then ns_empty d' else (ns_lag d' < ns_lag d)%nat;
  ns_send d v : ns_empty d -> dlab (ns_regs_of d) = false -> is_u8 v ->
    ns_accepted (outb d (COM1 + 0) v) = ns_accepted d ++ [v] }.

(** A PL011 at [base]: the flag register's bit 5 says that its FIFO is full. *)
Class PL011 {D : Type} (rd32 : D -> Z -> Z * D) (wr32 : D -> Z -> Z -> D) (base : Z) := {
  pl_accepted : D -> list Z;
  pl_room : D -> Prop;
  pl_lag : D -> nat;
  pl_status d v d' : rd32 d (base + PL011_FR) = (v, d') ->
    pl_accepted d' = pl_accepted d /\
    if Z.testbit v 5 then (pl_lag d' < pl_lag d)%nat else pl_room d';
  pl_send d v : pl_room d -> is_u8 v ->
    pl_accepted (wr32 d (base + PL011_DR) v) = pl_accepted d ++ [v] }.

(** The transmitter of a Cadence UART runs when its enable bit is set and
    its disable bit is not. *)
Definition tx_on (cr : Z) : Prop := Z.testbit cr 4 = true /\ Z.testbit cr 5 = false.

(** A Cadence UART at [base]: its FIFO drains only while the transmitter is
    on. *)
Class CadenceUart {D : Type} (rd32 : D -> Z -> Z * D) (wr32 : D -> Z -> Z -> D) (base : Z) := {
  cd_cr : D -> Z;
  cd_accepted : D -> list Z;
  cd_room : D -> Prop;
  cd_lag : D -> nat;
  cd_read_cr d v d' : rd32 d (base + CADENCE_CR) = (v, d') ->
    v = cd_cr d /\ is_u32 v /\ cd_cr d' = cd_cr d /\ cd_accepted d' = cd_accepted d;
  cd_write_cr d v : is_u32 v ->
    cd_cr (wr32 d (base + CADENCE_CR) v) = v /\
    cd_accepted (wr32 d (base + CADENCE_CR) v) = cd_accepted d;
  cd_status d v d' : rd32 d (base + CADENCE_SR) = (v, d') ->
    cd_cr d' = cd_cr d /\ cd_accepted d' = cd_accepted d /\
    (if Z.testbit v 4 then tx_on (cd_cr d) -> (cd_lag d' < cd_lag d)%nat else cd_room d');
  cd_send d v : cd_room d -> is_u8 v ->
    cd_accepted (wr32 d (base + CADENCE_FIFO) v) = cd_accepted d ++ [v] /\
    cd_cr (wr32 d (base + CADENCE_FIFO) v) = cd_cr d }.

(** * Polling *)

Lemma land_bit v n : 0 <= n -> (Z.land v (Z.shiftl 1 n) =? 0) = negb (Z.testbit v n).
Proof.
  intros Hn. rewrite Z.shiftl_1_l. destruct (Z.testbit v n) eqn:E; simpl.
  - apply Z.eqb_neq. intros H. assert (Z.testbit (Z.land v (2 ^ n)) n = true) as Hb.
    { by rewrite Z.land_spec, E, Z.pow2_bits_true. }
    by rewrite H, Z.bits_0 in Hb.
  - apply Z.eqb_eq, Z.bits_inj'. intros i Hi. rewrite Z.land_spec, Z.bits_0.
    destruct (decide (i = n)) as [->|]; [by rewrite E|].
    rewrite Z.pow2_bits_false by lia. apply andb_false_r.
Qed.

(** A poll that keeps [I], makes progress on [lag] while it says "wait", and
    establishes [P] when it does not: the loop ends, for every large bound,
    in the same state. *)
Lemma spin_ends {D} (poll : D -> bool * D) (I P : D -> Prop) (lag : D -> nat) :
  (forall d b d', I d -> poll d = (b, d') ->
     I d' /\ if b then (lag d' < lag d)%nat else P d') ->
  forall d, I d -> exists d', I d' /\ P d' /\
    forall n, (S (lag d) <= n)%nat -> spin n poll d = Ret d'.
Proof.
  intros Hpoll d Hd. unfold spin.
  set (step := fun d => Ret (if (poll d).1 then inl (poll d).2 else inr (poll d).2)).
  assert (wp (iterM (S (lag d)) step d) (fun d' => I d' /\ P d')) as Hw.
  { apply (wp_iter step I lag); [|done|lia]. intros e He. unfold step.
    destruct (poll e) as [[] e'] eqn:E; exact (Hpoll _ _ _ He E). }
  apply wp_inv in Hw as (d' & Hr & HI & HP).
  exists d'. split; [done|]. split; [done|]. intros n Hn. by eapply iterM_fuel_mono.
Qed.

(** * COM1 delivers *)

Section Com1_facts.
Context {D : Type} (inb : D -> Z -> Z * D) (outb : D -> Z -> Z -> D) `{Hns : !NS16550 inb outb}.

Lemma com1_putc_sends d c :
  dlab (ns_regs_of d) = false ->
  exists d' n0, (forall n, (n0 <= n)%nat -> serial_putc_x86_64 inb outb n d c = Ret d') /\
    ns_accepted d' = ns_accepted d ++ [u8 c] /\ dlab (ns_regs_of d') = false.
Proof.
  intros Hd.
  destruct (spin_ends (fun d => let '(t, d) := transmit_empty inb d in (t =? 0, d))
    (fun e => ns_regs_of e = ns_regs_of d /\ ns_accepted e = ns_accepted d) ns_empty ns_lag)
    with (d := d) as (d' & (Hr & Ha) & He & Hn); [|done|].
  { intros e b e' [Hr Ha]. unfold transmit_empty.
    destruct (inb e (COM1 + 5)) as [v e''] eqn:E. intros [= <- <-].
    change 0x20 with (Z.shiftl 1 5). rewrite land_bit by lia.
    apply ns_status in E as (-> & -> & H). by destruct (Z.testbit v 5). }
  exists (outb d' COM1 (u8 c)), (S (ns_lag d)).
  assert (is_u8 (u8 c)) as Hc by apply u8_range.
  split; [|split].
  - intros n Hle. unfold serial_putc_x86_64. by rewrite Hn, ret_bind.
  - change COM1 with (COM1 + 0). rewrite ns_send by (rewrite ?Hr; done). by rewrite Ha.
  - change COM1 with (COM1 + 0). rewrite ns_outb by (lia || done). unfold ns_write. simpl.
    by rewrite Hr, Hd.
Qed.

#[export] Instance com1_transport : Transport (serial_putc_x86_64 inb outb) := {|
  ready d := dlab (ns_regs_of d) = false;
  sent := ns_accepted;
  putc_sends := com1_putc_sends |}.

(** The seven writes, in their order: the divisor goes into the latch while
    it is open and nothing is sent.  The first write disables the interrupts
    unless the latch was open to begin with. *)
Lemma com1_init_regs d :
  ns_regs_of (serial_init_x86_64 outb d) = {|
    ier := if dlab (ns_regs_of d) then ier (ns_regs_of d) else 0;
    fcr := 0xC7; lcr := 0x03; mcr := 0x0B; dll := 3; dlm := 0 |} /\
  ns_accepted (serial_init_x86_64 outb d) = ns_accepted d.
Proof.
  unfold serial_init_x86_64. split.
  - rewrite !ns_outb by by_compute.
    assert ((if dlab (ns_regs_of d) then ier (ns_regs_of d) else 0)
      = ier (ns_write (ns_regs_of d) 1 0)) as ->
      by (unfold ns_write; simpl; by destruct (dlab (ns_regs_of d))).
    generalize (ns_write (ns_regs_of d) 1 0). intros r. reflexivity.
  - rewrite !ns_quiet; try (done || by_compute || (left; lia)).
    right. by rewrite ns_outb by by_compute.
Qed.

End Com1_facts.

(** * The memory-mapped UARTs deliver *)

Section Mmio_facts.
Context {D : Type} (rd32 : D -> Z -> Z * D) (wr32 : D -> Z -> Z -> D) (base : Z).
Context (Hbase : 0 <= base < 2 ^ 63).

Lemma reg_at off : 0 <= off < 0x100 -> u64 (base + off) = base + off.
Proof. intros. apply u64_small. ulia. Qed.

Section Pl011_facts.
Context `{Hpl : !PL011 rd32 wr32 base}.

Let g : uart_globals := {| g_uart_base := base; g_uart_is_cadence := false |}.

Lemma pl011_putc_sends d c :
  True -> exists d' n0, (forall n, (n0 <= n)%nat -> serial_putc_aarch64 rd32 wr32 g n d c = Ret d') /\
    pl_accepted d' = pl_accepted d ++ [u8 c] /\ True.
Proof.
  intros _. unfold serial_putc_aarch64. simpl. rewrite !reg_at by by_compute.
  destruct (spin_ends (fun d => let '(v, d) := rd32 d (base + PL011_FR) in
      (negb (Z.land v PL011_FR_TXFF =? 0), d))
    (fun e => pl_accepted e = pl_accepted d) pl_room pl_lag)
    with (d := d) as (d' & Ha & He & Hn); [|done|].
  { intros e b e' Ha. destruct (rd32 e (base + PL011_FR)) as [v e''] eqn:E. intros [= <- <-].
    unfold PL011_FR_TXFF. rewrite land_bit, negb_involutive by lia.
    apply pl_status in E as (-> & H). by destruct (Z.testbit v 5). }
  exists (wr32 d' (base + PL011_DR) (u8 c)), (S (pl_lag d)). split; [|split; [|done]].
  - intros n Hle. by rewrite Hn, ret_bind.
  - rewrite pl_send by (done || apply u8_range). by rewrite Ha.
Qed.

#[export] Instance pl011_transport : Transport (serial_putc_aarch64 rd32 wr32 g) := {|
  ready _ := True; sent := pl_accepted; putc_sends := pl011_putc_sends |}.
End Pl011_facts.

Section Cadence_facts.
Context `{Hcd : !CadenceUart rd32 wr32 base}.

Let g : uart_globals := {| g_uart_base := base; g_uart_is_cadence := true |}.

Lemma cadence_putc_sends d c :
  tx_on (cd_cr d) ->
  exists d' n0, (forall n, (n0 <= n)%nat -> serial_putc_aarch64 rd32 wr32 g n d c = Ret d') /\
    cd_accepted d' = cd_accepted d ++ [u8 c] /\ tx_on (cd_cr d').
Proof.
  intros Hon. unfold serial_putc_aarch64. simpl. rewrite !reg_at by by_compute.
  destruct (spin_ends (fun d => let '(v, d) := rd32 d (base + CADENCE_SR) in
      (negb (Z.land v CADENCE_SR_TXFULL =? 0), d))
    (fun e => cd_cr e = cd_cr d /\ cd_accepted e = cd_accepted d) cd_room cd_lag)
    with (d := d) as (d' & (Hr & Ha) & He & Hn); [|done|].
  { intros e b e' [Hr Ha]. destruct (rd32 e (base + CADENCE_SR)) as [v e''] eqn:E. intros [= <- <-].
    unfold CADENCE_SR_TXFULL. rewrite land_bit, negb_involutive by lia.
    apply cd_status in E as (Hr' & -> & H). rewrite Hr'.
    destruct (Z.testbit v 4); [|done]. split; [done|]. apply H. by rewrite Hr. }
  exists (wr32 d' (base + CADENCE_FIFO) (u8 c)), (S (cd_lag d)).
  destruct (cd_send d' (u8 c) He (u8_range c)) as [Hs Hc]. split; [|split].
  - intros n Hle. by rewrite Hn, ret_bind.
  - by rewrite Hs, Ha.
  - by rewrite Hc, Hr.
Qed.

#[export] Instance cadence_transport : Transport (serial_putc_aarch64 rd32 wr32 g) := {|
  ready d := tx_on (cd_cr d); sent := cd_accepted; putc_sends := cadence_putc_sends |}.
End Cadence_facts.
End Mmio_facts.

(** * The console on a transport *)

Section Console_on.
Context {D : Type} (putc : nat -> D -> Z -> outcome D) `{Ht : !Transport putc}.

Lemma emit_delivers out : forall d, ready d ->
  exists d' n0, (forall n, (n0 <= n)%nat -> emit putc n d out = Ret d') /\
    sent d' = sent d ++ (u8 <$> out) /\ ready d'.
Proof.
  induction out as [|c out IH]; intros d Hd.
  - exists d, 0%nat. rewrite app_nil_r. by repeat split.
  - destruct (putc_sends d c Hd) as (d1 & n1 & H1 & Hs1 & Hr1).
    destruct (IH d1 Hr1) as (d2 & n2 & H2 & Hs2 & Hr2).
    exists d2, (Nat.max n1 n2). split; [|split; [|done]].
    + intros n Hn. simpl. rewrite H1, ret_bind by lia. apply H2. lia.
    + by rewrite Hs2, Hs1, <- app_assoc.
Qed.

(** A run of the formatter that returns reaches the wire, whatever the
    transport: exactly its bytes, in order, after finitely many polls. *)
Lemma kprintf_delivers d fmt ap out :
  ready d -> kprintf fmt ap = Ret out ->
  exists d' n0, (forall n, (n0 <= n)%nat -> kprintf_to putc n d fmt ap = Ret d') /\
    sent d' = sent d ++ (u8 <$> out) /\ ready d'.
Proof.
  intros Hd Hk. destruct (emit_delivers out d Hd) as (d' & n0 & H & Hs & Hr).
  exists d', n0. split; [|by split]. intros n Hn. unfold kprintf_to.
  by rewrite Hk, ret_bind, H.
Qed.

End Console_on.

(** C24. Whatever state a 16550 is found in, [serial_init] sets it to 38400 baud
    (115200 divided by 3), eight bits, no parity, one stop bit, sends
    nothing, and from then on each [kprintf] that returns puts exactly its
    bytes on the line, in order, however long the transmitter is busy before
    each. *)
Theorem com1_console {D} (inb : D -> Z -> Z * D) (outb : D -> Z -> Z -> D)
    `{Hns : !NS16550 inb outb} d fmt ap out :
  kprintf fmt ap = Ret out ->
  let d0 := serial_init_x86_64 outb d in
  dll (ns_regs_of d0) + 256 * dlm (ns_regs_of d0) = 115200 / 38400 /\
  lcr (ns_regs_of d0) = 0x03 /\ ns_accepted d0 = ns_accepted d /\
  exists d' n0,
    (forall n, (n0 <= n)%nat -> kprintf_to (serial_putc_x86_64 inb outb) n d0 fmt ap = Ret d') /\
    ns_accepted d' = ns_accepted d ++ (u8 <$> out).
Proof.
  intros Hk d0. destruct (com1_init_regs inb outb d) as [Hr Ha]. fold d0 in Hr, Ha.
  rewrite Hr. split; [done|]. split; [done|]. split; [done|].
  destruct (kprintf_delivers (serial_putc_x86_64 inb outb) d0 fmt ap out) as (d' & n0 & H & Hs & _);
    [simpl; by rewrite Hr|done|].
  exists d', n0. split; [done|]. simpl in Hs. by rewrite Hs, Ha.
Qed.

(** The control word [serial_init] writes: transmitter on, receiver no
    longer disabled, every other bit as it was. *)
Lemma cadence_control v i :
  0 <= i < 32 ->
  Z.testbit (Z.lor (Z.land v (u32 (Z.lnot (Z.lor CADENCE_CR_TX_DIS CADENCE_CR_RX_DIS))))
    CADENCE_CR_TX_EN) i =
  (i =? 4) || (negb (i =? 5) && negb (i =? 3) && Z.testbit v i).
Proof.
  intros Hi. unfold u32, CADENCE_CR_TX_DIS, CADENCE_CR_RX_DIS, CADENCE_CR_TX_EN.
  rewrite !Z.shiftl_1_l, Z.lor_spec, Z.land_spec, Z.mod_pow2_bits_low, Z.lnot_spec, Z.lor_spec by lia.
  rewrite !Z.pow2_bits_eqb, !(Z.eqb_sym _ i) by lia.
  destruct (Z.testbit v i), (i =? 3), (i =? 4), (i =? 5); done.
Qed.

(** C25. When the device tree offers a Cadence UART, [serial_init] adopts it,
    switches its transmitter on and leaves every control bit but the three
    it names, and from then on each [kprintf] that returns puts exactly its
    bytes into the UART, in order. *)
Theorem cadence_console {D} (rd32 : D -> Z -> Z * D) (wr32 : D -> Z -> Z -> D) base
    `{Hcd : !CadenceUart rd32 wr32 base} fuel blob size g d fmt ap out :
  0 <= base < 2 ^ 63 ->
  uart_probe fuel blob size = Ret (FoundCadence base) -> kprintf fmt ap = Ret out ->
  exists g' d0, serial_init_aarch64 rd32 wr32 fuel blob size g d = Ret (g', d0) /\
    cd_accepted d0 = cd_accepted d /\
    (forall i, 0 <= i < 32 -> Z.testbit (cd_cr d0) i =
       (i =? 4) || (negb (i =? 5) && negb (i =? 3) && Z.testbit (cd_cr d) i)) /\
    exists d' n0,
      (forall n, (n0 <= n)%nat -> kprintf_to (serial_putc_aarch64 rd32 wr32 g') n d0 fmt ap = Ret d') /\
      cd_accepted d' = cd_accepted d ++ (u8 <$> out).
Proof.
  intros Hb Hp Hk. unfold serial_init_aarch64. rewrite Hp, ret_bind.
  eexists _, _. split; [reflexivity|]. unfold cadence_enable. rewrite (reg_at base Hb) by by_compute.
  destruct (rd32 d (base + CADENCE_CR)) as [v d1] eqn:E.
  apply cd_read_cr in E as (-> & Hcr & Hr & Ha). simpl.
  set (w := Z.lor _ _).
  assert (is_u32 w) as Hw.
  { pose proof (u32_range (Z.lnot (Z.lor CADENCE_CR_TX_DIS CADENCE_CR_RX_DIS))) as Hm.
    unfold_ints. subst w. set (m := u32 _) in *. clearbody m.
    assert (0 <= Z.land (cd_cr d) m < 2 ^ 32) as Hl by (apply land_bound; lia).
    apply lor_bound; [done|by_compute]. }
  destruct (cd_write_cr d1 w Hw) as [Hc Hd].
  split; [by rewrite Hd|]. split; [intros i Hi; rewrite Hc; by apply cadence_control|].
  destruct (kprintf_delivers (serial_putc_aarch64 rd32 wr32
      {| g_uart_base := base; g_uart_is_cadence := true |}) (Ht := cadence_transport rd32 wr32 base Hb)
    (wr32 d1 (base + CADENCE_CR) w) fmt ap out) as (d' & n0 & H & Hs & _); [|done|].
  - simpl. rewrite Hc. split; by apply cadence_control.
  - exists d', n0. split; [done|]. simpl in Hs. by rewrite Hs, Hd, Ha.
Qed.

(** * Devices that behave as the classes say *)

(** A transmitter that is busy for three polls after each byte. *)
Record ex_dev := { ex_regs : ns_regs; ex_cr : Z; ex_busy : nat; ex_line : list Z }.

Definition ex_tick (d : ex_dev) : ex_dev :=
  {| ex_regs := ex_regs d; ex_cr := ex_cr d; ex_busy := pred (ex_busy d); ex_line := ex_line d |}.
Definition ex_take (d : ex_dev) (v : Z) : ex_dev :=
  {| ex_regs := ex_regs d; ex_cr := ex_cr d; ex_busy := 3; ex_line := ex_line d ++ [v] |}.

Definition ex_inb (d : ex_dev) (port : Z) : Z * ex_dev :=
  if port =? COM1 + 5 then ((if (ex_busy d =? 1)%nat || (ex_busy d =? 0)%nat then 0x60 else 0x40), ex_tick d)
  else (0, d).

Definition ex_outb (d : ex_dev) (port v : Z) : ex_dev :=
  let d' := {| ex_regs := ns_write (ex_regs d) (port - COM1) v; ex_cr := ex_cr d;
               ex_busy := ex_busy d; ex_line := ex_line d |} in
  if (port =? COM1) && negb (dlab (ex_regs d)) then ex_take d' v else d'.

#[local] Instance ex_ns16550 : NS16550 ex_inb ex_outb.
Proof.
  refine {| ns_regs_of := ex_regs; ns_accepted := ex_line; ns_empty d := ex_busy d = 0%nat;
            ns_lag := ex_busy |}.
  - intros d i v Hi _. unfold ex_outb. replace (COM1 + i - COM1) with i by lia. by case_if.
  - intros d i v Hi _ H. unfold ex_outb. destruct (Z.eqb_spec (COM1 + i) COM1); [|done].
    destruct H as [?| ->]; [lia|done].
  - intros [r cr b l] v d'. unfold ex_inb, ex_tick. simpl. intros [= <- <-]. simpl.
    do 2 (split; [done|]). destruct b as [|[|b]]; simpl; lia || done.
  - intros d v _ Hd _. unfold ex_outb. simpl. by rewrite Hd.
Defined.

(** The same transmitter as a Cadence UART at 0xFF000000; it makes progress
    only when switched on. *)
Definition ex_base : Z := 0xFF000000.

Definition ex_on (cr : Z) : bool := Z.testbit cr 4 && negb (Z.testbit cr 5).

Definition ex_rd32 (d : ex_dev) (a : Z) : Z * ex_dev :=
  if a =? ex_base + CADENCE_SR then
    if ex_on (u32 (ex_cr d)) then
      ((if (ex_busy d =? 1)%nat || (ex_busy d =? 0)%nat then 0 else CADENCE_SR_TXFULL), ex_tick d)
    else ((if (ex_busy d =? 0)%nat then 0 else CADENCE_SR_TXFULL), d)
  else if a =? ex_base + CADENCE_CR then (u32 (ex_cr d), d) else (0, d).

Definition ex_wr32 (d : ex_dev) (a v : Z) : ex_dev :=
  if a =? ex_base + CADENCE_FIFO then ex_take d v
  else if a =? ex_base + CADENCE_CR then
    {| ex_regs := ex_regs d; ex_cr := v; ex_busy := ex_busy d; ex_line := ex_line d |}
  else d.

#[local] Instance ex_cadence : CadenceUart ex_rd32 ex_wr32 ex_base.
Proof.
  refine {| cd_cr d := u32 (ex_cr d); cd_accepted := ex_line; cd_room d := ex_busy d = 0%nat;
            cd_lag := ex_busy |}.
  - intros d v d'. unfold ex_rd32. simpl. intros [= <- <-].
    repeat split; try done; apply u32_range.
  - intros d v Hv. unfold ex_wr32. simpl. split; [by apply u32_small|done].
  - intros [r cr b l] v d'. unfold ex_rd32, ex_tick. simpl.
    destruct (ex_on (u32 cr)) eqn:E; intros [= <- <-]; simpl; (do 2 (split; [done|]));
      destruct b as [|[|b]]; simpl; try done; try lia;
      intros [H4 H5]; unfold ex_on in E; by rewrite H4, H5 in E.
  - done.
Defined.

(** A tree with one Cadence UART, and the formatter's ["%u\n"]. *)
Definition ex_serial : tree :=
  Node [115; 101; 114; 105; 97; 108] [(31, str_cdns_uart ++ [0]); (27, be_bytes 4 ex_base ++ be_bytes 4 0x1000)] [].
Definition ex_board : tree := Node [] [(0, be_bytes 4 1); (15, be_bytes 4 1)] [ex_serial].
Definition ex_board_blob : option reader := Some (blob_mem ex_board ex_strings [] 16).

Definition ex_format : list Z := [37; 117; 10; 0].
Definition ex_dev0 : ex_dev :=
  {| ex_regs := {| ier := 1; fcr := 0; lcr := 0x80; mcr := 0; dll := 1; dlm := 0 |};
     ex_cr := 0x128; ex_busy := 2; ex_line := [] |}.

Lemma com1_console_witness :
  exists d' n0, (forall n, (n0 <= n)%nat ->
      kprintf_to (serial_putc_x86_64 ex_inb ex_outb) n (serial_init_x86_64 ex_outb ex_dev0)
        ex_format [VInt 42] = Ret d') /\
    ex_line d' = [52; 50; 13; 10].
Proof.
  destruct (com1_console ex_inb ex_outb ex_dev0 ex_format [VInt 42] [52; 50; 13; 10] eq_refl)
    as (_ & _ & _ & d' & n0 & H & Hs).
  exists d', n0. split; [exact H|exact Hs].
Defined.

Lemma cadence_console_witness :
  exists g' d0, serial_init_aarch64 ex_rd32 ex_wr32 20 ex_board_blob 210 uart_globals0 ex_dev0
      = Ret (g', d0) /\ u32 (ex_cr d0) = 0x110 /\
    exists d' n0, (forall n, (n0 <= n)%nat ->
      kprintf_to (serial_putc_aarch64 ex_rd32 ex_wr32 g') n d0 ex_format [VInt 42] = Ret d') /\
    ex_line d' = [52; 50; 13; 10].
Proof.
  destruct (cadence_console ex_rd32 ex_wr32 ex_base 20 ex_board_blob 210 uart_globals0 ex_dev0
    ex_format [VInt 42] [52; 50; 13; 10]) as (g' & d0 & Hi & _ & _ & d' & n0 & H & Hs);
    [by_compute|vm_compute; reflexivity|reflexivity|].
  exists g', d0. split; [exact Hi|]. split.
  - vm_compute in Hi. injection Hi as _ <-. reflexivity.
  - exists d', n0. split; [exact H|exact Hs].
Defined.
