(* ===== verification/UartTree.v ===== *)
(** The console on a described machine: which UART [serial_init] of
    kernel/serial_aarch64.c picks, as a function of the device tree. *)
From S2P Require Import Prelude CMem Console Fdt FdtSafe FdtTotal FdtTree FdtBlob FdtSearch FdtReg FdtEdge Uart.

(** * The node a search finds, with its ancestors *)

Fixpoint first_compatible (names : Z -> list Z) (want : list Z) (t : tree) (p : Z)
    (up : list (Z * tree)) : option (Z * tree * list (Z * tree)) :=
  if decide (compatible_with names want t) then Some (p, t, up)
  else
    (fix go (ts : list tree) (q : Z) :=
       match ts with
       | [] => None
       | ch :: ts' =>
           match first_compatible names want ch q ((p, t) :: up) with
           | Some r => Some r
           | None => go ts' (q + blen (enc_node ch))
           end
       end) (t_children t) (p + body_len t).

Fixpoint first_compatibles (names : Z -> list Z) (want : list Z) (ts : list tree) (q : Z)
    (up : list (Z * tree)) : option (Z * tree * list (Z * tree)) :=
  match ts with
  | [] => None
  | ch :: ts' =>
      match first_compatible names want ch q up with
      | Some r => Some r
      | None => first_compatibles names want ts' (q + blen (enc_node ch)) up
      end
  end.

Lemma first_compatible_node names want t p up :
  first_compatible names want t p up =
    if decide (compatible_with names want t) then Some (p, t, up)
    else first_compatibles names want (t_children t) (p + body_len t) ((p, t) :: up).
Proof.
  destruct t as [nm ps cs]. cbn [first_compatible t_children]. case_decide; [done|].
  generalize (p + body_len (Node nm ps cs)). generalize ((p, Node nm ps cs) :: up). intros up'.
  induction cs as [|ch cs IH]; intros q; simpl; [done|]. by rewrite IH.
Qed.

(** It is the node [find_compatible] finds. *)
Lemma first_compatible_offset names want t : forall p up,
  find_compatible names want t p = (fun r => r.1.1) <$> first_compatible names want t p up.
Proof.
  induction t as [nm ps cs IH] using tree_induction. intros p up.
  rewrite find_compatible_node, first_compatible_node. case_decide as Hd; [done|]. clear Hd.
  generalize (p + body_len (Node nm ps cs)). generalize ((p, Node nm ps cs) :: up).
  simpl t_children. intros up'. induction cs as [|ch cs IHcs]; intros q; [done|].
  apply Forall_cons in IH as [IHch IH]. simpl. rewrite (IHch q up').
  destruct (first_compatible names want ch q up'); [done|]. by apply IHcs.
Qed.

Lemma first_compatible_route names want t : forall p up q u up',
  first_compatible names want t p up = Some (q, u, up') ->
  exists up1, up' = up1 ++ up /\ route t p q u up1 /\ compatible_with names want u.
Proof.
  induction t as [nm ps cs IH] using tree_induction. intros p up q u up'. set (t := Node nm ps cs).
  rewrite first_compatible_node. case_decide as Hc; [intros [= <- <- <-]; exists []; by repeat constructor|].
  assert (forall pre ts, cs = pre ++ ts ->
    first_compatibles names want ts (p + body_len t + blen (enc_nodes pre)) ((p, t) :: up) = Some (q, u, up') ->
    exists up1, up' = up1 ++ up /\ route t p q u up1 /\ compatible_with names want u) as Hgo.
  2:{ intros H. apply (Hgo [] cs eq_refl). change (blen (enc_nodes [])) with 0. by rewrite Z.add_0_r. }
  intros pre ts. revert pre. induction ts as [|ch ts IHts]; intros pre Hcs H; [done|].
  simpl in H. destruct (first_compatible names want ch _ _) as [[[q1 u1] up2]|] eqn:Hf.
  - injection H as <- <- <-. rewrite Forall_forall in IH.
    destruct (IH ch ltac:(rewrite Hcs; apply elem_of_app; right; by left) _ _ _ _ _ Hf)
      as (up1 & -> & Hr & Hcw).
    exists (up1 ++ [(p, t)]). split; [by rewrite <- app_assoc|]. split; [|done].
    econstructor; [|exact Hr]. change (t_children t) with cs. rewrite Hcs. apply placed_split.
  - apply (IHts (pre ++ [ch])); [by rewrite Hcs, <- app_assoc|].
    rewrite blen_nodes_app, blen_nodes_cons. change (blen (enc_nodes [])) with 0.
    by rewrite Z.add_0_r, Z.add_assoc.
Qed.

Lemma route_height t p q u up : route t p q u up -> Z.of_nat (length up) + height u <= height t.
Proof.
  induction 1 as [|t p pre ch q0 post q u up Hpl _ IH]; [simpl; lia|].
  rewrite length_app, (height_node t). simpl length. apply placed_eq in Hpl as [-> _].
  assert (height ch <= heights (pre ++ ch :: post)); [|lia].
  clear. induction pre; simpl; lia.
Qed.

(** * Which UART *)

(** The first node compatible with [want], if it is enabled: where the
    processor finds its registers. *)
Definition tree_uart (names : Z -> list Z) (root : tree) (p : Z) (want : list Z) : option Z :=
  match first_compatible names want root p [] with
  | Some (_, u, up) =>
      if decide (enabled names u) then r_base <$> cpu_range names u up.*2 0 else None
  | None => None
  end.

Definition compatible_exists (names : Z -> list Z) (want : list Z) (root : tree) (p : Z) : bool :=
  match first_compatible names want root p [] with Some _ => true | None => false end.

(** A Cadence UART, by either of its names (the second only when no node
    has the first), before a PL011. *)
Definition tree_console (names : Z -> list Z) (root : tree) (p : Z) : uart_found :=
  let cadence := if compatible_exists names str_cdns_uart root p then str_cdns_uart else str_zynqmp_uart in
  match tree_uart names root p cadence with
  | Some a => FoundCadence a
  | None =>
      match tree_uart names root p str_pl011 with
      | Some a => FoundPl011 a
      | None => FoundNone
      end
  end.

(** What a described machine needs to be: the blob encodes the tree, its
    names are resolved, its cell counts do not wrap and it is no deeper than
    the search's stack. *)
Record described (root : tree) (strings : list Z) (rs : list fdt_range_t) (names : Z -> list Z) : Prop := {
  de_wf : blob_wf root strings rs;
  de_named : tree_named strings names root;
  de_modest : Forall (cells_modest names) (tree_nodes root);
  de_height : height root <= FDT_MAX_DEPTH }.

Section Probe.
Context (root : tree) (strings : list Z) (rs : list fdt_range_t) (names : Z -> list Z).
Context (rd : reader) (pad : list Z) (Hrd : holds rd 0 (enc_blob root strings rs ++ pad)).
Context (Hpad : bytes_ok pad) (Hslack : (16 <= length pad)%nat).
Context (Hde : described root strings rs names).
#[local] Abbreviation start := (40 + rsv_len rs).
#[local] Abbreviation c := (image_ctx root strings rs rd).

Lemma described_stores :
  stores rd (total_len root strings rs + Z.of_nat (length pad)) (Z.of_nat (length pad)) c root.
Proof. exact (image_stores root strings rs rd pad (de_wf _ _ _ _ Hde) Hrd Hpad Hslack). Qed.

Lemma described_named q u anc : located root start q u anc -> named c names u.
Proof. exact (tree_named_image _ _ _ _ _ _ _ _ _ Hrd (de_named _ _ _ _ Hde)). Qed.

Lemma image_valid size : total_len root strings rs <= size -> fdt_valid (Some rd) size = Ret 1.
Proof.
  intros Hsz. destruct Hde as [Hwf _ _ _].
  destruct (image_fields root strings rs rd pad Hwf Hrd Hslack) as (H0 & H4 & _).
  unfold fdt_valid. pose proof (blen_nonneg strings). pose proof (blen_nonneg (struct_block root)).
  pose proof (blen_nonneg (rsv_block rs)).
  destruct (Z.ltb_spec size 40); [unfold total_len, struct_len, rsv_len in *; lia|].
  rewrite H0, ret_bind, Z.eqb_refl. simpl negb. cbv iota. rewrite H4, ret_bind.
  destruct (Z.ltb_spec size (total_len root strings rs)); [lia|].
  by rewrite (image_init root strings rs rd pad Hwf Hrd Hslack).
Qed.

Lemma image_memory max : 0 <= max ->
  fdt_memory_ranges (Some rd) max = Ret (take (Z.to_nat max) (memory_banks names root)).
Proof.
  intros Hmax. eapply memory_ranges_exact; [exact described_stores|exact described_named| |done].
  eapply root_cells_fit; [exact described_stores|]. apply modest_small, Hde.
Qed.

(** The search and what follows it, for one compatible string. *)
Lemma search_usable fuel want :
  Forall (fun b => b <> 0) want -> (tree_size root <= fuel)%nat ->
  exists node, fdt_node_by_compatible_offset fuel (Some rd) want = Ret node /\
    (node = FDT_ERR_NODE <-> compatible_exists names want root start = false) /\
    usable_uart (Some rd) node = Ret (tree_uart names root start want).
Proof.
  intros Hw Hf. pose proof described_stores as Hst. pose proof described_named as Hnames.
  eexists. split; [exact (node_by_compatible_exact _ _ _ _ _ Hst names want Hnames Hw fuel
    (de_height _ _ _ _ Hde) Hf)|].
  change (c_s c) with start.
  rewrite (first_compatible_offset names want root start []).
  unfold compatible_exists, tree_uart.
  destruct (first_compatible names want root start []) as [[[q u] up]|] eqn:Hfc; simpl.
  2:{ split; [done|]. done. }
  apply first_compatible_route in Hfc as (up1 & -> & Hr & _). rewrite app_nil_r.
  pose proof (route_height _ _ _ _ _ Hr) as Hh. pose proof (height_pos u).
  pose proof (stored_at _ _ _ _ _ Hst _ _ _ (route_located _ _ _ _ _ Hr)) as [Hlo _ _ _].
  pose proof (start_pos rs) as Hpos. pose proof (de_height _ _ _ _ Hde).
  assert (q <> FDT_ERR_NODE) as Hne by (unfold FDT_ERR_NODE; simpl in *; lia).
  split; [split; [done|discriminate]|]. unfold usable_uart. rewrite (proj2 (Z.eqb_neq _ _) Hne).
  rewrite (is_enabled_exact _ _ _ _ _ Hst names Hnames q u up1 Hr), ret_bind.
  case_bool_decide; simpl negb; cbv iota; [rewrite decide_True by done|by rewrite decide_False].
  rewrite (reg_to_cpu_exact _ _ _ _ _ Hst names Hnames q u up1 0); [|by apply modest_small, Hde|done|done|lia|lia].
  rewrite ret_bind. by destruct (cpu_range names u up1.*2 0).
Qed.

(** The probe of [serial_init] computes [tree_console]. *)
Lemma probe_exact fuel size :
  (tree_size root <= fuel)%nat -> total_len root strings rs <= size ->
  uart_probe fuel (Some rd) size = Ret (tree_console names root start).
Proof.
  intros Hf Hsz. unfold uart_probe, tree_console. rewrite image_valid by done. rewrite ret_bind. simpl Z.eqb.
  cbv iota.
  destruct (search_usable fuel str_cdns_uart ltac:(by_compute) Hf) as (n1 & -> & Hn1 & Hu1).
  destruct (search_usable fuel str_zynqmp_uart ltac:(by_compute) Hf) as (n2 & -> & Hn2 & Hu2).
  destruct (search_usable fuel str_pl011 ltac:(by_compute) Hf) as (n3 & -> & Hn3 & Hu3).
  rewrite ret_bind. destruct (compatible_exists names str_cdns_uart root start).
  - rewrite (proj2 (Z.eqb_neq n1 FDT_ERR_NODE)) by naive_solver.
    rewrite ret_bind, Hu1, ret_bind. destruct (tree_uart _ _ _ str_cdns_uart); [done|].
    rewrite ret_bind, Hu3, ret_bind. by destruct (tree_uart _ _ _ str_pl011).
  - rewrite (proj2 Hn1 eq_refl), Z.eqb_refl, ret_bind, Hu2, ret_bind.
    destruct (tree_uart _ _ _ str_zynqmp_uart); [done|].
    rewrite ret_bind, Hu3, ret_bind. by destruct (tree_uart _ _ _ str_pl011).
Qed.

End Probe.

(** C23. On a machine described by a device tree the console is found, after as
    many rounds as the tree has nodes.  Only the first node of each kind is
    looked at: the console is the first Cadence-compatible node (by its
    Cadence name or, when no node has that, its Xilinx one) if that node is
    enabled and its registers have an address for the processor; otherwise
    the first PL011-compatible node under the same two conditions; otherwise
    the built-in address is kept, even if a later node of either kind is
    enabled. *)
Theorem console_from_device_tree root strings rs names rd pad fuel size :
  described root strings rs names ->
  holds rd 0 (enc_blob root strings rs ++ pad) -> bytes_ok pad -> (16 <= length pad)%nat ->
  (tree_size root <= fuel)%nat -> total_len root strings rs <= size ->
  uart_probe fuel (Some rd) size = Ret (tree_console names root (40 + rsv_len rs)).
Proof. intros Hde Hrd Hpad Hsl. by apply (probe_exact root strings rs names rd pad). Qed.

Lemma ex_board_described : described ex_board ex_strings [] ex_names.
Proof.
  split; [|  |by_compute|by_compute].
  - constructor; [|by_compute|by_compute]. simpl. repeat split; repeat constructor; by_compute.
  - assert (string_at ex_strings 0 str_address_cells) as H0
      by (exists [], (str_size_cells ++ [0] ++ str_reg ++ [0] ++ str_compatible ++ [0]);
          repeat split; by_compute).
    assert (string_at ex_strings 15 str_size_cells) as H15
      by (exists (str_address_cells ++ [0]), (str_reg ++ [0] ++ str_compatible ++ [0]);
          repeat split; by_compute).
    assert (string_at ex_strings 27 str_reg) as H27
      by (exists (str_address_cells ++ [0] ++ str_size_cells ++ [0]), (str_compatible ++ [0]);
          repeat split; by_compute).
    assert (string_at ex_strings 31 str_compatible) as H31
      by (exists (str_address_cells ++ [0] ++ str_size_cells ++ [0] ++ str_reg ++ [0]), [];
          repeat split; by_compute).
    repeat constructor; assumption.
Qed.

Lemma console_from_device_tree_witness :
  uart_probe 2 (Some (blob_mem ex_board ex_strings [] 16)) 210 = Ret (FoundCadence 0xFF000000).
Proof.
  apply (console_from_device_tree ex_board ex_strings [] ex_names _ (replicate 16 0) 2 210
    ex_board_described); [apply blob_holds|by_compute|by_compute|by_compute|by_compute].
Defined.
