(* ===== verification/Macho.v ===== *)
(** The Mach-O loader: kernel/macho.c.

    The image is a [reader]; it is embedded in the kernel's own binary and
    the segments are copied elsewhere, so it does not change while it is
    loaded.  Memory is a finite map from 64-bit addresses to bytes, written
    one byte at a time as the code does.  [log] is the calls of [kprintf]
    made so far, oldest first. *)
From stdpp Require Import strings.
From S2P Require Import Prelude CMem Console.

(** * Constants and data *)

Definition MH_MAGIC_64 : Z := 0xfeedfacf.
Definition FAT_MAGIC : Z := 0xcafebabe.
Definition LC_SEGMENT_64 : Z := 0x19.
Definition LC_MAIN : Z := 0x80000028.
Definition CPU_TYPE_NATIVE (a : arch) : Z :=
  match a with AARCH64 => 0x0100000c | X86_64 => 0x01000007 end.

Definition NO_SLICE : Z := 0xFFFFFFFF.

(** [sizeof(mach_header_64_t)]. *)
Definition MACH_HEADER_SIZE : Z := 32.

(** The fields of [segment_command_64_t] the loader uses, after [cmd] and
    [cmdsize]; [segname] is the 16 bytes of the array. *)
Record segment := {
  segname : list Z; vmaddr : Z; vmsize : Z; fileoff : Z; filesize : Z }.

#[export] Instance segment_eq_dec : EqDecision segment.
Proof. solve_decision. Defined.

Definition rd_segment (rd : reader) (p : Z) : outcome segment :=
  name ← rd_bytes rd (p + 8) 16;
  va ← rd_le64 rd (p + 24); vs ← rd_le64 rd (p + 32);
  fo ← rd_le64 rd (p + 40); fs ← rd_le64 rd (p + 48);
  Ret {| segname := name; vmaddr := va; vmsize := vs; fileoff := fo; filesize := fs |}.

(** [seg->segname] as a string: the array need not be terminated, and then
    the string goes on through the fields behind it. *)
Definition segname_str (s : segment) : list Z :=
  segname s ++ le_bytes 8 (vmaddr s) ++ le_bytes 8 (vmsize s) ++ le_bytes 8 (fileoff s) ++
  le_bytes 8 (filesize s).

(** * Messages *)

Definition msg_no_slice : kcall := line "[kernel] macho_load: no recognizable native-arch slice" [].
Definition msg_bad_magic : kcall := line "[kernel] macho_load: bad slice magic" [].
Definition msg_not_native (cputype : Z) : kcall :=
  line "[kernel] macho_load: slice cputype 0x%X is not the native arch" [VInt (u32 cputype)].
Definition msg_segment (s : segment) (dest_vaddr : Z) : kcall :=
  line "[kernel] macho_load: segment '%s' -> vaddr 0x%X, filesize %u, memsz %u"
    [VStr (segname_str s); VInt (u32 dest_vaddr); VInt (u32 (filesize s)); VInt (u32 (vmsize s))].
Definition msg_no_main : kcall := line "[kernel] macho_load: no LC_MAIN found" [].
Definition msg_no_entry : kcall :=
  line "[kernel] macho_load: entryoff not within any mapped segment" [].

(** * The loader *)

Section Macho.
Context (a : arch) (image : reader).

(** The loop over the [n] fat_arch entries that are left. *)
Fixpoint fat_loop (n : nat) (arch_at : Z) : outcome Z :=
  match n with
  | O => Ret NO_SLICE
  | S n' =>
      cputype ← rd_be32 image arch_at;
      offset ← rd_be32 image (arch_at + 8);
      if cputype =? CPU_TYPE_NATIVE a then Ret offset else fat_loop n' (arch_at + 20)
  end.

Definition resolve_slice_offset : outcome Z :=
  magic_native ← rd_le32 image 0;
  if magic_native =? MH_MAGIC_64 then Ret 0
  else
    fat ← rd_be32 image 0;
    if negb (fat =? FAT_MAGIC) then Ret NO_SLICE
    else
      nfat_arch ← rd_be32 image 4;
      fat_loop (Z.to_nat nfat_arch) 8.

(** [for (b = b0; n more; b++) dst[b] = src[b];] *)
Fixpoint copy_in (src dst : Z) (n : nat) (b : Z) (m : memory) : outcome memory :=
  match n with
  | O => Ret m
  | S n' => x ← image (src + b); copy_in src dst n' (b + 1) (<[u64 (dst + b) := x]> m)
  end.

(** [for (b = b0; n more; b++) dst[b] = 0;] *)
Fixpoint zero_fill (dst : Z) (n : nat) (b : Z) (m : memory) : memory :=
  match n with
  | O => m
  | S n' => zero_fill dst n' (b + 1) (<[u64 (dst + b) := 0]> m)
  end.

(** The first pass: the variables are [p], memory, the console, [entryoff]
    and [have_entry] ([None] while it is 0). *)
Fixpoint load_loop (slice target_base : Z) (n : nat) (p : Z) (m : memory) (log : list kcall)
    (entry : option Z) : outcome (memory * list kcall * option Z) :=
  match n with
  | O => Ret (m, log, entry)
  | S n' =>
      cmd ← rd_le32 image p;
      cmdsize ← rd_le32 image (p + 4);
      if cmd =? LC_SEGMENT_64 then
        seg ← rd_segment image p;
        if (vmsize seg =? 0) || (filesize seg =? 0) then
          load_loop slice target_base n' (p + cmdsize) m log entry
        else
          let dest_vaddr := u64 (target_base + vmaddr seg) in
          let log := log ++ [msg_segment seg dest_vaddr] in
          m ← copy_in (slice + fileoff seg) dest_vaddr (Z.to_nat (filesize seg)) 0 m;
          let m := zero_fill dest_vaddr (Z.to_nat (vmsize seg - filesize seg)) (filesize seg) m in
          load_loop slice target_base n' (p + cmdsize) m log entry
      else if cmd =? LC_MAIN then
        entryoff ← rd_le64 image (p + 8);
        load_loop slice target_base n' (p + cmdsize) m log (Some entryoff)
      else load_loop slice target_base n' (p + cmdsize) m log entry
  end.

(** The second pass: the runtime address of file offset [entryoff], [None]
    when the loop runs to its end. *)
Fixpoint entry_loop (target_base entryoff : Z) (n : nat) (p : Z) : outcome (option Z) :=
  match n with
  | O => Ret None
  | S n' =>
      cmd ← rd_le32 image p;
      cmdsize ← rd_le32 image (p + 4);
      if cmd =? LC_SEGMENT_64 then
        seg ← rd_segment image p;
        if (fileoff seg <=? entryoff) && (entryoff <? u64 (fileoff seg + filesize seg)) then
          Ret (Some (u64 (target_base + vmaddr seg + (entryoff - fileoff seg))))
        else entry_loop target_base entryoff n' (p + cmdsize)
      else entry_loop target_base entryoff n' (p + cmdsize)
  end.

(** The returned address, memory and console afterwards. *)
Definition macho_load (target_base : Z) (m : memory) (log : list kcall)
    : outcome (Z * memory * list kcall) :=
  slice ← resolve_slice_offset;
  if slice =? NO_SLICE then Ret (0, m, log ++ [msg_no_slice])
  else
    magic ← rd_le32 image slice;
    if negb (magic =? MH_MAGIC_64) then Ret (0, m, log ++ [msg_bad_magic])
    else
      cputype ← rd_le32 image (slice + 4);
      if negb (cputype =? CPU_TYPE_NATIVE a) then Ret (0, m, log ++ [msg_not_native cputype])
      else
        ncmds ← rd_le32 image (slice + 16);
        let cmd_base := slice + MACH_HEADER_SIZE in
        '(m, log, entry) ← load_loop slice target_base (Z.to_nat ncmds) cmd_base m log None;
        match entry with
        | None => Ret (0, m, log ++ [msg_no_main])
        | Some entryoff =>
            r ← entry_loop target_base entryoff (Z.to_nat ncmds) cmd_base;
            match r with
            | Some addr => Ret (addr, m, log)
            | None => Ret (0, m, log ++ [msg_no_entry])
            end
        end.

(** [macho_image_size]'s loop: [lowest], [highest] and [found_any]. *)
Fixpoint size_loop (n : nat) (p lowest highest : Z) (found_any : bool) : outcome Z :=
  match n with
  | O => Ret (if found_any then u64 (highest - lowest) else 0)
  | S n' =>
      cmd ← rd_le32 image p;
      cmdsize ← rd_le32 image (p + 4);
      if cmd =? LC_SEGMENT_64 then
        seg ← rd_segment image p;
        if filesize seg =? 0 then size_loop n' (p + cmdsize) lowest highest found_any
        else
          let end_ := u64 (vmaddr seg + vmsize seg) in
          let highest := if highest <? end_ then end_ else highest in
          let lowest := if vmaddr seg <? lowest then vmaddr seg else lowest in
          size_loop n' (p + cmdsize) lowest highest true
      else size_loop n' (p + cmdsize) lowest highest found_any
  end.

Definition macho_image_size : outcome Z :=
  slice ← resolve_slice_offset;
  if slice =? NO_SLICE then Ret 0
  else
    magic ← rd_le32 image slice;
    if negb (magic =? MH_MAGIC_64) then Ret 0
    else
      cputype ← rd_le32 image (slice + 4);
      if negb (cputype =? CPU_TYPE_NATIVE a) then Ret 0
      else
        ncmds ← rd_le32 image (slice + 16);
        size_loop (Z.to_nat ncmds) (slice + MACH_HEADER_SIZE) 0xFFFFFFFFFFFFFFFF 0 false.

(** * What the load commands say *)

Inductive lcmd := LSegment (s : segment) | LMain (entryoff : Z) | LOther.

(** [n] load commands are stored from [p] on. *)
Inductive cmds_at : Z -> list lcmd -> Prop :=
| cmds_nil p : cmds_at p []
| cmds_segment p size s cs :
    rd_le32 image p = Ret LC_SEGMENT_64 -> rd_le32 image (p + 4) = Ret size ->
    rd_segment image p = Ret s -> cmds_at (p + size) cs -> cmds_at p (LSegment s :: cs)
| cmds_main p size e cs :
    rd_le32 image p = Ret LC_MAIN -> rd_le32 image (p + 4) = Ret size ->
    rd_le64 image (p + 8) = Ret e -> cmds_at (p + size) cs -> cmds_at p (LMain e :: cs)
| cmds_other p cmd size cs :
    rd_le32 image p = Ret cmd -> rd_le32 image (p + 4) = Ret size ->
    cmd <> LC_SEGMENT_64 -> cmd <> LC_MAIN -> cmds_at (p + size) cs -> cmds_at p (LOther :: cs).

(** The image, plain or fat, has a native slice at [slice] with commands
    [cs]. *)
Record native_image (slice : Z) (cs : list lcmd) : Prop := {
  ni_slice : resolve_slice_offset = Ret slice;
  ni_off : slice <> NO_SLICE;
  ni_magic : rd_le32 image slice = Ret MH_MAGIC_64;
  ni_cpu : rd_le32 image (slice + 4) = Ret (CPU_TYPE_NATIVE a);
  ni_ncmds : rd_le32 image (slice + 16) = Ret (Z.of_nat (length cs));
  ni_cmds : cmds_at (slice + MACH_HEADER_SIZE) cs }.

Definition segments (cs : list lcmd) : list segment :=
  omap (fun c => match c with LSegment s => Some s | _ => None end) cs.

(** The last entry point command counts. *)
Definition entry_of (cs : list lcmd) : option Z :=
  foldl (fun e c => match c with LMain x => Some x | _ => e end) None cs.

Definition loadable (s : segment) : Prop := vmsize s <> 0 /\ filesize s <> 0.

#[export] Instance loadable_dec s : Decision (loadable s).
Proof. unfold loadable. apply _. Defined.

(** The addresses a segment occupies once loaded at [tb]. *)
Definition covers (tb : Z) (s : segment) (addr : Z) : Prop :=
  tb + vmaddr s <= addr < tb + vmaddr s + vmsize s.

(** What the loader relies on of a segment: its file bytes are in the image,
    no more than its memory size, and it ends below 2^64. *)
Record segment_ok (slice tb : Z) (s : segment) : Prop := {
  so_vmaddr : 0 <= vmaddr s;
  so_fs : 0 <= filesize s <= vmsize s;
  so_end : tb + vmaddr s + vmsize s <= 2 ^ 64;
  so_file : readable image (slice + fileoff s) (slice + fileoff s + filesize s) }.

End Macho.
