(* ===== verification/MachoProps.v ===== *)
(** What the Mach-O loader does to memory and what it returns. *)
From stdpp Require Import strings.
From S2P Require Import Prelude CMem Console Macho.

(** * Lemmas: the copy loops *)

Section Load.
Context (a : arch) (image : reader) (slice tb : Z) (Htb : 0 <= tb).

Lemma copy_in_spec src dst n b m :
  readable image (src + b) (src + b + Z.of_nat n) -> 0 <= dst -> 0 <= b ->
  dst + b + Z.of_nat n <= 2 ^ 64 ->
  exists m', copy_in image src dst n b m = Ret m' /\
    (forall i, b <= i < b + Z.of_nat n ->
       exists x, image (src + i) = Ret x /\ m' !! (dst + i) = Some x) /\
    (forall addr, ~ (dst + b <= addr < dst + b + Z.of_nat n) -> m' !! addr = m !! addr).
Proof.
  revert b m. induction n as [|n IH]; intros b m Hr Hd Hb Hend; simpl.
  - exists m. repeat split; try done. lia.
  - destruct (wp_inv _ _ (Hr (src + b) ltac:(lia))) as (x & Hx & _). rewrite Hx, ret_bind.
    rewrite u64_small by ulia.
    destruct (IH (b + 1) (<[dst + b := x]> m)) as (m' & Hm & Hin & Hout); [|lia..|].
    { eapply readable_mono; [exact Hr|lia..]. }
    exists m'. split; [done|]. split.
    + intros i Hi. destruct (decide (i = b)) as [->|].
      * exists x. split; [done|]. rewrite Hout by lia. apply lookup_insert_eq.
      * apply Hin. lia.
    + intros addr Ha. rewrite Hout by lia. by rewrite lookup_insert_ne by lia.
Qed.

Lemma zero_fill_spec dst n b m :
  0 <= dst -> 0 <= b -> dst + b + Z.of_nat n <= 2 ^ 64 ->
  (forall i, b <= i < b + Z.of_nat n -> zero_fill dst n b m !! (dst + i) = Some 0) /\
  (forall addr, ~ (dst + b <= addr < dst + b + Z.of_nat n) ->
     zero_fill dst n b m !! addr = m !! addr).
Proof.
  revert b m. induction n as [|n IH]; intros b m Hd Hb Hend; simpl.
  - split; [lia|done].
  - rewrite u64_small by ulia.
    destruct (IH (b + 1) (<[dst + b := 0]> m)) as (Hin & Hout); [lia..|]. split.
    + intros i Hi. destruct (decide (i = b)) as [->|].
      * rewrite Hout by lia. apply lookup_insert_eq.
      * apply Hin. lia.
    + intros addr Ha. rewrite Hout by lia. by rewrite lookup_insert_ne by lia.
Qed.

(** [m] holds the segment: its file bytes, then zeros. *)
Definition seg_loaded (s : segment) (m : memory) : Prop :=
  (forall i, 0 <= i < filesize s ->
     exists x, image (slice + fileoff s + i) = Ret x /\ m !! (tb + vmaddr s + i) = Some x) /\
  (forall i, filesize s <= i < vmsize s -> m !! (tb + vmaddr s + i) = Some 0).

(** The two loops together load one segment. *)
Lemma load_segment_spec s m :
  segment_ok image slice tb s ->
  let dest := u64 (tb + vmaddr s) in
  exists m1, copy_in image (slice + fileoff s) dest (Z.to_nat (filesize s)) 0 m = Ret m1 /\
    let m' := zero_fill dest (Z.to_nat (vmsize s - filesize s)) (filesize s) m1 in
    seg_loaded s m' /\ forall addr, ~ covers tb s addr -> m' !! addr = m !! addr.
Proof.
  intros [Hva Hfs Hend Hfile] dest.
  destruct (decide (vmsize s = 0)) as [H0|H0].
  { exists m. assert (filesize s = 0) as -> by lia. rewrite H0. simpl. split; [done|].
    split; [split; lia|done]. }
  assert (dest = tb + vmaddr s) as -> by (apply u64_small; ulia).
  destruct (copy_in_spec (slice + fileoff s) (tb + vmaddr s) (Z.to_nat (filesize s)) 0 m)
    as (m1 & Hm1 & Hin1 & Hout1); [|lia|lia|lia|].
  { rewrite Z2Nat.id by lia. eapply readable_mono; [exact Hfile|lia..]. }
  rewrite Z2Nat.id in * by lia. exists m1. split; [done|].
  destruct (zero_fill_spec (tb + vmaddr s) (Z.to_nat (vmsize s - filesize s)) (filesize s) m1)
    as (Hin2 & Hout2); [lia..|]. rewrite Z2Nat.id in * by lia. cbv zeta. split; [split|].
  - intros i Hi. destruct (Hin1 i ltac:(lia)) as (x & Hx & Hm). exists x. split; [done|].
    by rewrite Hout2 by lia.
  - intros i Hi. apply Hin2. lia.
  - intros addr Ha. unfold covers in Ha. rewrite Hout2, Hout1 by lia. done.
Qed.

Definition all_ok (cs : list lcmd) : Prop :=
  Forall (fun s => loadable s -> segment_ok image slice tb s) (segments cs).

(** What the first pass leaves in memory: every loaded segment that no
    later one overlaps, and whatever was there outside all of them. *)
Definition loaded (ss : list segment) (m m' : memory) : Prop :=
  (forall pre s post, ss = pre ++ s :: post -> loadable s ->
     (forall addr s', covers tb s addr -> s' ∈ post -> loadable s' -> ~ covers tb s' addr) ->
     seg_loaded s m') /\
  (forall addr, (forall s, s ∈ ss -> loadable s -> ~ covers tb s addr) -> m' !! addr = m !! addr).

Lemma loaded_nil m : loaded [] m m.
Proof. split; [|done]. intros pre s post H. by destruct pre. Qed.

Lemma seg_loaded_frame s m m' :
  0 <= filesize s <= vmsize s -> seg_loaded s m ->
  (forall addr, covers tb s addr -> m' !! addr = m !! addr) -> seg_loaded s m'.
Proof.
  intros Hfs [H1 H2] Hf. split.
  - intros i Hi. destruct (H1 i Hi) as (x & Hx & Hm). exists x. split; [done|].
    rewrite Hf by (unfold covers; lia). done.
  - intros i Hi. rewrite Hf by (unfold covers; lia). by apply H2.
Qed.

Lemma loaded_cons s ss m m1 m' :
  segment_ok image slice tb s -> seg_loaded s m1 ->
  (forall addr, ~ covers tb s addr -> m1 !! addr = m !! addr) ->
  loadable s -> loaded ss m1 m' -> loaded (s :: ss) m m'.
Proof.
  intros Hok Hs Hf Hl [H1 H2]. split.
  - intros pre s' post Heq Hl' Hdis. destruct pre as [|x pre]; simplify_eq/=; [|by eapply H1].
    destruct Hok as [_ Hfs _ _]. eapply seg_loaded_frame; [done|exact Hs|].
    intros addr Hc. apply H2. intros s'' Hin Hl''. by apply Hdis.
  - intros addr Hno. rewrite H2.
    + apply Hf. apply Hno; [by left|done].
    + intros s' Hin. apply Hno. by right.
Qed.

Lemma loaded_skip s ss m m' : ~ loadable s -> loaded ss m m' -> loaded (s :: ss) m m'.
Proof.
  intros Hl [H1 H2]. split.
  - intros pre s' post Heq Hl' Hdis. destruct pre as [|x pre]; simplify_eq/=; [done|by eapply H1].
  - intros addr Hno. apply H2. intros s' Hin. apply Hno. by right.
Qed.

Definition entry_from (e : option Z) (cs : list lcmd) : option Z :=
  foldl (fun e c => match c with LMain x => Some x | _ => e end) e cs.

(** The line for each segment that is loaded. *)
Definition seg_lines (ss : list segment) : list kcall :=
  (fun s => msg_segment s (u64 (tb + vmaddr s))) <$> filter loadable ss.

Lemma load_loop_spec p cs m log e :
  cmds_at image p cs -> all_ok cs ->
  exists m', load_loop image slice tb (length cs) p m log e
      = Ret (m', log ++ seg_lines (segments cs), entry_from e cs) /\
    loaded (segments cs) m m'.
Proof.
  intros Hcs. revert m log e.
  induction Hcs as [p|p size s cs Hc Hsz Hs _ IH|p size x cs Hc Hsz Hx _ IH
    |p cmd size cs Hc Hsz Hn1 Hn2 _ IH]; intros m log e Hok; cbn [length load_loop].
  - exists m. rewrite app_nil_r. split; [done|apply loaded_nil].
  - rewrite Hc, ret_bind, Hsz, ret_bind. simpl Z.eqb. cbv iota. rewrite Hs, ret_bind.
    apply Forall_cons in Hok as [Hseg Hok]. change (segments (LSegment s :: cs)) with (s :: segments cs).
    unfold seg_lines. rewrite filter_cons. destruct (decide (loadable s)) as [Hl|Hl].
    + destruct (Z.eqb_spec (vmsize s) 0); [by destruct Hl|].
      destruct (Z.eqb_spec (filesize s) 0); [by destruct Hl|]. simpl orb. cbv iota.
      destruct (load_segment_spec s m (Hseg Hl)) as (m1 & Hm1 & Hld & Hf). rewrite Hm1, ret_bind.
      destruct (IH (zero_fill (u64 (tb + vmaddr s)) (Z.to_nat (vmsize s - filesize s))
        (filesize s) m1) (log ++ [msg_segment s (u64 (tb + vmaddr s))]) e Hok) as (m' & Hm' & Hld').
      exists m'. rewrite <- app_assoc in Hm'. split; [exact Hm'|]. by eapply loaded_cons; eauto.
    + assert ((vmsize s =? 0) || (filesize s =? 0) = true) as ->.
      { unfold loadable in Hl. destruct (Z.eqb_spec (vmsize s) 0); [done|].
        destruct (Z.eqb_spec (filesize s) 0); [done|]. tauto. }
      destruct (IH m log e Hok) as (m' & Hm' & Hld'). exists m'. split; [exact Hm'|].
      by apply loaded_skip.
  - rewrite Hc, ret_bind, Hsz, ret_bind. simpl Z.eqb. cbv iota. rewrite Hx, ret_bind.
    destruct (IH m log (Some x) Hok) as (m' & Hm' & Hld'). by exists m'.
  - rewrite Hc, ret_bind, Hsz, ret_bind.
    destruct (Z.eqb_spec cmd LC_SEGMENT_64); [done|]. destruct (Z.eqb_spec cmd LC_MAIN); [done|].
    destruct (IH m log e Hok) as (m' & Hm' & Hld'). by exists m'.
Qed.

(** ** The entry point *)

Definition file_contains (s : segment) (off : Z) : Prop :=
  fileoff s <= off < fileoff s + filesize s.

(** The first segment whose file range contains [off]. *)
Fixpoint entry_segment (ss : list segment) (off : Z) : option segment :=
  match ss with
  | [] => None
  | s :: ss' =>
      if (fileoff s <=? off) && (off <? fileoff s + filesize s) then Some s
      else entry_segment ss' off
  end.

Definition entry_at (ss : list segment) (off : Z) : option Z :=
  option_map (fun s => u64 (tb + vmaddr s + (off - fileoff s))) (entry_segment ss off).

Definition entry_addr (ss : list segment) (off : Z) : Z := default 0 (entry_at ss off).

(** What the loader prints for an image it can use. *)
Definition load_lines (ss : list segment) (off : Z) : list kcall :=
  seg_lines ss ++ (if entry_segment ss off then [] else [msg_no_entry]).

(** File ranges that do not wrap around. *)
Definition file_ranges_ok (cs : list lcmd) : Prop :=
  Forall (fun s => is_u64 (fileoff s + filesize s)) (segments cs).

Lemma entry_loop_spec p cs off :
  cmds_at image p cs -> file_ranges_ok cs ->
  entry_loop image tb off (length cs) p = Ret (entry_at (segments cs) off).
Proof.
  intros Hcs. unfold entry_at.
  induction Hcs as [p|p size s cs Hc Hsz Hs _ IH|p size x cs Hc Hsz Hx _ IH
    |p cmd size cs Hc Hsz Hn1 Hn2 _ IH]; intros Hok; cbn [length entry_loop].
  - done.
  - rewrite Hc, ret_bind, Hsz, ret_bind. simpl Z.eqb. cbv iota. rewrite Hs, ret_bind.
    apply Forall_cons in Hok as [Hu Hok]. rewrite (u64_small (fileoff s + filesize s)) by done.
    change (segments (LSegment s :: cs)) with (s :: segments cs). cbn [entry_segment].
    case_if; [done|by apply IH].
  - rewrite Hc, ret_bind, Hsz, ret_bind. simpl Z.eqb. cbv iota. by apply IH.
  - rewrite Hc, ret_bind, Hsz, ret_bind.
    destruct (Z.eqb_spec cmd LC_SEGMENT_64); [done|]. by apply IH.
Qed.

(** ** The span *)

(** The file-backed segments. *)
Definition backed (ss : list segment) : list segment := filter (fun s => filesize s <> 0) ss.

Definition low_of (lo : Z) (ss : list segment) : Z := foldl (fun l s => Z.min l (vmaddr s)) lo ss.
Definition high_of (hi : Z) (ss : list segment) : Z :=
  foldl (fun h s => Z.max h (vmaddr s + vmsize s)) hi ss.

(** From the lowest address to the end of the highest; 0 if none is backed. *)
Definition image_span (ss : list segment) : Z :=
  match backed ss with
  | [] => 0
  | s :: ss => u64 (high_of (vmaddr s + vmsize s) ss - low_of (vmaddr s) ss)
  end.

Lemma size_loop_spec p cs lo hi f :
  cmds_at image p cs ->
  Forall (fun s => is_u64 (vmaddr s + vmsize s)) (segments cs) ->
  size_loop image (length cs) p lo hi f =
    Ret (if f || bool_decide (backed (segments cs) <> [])
         then u64 (high_of hi (backed (segments cs)) - low_of lo (backed (segments cs))) else 0).
Proof.
  intros Hcs. revert lo hi f.
  induction Hcs as [p|p size s cs Hc Hsz Hs _ IH|p size x cs Hc Hsz Hx _ IH
    |p cmd size cs Hc Hsz Hn1 Hn2 _ IH]; intros lo hi f Hok; cbn [length size_loop].
  - simpl. by rewrite orb_false_r.
  - rewrite Hc, ret_bind, Hsz, ret_bind. simpl Z.eqb. cbv iota. rewrite Hs, ret_bind.
    apply Forall_cons in Hok as [Hu Hok].
    change (segments (LSegment s :: cs)) with (s :: segments cs). unfold backed.
    destruct (Z.eqb_spec (filesize s) 0) as [H0|H0].
    + rewrite filter_cons_False by lia. by apply IH.
    + rewrite filter_cons_True by done. rewrite (u64_small (vmaddr s + vmsize s)) by done.
      cbv zeta. rewrite IH by done. fold (backed (segments cs)).
      rewrite (bool_decide_eq_true_2 (s :: backed (segments cs) <> [])), orb_true_r by done.
      cbn [orb]. do 3 f_equal.
      * unfold high_of. cbn [foldl]. f_equal. destruct (Z.ltb_spec hi (vmaddr s + vmsize s)); lia.
      * unfold low_of. cbn [foldl]. f_equal. destruct (Z.ltb_spec (vmaddr s) lo); lia.
  - rewrite Hc, ret_bind, Hsz, ret_bind. simpl Z.eqb. cbv iota. by apply IH.
  - rewrite Hc, ret_bind, Hsz, ret_bind.
    destruct (Z.eqb_spec cmd LC_SEGMENT_64); [done|]. by apply IH.
Qed.

(** The whole load. *)
Lemma macho_load_spec cs m log off :
  native_image a image slice cs -> entry_of cs = Some off ->
  all_ok cs -> file_ranges_ok cs ->
  exists m', macho_load a image tb m log
      = Ret (entry_addr (segments cs) off, m', log ++ load_lines (segments cs) off) /\
    loaded (segments cs) m m'.
Proof using a image slice tb Htb.
  intros [Hsl Hoff Hmg Hcpu Hn Hcs] He Hok Hfr.
  destruct (load_loop_spec _ cs m log None Hcs Hok) as (m' & Hm' & Hld).
  exists m'. split; [|done]. unfold macho_load. rewrite Hsl, ret_bind.
  rewrite (proj2 (Z.eqb_neq _ _) Hoff), Hmg, ret_bind, Z.eqb_refl. simpl negb. cbv iota.
  rewrite Hcpu, ret_bind, Z.eqb_refl. simpl negb. cbv iota. rewrite Hn, ret_bind. cbv zeta.
  rewrite Nat2Z.id, Hm', ret_bind.
  change (entry_from None cs) with (entry_of cs). rewrite He.
  rewrite (entry_loop_spec _ cs off Hcs Hfr), ret_bind. unfold entry_addr, entry_at, load_lines.
  destruct (entry_segment (segments cs) off); simpl; [by rewrite app_nil_r|by rewrite app_assoc].
Qed.

End Load.

(** ** Reading an image in a larger object *)

Section Extends.
Context (rd rd' : reader) (Hext : extends rd rd').

Lemma rd_segment_ext p s : rd_segment rd p = Ret s -> rd_segment rd' p = Ret s.
Proof.
  unfold rd_segment. intros H.
  apply bind_ret_inv in H as (? & Hb & H). rewrite (rd_bytes_ext _ _ Hext _ _ _ Hb), ret_bind. clear Hb.
  do 4 (apply bind_ret_inv in H as (? & Hb & H); rewrite (rd_le64_ext _ _ Hext _ _ Hb), ret_bind; clear Hb).
  done.
Qed.

Lemma fat_loop_ext a n p z : fat_loop a rd n p = Ret z -> fat_loop a rd' n p = Ret z.
Proof.
  revert p. induction n as [|n IH]; intros p H; simpl in *; [done|].
  do 2 (apply bind_ret_inv in H as (? & Hb & H); rewrite (rd_be32_ext _ _ Hext _ _ Hb), ret_bind; clear Hb).
  case_if; [done|by apply IH].
Qed.

Lemma resolve_slice_ext a z : resolve_slice_offset a rd = Ret z -> resolve_slice_offset a rd' = Ret z.
Proof.
  unfold resolve_slice_offset. intros H.
  apply bind_ret_inv in H as (? & Hb & H). rewrite (rd_le32_ext _ _ Hext _ _ Hb), ret_bind. clear Hb.
  destruct (_ =? MH_MAGIC_64); [done|].
  apply bind_ret_inv in H as (? & Hb & H). rewrite (rd_be32_ext _ _ Hext _ _ Hb), ret_bind. clear Hb.
  destruct (negb _); [done|].
  apply bind_ret_inv in H as (? & Hb & H). rewrite (rd_be32_ext _ _ Hext _ _ Hb), ret_bind.
  by apply fat_loop_ext.
Qed.

Lemma cmds_at_ext p cs : cmds_at rd p cs -> cmds_at rd' p cs.
Proof.
  induction 1; [apply cmds_nil|eapply cmds_segment|eapply cmds_main|eapply cmds_other];
    eauto using rd_le32_ext, rd_le64_ext, rd_segment_ext.
Qed.

Lemma native_image_ext a slice cs : native_image a rd slice cs -> native_image a rd' slice cs.
Proof.
  intros [? ? ? ? ? ?]. split; eauto using resolve_slice_ext, rd_le32_ext, cmds_at_ext.
Qed.

End Extends.

(** * Theorems *)

Section Claims.
Context (a : arch) (image : reader) (slice tb : Z).

(** C30. Loading an image puts every segment where it belongs: for a native
    slice with an entry point, after the load each file-backed segment that
    no later one overlaps is in memory at [target_base + vmaddr], its file
    bytes followed by zeros up to its memory size; every address outside all
    of them, an unbacked segment's own span included, keeps its content; and
    the result is the runtime address of the entry point, 0 if no segment's
    file range contains it. *)
Theorem macho_load_correct cs m log off :
  0 <= tb -> native_image a image slice cs -> entry_of cs = Some off ->
  all_ok image slice tb cs -> file_ranges_ok cs ->
  exists m', macho_load a image tb m log
      = Ret (entry_addr tb (segments cs) off, m', log ++ load_lines tb (segments cs) off) /\
    loaded image slice tb (segments cs) m m'.
Proof. intros Htb. by apply macho_load_spec. Qed.

(** An image the loader cannot use leaves memory alone: with no native
    slice, or a slice of another format or processor, it returns 0 and has
    written nothing. *)
Theorem macho_load_rejects m log magic cpu :
  resolve_slice_offset a image = Ret slice ->
  slice <> NO_SLICE -> rd_le32 image slice = Ret magic -> rd_le32 image (slice + 4) = Ret cpu ->
  magic <> MH_MAGIC_64 \/ cpu <> CPU_TYPE_NATIVE a ->
  (exists c, macho_load a image tb m log = Ret (0, m, log ++ [c])) /\
  macho_image_size a image = Ret 0.
Proof.
  intros Hsl Hne Hm Hc Hbad. unfold macho_load, macho_image_size.
  rewrite Hsl, !ret_bind, (proj2 (Z.eqb_neq _ _) Hne), Hm, !ret_bind.
  destruct (Z.eqb_spec magic MH_MAGIC_64); [|by split; [eexists|]]. simpl negb. cbv iota.
  rewrite Hc, !ret_bind. destruct (Z.eqb_spec cpu (CPU_TYPE_NATIVE a)); [tauto|by split; [eexists|]].
Qed.

(** The size reported for a native image. *)
Lemma image_size_exact cs :
  native_image a image slice cs ->
  Forall (fun s => is_u64 (vmaddr s) /\ is_u64 (vmaddr s + vmsize s)) (segments cs) ->
  macho_image_size a image = Ret (image_span (segments cs)).
Proof.
  intros [Hsl Hoff Hmg Hcpu Hn Hcs] Hu. unfold macho_image_size, image_span. rewrite Hsl, ret_bind.
  rewrite (proj2 (Z.eqb_neq _ _) Hoff), Hmg, ret_bind, Z.eqb_refl. simpl negb. cbv iota.
  rewrite Hcpu, ret_bind, Z.eqb_refl. simpl negb. cbv iota. rewrite Hn, ret_bind, Nat2Z.id.
  rewrite (size_loop_spec image _ cs) by (done || (eapply Forall_impl; [exact Hu|by intros ? [? ?]])).
  assert (Forall (fun s => is_u64 (vmaddr s) /\ is_u64 (vmaddr s + vmsize s))
    (backed (segments cs))) as Hb.
  { apply Forall_forall. intros s Hs. apply list_elem_of_filter in Hs as [_ Hs].
    by apply (proj1 (Forall_forall _ _) Hu). }
  destruct (backed (segments cs)) as [|s ss]; [done|].
  apply Forall_cons in Hb as [[Hva Hve] _].
  rewrite (bool_decide_eq_true_2 (s :: ss <> [])) by done. cbn [orb]. do 3 f_equal.
  - unfold high_of. cbn [foldl]. f_equal. ulia.
  - unfold low_of. cbn [foldl]. f_equal. unfold is_u64 in Hva. lia.
Qed.

(** The reported size is the span from the lowest to the end of the
    highest file-backed segment, 0 if there is none; unbacked segments such
    as __PAGEZERO do not count. *)
Theorem macho_image_size_span cs :
  native_image a image slice cs ->
  Forall (fun s => is_u64 (vmaddr s) /\ is_u64 (vmaddr s + vmsize s)) (segments cs) ->
  macho_image_size a image = Ret (image_span (segments cs)).
Proof. apply image_size_exact. Qed.

End Claims.

(** * The theorems at work *)

Definition enc_segment (s : segment) : list Z :=
  le_bytes 4 LC_SEGMENT_64 ++ le_bytes 4 72 ++ segname s ++
  le_bytes 8 (vmaddr s) ++ le_bytes 8 (vmsize s) ++ le_bytes 8 (fileoff s) ++
  le_bytes 8 (filesize s) ++ replicate 16 0.

(** A two-segment x86_64 image: __PAGEZERO, and eight bytes of code and four
    of bss; the entry point is the third byte of code. *)
(** ["__PAGEZERO"] and ["__TEXT"] in arrays of 16. *)
Definition name_zero : list Z := bytes_of "__PAGEZERO" ++ replicate 6 0.
Definition name_text : list Z := bytes_of "__TEXT" ++ replicate 10 0.

Definition ex_zero : segment := {| segname := name_zero; vmaddr := 0; vmsize := 0x1000; fileoff := 0; filesize := 0 |}.
Definition ex_text : segment := {| segname := name_text; vmaddr := 0x1000; vmsize := 12; fileoff := 200; filesize := 8 |}.

Definition ex_image : list Z :=
  le_bytes 4 MH_MAGIC_64 ++ le_bytes 4 (CPU_TYPE_NATIVE X86_64) ++ replicate 8 0 ++
  le_bytes 4 3 ++ replicate 12 0 ++
  enc_segment ex_zero ++ le_bytes 4 LC_MAIN ++ le_bytes 4 24 ++ le_bytes 8 202 ++ replicate 8 0 ++
  enc_segment ex_text ++ [1; 2; 3; 4; 5; 6; 7; 8].

Definition ex_cmds : list lcmd := [LSegment ex_zero; LMain 202; LSegment ex_text].

Lemma ex_native : native_image X86_64 (of_bytes ex_image) 0 ex_cmds.
Proof.
  constructor; try (vm_compute; (reflexivity || discriminate)).
  eapply cmds_segment; [vm_compute; reflexivity..|].
  eapply cmds_main; [vm_compute; reflexivity..|].
  eapply cmds_segment; [vm_compute; reflexivity..|]. constructor.
Qed.

Lemma ex_ok : all_ok (of_bytes ex_image) 0 0x10000 ex_cmds.
Proof.
  constructor; [by intros [_ []]|]. constructor; [|constructor]. intros _.
  constructor; [by_compute..|]. simpl.
  eapply readable_mono; [apply (readable_of_bytes ex_image); by_compute|lia|by_compute].
Qed.

Lemma macho_load_correct_witness :
  exists m', macho_load X86_64 (of_bytes ex_image) 0x10000 ∅ []
      = Ret (0x11002, m', [msg_segment ex_text 0x11000]) /\
    loaded (of_bytes ex_image) 0 0x10000 [ex_zero; ex_text] ∅ m'.
Proof.
  apply (macho_load_correct X86_64 (of_bytes ex_image) 0 0x10000 ex_cmds ∅ [] 202);
    [lia|apply ex_native|reflexivity|apply ex_ok|].
  repeat constructor; by_compute.
Defined.

Lemma macho_load_rejects_witness :
  exists c, macho_load AARCH64 (of_bytes ex_image) 0 ∅ [] = Ret (0, ∅, [c]).
Proof.
  apply (macho_load_rejects AARCH64 (of_bytes ex_image) 0 0 ∅ [] MH_MAGIC_64 0x01000007);
    [vm_compute; reflexivity|by_compute|vm_compute; reflexivity|vm_compute; reflexivity|].
  right. by_compute.
Defined.

Lemma macho_image_size_span_witness :
  macho_image_size X86_64 (of_bytes ex_image) = Ret 12.
Proof.
  apply (macho_image_size_span X86_64 (of_bytes ex_image) 0 ex_cmds ex_native).
  repeat constructor; by_compute.
Defined.
