(* ===== verification/Efi.v ===== *)
(** What the boot loader hands over: kernel/xnu_boot_args.h, and the readers
    of it in kernel/kernel.c (memory size, free memory, address translation,
    the ACPI root pointer).

    Physical memory is a [reader]; nothing here writes.  The offset of a
    field is computed from the list of the fields before it, as the compiler
    does for a packed struct. *)
From S2P Require Import Prelude CMem.

(** * struct xnu_boot_args_v2 *)

(** The fields, in order; [common]'s are inlined. *)
Inductive boot_field :=
| verminor | vermajor | efi_uintnbits | unused0
| cmdline | efi_mmap | efi_mmap_size | efi_mem_desc_size | efi_mem_desc_version
| lfb_base | lfb_mode | lfb_line_len | lfb_width | lfb_height | lfb_depth
| devtree | devtreelen | heap_start | heap_size
| efi_runtime_first_page | efi_runtime_npages
| efi_runtime_first_page_virtual | efi_system_table | unused1 | ram_size | fsbfreq | unused2.

#[export] Instance boot_field_eq_dec : EqDecision boot_field.
Proof. solve_decision. Defined.

Definition xnu_boot_args_common : list (boot_field * Z) := [
  (cmdline, 1024); (efi_mmap, 4); (efi_mmap_size, 4); (efi_mem_desc_size, 4);
  (efi_mem_desc_version, 4); (lfb_base, 4); (lfb_mode, 4); (lfb_line_len, 4);
  (lfb_width, 4); (lfb_height, 4); (lfb_depth, 4); (devtree, 4); (devtreelen, 4);
  (heap_start, 4); (heap_size, 4); (efi_runtime_first_page, 4); (efi_runtime_npages, 4)].

Definition xnu_boot_args_v2 : list (boot_field * Z) :=
  [(verminor, 2); (vermajor, 2); (efi_uintnbits, 1); (unused0, 3)] ++
  xnu_boot_args_common ++
  [(efi_runtime_first_page_virtual, 8); (efi_system_table, 4); (unused1, 36);
   (ram_size, 8); (fsbfreq, 8); (unused2, 2936)].

Fixpoint offset_in {F} `{EqDecision F} (f : F) (fields : list (F * Z)) : Z :=
  match fields with
  | [] => 0
  | (g, n) :: rest => if decide (f = g) then 0 else n + offset_in f rest
  end.

(** [sizeof] of a struct without padding. *)
Definition sizeof_fields {F} (fields : list (F * Z)) : Z := foldr (fun f n => f.2 + n) 0 fields.

(** [struct efi_memory_descriptor], packed. *)
Inductive desc_field :=
| D_type | D_pad | D_physical_start | D_virtual_start | D_number_of_pages | D_attribute.

#[export] Instance desc_field_eq_dec : EqDecision desc_field.
Proof. solve_decision. Defined.

Definition efi_memory_descriptor : list (desc_field * Z) := [
  (D_type, 4); (D_pad, 4); (D_physical_start, 8); (D_virtual_start, 8);
  (D_number_of_pages, 8); (D_attribute, 8)].

(** [struct efi_system_table_64]; [hdr]'s fields are inlined and every field
    is naturally aligned. *)
Inductive sys_field :=
| hdr_signature | hdr_revision | hdr_header_size | hdr_crc32 | hdr_reserved
| firmware_vendor | firmware_revision | sys_pad0 | console_in_handle | con_in
| console_out_handle | con_out | standard_error_handle | std_err
| runtime_services | boot_services | number_of_table_entries | configuration_table.

#[export] Instance sys_field_eq_dec : EqDecision sys_field.
Proof. solve_decision. Defined.

Definition efi_table_header : list (sys_field * Z) := [
  (hdr_signature, 8); (hdr_revision, 4); (hdr_header_size, 4); (hdr_crc32, 4);
  (hdr_reserved, 4)].

Definition efi_system_table_64 : list (sys_field * Z) :=
  efi_table_header ++ [
  (firmware_vendor, 8); (firmware_revision, 4); (sys_pad0, 4); (console_in_handle, 8);
  (con_in, 8); (console_out_handle, 8); (con_out, 8); (standard_error_handle, 8);
  (std_err, 8); (runtime_services, 8); (boot_services, 8); (number_of_table_entries, 8);
  (configuration_table, 8)].

(** [args->f] for a field of 2, 4 or 8 bytes. *)
Definition ba16 (mem : reader) (args : Z) (f : boot_field) : outcome Z :=
  rd_le16 mem (args + offset_in f xnu_boot_args_v2).
Definition ba32 (mem : reader) (args : Z) (f : boot_field) : outcome Z :=
  rd_le32 mem (args + offset_in f xnu_boot_args_v2).
Definition ba64 (mem : reader) (args : Z) (f : boot_field) : outcome Z :=
  rd_le64 mem (args + offset_in f xnu_boot_args_v2).

(** The files' own static assertions. *)
Lemma sizeof_xnu_boot_args_v2 : sizeof_fields xnu_boot_args_v2 = 4096.
Proof. reflexivity. Qed.

Lemma sizeof_efi_system_table_64 : sizeof_fields efi_system_table_64 = 120.
Proof. reflexivity. Qed.

(** * Memory size *)

Section Efi.
Context (mem : reader) (g_xnu_boot_args_addr : Z).

Definition xnu_boot_args_ram_size : outcome Z :=
  if g_xnu_boot_args_addr =? 0 then Ret 0
  else
    v ← ba16 mem g_xnu_boot_args_addr vermajor;
    if negb (v =? 2) then Ret 0
    else ba64 mem g_xnu_boot_args_addr ram_size.

(** * The EFI memory map *)

Definition EFI_BOOT_SERVICES_CODE : Z := 3.
Definition EFI_BOOT_SERVICES_DATA : Z := 4.
Definition EFI_CONVENTIONAL_MEMORY : Z := 7.

Definition efi_type_is_free (type : Z) : bool :=
  (type =? EFI_CONVENTIONAL_MEMORY) || (type =? EFI_BOOT_SERVICES_CODE) ||
  (type =? EFI_BOOT_SERVICES_DATA).

(** The loads of a descriptor's fields. *)
Definition desc_type (p : Z) : outcome Z :=
  rd_le32 mem (p + offset_in D_type efi_memory_descriptor).
Definition desc64 (p : Z) (f : desc_field) : outcome Z :=
  rd_le64 mem (p + offset_in f efi_memory_descriptor).

(** The scan from descriptor [i] on, [n] to go, with the best so far. *)
Fixpoint largest_loop (base stride min_addr : Z) (n : nat) (i best_base best_size : Z)
    : outcome (Z * Z) :=
  match n with
  | O => Ret (best_base, best_size)
  | S n' =>
      let next := largest_loop base stride min_addr n' (i + 1) in
      let better region_base region_size :=
        if best_size <? region_size then next region_base region_size
        else next best_base best_size in
      let desc := base + i * stride in
      type ← desc_type desc;
      if negb (efi_type_is_free type) then next best_base best_size
      else
        region_base ← desc64 desc D_physical_start;
        pages ← desc64 desc D_number_of_pages;
        let region_size := u64 (pages * 4096) in
        if region_base <? min_addr then
          let clip := min_addr - region_base in
          if region_size <=? clip then next best_base best_size
          else better min_addr (region_size - clip)
        else better region_base region_size
  end.

(** [Some (base, size)] for a return of 1 with the outputs written. *)
Definition xnu_boot_args_find_largest_free (min_addr : Z) : outcome (option (Z * Z)) :=
  let args := g_xnu_boot_args_addr in
  if args =? 0 then Ret None
  else
    v ← ba16 mem args vermajor;
    if negb (v =? 2) then Ret None
    else
      base ← ba32 mem args efi_mmap;
      if base =? 0 then Ret None
      else
      stride ← ba32 mem args efi_mem_desc_size;
      if stride =? 0 then Ret None
      else
        size ← ba32 mem args efi_mmap_size;
        '(best_base, best_size) ← largest_loop base stride min_addr (Z.to_nat (size / stride)) 0 0 0;
        if best_size =? 0 then Ret None else Ret (Some (best_base, best_size)).

(** The search of the remapped descriptors, from [i] on. *)
Fixpoint translate_loop (base stride virt : Z) (n : nat) (i : Z) : outcome Z :=
  match n with
  | O => Ret virt
  | S n' =>
      let d := base + i * stride in
      vs ← desc64 d D_virtual_start;
      ps ← desc64 d D_physical_start;
      if vs =? ps then translate_loop base stride virt n' (i + 1)
      else
        pages ← desc64 d D_number_of_pages;
        let vstart := Z.land vs 0xFFFFFFFF in
        let size := u64 (pages * 4096) in
        if (vstart <=? virt) && (virt <? u64 (vstart + size)) then
          Ret (u32 (ps + (virt - vstart)))
        else translate_loop base stride virt n' (i + 1)
  end.

Definition xnu_efi_translate_virt (args virt : Z) : outcome Z :=
  base ← ba32 mem args efi_mmap;
  if base =? 0 then Ret 0
  else
  stride ← ba32 mem args efi_mem_desc_size;
  if stride =? 0 then Ret 0
  else
    size ← ba32 mem args efi_mmap_size;
    translate_loop base stride virt (Z.to_nat (size / stride)) 0.

(** * The ACPI root pointer *)

Record efi_guid := { data1 : Z; data2 : Z; data3 : Z; data4 : list Z }.

Definition ACPI20_GUID : efi_guid :=
  {| data1 := 0x8868e871; data2 := 0xe4f1; data3 := 0x11d3;
     data4 := [0xbc; 0x22; 0x00; 0x80; 0xc7; 0x3c; 0x88; 0x81] |}.
Definition ACPI10_GUID : efi_guid :=
  {| data1 := 0xeb9d2d30; data2 := 0x2d88; data3 := 0x11d3;
     data4 := [0x9a; 0x16; 0x00; 0x90; 0x27; 0x3f; 0xc1; 0x4d] |}.

(** [&&] on loads: the right side is not evaluated after a failure. *)
Definition andM (x y : outcome bool) : outcome bool := b ← x; if b : bool then y else Ret false.

Definition eqM (x : outcome Z) (v : Z) : outcome bool := z ← x; Ret (z =? v).

Fixpoint bytes_eq (p : Z) (bs : list Z) : outcome bool :=
  match bs with
  | [] => Ret true
  | b :: bs' => andM (eqM (mem p) b) (bytes_eq (p + 1) bs')
  end.

Definition efi_guid_eq (p : Z) (g : efi_guid) : outcome bool :=
  andM (eqM (rd_le32 mem p) (data1 g))
    (andM (eqM (rd_le16 mem (p + 4)) (data2 g))
       (andM (eqM (rd_le16 mem (p + 6)) (data3 g)) (bytes_eq (p + 8) (data4 g)))).

Definition EFI_SYSTEM_TABLE_SIGNATURE : Z := 0x5453595320494249.

(** [sizeof(struct efi_configuration_table)]; [vendor_table] is at 16. *)
Definition EFI_CONFIG_TABLE_SIZE : Z := 24.

(** The loop over the configuration tables. *)
Fixpoint rsdp_loop (args tables : Z) (n : nat) (i acpi1_addr : Z) : outcome Z :=
  match n with
  | O => if acpi1_addr =? 0 then Ret 0 else xnu_efi_translate_virt args acpi1_addr
  | S n' =>
      let e := tables + i * EFI_CONFIG_TABLE_SIZE in
      v2 ← efi_guid_eq e ACPI20_GUID;
      if v2 : bool then
        t ← rd_le64 mem (e + 16); xnu_efi_translate_virt args (u32 t)
      else
        v1 ← efi_guid_eq e ACPI10_GUID;
        if v1 : bool then
          t ← rd_le64 mem (e + 16); rsdp_loop args tables n' (i + 1) (u32 t)
        else rsdp_loop args tables n' (i + 1) acpi1_addr
  end.

Definition sys64 (sys : Z) (f : sys_field) : outcome Z :=
  rd_le64 mem (sys + offset_in f efi_system_table_64).

Definition xnu_boot_args_find_rsdp : outcome Z :=
  let args := g_xnu_boot_args_addr in
  if args =? 0 then Ret 0
  else
    v ← ba16 mem args vermajor;
    if negb (v =? 2) then Ret 0
    else
    st ← ba32 mem args efi_system_table;
    if st =? 0 then Ret 0
    else
      sys ← xnu_efi_translate_virt args st;
      if sys =? 0 then Ret 0
      else
        sig ← sys64 sys hdr_signature;
        if negb (sig =? EFI_SYSTEM_TABLE_SIGNATURE) then Ret 0
        else
          ct ← sys64 sys configuration_table;
          if ct =? 0 then Ret 0
          else
            tables ← xnu_efi_translate_virt args (u32 ct);
            if tables =? 0 then Ret 0
            else
              n ← sys64 sys number_of_table_entries;
              rsdp_loop args tables (Z.to_nat n) 0 0.
End Efi.
