(* ===== verification/EfiProps.v ===== *)
(** What the readers of the boot arguments promise: the scan of the memory
    map finds the largest free range, and the ACPI root pointer is the one
    the firmware's configuration tables name, translated through the map. *)
From S2P Require Import Prelude CMem Efi.

(** * The memory map as data *)

(** The fields of a descriptor that the code reads. *)
Record desc := { d_type : Z; d_phys : Z; d_virt : Z; d_pages : Z }.

#[export] Instance desc_eq_dec : EqDecision desc.
Proof. solve_decision. Defined.

Definition d_size (d : desc) : Z := d_pages d * 4096.
Definition d_free (d : desc) : Prop := efi_type_is_free (d_type d) = true.

(** The range fits in the address space, with room to compare ends. *)
Record desc_ok (d : desc) : Prop := {
  dk_phys : 0 <= d_phys d; dk_virt : is_u64 (d_virt d);
  dk_pages : 0 <= d_pages d; dk_size : d_size d < 2 ^ 63 }.

Section Spec.
Context (mem : reader).

Record desc_at (p : Z) (d : desc) : Prop := {
  da_type : desc_type mem p = Ret (d_type d);
  da_phys : desc64 mem p D_physical_start = Ret (d_phys d);
  da_virt : desc64 mem p D_virtual_start = Ret (d_virt d);
  da_pages : desc64 mem p D_number_of_pages = Ret (d_pages d) }.

(** Descriptors [ds] are stored from index [i] on. *)
Fixpoint descs_from (base stride i : Z) (ds : list desc) : Prop :=
  match ds with
  | [] => True
  | d :: ds' => desc_at (base + i * stride) d /\ descs_from base stride (i + 1) ds'
  end.

(** The boot arguments at [args] are version 2 and carry the map [ds]. *)
Record boot_args_at (args : Z) (ds : list desc) : Prop := {
  bg_addr : args <> 0;
  bg_version : ba16 mem args vermajor = Ret 2;
  bg_map : exists base stride size,
    ba32 mem args efi_mmap = Ret base /\ base <> 0 /\
    ba32 mem args efi_mem_desc_size = Ret stride /\ stride <> 0 /\
    ba32 mem args efi_mmap_size = Ret size /\ size / stride = Z.of_nat (length ds) /\
    descs_from base stride 0 ds;
  bg_descs : Forall desc_ok ds }.

(** [[b, b + s)] is free memory at or above [min]. *)
Definition free_range (ds : list desc) (min b s : Z) : Prop :=
  0 < s /\ min <= b /\
  exists d, d ∈ ds /\ d_free d /\ d_phys d <= b /\ b + s <= d_phys d + d_size d.

(** * The largest free range *)

Definition clipped (min : Z) (d : desc) : Z * Z :=
  (Z.max (d_phys d) min, d_phys d + d_size d - Z.max (d_phys d) min).

(** One step of the scan as data: the best of what it had and the
    descriptor's own clipped range. *)
Definition better (min : Z) (best : Z * Z) (d : desc) : Z * Z :=
  if decide (d_free d) then
    if decide (best.2 < (clipped min d).2) then clipped min d else best
  else best.

Lemma largest_loop_fold base stride min ds : forall i best,
  Forall desc_ok ds -> descs_from base stride i ds -> 0 <= best.2 ->
  largest_loop mem base stride min (length ds) i best.1 best.2 =
    Ret (foldl (better min) best ds).
Proof.
  induction ds as [|d ds IH]; intros i [bb bs] Hok Hat Hpos; simpl in *; [done|].
  apply Forall_cons in Hok as [[Hp Hv Hpg Hsz] Hok]. destruct Hat as [[Ht Hph _ Hpn] Hat].
  rewrite Ht. simpl. unfold better at 2, d_free. simpl.
  destruct (efi_type_is_free (d_type d)) eqn:Ef; simpl;
    [|by apply (IH _ (bb, bs))].
  rewrite Hph, Hpn, !ret_bind. unfold clipped. simpl. unfold d_size in *.
  rewrite u64_small by ulia. destruct (Z.ltb_spec (d_phys d) min) as [Hlt|Hge].
  - rewrite Z.max_r by lia. destruct (Z.leb_spec (d_pages d * 4096) (min - d_phys d)).
    + rewrite decide_False by lia. by apply (IH _ (bb, bs)).
    + replace (d_phys d + d_pages d * 4096 - min) with (d_pages d * 4096 - (min - d_phys d)) by lia.
      destruct (Z.ltb_spec bs (d_pages d * 4096 - (min - d_phys d)));
        case_decide; try lia; [|by apply (IH _ (bb, bs))].
      apply (IH _ (min, d_pages d * 4096 - (min - d_phys d))); [done..|simpl; lia].
  - rewrite Z.max_l by lia.
    replace (d_phys d + d_pages d * 4096 - d_phys d) with (d_pages d * 4096) by lia.
    destruct (Z.ltb_spec bs (d_pages d * 4096));
      case_decide; try lia; [|by apply (IH _ (bb, bs))].
    apply (IH _ (d_phys d, d_pages d * 4096)); [done..|simpl; lia].
Qed.

(** The fold's answer: at least as large as every candidate, and one of
    them unless it never found a better one. *)
Lemma better_fold min ds : forall best, 0 <= best.2 ->
  let r := foldl (better min) best ds in
  best.2 <= r.2 /\
  (forall d, d ∈ ds -> d_free d -> (clipped min d).2 <= r.2) /\
  (r = best \/ exists d, d ∈ ds /\ d_free d /\ r = clipped min d /\ 0 < r.2).
Proof.
  induction ds as [|d ds IH]; intros best Hb; simpl; [set_solver|].
  assert (best.2 <= (better min best d).2 /\ (d_free d -> (clipped min d).2 <= (better min best d).2) /\
    (better min best d = best \/ d_free d /\ better min best d = clipped min d /\ best.2 < (clipped min d).2))
    as (H1 & H2 & H3).
  { unfold better. repeat case_decide; split_and!; auto; try lia; naive_solver. }
  destruct (IH (better min best d)) as (Ha & Hc & He); [lia|]. split_and!; [lia|..].
  - intros d' [->|Hd']%elem_of_cons Hf; [|by apply Hc]. etrans; [exact (H2 Hf)|exact Ha].
  - destruct He as [He|(d' & Hd' & Hf & He & Hp)].
    + rewrite He in *. destruct H3 as [->|(Hf & -> & Hlt)]; [by left|right].
      exists d. split_and!; [set_solver|done..|lia].
    + right. exists d'. split_and!; [set_solver|done..].
Qed.

Lemma free_range_clipped ds min b s :
  free_range ds min b s -> exists d, d ∈ ds /\ d_free d /\ s <= (clipped min d).2.
Proof.
  intros (Hs & Hm & d & Hd & Hf & Hlo & Hhi). exists d. split_and!; [done..|].
  unfold clipped. simpl. lia.
Qed.

Lemma largest_free_spec args ds min :
  boot_args_at args ds ->
  exists r, xnu_boot_args_find_largest_free mem args min = Ret r /\
    match r with
    | Some (b, s) =>
        free_range ds min b s /\ forall b' s', free_range ds min b' s' -> s' <= s
    | None => forall b s, ~ free_range ds min b s
    end.
Proof.
  intros [Ha Hv (base & stride & size & Hb & Hb0 & Hs & Hs0 & Hz & Hn & Hat) Hok].
  unfold xnu_boot_args_find_largest_free. rewrite (proj2 (Z.eqb_neq _ _) Ha), Hv. simpl.
  rewrite Hb. simpl. rewrite (proj2 (Z.eqb_neq _ _) Hb0), Hs. simpl.
  rewrite (proj2 (Z.eqb_neq _ _) Hs0), Hz. simpl. rewrite Hn, Nat2Z.id.
  pose proof (largest_loop_fold base stride min ds 0 (0, 0) Hok Hat (Z.le_refl 0)) as Hl.
  change (0, 0).1 with 0 in Hl. change (0, 0).2 with 0 in Hl. rewrite Hl, ret_bind.
  destruct (better_fold min ds (0, 0)) as (Hge & Hmax & Hr); [simpl; lia|].
  destruct (foldl (better min) (0, 0) ds) as [b s]. simpl in *.
  destruct (Z.eqb_spec s 0) as [->|Hs1].
  - eexists. split; [done|]. intros b' s' Hfr. pose proof Hfr as (Hpos & _).
    apply free_range_clipped in Hfr as (d & Hd & Hf & Hle). specialize (Hmax d Hd Hf). unfold clipped in Hle. simpl in *. lia.
  - eexists. split; [done|]. simpl. split.
    + destruct Hr as [Hr|(d & Hd & Hf & Hr & Hp)]; [by simplify_eq|].
      unfold clipped in Hr. simplify_eq. split_and!; [done|lia|].
      exists d. split_and!; [done..|lia|lia].
    + intros b' s' Hfr. apply free_range_clipped in Hfr as (d & Hd & Hf & Hle).
      specialize (Hmax d Hd Hf). unfold clipped in Hle. simpl in *. lia.
Qed.

(** C37. The scan of the firmware's memory map is right: for version-2 boot
    arguments that carry the map [ds], it reports a range exactly when some
    memory of a free type lies at or above the bound, and the range it
    reports is free, above the bound and at least as large as every other
    such range.  A range counts as free when it lies in one descriptor of a
    free type; neighbouring descriptors are not joined. *)
Theorem largest_free_correct args ds min :
  boot_args_at args ds ->
  exists r, xnu_boot_args_find_largest_free mem args min = Ret r /\
    match r with
    | Some (b, s) =>
        free_range ds min b s /\ forall b' s', free_range ds min b' s' -> s' <= s
    | None => forall b s, ~ free_range ds min b s
    end.
Proof. apply largest_free_spec. Qed.

(** * Address translation *)

(** The low half of the virtual start, and whether [virt] lies in a range
    the firmware moved. *)
Definition d_vstart (d : desc) : Z := d_virt d mod 2 ^ 32.
Definition remaps (virt : Z) (d : desc) : Prop :=
  d_virt d <> d_phys d /\ d_vstart d <= virt < d_vstart d + d_size d.

#[export] Instance remaps_dec virt d : Decision (remaps virt d).
Proof. unfold remaps. apply _. Defined.

Definition translate (ds : list desc) (virt : Z) : Z :=
  match list_find (remaps virt) ds with
  | Some (_, d) => u32 (d_phys d + (virt - d_vstart d))
  | None => virt
  end.

Lemma translate_cons d ds virt :
  translate (d :: ds) virt =
    if decide (remaps virt d) then u32 (d_phys d + (virt - d_vstart d)) else translate ds virt.
Proof.
  unfold translate. simpl. case_decide; [done|]. by destruct (list_find _ ds) as [[]|].
Qed.

Lemma translate_loop_spec base stride virt ds : forall i,
  Forall desc_ok ds -> descs_from base stride i ds ->
  translate_loop mem base stride virt (length ds) i = Ret (translate ds virt).
Proof.
  induction ds as [|d ds IH]; intros i Hok Hat; [done|]. rewrite translate_cons. simpl in *.
  apply Forall_cons in Hok as [[Hp Hv Hpg Hsz] Hok]. destruct Hat as [[_ Hph Hvi Hpn] Hat].
  rewrite Hvi, Hph, !ret_bind. unfold remaps.
  destruct (Z.eqb_spec (d_virt d) (d_phys d)); [rewrite decide_False by naive_solver; auto|].
  rewrite Hpn, ret_bind. change 0xFFFFFFFF with (2 ^ 32 - 1). rewrite land_mask by lia.
  fold (d_vstart d). pose proof (Z.mod_pos_bound (d_virt d) (2 ^ 32) ltac:(lia)) as Hvs.
  fold (d_vstart d) in Hvs. unfold d_size in *.
  rewrite !u64_small by (rewrite ?u64_small; ulia).
  destruct (Z.leb_spec (d_vstart d) virt), (Z.ltb_spec virt (d_vstart d + d_pages d * 4096));
    simpl; [rewrite decide_True by lia; done|rewrite decide_False by lia; auto..].
Qed.

Lemma translate_virt_spec args ds virt :
  boot_args_at args ds -> xnu_efi_translate_virt mem args virt = Ret (translate ds virt).
Proof.
  intros [Ha Hv (base & stride & size & Hb & Hb0 & Hs & Hs0 & Hz & Hn & Hat) Hok].
  unfold xnu_efi_translate_virt. rewrite Hb. simpl.
  rewrite (proj2 (Z.eqb_neq _ _) Hb0), Hs. simpl.
  rewrite (proj2 (Z.eqb_neq _ _) Hs0), Hz. simpl. rewrite Hn, Nat2Z.id.
  by apply translate_loop_spec.
Qed.

(** * The configuration tables *)

Definition guid_bytes (g : efi_guid) : list Z :=
  le_bytes 4 (data1 g) ++ le_bytes 2 (data2 g) ++ le_bytes 2 (data3 g) ++ data4 g.

Record guid_ok (g : efi_guid) : Prop := {
  gk1 : is_u32 (data1 g); gk2 : is_u16 (data2 g); gk3 : is_u16 (data3 g);
  gk4 : length (data4 g) = 8%nat }.

#[export] Instance guid_eq_dec : EqDecision efi_guid.
Proof. solve_decision. Defined.

(** A configuration table entry and where its table is. *)
Fixpoint entries_from (tables i : Z) (es : list (efi_guid * Z)) : Prop :=
  match es with
  | [] => True
  | (g, t) :: es' =>
      guid_ok g /\ is_u64 t /\
      holds mem (tables + i * EFI_CONFIG_TABLE_SIZE) (guid_bytes g ++ le_bytes 8 t) /\
      entries_from tables (i + 1) es'
  end.

Lemma andM_ret x y : andM (Ret x) (Ret y) = Ret (x && y).
Proof. by destruct x. Qed.

Lemma bytes_eq_spec xs : forall ys p, length xs = length ys -> holds mem p xs ->
  bytes_eq mem p ys = Ret (bool_decide (xs = ys)).
Proof.
  induction xs as [|x xs IH]; intros [|y ys] p Hl Hh; simplify_eq/=; [done|].
  apply holds_cons in Hh as [Hx Hh]. unfold andM, eqM. rewrite Hx. simpl.
  rewrite (IH ys) by done.
  destruct (Z.eqb_spec x y); simpl; f_equal; repeat case_bool_decide; naive_solver.
Qed.

Lemma rd_le_holds (n : nat) p z :
  0 <= z < 2 ^ (8 * Z.of_nat n) -> holds mem p (le_bytes n z) ->
  (bs ← rd_bytes mem p n; Ret (le_val bs)) = Ret z.
Proof.
  intros Hz H. apply rd_bytes_holds in H. rewrite length_le_bytes in H.
  rewrite H, ret_bind. f_equal. rewrite le_val_bytes. by apply Z.mod_small.
Qed.

Lemma guid_eq_spec p g h :
  guid_ok g -> length (data4 h) = 8%nat -> holds mem p (guid_bytes g) ->
  efi_guid_eq mem p h = Ret (bool_decide (g = h)).
Proof.
  intros [H1 H2 H3 H4] Hh Hp. unfold guid_bytes in Hp.
  rewrite !holds_app, !length_le_bytes in Hp. destruct Hp as (P1 & P2 & P3 & P4).
  change (Z.of_nat 4) with 4 in *. change (Z.of_nat 2) with 2 in *.
  replace (p + 4 + 2) with (p + 6) in * by lia. replace (p + 6 + 2) with (p + 8) in * by lia.
  unfold efi_guid_eq, eqM.
  assert (rd_le32 mem p = Ret (data1 g)) as -> by by apply rd_le_holds.
  assert (rd_le16 mem (p + 4) = Ret (data2 g)) as -> by by apply rd_le_holds.
  assert (rd_le16 mem (p + 6) = Ret (data3 g)) as -> by by apply rd_le_holds.
  rewrite (bytes_eq_spec (data4 g)); [|congruence|done]. rewrite !ret_bind, !andM_ret. f_equal.
  destruct g as [g1 g2 g3 g4], h as [h1 h2 h3 h4]. simpl in *.
  destruct (Z.eqb_spec g1 h1), (Z.eqb_spec g2 h2), (Z.eqb_spec g3 h3); simpl;
    repeat case_bool_decide; naive_solver.
Qed.

(** What the tables name: the first ACPI 2.0 entry, else the last ACPI 1.0
    entry if it is not null, else nothing. *)
Definition acpi20 (es : list (efi_guid * Z)) : option Z :=
  (fun x => x.2.2) <$> list_find (fun e => e.1 = ACPI20_GUID) es.
Definition acpi10 (es : list (efi_guid * Z)) : Z :=
  foldl (fun t e => if decide (e.1 = ACPI10_GUID) then u32 e.2 else t) 0 es.
Definition acpi_root (ds : list desc) (es : list (efi_guid * Z)) : Z :=
  match acpi20 es with
  | Some t => translate ds (u32 t)
  | None => if decide (acpi10 es = 0) then 0 else translate ds (acpi10 es)
  end.

Lemma acpi20_cons g t es :
  acpi20 ((g, t) :: es) = if decide (g = ACPI20_GUID) then Some t else acpi20 es.
Proof.
  unfold acpi20. simpl. case_decide; [done|]. by destruct (list_find _ es) as [[]|].
Qed.

Lemma rsdp_loop_spec args ds tables es : boot_args_at args ds -> forall i a1,
  entries_from tables i es ->
  rsdp_loop mem args tables (length es) i a1 =
    Ret (match acpi20 es with
         | Some t => translate ds (u32 t)
         | None =>
             let t := foldl (fun t e => if decide (e.1 = ACPI10_GUID) then u32 e.2 else t) a1 es in
             if decide (t = 0) then 0 else translate ds t
         end).
Proof.
  intros Hargs. induction es as [|[g t] es IH]; intros i a1 He.
  - simpl. destruct (Z.eqb_spec a1 0) as [->|Hn]; [done|]. rewrite decide_False by done.
    by apply translate_virt_spec.
  - destruct He as (Hg & Ht & Hh & He). cbn [length rsdp_loop]. cbv zeta.
    apply holds_app in Hh as [Hgb Htb].
    replace (Z.of_nat (length (guid_bytes g))) with 16 in Htb.
    2:{ unfold guid_bytes. rewrite !length_app, !length_le_bytes, (gk4 _ Hg). done. }
    rewrite (guid_eq_spec _ g ACPI20_GUID), ret_bind, acpi20_cons by done. cbn [foldl fst snd].
    destruct (decide (g = ACPI20_GUID)) as [->|N2].
    + rewrite bool_decide_true by done. cbv iota.
      rewrite (rd_le64_holds _ _ t Ht Htb), ret_bind. by apply translate_virt_spec.
    + rewrite bool_decide_false by done. cbv iota.
      rewrite (guid_eq_spec _ g ACPI10_GUID), ret_bind by done.
      destruct (decide (g = ACPI10_GUID)) as [->|N1].
      * rewrite bool_decide_true by done. cbv iota.
        by rewrite (rd_le64_holds _ _ t Ht Htb), ret_bind, IH.
      * rewrite bool_decide_false by done. cbv iota. by rewrite IH.
Qed.

(** The system table at [sys] with its configuration tables. *)
Record system_table_at (ds : list desc) (sys : Z) (es : list (efi_guid * Z)) : Prop := {
  st_sig : sys64 mem sys hdr_signature = Ret EFI_SYSTEM_TABLE_SIGNATURE;
  st_count : sys64 mem sys number_of_table_entries = Ret (Z.of_nat (length es));
  st_tables : exists ct, sys64 mem sys configuration_table = Ret ct /\ ct <> 0 /\
    translate ds (u32 ct) <> 0 /\ entries_from (translate ds (u32 ct)) 0 es }.

Lemma find_rsdp_spec args ds st es :
  boot_args_at args ds -> ba32 mem args efi_system_table = Ret st -> st <> 0 ->
  translate ds st <> 0 -> system_table_at ds (translate ds st) es ->
  xnu_boot_args_find_rsdp mem args = Ret (acpi_root ds es).
Proof.
  intros Hargs Hst Hst0 Htr [Hsig Hn (ct & Hct & Hct0 & Htab & He)].
  unfold xnu_boot_args_find_rsdp. rewrite (proj2 (Z.eqb_neq _ _) (bg_addr _ _ Hargs)).
  rewrite (bg_version _ _ Hargs). simpl. rewrite Hst. simpl.
  rewrite (proj2 (Z.eqb_neq _ _) Hst0), (translate_virt_spec args ds) by done. simpl.
  rewrite (proj2 (Z.eqb_neq _ _) Htr), Hsig, ret_bind, Z.eqb_refl. simpl. rewrite Hct. simpl.
  rewrite (proj2 (Z.eqb_neq _ _) Hct0), (translate_virt_spec args ds) by done. simpl.
  rewrite (proj2 (Z.eqb_neq _ _) Htab), Hn. simpl. rewrite Nat2Z.id.
  by apply rsdp_loop_spec.
Qed.

(** The ACPI root pointer handed to init is the one the firmware
    published: following the boot arguments to the system table and its
    configuration tables, every pointer translated through the memory map,
    the result is the first ACPI 2.0 entry, failing that the last ACPI 1.0
    entry, failing that 0. *)
Theorem find_rsdp_correct args ds st es :
  boot_args_at args ds -> ba32 mem args efi_system_table = Ret st -> st <> 0 ->
  translate ds st <> 0 -> system_table_at ds (translate ds st) es ->
  xnu_boot_args_find_rsdp mem args = Ret (acpi_root ds es).
Proof. apply find_rsdp_spec. Qed.

End Spec.

(** ** Tables found in a part of memory *)

Section Extends.
Context (rd rd' : reader) (Hext : extends rd rd').

Lemma ba32_ext p f z : ba32 rd p f = Ret z -> ba32 rd' p f = Ret z.
Proof. by apply rd_le32_ext. Qed.

Lemma ba64_ext p f z : ba64 rd p f = Ret z -> ba64 rd' p f = Ret z.
Proof. by apply rd_le64_ext. Qed.

Lemma descs_from_ext base stride ds : forall i,
  descs_from rd base stride i ds -> descs_from rd' base stride i ds.
Proof.
  induction ds as [|d ds IH]; intros i; simpl; [done|]. intros [[Ht Hp Hv Hn] H].
  split; [|auto]. split; [by eapply rd_le32_ext|by eapply rd_le64_ext..].
Qed.

Lemma boot_args_at_ext args ds : boot_args_at rd args ds -> boot_args_at rd' args ds.
Proof.
  intros [Ha Hv (base & stride & size & Hb & Hb0 & Hs & Hs0 & Hz & Hn & Hd) Hok].
  split; [done|by eapply rd_le16_ext| |done].
  exists base, stride, size. split_and!; eauto using ba32_ext, descs_from_ext.
Qed.

Lemma entries_from_ext tables es : forall i,
  entries_from rd tables i es -> entries_from rd' tables i es.
Proof.
  induction es as [|[g t] es IH]; intros i; simpl; [done|].
  intros (Hg & Ht & Hh & H). split_and!; [done..| |by apply IH]. by eapply holds_ext.
Qed.

Lemma system_table_at_ext ds sys es : system_table_at rd ds sys es -> system_table_at rd' ds sys es.
Proof.
  intros [Hs Hn (ct & Hct & Hc0 & Htr & He)]. split; [by eapply rd_le64_ext..|].
  exists ct. split; [by eapply rd_le64_ext|]. split_and!; [done..|]. by apply entries_from_ext.
Qed.

End Extends.

(** * A machine *)

(** Boot arguments at 4096, a map of three descriptors 48 bytes apart, and a
    system table that the firmware's virtual addresses name in the second,
    remapped one. *)
Definition ex_descs : list desc := [
  {| d_type := 7; d_phys := 0x100000; d_virt := 0x100000; d_pages := 256 |};
  {| d_type := 6; d_phys := 0x1F4ED000; d_virt := 0xFFFFFF8001107000; d_pages := 0x200 |};
  {| d_type := 4; d_phys := 0x2000000; d_virt := 0x2000000; d_pages := 0x4000 |}].

Definition desc_bytes (d : desc) : list Z :=
  le_bytes 8 (d_type d) ++ le_bytes 8 (d_phys d) ++ le_bytes 8 (d_virt d) ++
  le_bytes 8 (d_pages d) ++ replicate 16 0.

Definition ex_entries : list (efi_guid * Z) := [(ACPI10_GUID, 0x7F000); (ACPI20_GUID, 0x7F014)].

Definition ex_machine : reader := of_regions [
  (4098, [2; 0]);
  (5128, le_bytes 4 8192 ++ le_bytes 4 144 ++ le_bytes 4 48);
  (5200, le_bytes 4 0x1206018);
  (8192, concat (desc_bytes <$> ex_descs));
  (0x1F5EC018, le_bytes 8 EFI_SYSTEM_TABLE_SIGNATURE);
  (0x1F5EC080, le_bytes 8 2 ++ le_bytes 8 0x12060A0);
  (0x1F5EC0A0, concat ((fun e => guid_bytes e.1 ++ le_bytes 8 e.2) <$> ex_entries))].

Lemma ex_boot_args : boot_args_at ex_machine 4096 ex_descs.
Proof.
  split; [done|vm_compute; reflexivity| |].
  - exists 8192, 48, 144.
    do 6 (split; [by vm_compute|]). repeat split; vm_compute; reflexivity.
  - repeat (apply List.Forall_cons; [split; simpl; unfold d_size; simpl; ulia|]).
    apply List.Forall_nil.
Qed.

Lemma largest_free_correct_witness :
  exists r, xnu_boot_args_find_largest_free ex_machine 4096 0x1000000 = Ret r /\
    match r with
    | Some (b, s) => free_range ex_descs 0x1000000 b s /\
        forall b' s', free_range ex_descs 0x1000000 b' s' -> s' <= s
    | None => forall b s, ~ free_range ex_descs 0x1000000 b s
    end.
Proof. apply (largest_free_correct ex_machine 4096 ex_descs), ex_boot_args. Defined.

Lemma find_rsdp_correct_witness :
  xnu_boot_args_find_rsdp ex_machine 4096 = Ret (acpi_root ex_descs ex_entries) /\
  acpi_root ex_descs ex_entries = 0x7F014.
Proof.
  split; [|vm_compute; reflexivity].
  apply (find_rsdp_correct ex_machine 4096 ex_descs 0x1206018 ex_entries);
    [apply ex_boot_args|vm_compute; reflexivity|done|by vm_compute|].
  split; [vm_compute; reflexivity..|].
  exists 0x12060A0. split; [vm_compute; reflexivity|]. split; [done|].
  split; [by vm_compute|].
  repeat (split; [split; by_compute|]; split; [by_compute|];
          split; [apply rd_bytes_holds_inv; vm_compute; reflexivity|]).
  exact I.
Defined.
