(* ===== verification/SmpLayout.v ===== *)
(** The memory layout every core agrees on: include/smp_layout.h.

    The constants that differ between the two targets take the target as an
    argument.  The ranges they carve memory into are compared here: what the
    header promises in its comments is that nothing overlaps. *)
From S2P Require Import Prelude.

(** * The constants *)

Definition CORE_REGION_BASE (a : arch) : Z :=
  match a with AARCH64 => 0x42000000 | X86_64 => 0x4000000 end.
Definition CORE_REGION_SIZE : Z := 0x400000.

Definition CORE_KERNEL_OFFSET : Z := 0x000000.
Definition CORE_KERNEL_MAX_SIZE : Z := 0x100000.
Definition CORE_INIT_OFFSET : Z := 0x100000.
Definition CORE_INIT_MAX_SIZE : Z := 0x200000.
Definition CORE_STACK_OFFSET : Z := 0x300000.
Definition CORE_STACK_SIZE : Z := 0x080000.
Definition CORE_MAILBOX_OFFSET : Z := 0x380000.
Definition CORE_MAILBOX_SIZE : Z := 0x080000.

Definition BSP_MAILBOX_REGION_BASE (a : arch) : Z :=
  match a with
  | AARCH64 => 0x41800000 - CORE_MAILBOX_OFFSET
  | X86_64 => 0x1200000 - CORE_MAILBOX_OFFSET
  end.

Definition CORE_DISCOVERY_OFFSET : Z := 0x390000.
Definition CORE_DISCOVERY_BSP_INVOKE_OFF : Z := 0x00.
Definition CORE_DISCOVERY_MUTEX_MGR_OFF : Z := 0x08.
Definition CORE_DISCOVERY_MEM_MGR_OFF : Z := 0x10.
Definition CORE_DISCOVERY_HW_MUTEX_ID_OFF : Z := 0x18.
Definition CORE_DISCOVERY_LAPIC_CALIBRATION_OFF : Z := 0x20.
Definition CORE_DISCOVERY_CLUSTER_SCHED_OFF : Z := 0x28.
Definition CORE_DISCOVERY_SERIAL_RESOURCE_OFF : Z := 0x30.
Definition CORE_DISCOVERY_RSDP_OFF : Z := 0x38.
Definition CORE_DISCOVERY_AP_CORE_STATE_OFF : Z := 0x40.

Definition KERNEL_LOAD_BASE (a : arch) : Z :=
  match a with AARCH64 => 0x41000000 | X86_64 => 0x1000000 end.
Definition BSP_INIT_LOAD_BASE (a : arch) : Z :=
  match a with AARCH64 => 0x40200000 | X86_64 => 0x1800000 end.

Definition CORE_PGTABLE_OFFSET : Z := 0x3A0000.
Definition CORE_PGTABLE_PML4_OFF : Z := 0x0000.
Definition CORE_PGTABLE_PDPT_OFF : Z := 0x1000.
Definition CORE_PGTABLE_PD_OFF : Z := 0x2000.
Definition CORE_PGTABLE_PD_HI_OFF : Z := 0x3000.

Definition BOOT_ALLOCATOR_REGION_BASE : Z := 0x41880000.
Definition BOOT_ALLOCATOR_REGION_SIZE : Z := 0x00110000.

Definition ALLOC_MIN (a : arch) : Z :=
  match a with AARCH64 => 0x54000000 | X86_64 => 0x1C00000 end.
Definition ALLOC_MAX (a : arch) : Z :=
  match a with AARCH64 => 0x58000000 | X86_64 => CORE_REGION_BASE X86_64 end.

(** * Ranges *)

(** [(base, size)] *)
Abbreviation range := (Z * Z)%type.

Definition disjoint_ranges (r r' : range) : Prop := r.1 + r.2 <= r'.1 \/ r'.1 + r'.2 <= r.1.
Definition inside (r r' : range) : Prop := r'.1 <= r.1 /\ r.1 + r.2 <= r'.1 + r'.2.

#[export] Instance disjoint_ranges_dec r r' : Decision (disjoint_ranges r r').
Proof. unfold disjoint_ranges. apply _. Defined.
#[export] Instance inside_dec r r' : Decision (inside r r').
Proof. unfold inside. apply _. Defined.

Lemma disjoint_ranges_sym r r' : disjoint_ranges r r' -> disjoint_ranges r' r.
Proof. unfold disjoint_ranges. tauto. Qed.

(** A part of one range and a part of a disjoint one. *)
Lemma disjoint_inside r r' p p' :
  disjoint_ranges r r' -> inside p r -> inside p' r' -> disjoint_ranges p p'.
Proof. unfold disjoint_ranges, inside. lia. Qed.

(** Core [i >= 1]'s region, and the parts of a region that starts at [b]:
    kernel copy, init copy, stack, discovery record, page tables. *)
Definition core_region_base (a : arch) (i : Z) : Z :=
  CORE_REGION_BASE a + (i - 1) * CORE_REGION_SIZE.
Definition core_region (a : arch) (i : Z) : range := (core_region_base a i, CORE_REGION_SIZE).

Definition DISCOVERY_SIZE : Z := CORE_DISCOVERY_AP_CORE_STATE_OFF + 8.
Definition PGTABLE_SIZE : Z := CORE_PGTABLE_PD_HI_OFF + 0x1000.

Definition region_parts (b : Z) : list range := [
  (b + CORE_KERNEL_OFFSET, CORE_KERNEL_MAX_SIZE);
  (b + CORE_INIT_OFFSET, CORE_INIT_MAX_SIZE);
  (b + CORE_STACK_OFFSET, CORE_STACK_SIZE);
  (b + CORE_DISCOVERY_OFFSET, DISCOVERY_SIZE);
  (b + CORE_PGTABLE_OFFSET, PGTABLE_SIZE)].

(** What the boot core and the allocator use: kernel image, mailbox window,
    init image, allocation pool, and on AArch64 the boot allocator. *)
Definition fixed_ranges (a : arch) : list range := [
  (KERNEL_LOAD_BASE a, CORE_KERNEL_MAX_SIZE);
  (BSP_MAILBOX_REGION_BASE a + CORE_MAILBOX_OFFSET, CORE_MAILBOX_SIZE);
  (BSP_INIT_LOAD_BASE a, CORE_INIT_MAX_SIZE);
  (ALLOC_MIN a, ALLOC_MAX a - ALLOC_MIN a)] ++
  match a with
  | AARCH64 => [(BOOT_ALLOCATOR_REGION_BASE, BOOT_ALLOCATOR_REGION_SIZE)]
  | X86_64 => []
  end.

Definition pairwise_disjoint (rs : list range) : Prop :=
  forall i j r r', rs !! i = Some r -> rs !! j = Some r' -> i <> j -> disjoint_ranges r r'.

(** Decides it by comparing each range with the ones after it. *)
Fixpoint pairwise_disjoint_b (rs : list range) : bool :=
  match rs with
  | [] => true
  | r :: rs' => forallb (fun r' => bool_decide (disjoint_ranges r r')) rs' && pairwise_disjoint_b rs'
  end.

Lemma pairwise_disjoint_b_sound rs : pairwise_disjoint_b rs = true -> pairwise_disjoint rs.
Proof.
  induction rs as [|r rs IH]; [by intros _ [] ???|]. simpl.
  intros [Hr Hrs]%andb_true_iff. specialize (IH Hrs). rewrite forallb_forall in Hr.
  intros [|i] [|j] x y Hx Hy Hn; simplify_eq/=.
  - apply (bool_decide_eq_true_1 _), Hr, list_elem_of_In. by eapply list_elem_of_lookup_2.
  - apply disjoint_ranges_sym, (bool_decide_eq_true_1 _), Hr, list_elem_of_In.
    by eapply list_elem_of_lookup_2.
  - eapply (IH i j); congruence.
Qed.

Lemma region_parts_disjoint b : pairwise_disjoint (region_parts b).
Proof.
  intros i j r r' Hi Hj Hn.
  destruct i as [|[|[|[|[|]]]]], j as [|[|[|[|[|]]]]]; simplify_eq/=; try done;
    unfold disjoint_ranges; simpl;
    unfold CORE_KERNEL_OFFSET, CORE_KERNEL_MAX_SIZE, CORE_INIT_OFFSET, CORE_INIT_MAX_SIZE,
      CORE_STACK_OFFSET, CORE_STACK_SIZE, CORE_DISCOVERY_OFFSET, CORE_PGTABLE_OFFSET,
      DISCOVERY_SIZE, PGTABLE_SIZE, CORE_DISCOVERY_AP_CORE_STATE_OFF, CORE_PGTABLE_PD_HI_OFF; lia.
Qed.

Lemma region_parts_inside a i r :
  r ∈ region_parts (core_region_base a i) -> inside r (core_region a i).
Proof.
  unfold region_parts. rewrite !elem_of_cons. intros H.
  destruct H as [->|[->|[->|[->|[->|H]]]]]; [..|by apply elem_of_nil in H];
    split; simpl; unfold CORE_KERNEL_OFFSET, CORE_KERNEL_MAX_SIZE, CORE_INIT_OFFSET,
      CORE_INIT_MAX_SIZE, CORE_STACK_OFFSET, CORE_STACK_SIZE, CORE_DISCOVERY_OFFSET,
      CORE_PGTABLE_OFFSET, DISCOVERY_SIZE, PGTABLE_SIZE, CORE_DISCOVERY_AP_CORE_STATE_OFF,
      CORE_PGTABLE_PD_HI_OFF, CORE_REGION_SIZE; lia.
Qed.

Lemma core_regions_disjoint a i j : i <> j -> disjoint_ranges (core_region a i) (core_region a j).
Proof. intros. unfold disjoint_ranges, core_region, core_region_base, CORE_REGION_SIZE. simpl. lia. Qed.

Lemma core_region_fixed a i r :
  1 <= i <= 64 -> r ∈ fixed_ranges a -> disjoint_ranges (core_region a i) r.
Proof.
  intros Hi Hr.
  assert (disjoint_ranges (CORE_REGION_BASE a, 64 * CORE_REGION_SIZE) r) as Hall.
  { assert (Forall (disjoint_ranges (CORE_REGION_BASE a, 64 * CORE_REGION_SIZE)) (fixed_ranges a))
      as H by (destruct a; by_compute).
    by eapply Forall_forall. }
  eapply disjoint_inside; [exact Hall| |split; reflexivity].
  unfold inside, core_region, core_region_base, CORE_REGION_SIZE. simpl. lia.
Qed.

(** Nothing in the layout overlaps, on either target: the parts of a
    core's region (kernel copy, init copy, stack, discovery record, page
    tables) are disjoint and inside it; the regions of different cores are
    disjoint; and up to the 64 cores the header plans for, no region
    touches the boot core's kernel, mailbox and init, the allocation pool or
    the boot allocator, which are disjoint from each other too. *)
Theorem smp_layout_disjoint a i :
  1 <= i <= 64 ->
  pairwise_disjoint (region_parts (core_region_base a i)) /\
  (forall r, r ∈ region_parts (core_region_base a i) -> inside r (core_region a i)) /\
  (forall j, i <> j -> disjoint_ranges (core_region a i) (core_region a j)) /\
  (forall r, r ∈ fixed_ranges a -> disjoint_ranges (core_region a i) r) /\
  pairwise_disjoint (fixed_ranges a).
Proof.
  intros Hi. split; [apply region_parts_disjoint|].
  split; [apply region_parts_inside|]. split; [apply core_regions_disjoint|].
  split; [intros r; by apply core_region_fixed|].
  apply pairwise_disjoint_b_sound. destruct a; vm_compute; reflexivity.
Qed.

Lemma smp_layout_disjoint_witness :
  disjoint_ranges (core_region AARCH64 64) (ALLOC_MIN AARCH64, ALLOC_MAX AARCH64 - ALLOC_MIN AARCH64).
Proof.
  destruct (smp_layout_disjoint AARCH64 64) as (_ & _ & _ & H & _); [lia|].
  apply H. unfold fixed_ranges. simpl. set_solver.
Defined.
