(* ===== verification/CLayout.v ===== *)
(** Where a C compiler puts the fields of a struct, on both targets.

    The sources declare structs that somebody else reads or writes: GRUB and
    the firmware (kernel/xnu_boot_args.h, kernel/kernel.c), the Mach-O linker
    (kernel/macho.c), init (include/init_abi.h) and callers that supply
    storage for capability records (kernel/cap.c).  This file computes the
    layout of such a struct from its declaration by the rule the System V
    x86_64 and the AArch64 ABIs share, and proves that the offsets the other
    files use, and the static assertions of the sources, are the ones this
    rule gives. *)
From Stdlib Require Import String.
From S2P Require Import Prelude CMem Macho Efi SmpLayout.

(** A field's type: its size and alignment in bytes. *)
Record cty := { c_size : Z; c_align : Z }.

(** [n]-byte integers and pointers, arrays, and a type without alignment, as
    in a packed struct. *)
Definition scalar (n : Z) : cty := {| c_size := n; c_align := n |}.
Definition array (n : Z) (t : cty) : cty := {| c_size := n * c_size t; c_align := c_align t |}.
Definition packed (n : Z) : cty := {| c_size := n; c_align := 1 |}.
Definition cty_ok (t : cty) : Prop := 0 <= c_size t /\ 0 < c_align t.

Definition round_up (n a : Z) : Z := (n + a - 1) / a * a.

Section Layout.
Context {F : Type} `{EqDecision F}.

(** The fields with their offsets and sizes, the first one placed at or
    after [at_]. *)
Fixpoint layout (at_ : Z) (fs : list (F * cty)) : list (F * (Z * Z)) :=
  match fs with
  | [] => []
  | (f, t) :: rest =>
      let o := round_up at_ (c_align t) in (f, (o, c_size t)) :: layout (o + c_size t) rest
  end.

(** Where the last field ends. *)
Fixpoint extent (at_ : Z) (fs : list (F * cty)) : Z :=
  match fs with
  | [] => at_
  | (_, t) :: rest => extent (round_up at_ (c_align t) + c_size t) rest
  end.

Definition struct_align (fs : list (F * cty)) : Z := foldr (fun f a => Z.max (c_align f.2) a) 1 fs.
Definition sizeof (fs : list (F * cty)) : Z := round_up (extent 0 fs) (struct_align fs).

(** The struct as a field of another. *)
Definition as_field (fs : list (F * cty)) : cty := {| c_size := sizeof fs; c_align := struct_align fs |}.

Fixpoint find_field (f : F) (l : list (F * (Z * Z))) : Z * Z :=
  match l with
  | [] => (0, 0)
  | (g, x) :: rest => if decide (f = g) then x else find_field f rest
  end.
Definition offsetof (fs : list (F * cty)) (f : F) : Z := (find_field f (layout 0 fs)).1.
Definition sizeof_field (fs : list (F * cty)) (f : F) : Z := (find_field f (layout 0 fs)).2.

(** * Lemmas *)

Lemma round_up_ge n a : 0 < a -> n <= round_up n a < n + a.
Proof. intros Ha. unfold round_up. pose proof (Z.div_mod (n + a - 1) a). pose proof (Z.mod_pos_bound (n + a - 1) a). lia. Qed.

Lemma round_up_aligned n a : 0 < a -> round_up n a mod a = 0.
Proof. intros Ha. unfold round_up. apply Z.mod_mul. lia. Qed.

Lemma round_up_id n a : 0 < a -> n mod a = 0 -> round_up n a = n.
Proof.
  intros Ha Hn. unfold round_up. apply Z.div_exact in Hn; [|lia].
  replace (n + a - 1) with ((a - 1) + n / a * a) by lia.
  rewrite Z.div_add by lia. rewrite (Z.div_small (a - 1)) by lia. lia.
Qed.

Lemma layout_extent fs : forall at_, Forall (fun f => cty_ok f.2) fs -> at_ <= extent at_ fs.
Proof.
  induction fs as [|[f t] fs IH]; intros at_ Hok; simpl; [lia|].
  apply Forall_cons in Hok as [[? ?] Hok]. simpl in *.
  pose proof (IH (round_up at_ (c_align t) + c_size t) Hok).
  pose proof (round_up_ge at_ (c_align t) ltac:(done)). lia.
Qed.

(** Every field lies behind the one before it and in front of the end. *)
Lemma layout_in fs : forall at_ f o n,
  Forall (fun f => cty_ok f.2) fs -> (f, (o, n)) ∈ layout at_ fs ->
  at_ <= o /\ 0 <= n /\ o + n <= extent at_ fs.
Proof.
  induction fs as [|[g t] fs IH]; intros at_ f o n Hok Hin; simpl in *; [set_solver|].
  apply Forall_cons in Hok as [[? ?] Hok]. simpl in *.
  pose proof (round_up_ge at_ (c_align t) ltac:(done)).
  apply elem_of_cons in Hin as [Heq|Hin]; simplify_eq.
  - pose proof (layout_extent fs (round_up at_ (c_align t) + c_size t) Hok). lia.
  - apply IH in Hin; [|done]. lia.
Qed.

(** Two fields of a struct never share a byte. *)
Lemma layout_disjoint fs : forall at_ (i j : nat) f g o n o' n',
  Forall (fun f => cty_ok f.2) fs -> (i < j)%nat ->
  layout at_ fs !! i = Some (f, (o, n)) -> layout at_ fs !! j = Some (g, (o', n')) -> o + n <= o'.
Proof.
  induction fs as [|[h t] fs IH]; intros at_ i j f g o n o' n' Hok Hij Hi Hj; simpl in *; [done|].
  apply Forall_cons in Hok as [[? ?] Hok]. destruct j as [|j]; [lia|]. simpl in *.
  destruct i as [|i]; simpl in *.
  - simplify_eq. apply list_elem_of_lookup_2, layout_in in Hj; [|done]. lia.
  - eapply (IH _ i j); [done|lia|exact Hi|exact Hj].
Qed.

(** And each is aligned as its type asks. *)
Lemma layout_aligned fs : forall at_ (i : nat) f t x,
  Forall (fun f => cty_ok f.2) fs -> fs !! i = Some (f, t) -> layout at_ fs !! i = Some x ->
  x.2.1 mod c_align t = 0.
Proof.
  induction fs as [|[h u] fs IH]; intros at_ i f t x Hok Hi Hx; simpl in *; [done|].
  apply Forall_cons in Hok as [[? ?] Hok]. destruct i as [|i]; simplify_eq/=.
  - by apply round_up_aligned.
  - by eapply IH.
Qed.

End Layout.

(** A packed struct has no holes: its layout is the running sum. *)
Lemma packed_offset {F} `{EqDecision F} (fs : list (F * Z)) f : forall at_,
  f ∈ fs.*1 -> (find_field f (layout at_ (prod_map id packed <$> fs))).1 = at_ + offset_in f fs.
Proof.
  induction fs as [|[g n] fs IH]; intros at_ Hin; [set_solver|]. simpl.
  rewrite (round_up_id at_ 1) by (lia || apply Z.mod_1_r).
  destruct (decide (f = g)); [simpl; lia|]. rewrite IH; [lia|]. simpl in Hin. set_solver.
Qed.

(** * The structs *)

(** By name; [ptr] is a 64-bit pointer on both targets. *)
Abbreviation ptr := (scalar 8).
Open Scope string_scope.

Definition mach_header_64_t : list (string * cty) := [
  ("magic", scalar 4); ("cputype", scalar 4); ("cpusubtype", scalar 4); ("filetype", scalar 4);
  ("ncmds", scalar 4); ("sizeofcmds", scalar 4); ("flags", scalar 4); ("reserved", scalar 4)].
Definition load_command_t : list (string * cty) := [("cmd", scalar 4); ("cmdsize", scalar 4)].
Definition segment_command_64_t : list (string * cty) := [
  ("cmd", scalar 4); ("cmdsize", scalar 4); ("segname", array 16 (scalar 1));
  ("vmaddr", scalar 8); ("vmsize", scalar 8); ("fileoff", scalar 8); ("filesize", scalar 8);
  ("maxprot", scalar 4); ("initprot", scalar 4); ("nsects", scalar 4); ("flags", scalar 4)].
Definition entry_point_command_t : list (string * cty) := [
  ("cmd", scalar 4); ("cmdsize", scalar 4); ("entryoff", scalar 8); ("stacksize", scalar 8)].

Definition efi_guid_t : list (string * cty) := [
  ("data1", packed 4); ("data2", packed 2); ("data3", packed 2); ("data4", packed 8)].
Definition efi_configuration_table_t : list (string * cty) := [
  ("vendor_guid", as_field efi_guid_t); ("vendor_table", scalar 8)].

(** The header is a packed struct inside one that is not. *)
Definition efi_system_table_t : list (sys_field * cty) :=
  (prod_map id packed <$> efi_table_header) ++
  (prod_map id scalar <$> drop 5 efi_system_table_64).

Definition capability_t : list (string * cty) := [("handle", scalar 8)].
Definition initial_capabilities_fields : list (string * cty) := [
  ("count", scalar 8); ("factory", as_field capability_t)].
Definition init_boot_info_fields : list (string * cty) := [
  ("caps", as_field initial_capabilities_fields); ("kernel_invoke", ptr);
  ("kernel_load_base", scalar 8); ("kernel_boot_ap_addr", scalar 8); ("pml4_phys", scalar 8);
  ("init_image_addr", scalar 8); ("init_image_len", scalar 8); ("kernel_image_addr", scalar 8);
  ("kernel_image_len", scalar 8); ("bsp_kernel_invoke_addr", scalar 8);
  ("mutex_manager_handle", scalar 8); ("memory_manager_handle", scalar 8);
  ("hardware_mutex_id", scalar 8); ("lapic_calibration_count", scalar 8);
  ("cluster_scheduler_handle", scalar 8); ("serial_resource_handle", scalar 8);
  ("early_rsdp_phys", scalar 8); ("fdt_blob_phys", scalar 8); ("ram_size", scalar 8);
  ("init_description_phys", scalar 8); ("init_entry_addr", scalar 8);
  ("ap_core_state_phys", scalar 8)].
Definition init_ap_handoff_fields : list (string * cty) := [
  ("stack_top", scalar 8); ("init_entry", scalar 8); ("boot_info", as_field init_boot_info_fields)].

(** * The offsets in use *)

(** The Mach-O loader's segment, read at the compiler's offsets. *)
Lemma rd_segment_layout rd p :
  rd_segment rd p =
    (name ← rd_bytes rd (p + offsetof segment_command_64_t "segname")
              (Z.to_nat (sizeof_field segment_command_64_t "segname"));
     va ← rd_le64 rd (p + offsetof segment_command_64_t "vmaddr");
     vs ← rd_le64 rd (p + offsetof segment_command_64_t "vmsize");
     fo ← rd_le64 rd (p + offsetof segment_command_64_t "fileoff");
     fs ← rd_le64 rd (p + offsetof segment_command_64_t "filesize");
     Ret {| segname := name; vmaddr := va; vmsize := vs; fileoff := fo; filesize := fs |}).
Proof. reflexivity. Qed.

Lemma macho_layout :
  sizeof mach_header_64_t = MACH_HEADER_SIZE /\
  offsetof mach_header_64_t "cputype" = 4 /\ offsetof mach_header_64_t "ncmds" = 16 /\
  offsetof load_command_t "cmdsize" = 4 /\ offsetof entry_point_command_t "entryoff" = 8 /\
  sizeof segment_command_64_t = 72 /\ sizeof entry_point_command_t = 24.
Proof. by repeat split. Qed.

(** The firmware's tables: the running sums of Efi.v are the compiler's
    offsets although the system table is not packed, and its static
    assertion holds. *)
Lemma efi_layout :
  sizeof efi_system_table_t = 120 /\
  Forall (fun f => offsetof efi_system_table_t f = offset_in f efi_system_table_64)
    efi_system_table_64.*1 /\
  sizeof efi_configuration_table_t = EFI_CONFIG_TABLE_SIZE /\
  offsetof efi_configuration_table_t "vendor_table" = 16.
Proof. split; [done|]. split; [by_compute|done]. Qed.

Lemma boot_args_layout f :
  f ∈ xnu_boot_args_v2.*1 ->
  offsetof (prod_map id packed <$> xnu_boot_args_v2) f = offset_in f xnu_boot_args_v2.
Proof. intros Hf. unfold offsetof. by rewrite packed_offset. Qed.

Lemma boot_args_size : sizeof (prod_map id packed <$> xnu_boot_args_v2) = 4096.
Proof. reflexivity. Qed.

(** What init reads: 23 words in a row, no padding; an application
    processor's stack pointer is the first word of its handoff block, which
    is what its entry code loads. *)
Lemma init_abi_layout :
  layout 0 init_boot_info_fields =
    ("caps", (0, 16)) :: imap (fun i f => (f, (16 + 8 * Z.of_nat i, 8))) (drop 1 init_boot_info_fields.*1) /\
  sizeof init_boot_info_fields = 184 /\ struct_align init_boot_info_fields = 8 /\
  offsetof init_ap_handoff_fields "stack_top" = 0 /\ offsetof init_ap_handoff_fields "init_entry" = 8 /\
  offsetof init_ap_handoff_fields "boot_info" = 16 /\ sizeof init_ap_handoff_fields = 200.
Proof. by vm_compute. Qed.

(** kernel_boot_aarch64.c's assertion about the constant in the entry code:
    [#0x380, lsl #12]. *)
Lemma ap_stack_constant : CORE_STACK_OFFSET + CORE_STACK_SIZE = Z.shiftl 0x380 12.
Proof. reflexivity. Qed.
