(* ===== verification/CapRecord.v ===== *)
(** Capability records as bytes: the storage a caller of CREATE supplies.

    The other files keep records in a map from handles to records.  In the
    kernel a handle is the address of at least [CAP_RECORD_SIZE] bytes that
    the caller owns, and [cap_record_t] is laid out in them by the compiler.
    Here the critical sections run on byte memory, and the theorems say when
    that is the same as running them on the map. *)
From S2P Require Import Prelude CMem Schema Cap CapProps CapInvoke CapSmp CLayout.

#[export] Instance field_eq_dec : EqDecision field.
Proof. solve_decision. Defined.

(** [cap_record_t]'s declaration and what cap.h promises of it. *)
Definition cap_record_fields : list (field * cty) := [
  (F_magic, scalar 8); (F_valid, scalar 4); (F_handler, ptr); (F_data, ptr);
  (F_schema_table, ptr); (F_schema_index, scalar 2)].
Definition CAP_RECORD_SIZE : Z := 64.
Definition CAP_RECORD_ALIGN : Z := 16.

(** The static assertion, and the alignment cap.h asks of the storage. *)
Lemma cap_record_fits :
  sizeof cap_record_fields <= CAP_RECORD_SIZE /\
  CAP_RECORD_ALIGN mod struct_align cap_record_fields = 0.
Proof. by vm_compute. Qed.

Definition off (f : field) : Z := offsetof cap_record_fields f.
Definition width (f : field) : nat := Z.to_nat (sizeof_field cap_record_fields f).

(** [valid] is an [int], the others are unsigned. *)
Definition field_val (f : field) (z : Z) : Z := match f with F_valid => s32 z | _ => z end.
Definition field_ok (f : field) (v : Z) : Prop :=
  match f with
  | F_valid => - 2 ^ 31 <= v < 2 ^ 31
  | F_schema_index => is_u16 v
  | F_magic | F_handler | F_data | F_schema_table => is_u64 v
  end.

(** [r->f] and [r->f = v] for the record at [p]. *)
Definition load_field (m : memory) (p : Z) (f : field) : outcome Z :=
  bs ← rd_bytes (mem_rd m) (p + off f) (width f); Ret (field_val f (le_val bs)).
Definition store_field (m : memory) (p : Z) (f : field) (v : Z) : outcome memory :=
  wr_bytes m (p + off f) (le_bytes (width f) v).

(** A critical section on byte memory. *)
Fixpoint run_crit_mem (k : crit) (m : memory) : outcome (cres * memory) :=
  match k with
  | CDone res => Ret (res, m)
  | CRead p f k => v ← load_field m p f; run_crit_mem (k v) m
  | CWrite p f v k => m ← store_field m p f v; run_crit_mem k m
  end.

(** * What memory means *)

Definition record_at (m : memory) (p : Z) (r : cap_record_t) : Prop :=
  forall f, field_ok f (get_field f r) /\
    holds (mem_rd m) (p + off f) (le_bytes (width f) (get_field f r)).

(** The blocks two records occupy. *)
Definition apart (p q : Z) : Prop :=
  p + sizeof cap_record_fields <= q \/ q + sizeof cap_record_fields <= p.

(** Memory [m] holds every record of [rs] in storage of its own. *)
Record mem_refines (m : memory) (rs : gmap Z cap_record_t) : Prop := {
  mr_at : forall p r, rs !! p = Some r -> record_at m p r;
  mr_apart : forall p q, is_Some (rs !! p) -> is_Some (rs !! q) -> p <> q -> apart p q }.

(** * Lemmas *)

(** The record's block. *)
Definition in_record (p q : Z) : Prop := p <= q < p + sizeof cap_record_fields.

Lemma width_bits f v : field_ok f v -> field_val f (v mod 2 ^ (8 * Z.of_nat (width f))) = v.
Proof.
  destruct f; cbn [field_ok field_val]; intros H;
    try (apply Z.mod_small; unfold is_u64, is_u16 in H; exact H).
  change (8 * Z.of_nat (width F_valid)) with 32.
  assert (s32 (v mod 2 ^ 32) = s32 v) as -> by (unfold s32, u32; by rewrite Z.mod_mod).
  by apply s32_small.
Qed.

Lemma load_field_at m p r f : record_at m p r -> load_field m p f = Ret (get_field f r).
Proof.
  intros H. destruct (H f) as [Hok Hh]. unfold load_field.
  apply rd_bytes_holds in Hh. rewrite length_le_bytes in Hh. rewrite Hh, ret_bind, le_val_bytes.
  by rewrite width_bits.
Qed.

(** Two fields are apart, and inside the record. *)
Lemma fields_apart f g :
  f <> g -> off f + Z.of_nat (width f) <= off g \/ off g + Z.of_nat (width g) <= off f.
Proof.
  intros H. destruct f, g; try done; first [left; by vm_compute | right; by vm_compute].
Qed.

Lemma field_inside f : 0 <= off f /\ off f + Z.of_nat (width f) <= sizeof cap_record_fields.
Proof. by destruct f; vm_compute. Qed.

Lemma get_set_field f g v r :
  get_field g (set_field f v r) = if decide (g = f) then v else get_field g r.
Proof. by destruct f, g. Qed.

Lemma store_field_at m p r f v :
  record_at m p r -> field_ok f v ->
  exists m', store_field m p f v = Ret m' /\ record_at m' p (set_field f v r) /\
    frame (in_record p) m m'.
Proof.
  intros H Hv. destruct (H f) as [_ Hf]. pose proof (field_inside f) as Hin.
  pose proof (wp_wr_bytes (le_bytes (width f) v) m (p + off f)) as Hw.
  rewrite length_le_bytes in Hw. apply wp_inv in Hw as (m' & Hm' & Hh & Hfr).
  2: { apply holds_mapped in Hf. by rewrite length_le_bytes in Hf. }
  exists m'. split; [done|]. split.
  - intros g. rewrite get_set_field. destruct (decide (g = f)) as [->|Hne]; [done|].
    destruct (H g) as [Hok Hg]. split; [done|]. eapply frame_holds; [exact Hfr|exact Hg|].
    rewrite length_le_bytes. intros q Hq Hq'. cbv beta in Hq'. destruct (fields_apart g f Hne); lia.
  - eapply frame_mono; [exact Hfr|]. intros q Hq. cbv beta in Hq. unfold in_record. lia.
Qed.

Lemma record_at_frame P m m' p r :
  frame P m m' -> (forall q, in_record p q -> ~ P q) -> record_at m p r -> record_at m' p r.
Proof.
  intros Hf HP H f. destruct (H f) as [Hok Hh]. split; [done|].
  eapply frame_holds; [exact Hf|exact Hh|]. rewrite length_le_bytes. intros q Hq. apply HP.
  pose proof (field_inside f). unfold in_record. lia.
Qed.

Lemma mem_refines_store m rs p r f v :
  mem_refines m rs -> rs !! p = Some r -> field_ok f v ->
  exists m', store_field m p f v = Ret m' /\ mem_refines m' (<[p := set_field f v r]> rs) /\
    frame (in_record p) m m'.
Proof.
  intros [Hat Hap] Hp Hv. destruct (store_field_at m p r f v (Hat _ _ Hp) Hv) as (m' & Hm & Hr & Hf).
  exists m'. split; [done|]. split; [|done].
  assert (forall q, is_Some (<[p := set_field f v r]> rs !! q) -> is_Some (rs !! q)) as Hdom.
  { intros q [x Hq]. apply lookup_insert_Some in Hq as [[<- _]|[_ Hq]]; by eexists. }
  split; [|intros q q' Hq Hq'; apply Hap; by apply Hdom].
  intros q x Hq. apply lookup_insert_Some in Hq as [[<- <-]|[Hne Hq]]; [done|].
  eapply record_at_frame; [exact Hf| |by apply Hat].
  intros z Hz Hz'. destruct (Hap p q); try done; unfold in_record in *; lia.
Qed.

(** A section whose stores fit their fields and are all to the record at
    [p]. *)
Fixpoint stores_at (p : Z) (k : crit) : Prop :=
  match k with
  | CDone _ => True
  | CRead _ _ k => forall v, stores_at p (k v)
  | CWrite q f v k => q = p /\ field_ok f v /\ stores_at p k
  end.

Lemma run_crit_refines p k : forall m rs res rs',
  stores_at p k -> mem_refines m rs -> run_crit k rs = Some (res, rs') ->
  exists m', run_crit_mem k m = Ret (res, m') /\ mem_refines m' rs' /\ frame (in_record p) m m'.
Proof.
  induction k as [res0|q f k IH|q f v k IH]; intros m rs res rs' Hs Hm Hr; simpl in *.
  - simplify_eq. exists m. split; [done|]. split; [done|]. apply frame_refl.
  - destruct (rs !! q) as [r|] eqn:Hq; [|done].
    rewrite (load_field_at m q r f (mr_at _ _ Hm _ _ Hq)), ret_bind. by eapply IH.
  - destruct (rs !! q) as [r|] eqn:Hq; [|done]. destruct Hs as (-> & Hv & Hs).
    destruct (mem_refines_store m rs p r f v Hm Hq Hv) as (m1 & E1 & Hm1 & Hf1).
    destruct (IH _ _ _ _ Hs Hm1 Hr) as (m' & E & Hm' & Hf').
    exists m'. rewrite E1, ret_bind. split; [done|]. split; [done|].
    by eapply frame_trans.
Qed.

Lemma stores_check_live p q k : stores_at p k -> stores_at p (check_live q k).
Proof. intros Hk m. simpl. case_match; [done|]. intros v. by case_match. Qed.

(** The words of an operation fit the fields they are stored in: in the
    code, the request's words are 64 bits and [schema_index] is cast. *)
Definition op_words_ok (o : op) : Prop :=
  match o with
  | OCreate _ h d t i => is_u64 h /\ is_u64 d /\ is_u64 t /\ is_u16 i
  | OInvoke _ | ODestroy _ | OBootstrap => True
  end.

Lemma stores_body o p :
  op_words_ok o -> op_record o = Some p \/ op_record o = None -> stores_at p (body o).
Proof.
  intros Ho Hp. destruct o as [q|q h d t i|q|]; cbn in Hp; try (destruct Hp as [[= ->]|[=]]); simpl.
  - apply stores_check_live. by repeat intro.
  - destruct Ho as (? & ? & ? & ?). split_and!; try done; by_compute.
  - apply stores_check_live. simpl. split_and!; try done; by_compute.
  - done.
Qed.

(** Raw storage can be read as some record. *)
Definition field_at (m : memory) (p : Z) (f : field) : Z :=
  match load_field m p f with Ret v => v | _ => 0 end.
Definition raw_record (m : memory) (p : Z) : cap_record_t :=
  Build_cap_record_t (field_at m p F_magic) (field_at m p F_valid) (field_at m p F_handler)
    (field_at m p F_data) (field_at m p F_schema_table) (field_at m p F_schema_index).

Lemma raw_record_at m p :
  readable (mem_rd m) p (p + sizeof cap_record_fields) -> record_at m p (raw_record m p).
Proof.
  intros Hrd f. assert (get_field f (raw_record m p) = field_at m p f) as -> by by destruct f.
  pose proof (field_inside f) as Hin. unfold field_at, load_field.
  pose proof (wp_rd_bytes (mem_rd m) (p + off f) (width f)) as Hw.
  apply wp_inv in Hw as (bs & Hbs & Hlen & Hok).
  2: { eapply readable_mono; [exact Hrd|lia|lia]. }
  rewrite Hbs, ret_bind. pose proof (le_val_range bs Hok) as Hv. rewrite Hlen in Hv.
  assert (le_bytes (width f) (field_val f (le_val bs)) = bs) as Heq.
  { rewrite <- (le_bytes_val bs Hok) at 2. rewrite Hlen.
    destruct f; try done. cbn [field_val]. rewrite <- le_bytes_mod, <- (le_bytes_mod _ (le_val bs)).
    f_equal. change (8 * Z.of_nat (width F_valid)) with 32. unfold s32, u32.
    destruct (_ <? _); Z.to_euclidean_division_equations; lia. }
  rewrite Heq. split.
  - destruct f; try exact Hv. apply s32_range.
  - apply rd_bytes_holds_inv. by rewrite Hlen.
Qed.

(** Storage that nobody uses yet becomes part of the picture. *)
Lemma mem_refines_raw m rs p :
  mem_refines m rs -> readable (mem_rd m) p (p + CAP_RECORD_SIZE) ->
  (forall q, is_Some (rs !! q) -> q + CAP_RECORD_SIZE <= p \/ p + CAP_RECORD_SIZE <= q) ->
  mem_refines m (<[p := raw_record m p]> rs).
Proof.
  intros [Hat Hap] Hrd Hfree. pose proof (proj1 cap_record_fits) as Hsz. split.
  - intros q r Hq. apply lookup_insert_Some in Hq as [[<- <-]|[_ Hq]]; [|by apply Hat].
    apply raw_record_at. eapply readable_mono; [exact Hrd|lia|lia].
  - intros q q' Hq Hq' Hne. unfold apart.
    destruct (decide (q = p)) as [->|], (decide (q' = p)) as [->|]; try done;
      rewrite ?lookup_insert_ne in Hq by done; rewrite ?lookup_insert_ne in Hq' by done.
    + apply Hfree in Hq'. lia.
    + apply Hfree in Hq. lia.
    + by apply Hap.
Qed.

Lemma frame_block p m m' q :
  frame (in_record p) m m' -> ~ (p <= q < p + CAP_RECORD_SIZE) -> m' !! q = m !! q.
Proof.
  intros [Ho _] Hq. apply Ho. pose proof (proj1 cap_record_fits). unfold in_record. lia.
Qed.

(** A section on bytes, seen through its atomic operation. *)
Lemma section_refines m rs o p res rs' :
  mem_refines m rs -> op_words_ok o -> op_record o = Some p \/ op_record o = None ->
  atomic o rs = Some (res, rs') ->
  exists m', run_crit_mem (body o) m = Ret (res, m') /\ mem_refines m' rs' /\ frame (in_record p) m m'.
Proof.
  intros Hm Ho Hp Ha. rewrite <- run_body in Ha. by eapply run_crit_refines; [apply stores_body| |].
Qed.

(** An invocation's section copies the record, or refuses it. *)
Lemma invoke_bytes m q r :
  record_at m q r ->
  run_crit_mem (invoke_crit q) m = Ret (if is_live r then CR_copied r else CR_refused, m).
Proof.
  intros H. unfold invoke_crit, check_live, is_live. cbn [run_crit_mem].
  rewrite (load_field_at m q r F_magic H), ret_bind. cbn [get_field].
  destruct (magic r =? CAP_RECORD_MAGIC); [|done]. cbn [negb run_crit_mem andb].
  rewrite (load_field_at m q r F_valid H), ret_bind. cbn [get_field].
  destruct (valid r =? 0); [done|]. unfold copy_record. cbn [negb run_crit_mem].
  rewrite !(load_field_at m q r _ H). by destruct r.
Qed.

(** * Theorems *)

(** C17. The records' bytes refine the map of records that the capability
    theorems are about.  If memory holds every record in storage of its own,
    laid out as the compiler lays out [cap_record_t], then each critical
    section run byte by byte has the result its atomic operation has on the
    map, leaves memory holding the records the operation leaves, and touches
    no byte outside the [CAP_RECORD_SIZE] bytes at the handle. *)
Theorem record_storage_refines m rs o res rs' :
  mem_refines m rs -> op_words_ok o -> atomic o rs = Some (res, rs') ->
  exists m', run_crit_mem (body o) m = Ret (res, m') /\ mem_refines m' rs' /\
    (forall q, (forall p, op_record o = Some p -> ~ (p <= q < p + CAP_RECORD_SIZE)) -> m' !! q = m !! q).
Proof.
  intros Hm Ho Ha. destruct (op_record o) as [p|] eqn:Hp.
  - destruct (section_refines m rs o p res rs' Hm Ho (or_introl Hp) Ha) as (m' & E & Hm' & Hf).
    exists m'. split; [done|]. split; [done|]. intros q Hq. eapply frame_block; [exact Hf|by apply Hq].
  - destruct o; try done. simplify_eq/=. by exists m.
Qed.

(** C19. Life of a record in a caller's storage.  Take [CAP_RECORD_SIZE]
    readable bytes with whatever contents, apart from the storage of every
    other record.  CREATE's section there succeeds; an invocation of the new
    handle copies exactly the values that were stored, an invocation of any
    other handle copies what it would have copied before; after DESTROY the
    handle is refused, whatever is done with the others. *)
Theorem record_bytes_lifecycle m rs p h d t i :
  mem_refines m rs -> readable (mem_rd m) p (p + CAP_RECORD_SIZE) ->
  (forall q, is_Some (rs !! q) -> q + CAP_RECORD_SIZE <= p \/ p + CAP_RECORD_SIZE <= q) ->
  is_u64 h -> is_u64 d -> is_u64 t -> is_u16 i ->
  exists m1 m2,
    run_crit_mem (create_crit p h d t i) m = Ret (CR_stored, m1) /\
    run_crit_mem (invoke_crit p) m1 = Ret (CR_copied (new_record h d t i), m1) /\
    run_crit_mem (destroy_crit p) m1 = Ret (CR_stored, m2) /\
    run_crit_mem (invoke_crit p) m2 = Ret (CR_refused, m2) /\
    (forall q r, rs !! q = Some r ->
       let copy := if is_live r then CR_copied r else CR_refused in
       run_crit_mem (invoke_crit q) m = Ret (copy, m) /\
       run_crit_mem (invoke_crit q) m1 = Ret (copy, m1) /\
       run_crit_mem (invoke_crit q) m2 = Ret (copy, m2)) /\
    (forall q, ~ (p <= q < p + CAP_RECORD_SIZE) -> m2 !! q = m !! q).
Proof.
  intros Hm Hrd Hfree Hh Hd Ht Hi. pose proof (mem_refines_raw m rs p Hm Hrd Hfree) as Hm0.
  assert (new_record h d t i = Build_cap_record_t CAP_RECORD_MAGIC 1 h d t i) as Hnew
    by (unfold new_record; by rewrite u16_small).
  set (rs0 := <[p := raw_record m p]> rs) in *.
  assert (rs0 !! p = Some (raw_record m p)) as Hp0 by apply lookup_insert_eq.
  destruct (section_refines m rs0 (OCreate p h d t i) p CR_stored (<[p := new_record h d t i]> rs0))
    as (m1 & E1 & Hm1 & Hf1); [done|done|by left|simpl; by rewrite Hp0, Hnew|].
  destruct (section_refines m1 (<[p := new_record h d t i]> rs0) (ODestroy p) p CR_stored
    (<[p := dead_record]> (<[p := new_record h d t i]> rs0)))
    as (m2 & E2 & Hm2 & Hf2); [done|done|by left|simpl; by rewrite lookup_insert_eq|].
  exists m1, m2. split; [done|]. split.
  { rewrite (invoke_bytes m1 p (new_record h d t i)); [done|]. apply (mr_at _ _ Hm1), lookup_insert_eq. }
  split; [done|]. split.
  { rewrite (invoke_bytes m2 p dead_record); [done|]. apply (mr_at _ _ Hm2), lookup_insert_eq. }
  split.
  - intros q r Hq. assert (q <> p) as Hne.
    { intros ->. destruct (Hfree p (mk_is_Some _ _ Hq)); unfold CAP_RECORD_SIZE in *; lia. }
    split_and!; apply invoke_bytes; [by apply (mr_at _ _ Hm)|apply (mr_at _ _ Hm1)|apply (mr_at _ _ Hm2)];
      unfold rs0; by rewrite !lookup_insert_ne by done.
  - intros q Hq. rewrite (frame_block p m1 m2 q Hf2 Hq). by apply (frame_block p m m1 q Hf1).
Qed.

(** * Examples *)

(** The factory's record at 0x1000 and 64 bytes of a caller's memory at
    0x8000. *)
Definition ex_record_bytes (r : cap_record_t) : list Z :=
  le_bytes 8 (magic r) ++ le_bytes 4 (valid r) ++ replicate 4 0xAA ++ le_bytes 8 (handler r) ++
  le_bytes 8 (data r) ++ le_bytes 8 (schema_table r) ++ le_bytes 2 (schema_index r) ++ replicate 6 0xAA.
Definition ex_storage : memory :=
  place 0x1000 (ex_record_bytes (bound_factory_record ex_img)) (filled 0x8000 CAP_RECORD_SIZE 0xAA).
Definition ex_stored : gmap Z cap_record_t := {[0x1000 := bound_factory_record ex_img]}.

Lemma ex_storage_refines : mem_refines ex_storage ex_stored.
Proof.
  unfold ex_stored. split.
  - intros p r H. apply lookup_singleton_Some in H as [<- <-]. intros f.
    split; [destruct f; by_compute|]. apply rd_bytes_holds_inv. destruct f; by vm_compute.
  - intros p q [? Hp] [? Hq]. apply lookup_singleton_Some in Hp as [<- _].
    by apply lookup_singleton_Some in Hq as [<- _].
Qed.

Lemma record_storage_refines_witness :
  exists m', run_crit_mem (destroy_crit 0x1000) ex_storage = Ret (CR_stored, m') /\
    mem_refines m' {[0x1000 := dead_record]}.
Proof.
  destruct (record_storage_refines ex_storage ex_stored (ODestroy 0x1000) CR_stored
    {[0x1000 := dead_record]}) as (m' & H & Hm & _);
    [apply ex_storage_refines|done|by vm_compute|].
  exists m'. exact (conj H Hm).
Defined.

Lemma ex_storage_readable : readable (mem_rd ex_storage) 0x8000 (0x8000 + CAP_RECORD_SIZE).
Proof.
  intros q Hq. apply (wp_of_eq _ 0xAA); [|by_compute]. apply mem_rd_Some. unfold ex_storage.
  rewrite (place_outside (ex_record_bytes (bound_factory_record ex_img)) _ 0x1000).
  - unfold filled. apply lookup_gset_to_gmap_Some. split; [|done].
    apply elem_of_list_to_set, elem_of_seqZ. exact Hq.
  - change (Z.of_nat _) with 48. lia.
Qed.

Lemma record_bytes_lifecycle_witness :
  exists m1 m2,
    run_crit_mem (create_crit 0x8000 0x6000 7 0x1100 0) ex_storage = Ret (CR_stored, m1) /\
    run_crit_mem (invoke_crit 0x8000) m1 = Ret (CR_copied (new_record 0x6000 7 0x1100 0), m1) /\
    run_crit_mem (invoke_crit 0x8000) m2 = Ret (CR_refused, m2).
Proof.
  destruct (record_bytes_lifecycle ex_storage ex_stored 0x8000 0x6000 7 0x1100 0)
    as (m1 & m2 & H1 & H2 & _ & H4 & _);
    [apply ex_storage_refines|apply ex_storage_readable| |by_compute..|].
  - intros q [r Hq]. unfold ex_stored in Hq. apply lookup_singleton_Some in Hq as [<- _]. left. by_compute.
  - exists m1, m2. exact (conj H1 (conj H2 H4)).
Defined.

(** The storage has to be the caller's alone: a CREATE sixteen bytes into a
    live record's storage is carried out as well, and leaves that record
    live with another handler, here the magic number. *)
Lemma overlapping_storage :
  ('(_, m) ← run_crit_mem (create_crit 0x8000 0x6000 7 0x1100 0) ex_storage;
   '(_, m) ← run_crit_mem (create_crit 0x8010 0x6000 7 0x1100 0) m;
   '(copied, _) ← run_crit_mem (invoke_crit 0x8000) m; Ret copied)
  = Ret (CR_copied (Build_cap_record_t CAP_RECORD_MAGIC 1 CAP_RECORD_MAGIC 1 0x6000 7)).
Proof. vm_compute. reflexivity. Qed.
