(* ===== verification/PageTables.v ===== *)
(** An application processor's own page tables: [build_ap_page_tables] of
    kernel/kernel.c.

    Memory is written as bytes, so that the tables the processor reads back
    are what the stores left there.  [page_walk] is the four-level walk the
    processor makes (Intel SDM, volume 3, 4.5); the theorem says what it
    finds in the tables the code builds. *)
From S2P Require Import Prelude CMem SmpLayout.

(** * The tables *)

Definition PTE_PRESENT : Z := 0x1.
Definition PTE_WRITABLE : Z := 0x2.
Definition PTE_HUGE : Z := 0x80.

Definition table_entry (phys : Z) : Z := Z.lor (Z.lor phys PTE_PRESENT) PTE_WRITABLE.
Definition huge_entry (phys : Z) : Z := Z.lor (table_entry phys) PTE_HUGE.

(** [for (i = i0; n more; i++) { a[i] = fa(i); b[i] = fb(i); }] *)
Fixpoint fill2 (a b : Z) (fa fb : Z -> Z) (n : nat) (i : Z) (m : memory) : outcome memory :=
  match n with
  | O => Ret m
  | S n' =>
      m ← wr_le64 m (a + 8 * i) (fa i);
      m ← wr_le64 m (b + 8 * i) (fb i);
      fill2 a b fa fb n' (i + 1) m
  end.

Definition build_ap_page_tables (region_base : Z) (m : memory) : outcome (Z * memory) :=
  let pml4 := u64 (region_base + CORE_PGTABLE_OFFSET + CORE_PGTABLE_PML4_OFF) in
  let pdpt := u64 (region_base + CORE_PGTABLE_OFFSET + CORE_PGTABLE_PDPT_OFF) in
  let pd := u64 (region_base + CORE_PGTABLE_OFFSET + CORE_PGTABLE_PD_OFF) in
  let pd_hi := u64 (region_base + CORE_PGTABLE_OFFSET + CORE_PGTABLE_PD_HI_OFF) in
  m ← fill2 pml4 pdpt (fun _ => 0) (fun _ => 0) 512 0 m;
  m ← wr_le64 m (pml4 + 8 * 0) (table_entry pdpt);
  m ← wr_le64 m (pdpt + 8 * 0) (table_entry pd);
  m ← wr_le64 m (pdpt + 8 * 3) (table_entry pd_hi);
  m ← fill2 pd pd_hi
        (fun i => huge_entry (i * 0x200000))
        (fun i => huge_entry (0xC0000000 + i * 0x200000)) 512 0 m;
  Ret (pml4, m).

(** * What the processor does with them *)

Definition pte_present (e : Z) : bool := negb (Z.land e PTE_PRESENT =? 0).
Definition pte_huge (e : Z) : bool := negb (Z.land e PTE_HUGE =? 0).

(** The address field of an entry that maps or names [2^k]-aligned memory:
    bits [k] to 51. *)
Definition pte_addr (k e : Z) : Z := Z.land e ((2 ^ (52 - k) - 1) * 2 ^ k).

(** One level: the entry for [va] in the table at [t], [None] if absent. *)
Definition walk_entry (m : memory) (t va shift : Z) : outcome (option Z) :=
  e ← rd_le64 (mem_rd m) (t + 8 * ((va / 2 ^ shift) mod 512));
  Ret (if pte_present e then Some e else None).

(** The physical address a 48-bit virtual address translates to, [None] for
    a page fault. *)
Definition page_walk (m : memory) (cr3 va : Z) : outcome (option Z) :=
  e4 ← walk_entry m cr3 va 39;
  match e4 with
  | None => Ret None
  | Some e4 =>
      e3 ← walk_entry m (pte_addr 12 e4) va 30;
      match e3 with
      | None => Ret None
      | Some e3 =>
          if pte_huge e3 then Ret (Some (pte_addr 30 e3 + va mod 2 ^ 30))
          else
            e2 ← walk_entry m (pte_addr 12 e3) va 21;
            match e2 with
            | None => Ret None
            | Some e2 =>
                if pte_huge e2 then Ret (Some (pte_addr 21 e2 + va mod 2 ^ 21))
                else
                  e1 ← walk_entry m (pte_addr 12 e2) va 12;
                  Ret (option_map (fun e1 => pte_addr 12 e1 + va mod 2 ^ 12) e1)
            end
      end
  end.

(** * Entries *)

Lemma table_entry_val x : x mod 4096 = 0 -> table_entry x = x + 3.
Proof.
  intros Hx. unfold table_entry, PTE_PRESENT, PTE_WRITABLE. rewrite <- Z.lor_assoc.
  change (Z.lor 1 2) with 3. pose proof (Z.div_mod x 4096 ltac:(lia)) as Hd.
  replace x with (Z.shiftl (x / 4096) 12) at 1 by (rewrite Z.shiftl_mul_pow2; lia).
  rewrite lor_shiftl by lia. lia.
Qed.

Lemma huge_entry_val x : x mod 4096 = 0 -> huge_entry x = x + 131.
Proof.
  intros Hx. unfold huge_entry. unfold table_entry, PTE_PRESENT, PTE_WRITABLE, PTE_HUGE.
  rewrite <- !Z.lor_assoc. change (Z.lor 1 (Z.lor 2 128)) with 131.
  pose proof (Z.div_mod x 4096 ltac:(lia)) as Hd.
  replace x with (Z.shiftl (x / 4096) 12) at 1 by (rewrite Z.shiftl_mul_pow2; lia).
  rewrite lor_shiftl by lia. lia.
Qed.

Lemma pte_present_low e k : 0 <= k < 4096 -> (e - k) mod 4096 = 0 ->
  pte_present e = negb (k mod 2 =? 0).
Proof.
  intros Hk He. unfold pte_present, PTE_PRESENT. change 1 with (2 ^ 1 - 1) at 1.
  rewrite land_mask by lia. f_equal. f_equal. Z.to_euclidean_division_equations. lia.
Qed.

Lemma pte_huge_low e k : 0 <= k < 4096 -> (e - k) mod 4096 = 0 ->
  pte_huge e = negb ((k / 128) mod 2 =? 0).
Proof.
  intros Hk He. unfold pte_huge, PTE_HUGE. change 0x80 with ((2 ^ 1 - 1) * 2 ^ 7) at 1.
  rewrite land_field by lia. f_equal.
  assert ((e / 2 ^ 7) mod 2 ^ 1 = (k / 128) mod 2) as ->
    by (Z.to_euclidean_division_equations; lia).
  destruct (Z.eqb_spec ((k / 128) mod 2) 0) as [->|]; [done|].
  apply Z.eqb_neq. lia.
Qed.

Lemma pte_addr_val k x f :
  12 <= k <= 30 -> 0 <= x < 2 ^ 52 -> x mod 2 ^ k = 0 -> 0 <= f < 4096 -> pte_addr k (x + f) = x.
Proof.
  intros Hk Hx Hm Hf. unfold pte_addr. rewrite land_field by lia.
  assert (4096 <= 2 ^ k) as Hp by (change 4096 with (2 ^ 12); apply Z.pow_le_mono_r; lia).
  pose proof (Z.div_mod x (2 ^ k) ltac:(lia)) as Hd.
  assert ((x + f) / 2 ^ k = x / 2 ^ k) as ->.
  { symmetry. apply (Z.div_unique _ _ _ f); lia. }
  rewrite Z.mod_small; [lia|]. split; [apply Z.div_pos; lia|].
  apply Z.div_lt_upper_bound; [lia|]. rewrite <- Z.pow_add_r by lia.
  replace (k + (52 - k)) with 52 by lia. lia.
Qed.

(** * The loops *)

Lemma fill2_spec a b fa fb : a + 4096 <= b -> forall n i m,
  0 <= i -> i + Z.of_nat n = 512 -> mapped m a 4096 -> mapped m b 4096 ->
  wp (fill2 a b fa fb n i m) (fun m' =>
    (forall j, i <= j < 512 -> word_in m' (a + 8 * j) (fa j) /\ word_in m' (b + 8 * j) (fb j)) /\
    frame (fun q => a + 8 * i <= q < a + 4096 \/ b + 8 * i <= q < b + 4096) m m').
Proof.
  intros Hab. induction n as [|n IH]; intros i m Hi Hn Ha Hb; simpl.
  - split; [lia|apply frame_refl].
  - apply wp_bind. eapply wp_mono; [apply wp_wr_le64; eapply mapped_mono; [exact Ha|lia..]|].
    intros m1 [Hw1 Hf1]. pose proof (frame_mapped _ _ _ _ _ Hf1 Ha) as Ha1.
    pose proof (frame_mapped _ _ _ _ _ Hf1 Hb) as Hb1.
    apply wp_bind. eapply wp_mono; [apply wp_wr_le64; eapply mapped_mono; [exact Hb1|lia..]|].
    intros m2 [Hw2 Hf2]. pose proof (frame_mapped _ _ _ _ _ Hf2 Ha1) as Ha2.
    pose proof (frame_mapped _ _ _ _ _ Hf2 Hb1) as Hb2.
    apply (frame_word _ _ _ _ _ Hf2) in Hw1; [|intros q Hq; simpl; lia].
    eapply wp_mono; [apply (IH (i + 1) m2); [lia|lia|done|done]|].
    intros m3 [Hw Hf3]. split.
    + intros j Hj. destruct (decide (j = i)) as [->|]; [|apply Hw; lia].
      split; eapply (frame_word _ _ _ _ _ Hf3); eauto; intros q Hq; simpl; lia.
    + eapply frame_trans; [eapply frame_trans; [exact Hf1|exact Hf2|..]|exact Hf3|..].
      3: intros q Hq; exact Hq.
      all: intros q Hq; simpl in *; lia.
Qed.

(** * The map *)

(** The four tables as left by the code. *)
Record ap_tables (base : Z) (m : memory) : Prop := {
  at_pml4 : forall j, 0 <= j < 512 ->
    word_in m (base + 8 * j) (if decide (j = 0) then base + 0x1000 + 3 else 0);
  at_pdpt : forall j, 0 <= j < 512 ->
    word_in m (base + 0x1000 + 8 * j)
      (if decide (j = 0) then base + 0x2000 + 3
       else if decide (j = 3) then base + 0x3000 + 3 else 0);
  at_pd : forall j, 0 <= j < 512 -> word_in m (base + 0x2000 + 8 * j) (j * 2 ^ 21 + 131);
  at_pd_hi : forall j, 0 <= j < 512 ->
    word_in m (base + 0x3000 + 8 * j) (3 * 2 ^ 30 + j * 2 ^ 21 + 131) }.

(** One store into a table, given what is known of the words around it. *)
Lemma wp_store m p w (P : memory -> Prop) :
  mapped m p 8 ->
  (forall m', word_in m' p w -> frame (fun q => p <= q < p + 8) m m' -> P m') ->
  wp (wr_le64 m p w) P.
Proof. intros Hm H. eapply wp_mono; [by apply wp_wr_le64|]. intros m' []. auto. Qed.

Lemma ap_tables_built region m :
  0 <= region -> region mod 4096 = 0 -> region + CORE_REGION_SIZE <= 2 ^ 52 ->
  mapped m (region + CORE_PGTABLE_OFFSET) PGTABLE_SIZE ->
  wp (build_ap_page_tables region m) (fun r =>
    r.1 = region + CORE_PGTABLE_OFFSET /\ ap_tables (region + CORE_PGTABLE_OFFSET) r.2 /\
    same_outside (region + CORE_PGTABLE_OFFSET) PGTABLE_SIZE m r.2).
Proof.
  intros Hr Hal Hhi Hm. unfold build_ap_page_tables. cbv zeta.
  unfold CORE_PGTABLE_PML4_OFF, CORE_PGTABLE_PDPT_OFF, CORE_PGTABLE_PD_OFF, CORE_PGTABLE_PD_HI_OFF.
  change PGTABLE_SIZE with 0x4000 in *. unfold CORE_REGION_SIZE in Hhi.
  assert ((region + CORE_PGTABLE_OFFSET) mod 4096 = 0) as Hal'.
  { unfold CORE_PGTABLE_OFFSET. Z.to_euclidean_division_equations. lia. }
  assert (0 <= region + CORE_PGTABLE_OFFSET /\ region + CORE_PGTABLE_OFFSET + 0x4000 <= 2 ^ 52) as Hb
    by (unfold CORE_PGTABLE_OFFSET; lia).
  revert Hm Hal' Hb. generalize (region + CORE_PGTABLE_OFFSET) as base. clear.
  intros base Hm Hal Hb. rewrite !u64_small by ulia. rewrite !Z.add_0_r.
  rewrite !table_entry_val by (Z.to_euclidean_division_equations; lia).
  apply wp_bind. eapply wp_mono; [apply fill2_spec; [lia..| |];
    (eapply mapped_mono; [exact Hm|lia..])|].
  intros m1 [Hw1 Hf1]. pose proof (frame_mapped _ _ _ _ _ Hf1 Hm) as Hm1.
  apply wp_bind, wp_store; [eapply mapped_mono; [exact Hm1|lia..]|].
  intros m2 Hw2 Hf2. pose proof (frame_mapped _ _ _ _ _ Hf2 Hm1) as Hm2.
  apply wp_bind, wp_store; [eapply mapped_mono; [exact Hm2|lia..]|].
  intros m3 Hw3 Hf3. pose proof (frame_mapped _ _ _ _ _ Hf3 Hm2) as Hm3.
  apply wp_bind, wp_store; [eapply mapped_mono; [exact Hm3|lia..]|].
  intros m4 Hw4 Hf4. pose proof (frame_mapped _ _ _ _ _ Hf4 Hm3) as Hm4.
  apply wp_bind. eapply wp_mono; [apply fill2_spec; [lia..| |];
    (eapply mapped_mono; [exact Hm4|lia..])|].
  intros m5 [Hw5 Hf5]. apply wp_ret. simpl fst. simpl snd. split; [done|]. split.
  - split; intros j Hj.
    + apply (frame_word _ _ _ _ _ Hf5); [|intros q Hq; simpl; lia].
      apply (frame_word _ _ _ _ _ Hf4); [|intros q Hq; simpl; lia].
      apply (frame_word _ _ _ _ _ Hf3); [|intros q Hq; simpl; lia].
      case_decide as E; [by rewrite E, Z.mul_0_r, Z.add_0_r|].
      apply (frame_word _ _ _ _ _ Hf2); [|intros q Hq; simpl; lia]. by apply Hw1.
    + apply (frame_word _ _ _ _ _ Hf5); [|intros q Hq; simpl; lia].
      case_decide as E0; [|case_decide as E3; [by rewrite E3|]];
        (apply (frame_word _ _ _ _ _ Hf4); [|intros q Hq; simpl; lia]); [by rewrite E0, Z.mul_0_r, Z.add_0_r|].
      apply (frame_word _ _ _ _ _ Hf3); [|intros q Hq; simpl; lia].
      apply (frame_word _ _ _ _ _ Hf2); [|intros q Hq; simpl; lia]. by apply Hw1.
    + rewrite <- huge_entry_val by (Z.to_euclidean_division_equations; lia). by apply Hw5.
    + rewrite <- huge_entry_val by (Z.to_euclidean_division_equations; lia).
      by apply (proj2 (Hw5 j Hj)).
  - apply frame_same_outside.
    transitivity m4; [transitivity m3; [transitivity m2; [transitivity m1|]|]|];
      (eapply frame_mono; [eassumption|intros q Hq; simpl in *; lia]).
Qed.

(** * Walking it *)

Lemma walk_word m t va shift w :
  is_u64 w -> word_in m (t + 8 * ((va / 2 ^ shift) mod 512)) w ->
  walk_entry m t va shift = Ret (if pte_present w then Some w else None).
Proof. intros Hw H. unfold walk_entry. by rewrite (rd_word_in _ _ _ Hw H). Qed.

(** An entry that names the table at [x]. *)
Lemma table_pte_at x :
  0 <= x < 2 ^ 52 -> x mod 4096 = 0 ->
  pte_present (x + 3) = true /\ pte_huge (x + 3) = false /\ pte_addr 12 (x + 3) = x.
Proof.
  intros Hx Hm. split; [|split].
  - by rewrite (pte_present_low _ 3) by (Z.to_euclidean_division_equations; lia).
  - by rewrite (pte_huge_low _ 3) by (Z.to_euclidean_division_equations; lia).
  - apply pte_addr_val; [lia|done|done|lia].
Qed.

(** An entry that maps the 2 MiB page [x]. *)
Lemma huge_pte x :
  0 <= x < 2 ^ 32 -> x mod 2 ^ 21 = 0 ->
  pte_present (x + 131) = true /\ pte_huge (x + 131) = true /\ pte_addr 21 (x + 131) = x.
Proof.
  intros Hx Hm. split; [|split].
  - by rewrite (pte_present_low _ 131) by (Z.to_euclidean_division_equations; lia).
  - by rewrite (pte_huge_low _ 131) by (Z.to_euclidean_division_equations; lia).
  - apply pte_addr_val; lia.
Qed.

(** A page directory at [t] that maps the gigabyte from [lo]
    on to itself. *)
Lemma walk_pd m t lo va :
  lo mod 2 ^ 30 = 0 -> 0 <= lo <= 3 * 2 ^ 30 -> lo <= va < lo + 2 ^ 30 ->
  (forall j, 0 <= j < 512 -> word_in m (t + 8 * j) (lo + j * 2 ^ 21 + 131)) ->
  exists e, walk_entry m t va 21 = Ret (Some e) /\ pte_huge e = true /\
    pte_addr 21 e + va mod 2 ^ 21 = va.
Proof.
  intros Hlo Hlo3 Hva Hw. set (j := (va / 2 ^ 21) mod 512).
  assert (0 <= j < 512) as Hj by (apply Z.mod_pos_bound; lia).
  assert (lo + j * 2 ^ 21 + va mod 2 ^ 21 = va) as Hsum.
  { subst j. pose proof (Z.div_mod va (2 ^ 21) ltac:(lia)).
    pose proof (Z.div_mod (va / 2 ^ 21) 512 ltac:(lia)).
    assert (va / 2 ^ 21 / 512 = lo / 2 ^ 30) as Hq.
    { rewrite Z.div_div by lia. change (2 ^ 21 * 512) with (2 ^ 30).
      Z.to_euclidean_division_equations; lia. }
    Z.to_euclidean_division_equations; lia. }
  destruct (huge_pte (lo + j * 2 ^ 21)) as (Hp & Hh & Ha); [lia|..].
  { Z.to_euclidean_division_equations; lia. }
  exists (lo + j * 2 ^ 21 + 131). rewrite Ha, Hh. split; [|done].
  rewrite (walk_word _ _ va 21 (lo + j * 2 ^ 21 + 131)); [by rewrite Hp|ulia|].
  fold j. auto.
Qed.

Section Walk.
Context (base : Z) (m : memory).
Hypothesis Hbase : 0 <= base /\ base + 0x4000 <= 2 ^ 52.
Hypothesis Halign : base mod 4096 = 0.
Hypothesis Htables : ap_tables base m.

Lemma table_pte k :
  0 <= k < 4 ->
  pte_present (base + k * 4096 + 3) = true /\ pte_huge (base + k * 4096 + 3) = false /\
  pte_addr 12 (base + k * 4096 + 3) = base + k * 4096.
Proof. intros Hk. apply table_pte_at; [lia|]. Z.to_euclidean_division_equations; lia. Qed.

Lemma walk_pml4 va :
  0 <= va < 2 ^ 39 -> walk_entry m base va 39 = Ret (Some (base + 1 * 4096 + 3)).
Proof.
  intros Hva. erewrite walk_word.
  3:{ apply (at_pml4 _ _ Htables). Z.to_euclidean_division_equations; lia. }
  - rewrite decide_True by (Z.to_euclidean_division_equations; lia).
    change 0x1000 with (1 * 4096). by rewrite (proj1 (table_pte 1 ltac:(lia))).
  - case_decide; ulia.
Qed.

Lemma walk_pml4_out va :
  2 ^ 39 <= va < 2 ^ 48 -> walk_entry m base va 39 = Ret None.
Proof.
  intros Hva. erewrite walk_word.
  3:{ apply (at_pml4 _ _ Htables). Z.to_euclidean_division_equations; lia. }
  - by rewrite decide_False by (Z.to_euclidean_division_equations; lia).
  - case_decide; ulia.
Qed.

(** The page directory that covers [va], and the first address it covers. *)
Lemma walk_pdpt va :
  0 <= va < 2 ^ 39 ->
  walk_entry m (base + 1 * 4096) va 30 =
    Ret (if decide (va / 2 ^ 30 = 0) then Some (base + 2 * 4096 + 3)
         else if decide (va / 2 ^ 30 = 3) then Some (base + 3 * 4096 + 3) else None).
Proof.
  intros Hva. assert ((va / 2 ^ 30) mod 512 = va / 2 ^ 30) as Hi
    by (Z.to_euclidean_division_equations; lia).
  erewrite walk_word.
  3:{ change (1 * 4096) with 0x1000. apply (at_pdpt _ _ Htables).
      Z.to_euclidean_division_equations; lia. }
  - rewrite Hi. repeat case_decide; [..|done].
    + change 0x2000 with (2 * 4096). by rewrite (proj1 (table_pte 2 ltac:(lia))).
    + change 0x3000 with (3 * 4096). by rewrite (proj1 (table_pte 3 ltac:(lia))).
  - repeat case_decide; ulia.
Qed.

Lemma page_walk_identity va :
  0 <= va < 2 ^ 30 \/ 3 * 2 ^ 30 <= va < 2 ^ 32 -> page_walk m base va = Ret (Some va).
Proof.
  intros Hva. unfold page_walk. rewrite walk_pml4, ret_bind by lia.
  rewrite (proj2 (proj2 (table_pte 1 ltac:(lia)))), walk_pdpt, ret_bind by lia.
  assert (exists k lo, 2 <= k < 4 /\ lo mod 2 ^ 30 = 0 /\ 0 <= lo <= 3 * 2 ^ 30 /\
    lo <= va < lo + 2 ^ 30 /\
    (forall j, 0 <= j < 512 -> word_in m (base + k * 4096 + 8 * j) (lo + j * 2 ^ 21 + 131)) /\
    (if decide (va / 2 ^ 30 = 0) then Some (base + 2 * 4096 + 3)
     else if decide (va / 2 ^ 30 = 3) then Some (base + 3 * 4096 + 3) else None) =
      Some (base + k * 4096 + 3)) as (k & lo & Hk & Hl & Hl3 & Hin & Hw & ->).
  { destruct Hva as [Hva|Hva].
    - exists 2, 0. rewrite decide_True by (Z.to_euclidean_division_equations; lia).
      repeat (split; [done || lia|]). split; [apply (at_pd _ _ Htables)|done].
    - exists 3, (3 * 2 ^ 30). rewrite decide_False, decide_True
        by (Z.to_euclidean_division_equations; lia).
      repeat (split; [done || lia|]). split; [apply (at_pd_hi _ _ Htables)|done]. }
  destruct (table_pte k) as (_ & Hh & Ha); [lia|]. rewrite Hh, Ha.
  destruct (walk_pd m (base + k * 4096) lo va) as (e & -> & He & Hsum); [done..|].
  by rewrite ret_bind, He, Hsum.
Qed.

Lemma page_walk_fault va :
  2 ^ 30 <= va < 3 * 2 ^ 30 \/ 2 ^ 32 <= va < 2 ^ 48 -> page_walk m base va = Ret None.
Proof.
  intros Hva. unfold page_walk. destruct (decide (2 ^ 39 <= va)).
  - by rewrite walk_pml4_out by lia.
  - rewrite walk_pml4, ret_bind by lia.
    rewrite (proj2 (proj2 (table_pte 1 ltac:(lia)))), walk_pdpt, ret_bind by lia.
    by rewrite !decide_False by (Z.to_euclidean_division_equations; lia).
Qed.

End Walk.

(** C34. An application processor's page tables are an identity map of the
    first and the fourth gigabyte and of nothing else: after
    [build_ap_page_tables], the processor's walk of the tables it wrote
    translates every address below 1 GiB and from 3 to 4 GiB to itself and
    faults on every other 48-bit address, and no byte outside the region's
    page-table window has changed. *)
Theorem ap_identity_map region m :
  0 <= region -> region mod 4096 = 0 -> region + CORE_REGION_SIZE <= 2 ^ 52 ->
  mapped m (region + CORE_PGTABLE_OFFSET) PGTABLE_SIZE ->
  exists cr3 m', build_ap_page_tables region m = Ret (cr3, m') /\
    (forall va, 0 <= va < 2 ^ 30 \/ 3 * 2 ^ 30 <= va < 2 ^ 32 ->
      page_walk m' cr3 va = Ret (Some va)) /\
    (forall va, 2 ^ 30 <= va < 3 * 2 ^ 30 \/ 2 ^ 32 <= va < 2 ^ 48 ->
      page_walk m' cr3 va = Ret None) /\
    same_outside (region + CORE_PGTABLE_OFFSET) PGTABLE_SIZE m m'.
Proof.
  intros Hr Hal Hhi Hm. pose proof (ap_tables_built region m Hr Hal Hhi Hm) as H.
  apply wp_inv in H as ([cr3 m'] & Hb & Hcr3 & Ht & Hout). simpl in *. subst cr3.
  exists (region + CORE_PGTABLE_OFFSET), m'. split; [done|].
  assert ((region + CORE_PGTABLE_OFFSET) mod 4096 = 0) as Hal'
    by (unfold CORE_PGTABLE_OFFSET; Z.to_euclidean_division_equations; lia).
  assert (0 <= region + CORE_PGTABLE_OFFSET /\ region + CORE_PGTABLE_OFFSET + 0x4000 <= 2 ^ 52)
    as Hbd by (unfold CORE_PGTABLE_OFFSET, CORE_REGION_SIZE in *; lia).
  split; [by apply page_walk_identity|]. split; [by apply page_walk_fault|done].
Qed.

(** Memory with only the page-table window of the region at 64 MiB behind
    it. *)
Definition ex_window : memory := filled (0x4000000 + CORE_PGTABLE_OFFSET) PGTABLE_SIZE 0xAA.

Lemma ap_identity_map_witness :
  exists cr3 m', build_ap_page_tables 0x4000000 ex_window = Ret (cr3, m') /\
    page_walk m' cr3 0xFEE00000 = Ret (Some 0xFEE00000).
Proof.
  destruct (ap_identity_map 0x4000000 ex_window) as (cr3 & m' & H & Hid & _);
    [lia|done|by vm_compute|apply mapped_filled|].
  exists cr3, m'. split; [done|]. apply Hid. right. lia.
Defined.
