(* ===== verification/BootProtocol.v ===== *)
(** The objects of the new boot protocol, include/boot_protocol.h: the boot
    allocator, which is called through the code addresses it carries, and the
    description of init's variants, a list-root message (CapnpList.v).

    The allocator's code travels with the loader and is not part of this
    program: it is a parameter, and the class [BootAllocator] is the header's
    contract for it. *)
From S2P Require Import Prelude CMem Schema Capnp Validate ValidateSpec CapnpList SmpLayout.

(** * Data *)

Definition BOOT_ALLOCATOR_MAGIC : Z := 0x424f4f54414c4f43.
Definition BOOT_ALLOCATOR_WORDS : Z := 7.

Record boot_allocator := {
  ba_magic : Z;
  ba_alloc : Z;
  ba_finalize : Z;
  ba_region_base : Z;
  ba_region_len : Z;
  ba_used : Z;
  ba_finalized : Z }.

Definition allocator_words (b : boot_allocator) : list Z :=
  [ba_magic b; ba_alloc b; ba_finalize b; ba_region_base b; ba_region_len b; ba_used b; ba_finalized b].

(** The object in memory. *)
Definition allocator_at (m : memory) (self : Z) (b : boot_allocator) : Prop :=
  Forall is_u64 (allocator_words b) /\ holds (mem_rd m) self (words_bytes (allocator_words b)).

Definition BOOT_PROTO_ARCH_X86_64 : Z := 0.
Definition BOOT_PROTO_ARCH_AARCH64 : Z := 1.

Definition BOOT_PROTO_ID_DATA_WORDS : Z := 2.
Definition INIT_DESCRIPTION_MAGIC : Z := 0x494e495444455343.

Record init_description_data := { id_magic : Z; coreinit_allocator_phys : Z }.

Record init_variant := {
  arch_tag : Z;
  kernel_macho_phys : Z;
  kernel_macho_len : Z;
  init_macho_phys : Z;
  init_macho_len : Z }.

Definition BOOT_PROTO_INIT_VARIANT_WORDS : Z := 5.

Definition description_words (d : init_description_data) : list Z := [id_magic d; coreinit_allocator_phys d].
Definition variant_words (v : init_variant) : list Z :=
  [arch_tag v; kernel_macho_phys v; kernel_macho_len v; init_macho_phys v; init_macho_len v].

(** The structures as C reads them through a pointer. *)
Definition rd_description (rd : reader) (p : Z) : outcome init_description_data :=
  a ← rd_le64 rd p; b ← rd_le64 rd (p + 8);
  Ret {| id_magic := a; coreinit_allocator_phys := b |}.

Definition rd_variant (rd : reader) (p : Z) : outcome init_variant :=
  a ← rd_le64 rd p; b ← rd_le64 rd (p + 8); c ← rd_le64 rd (p + 16); d ← rd_le64 rd (p + 24);
  e ← rd_le64 rd (p + 32);
  Ret {| arch_tag := a; kernel_macho_phys := b; kernel_macho_len := c; init_macho_phys := d; init_macho_len := e |}.

(** * The allocator's operations *)

(** What a block of [size] bytes at [r] takes away: the next request is
    answered above it. *)
Definition bumped (b : boot_allocator) (used : Z) : boot_allocator := {|
  ba_magic := ba_magic b; ba_alloc := ba_alloc b; ba_finalize := ba_finalize b;
  ba_region_base := ba_region_base b; ba_region_len := ba_region_len b;
  ba_used := used; ba_finalized := ba_finalized b |}.

Definition sealed (b : boot_allocator) : boot_allocator := {|
  ba_magic := ba_magic b; ba_alloc := ba_alloc b; ba_finalize := ba_finalize b;
  ba_region_base := ba_region_base b; ba_region_len := ba_used b;
  ba_used := ba_used b; ba_finalized := 1 |}.

Definition alignment (align : Z) : Z := if align =? 0 then 16 else align.

(** [size] bytes at [r] are free in [b], and aligned. *)
Definition fits (b : boot_allocator) (size align r : Z) : Prop :=
  ba_finalized b = 0 /\ ba_region_base b + ba_used b <= r /\
  r + size <= ba_region_base b + ba_region_len b /\ r mod alignment align = 0.

Section Calls.
(** The code at an address, called with [self] and the arguments. *)
Context (call_alloc : Z -> Z -> Z -> Z -> memory -> outcome (Z * memory)).
Context (call_finalize : Z -> Z -> memory -> outcome memory).

Definition boot_allocator_alloc (self size align : Z) (m : memory) : outcome (Z * memory) :=
  fn ← rd_le64 (mem_rd m) (self + 8);
  call_alloc fn self size align m.

Definition boot_allocator_finalize (self : Z) (m : memory) : outcome memory :=
  fn ← rd_le64 (mem_rd m) (self + 16);
  call_finalize fn self m.

(** The header's contract, for the code behind one object's addresses. *)
Class BootAllocator (alloc_at finalize_at : Z) : Prop := {
  alloc_answers : forall m self b size align,
    allocator_at m self b -> ba_alloc b = alloc_at -> is_u64 size -> is_u64 align ->
    exists r m', call_alloc alloc_at self size align m = Ret (r, m') /\
      (r = 0 /\ allocator_at m' self b \/
       r <> 0 /\ fits b size align r /\ allocator_at m' self (bumped b (r + size - ba_region_base b)));
  finalize_seals : forall m self b,
    allocator_at m self b -> ba_finalize b = finalize_at ->
    exists m', call_finalize finalize_at self m = Ret m' /\ allocator_at m' self (sealed b) }.

(** A run of requests, with what each got. *)
Fixpoint allocs (self : Z) (reqs : list (Z * Z)) (m : memory) : outcome (list range * memory) :=
  match reqs with
  | [] => Ret ([], m)
  | (size, align) :: reqs' =>
      '(r, m) ← boot_allocator_alloc self size align m;
      '(rs, m) ← allocs self reqs' m;
      Ret ((r, size) :: rs, m)
  end.

(** The blocks among the answers. *)
Definition blocks (rs : list range) : list range := filter (fun r => r.1 <> 0) rs.

(** * Lemmas *)

Lemma allocator_field m self b k w :
  allocator_at m self b -> allocator_words b !! k = Some w ->
  rd_le64 (mem_rd m) (self + 8 * Z.of_nat k) = Ret w.
Proof. intros [Hu Hh] Hk. by eapply rd_le64_words. Qed.

Section Contract.
Context (alloc_at finalize_at : Z) {Hcode : BootAllocator alloc_at finalize_at}.

Lemma alloc_step m self b size align :
  allocator_at m self b -> ba_alloc b = alloc_at -> is_u64 size -> is_u64 align ->
  exists r m', boot_allocator_alloc self size align m = Ret (r, m') /\
    (r = 0 /\ allocator_at m' self b \/
     r <> 0 /\ fits b size align r /\ allocator_at m' self (bumped b (r + size - ba_region_base b))).
Proof.
  intros Hb Ha Hs Hal. unfold boot_allocator_alloc.
  rewrite (allocator_field m self b 1 (ba_alloc b) Hb eq_refl : rd_le64 _ (self + 8) = _), ret_bind, Ha.
  by apply (alloc_answers m self b size align Hb).
Qed.

(** Blocks come from above what is used, in order. *)
Lemma allocs_spec self reqs : forall m b,
  allocator_at m self b -> ba_alloc b = alloc_at -> Forall (fun q => is_u64 q.1 /\ is_u64 q.2) reqs ->
  exists rs m' b', allocs self reqs m = Ret (rs, m') /\ allocator_at m' self b' /\
    (ba_region_base b' = ba_region_base b /\ ba_region_len b' = ba_region_len b /\
     ba_used b <= ba_used b' /\ ba_finalized b' = ba_finalized b /\
     ba_alloc b' = ba_alloc b /\ ba_finalize b' = ba_finalize b) /\
    Forall (fun r => inside r (ba_region_base b + ba_used b, ba_region_len b - ba_used b) /\
      r.1 + r.2 <= ba_region_base b + ba_used b') (blocks rs) /\
    pairwise_disjoint (blocks rs) /\
    Forall2 (fun q r => r.2 = q.1 /\ (r.1 = 0 \/ r.1 mod alignment q.2 = 0)) reqs rs /\
    (ba_finalized b <> 0 -> blocks rs = []).
Proof.
  induction reqs as [|[size align] reqs IH]; intros m b Hb Ha Hq.
  { exists [], m, b. split; [done|]. split; [done|]. split; [by repeat split|]. repeat split; try done; try constructor. }
  apply Forall_cons in Hq as [[Hs Hal] Hq]. simpl in Hs, Hal. pose proof (proj1 Hs) as Hs0.
  destruct (alloc_step m self b size align Hb Ha Hs Hal) as (r & m1 & H1 & Hr).
  destruct Hr as [[-> Hb1]|(Hr0 & (Hf0 & Hlo & Hhi & Hmod) & Hb1)].
  - destruct (IH m1 b Hb1 Ha Hq) as (rs & m' & b' & H & Hb' & He & Hin & Hd & Hans & Hfin).
    exists ((0, size) :: rs), m', b'. cbn [allocs]. rewrite H1, ret_bind, H, ret_bind.
    repeat (split; [done|]). split; [|done]. constructor; [|done]. split; [done|by left].
  - destruct (IH m1 _ Hb1 Ha Hq) as (rs & m' & b' & H & Hb' & (E1 & E2 & E3 & E4 & E5 & E6) & Hin & Hd & Hans & Hfin).
    cbn [bumped ba_region_base ba_region_len ba_used ba_finalized ba_alloc ba_finalize] in *.
    exists ((r, size) :: rs), m', b'. cbn [allocs]. rewrite H1, ret_bind, H, ret_bind.
    assert (blocks ((r, size) :: rs) = (r, size) :: blocks rs) as -> by (by apply filter_cons_True).
    split; [done|]. split; [done|]. split; [repeat split; try done; lia|]. split; [|split; [|split]].
    + constructor; [split; [split; simpl; lia|simpl; lia]|].
      eapply Forall_impl; [exact Hin|]. intros [p n] [[Hp Hn] Hu]. unfold inside in *. simpl in *. lia.
    + intros i j x y Hi Hj Hij. rewrite Forall_forall in Hin.
      assert (forall z k, blocks rs !! k = Some z -> disjoint_ranges (r, size) z) as Hout.
      { intros z k Hz. destruct (Hin z) as [[Hz1 _] _]; [by eapply list_elem_of_lookup_2|].
        left. simpl in *. lia. }
      destruct i as [|i], j as [|j]; [done|..]; simplify_eq/=.
      * by eapply Hout.
      * by eapply disjoint_ranges_sym, Hout.
      * eapply (Hd i j); [done|done|congruence].
    + constructor; [|done]. split; [done|by right].
    + done.
Qed.

Definition requests_ok (reqs : list (Z * Z)) : Prop := Forall (fun q => is_u64 q.1 /\ is_u64 q.2) reqs.

(** The client's view of the boot allocator's wrappers, from the header's
    contract for the code behind them: the blocks of any run of requests are
    pairwise disjoint, aligned as asked, and inside the unused part of the
    region; and once [boot_allocator_finalize] has been called, no request of
    any size, zero included, gets a block any more. *)
Lemma boot_allocator_safe self m b reqs later :
  allocator_at m self b -> ba_alloc b = alloc_at -> ba_finalize b = finalize_at ->
  requests_ok reqs -> requests_ok later ->
  exists rs m1 m2 rs' m3,
    allocs self reqs m = Ret (rs, m1) /\
    pairwise_disjoint (blocks rs) /\
    Forall (fun r => inside r (ba_region_base b + ba_used b, ba_region_len b - ba_used b)) (blocks rs) /\
    Forall2 (fun q r => r.2 = q.1 /\ (r.1 = 0 \/ r.1 mod alignment q.2 = 0)) reqs rs /\
    boot_allocator_finalize self m1 = Ret m2 /\
    allocs self later m2 = Ret (rs', m3) /\ blocks rs' = [].
Proof.
  intros Hb Ha Hf Hq Hl.
  destruct (allocs_spec self reqs m b Hb Ha Hq) as (rs & m1 & b1 & H & Hb1 & (_ & _ & _ & _ & E5 & E6) & Hin & Hd & Hans & _).
  destruct (finalize_seals m1 self b1 Hb1) as (m2 & H2 & Hb2); [congruence|].
  destruct (allocs_spec self later m2 (sealed b1) Hb2) as (rs' & m3 & b3 & H3 & _ & _ & _ & _ & _ & Hfin);
    [cbn; congruence|done|].
  exists rs, m1, m2, rs', m3. split; [done|]. split; [done|]. split; [|split; [done|split]].
  - eapply Forall_impl; [exact Hin|]. by intros r [? _].
  - unfold boot_allocator_finalize.
    by rewrite (allocator_field m1 self b1 2 (ba_finalize b1) Hb1 eq_refl : rd_le64 _ (self + 16) = _), ret_bind, E6, Hf.
  - split; [done|]. by apply Hfin.
Qed.
End Contract.
End Calls.

(** * The description of init's variants *)

Lemma rd_description_words rd p d :
  (forall i w, word_at (description_words d) i w -> rd_le64 rd (p + 8 * i) = Ret w) ->
  rd_description rd p = Ret d.
Proof.
  intros H. unfold rd_description. pose proof (H 0 (id_magic d) ltac:(by split)) as H0.
  rewrite Z.add_0_r in H0. rewrite H0, ret_bind.
  rewrite (H 1 (coreinit_allocator_phys d) ltac:(by split) : rd_le64 rd (p + 8) = _). by destruct d.
Qed.

Lemma rd_variant_words rd p v :
  (forall i w, word_at (variant_words v) i w -> rd_le64 rd (p + 8 * i) = Ret w) ->
  rd_variant rd p = Ret v.
Proof.
  intros H. unfold rd_variant. pose proof (H 0 (arch_tag v) ltac:(by split)) as H0.
  rewrite Z.add_0_r in H0. rewrite H0, ret_bind.
  rewrite (H 1 (kernel_macho_phys v) ltac:(by split) : rd_le64 rd (p + 8) = _), ret_bind.
  rewrite (H 2 (kernel_macho_len v) ltac:(by split) : rd_le64 rd (p + 16) = _), ret_bind.
  rewrite (H 3 (init_macho_phys v) ltac:(by split) : rd_le64 rd (p + 24) = _), ret_bind.
  rewrite (H 4 (init_macho_len v) ltac:(by split) : rd_le64 rd (p + 32) = _). by destruct v.
Qed.

Definition variants_words (vs : list init_variant) : list Z := concat (variant_words <$> vs).

Lemma nwords_variants vs : nwords (variants_words vs) = Z.of_nat (length vs) * BOOT_PROTO_INIT_VARIANT_WORDS.
Proof.
  unfold nwords, variants_words, BOOT_PROTO_INIT_VARIANT_WORDS.
  induction vs as [|v vs IH]; [done|]. rewrite fmap_cons. cbn [concat]. rewrite length_app. simpl length in *. lia.
Qed.

Lemma variant_word vs i v k w :
  vs !! i = Some v -> word_at (variant_words v) k w ->
  word_at (variants_words vs) (Z.of_nat i * BOOT_PROTO_INIT_VARIANT_WORDS + k) w.
Proof.
  unfold BOOT_PROTO_INIT_VARIANT_WORDS, variants_words. revert i. induction vs as [|v0 vs IH]; intros i Hi [Hk Hw].
  { done. }
  assert (k < 5) as Hk5 by (apply lookup_lt_Some in Hw; simpl in Hw; lia).
  split; [lia|]. rewrite fmap_cons. cbn [concat]. destruct i as [|i]; simpl in Hi.
  - simplify_eq. by apply lookup_app_l_Some.
  - destruct (IH i Hi (conj Hk Hw)) as [_ H]. rewrite lookup_app_r by (simpl; lia). rewrite <- H. f_equal. simpl. lia.
Qed.

(** The object the loader builds with [capnp_build_list_root] is the one
    [capnp_read_list_root] finds for a core that looks for its variant: every
    field of every structure comes back. *)
Lemma init_description_roundtrip buf d vs :
  Forall is_u64 (description_words d) -> Forall (fun v => Forall is_u64 (variant_words v)) vs ->
  Z.of_nat (length vs) < 2 ^ 26 -> 40 * Z.of_nat (length vs) + 48 <= Z.of_nat (length buf) ->
  exists out total r,
    capnp_build_list_root buf (description_words d) BOOT_PROTO_ID_DATA_WORDS (variants_words vs)
      (Z.of_nat (length vs)) BOOT_PROTO_INIT_VARIANT_WORDS = Ret (out, total) /\
    capnp_read_list_root (of_bytes out) total BOOT_PROTO_ID_DATA_WORDS BOOT_PROTO_INIT_VARIANT_WORDS = Ret (Some r) /\
    lr_count r = Z.of_nat (length vs) /\
    rd_description (of_bytes out) (lr_data r) = Ret d /\
    forall i v, vs !! i = Some v ->
      rd_variant (of_bytes out) (lr_elements r + 8 * (Z.of_nat i * BOOT_PROTO_INIT_VARIANT_WORDS)) = Ret v.
Proof.
  intros Hd Hv Hn Hbuf. pose proof (nwords_variants vs) as Hw.
  destruct (build_then_read buf (description_words d) (variants_words vs) (Z.of_nat (length vs))
    BOOT_PROTO_INIT_VARIANT_WORDS) as (out & total & r & H1 & _ & _ & H2 & H3 & H4 & H5).
  - change BOOT_PROTO_INIT_VARIANT_WORDS with 5 in *.
    split; [change (nwords (description_words d)) with 2; ulia|ulia|lia|exact Hw|lia|exact Hd|].
    unfold variants_words. clear -Hv. induction Hv as [|v vs Hv _ IH]; [by apply Forall_nil|].
    rewrite fmap_cons. cbn [concat]. by apply Forall_app.
  - change (nwords (description_words d)) with 2. unfold BOOT_PROTO_INIT_VARIANT_WORDS in Hw. lia.
  - exists out, total, r. do 3 (split; [done|]). split; [by apply rd_description_words|].
    intros i v Hi. apply rd_variant_words. intros k w Hk.
    rewrite <- (H5 _ w (variant_word vs i v k w Hi Hk)). f_equal. lia.
Qed.

(** * An example: a bump allocator that honours the contract *)

Definition align_up (x a : Z) : Z := (x + a - 1) / a * a.

Definition ex_alloc (fn self size align : Z) (m : memory) : outcome (Z * memory) :=
  base ← rd_le64 (mem_rd m) (self + 24);
  len ← rd_le64 (mem_rd m) (self + 32);
  used ← rd_le64 (mem_rd m) (self + 40);
  finalized ← rd_le64 (mem_rd m) (self + 48);
  let r := align_up (base + used) (alignment align) in
  if negb (finalized =? 0) || (base + len <? r + size) || (r =? 0) then Ret (0, m)
  else
    m ← wr_le64 m (self + 40) (r + size - base);
    Ret (r, m).

Definition ex_finalize (fn self : Z) (m : memory) : outcome memory :=
  used ← rd_le64 (mem_rd m) (self + 40);
  m ← wr_le64 m (self + 32) used;
  wr_le64 m (self + 48) 1.

Lemma align_up_spec x a : 0 <= x -> 0 < a -> x <= align_up x a /\ align_up x a mod a = 0.
Proof.
  intros Hx Ha. unfold align_up. split; [|by apply Z.mod_mul; lia].
  pose proof (Z.div_mod (x + a - 1) a ltac:(lia)). pose proof (Z.mod_pos_bound (x + a - 1) a Ha). nia.
Qed.

Lemma allocator_fields m self b :
  allocator_at m self b <-> Forall is_u64 (allocator_words b) /\
    word_in m self (ba_magic b) /\ word_in m (self + 8) (ba_alloc b) /\ word_in m (self + 16) (ba_finalize b) /\
    word_in m (self + 24) (ba_region_base b) /\ word_in m (self + 32) (ba_region_len b) /\
    word_in m (self + 40) (ba_used b) /\ word_in m (self + 48) (ba_finalized b).
Proof.
  unfold allocator_at, words_bytes, allocator_words, word_in. cbn [fmap list_fmap concat].
  rewrite !holds_app, !length_le_bytes. change (Z.of_nat 8) with 8. rewrite <- !Z.add_assoc. simpl.
  split; [tauto|]. intros (? & ? & ? & ? & ? & ? & ? & ?). repeat (split; [done|]). apply holds_nil.
Qed.

(** A store into one field. *)
Lemma field_store m self b k w (P : memory -> Prop) :
  allocator_at m self b -> 0 <= k < 7 ->
  (forall m', word_in m' (self + 8 * k) w -> frame (fun q => self + 8 * k <= q < self + 8 * k + 8) m m' -> P m') ->
  wp (wr_le64 m (self + 8 * k) w) P.
Proof.
  intros [_ Hh] Hk HP. eapply wp_mono; [apply wp_wr_le64|by intros m' [? ?]; apply HP].
  apply holds_mapped in Hh. rewrite length_words_bytes in Hh. eapply mapped_mono; [exact Hh|lia|simpl; lia].
Qed.

Ltac other_field F := eapply frame_word; [exact F|eassumption|intros q Hq Hq'; simpl in Hq'; lia].

Lemma ex_alloc_ok m self b size align :
  allocator_at m self b -> 0 <= size -> 0 <= align ->
  exists x, ex_alloc 0x1000 self size align m = Ret x /\
    (x.1 = 0 /\ allocator_at x.2 self b \/
     x.1 <> 0 /\ fits b size align x.1 /\ allocator_at x.2 self (bumped b (x.1 + size - ba_region_base b))).
Proof.
  intros Hb Hs Ha. apply wp_inv. unfold ex_alloc.
  rewrite (allocator_field m self b 3 _ Hb eq_refl : rd_le64 _ (self + 24) = _), ret_bind.
  rewrite (allocator_field m self b 4 _ Hb eq_refl : rd_le64 _ (self + 32) = _), ret_bind.
  rewrite (allocator_field m self b 5 _ Hb eq_refl : rd_le64 _ (self + 40) = _), ret_bind.
  rewrite (allocator_field m self b 6 _ Hb eq_refl : rd_le64 _ (self + 48) = _), ret_bind. cbv zeta.
  case_if; [apply wp_ret; by left|]. breflect. apply allocator_fields in Hb as Hf.
  destruct Hf as (Hu & W0 & W1 & W2 & W3 & W4 & W5 & W6). unfold allocator_words in Hu.
  repeat (apply Forall_cons in Hu as [? Hu]). unfold is_u64 in *.
  destruct (align_up_spec (ba_region_base b + ba_used b) (alignment align)) as [Hle Hmod];
    [lia|unfold alignment; case_if; breflect; lia|].
  set (r := align_up _ _) in *. apply wp_bind, (field_store m self b 5); [done|lia|].
  change (8 * 5) with 40. intros m' W F. apply wp_ret. right. cbn [fst snd]. split; [lia|].
  split; [unfold fits; repeat split; lia|]. apply allocator_fields. split.
  - unfold allocator_words. cbn. repeat (apply Forall_cons; split; [unfold is_u64; lia|]). by apply Forall_nil.
  - cbn. do 5 (split; [other_field F|]). split; [exact W|other_field F].
Qed.

Lemma ex_finalize_ok m self b :
  allocator_at m self b -> exists m', ex_finalize 0x2000 self m = Ret m' /\ allocator_at m' self (sealed b).
Proof.
  intros Hb. apply wp_inv. unfold ex_finalize.
  rewrite (allocator_field m self b 5 _ Hb eq_refl : rd_le64 _ (self + 40) = _), ret_bind.
  apply allocator_fields in Hb as Hf. destruct Hf as (Hu & W0 & W1 & W2 & W3 & W4 & W5 & W6).
  unfold allocator_words in Hu. repeat (apply Forall_cons in Hu as [? Hu]).
  apply wp_bind, (field_store m self b 4); [done|lia|]. change (8 * 4) with 32. intros m1 X4 F1.
  assert (allocator_at m1 self {| ba_magic := ba_magic b; ba_alloc := ba_alloc b; ba_finalize := ba_finalize b;
    ba_region_base := ba_region_base b; ba_region_len := ba_used b; ba_used := ba_used b;
    ba_finalized := ba_finalized b |}) as Hb1.
  { apply allocator_fields. split; [by repeat (apply Forall_cons; split; [done|])|].
    cbn. do 4 (split; [other_field F1|]). split; [exact X4|]. split; other_field F1. }
  apply (field_store m1 self _ 6 _ _ Hb1); [lia|]. change (8 * 6) with 48. intros m2 X6 F2.
  apply allocator_fields in Hb1 as (_ & V0 & V1 & V2 & V3 & V4 & V5 & _).
  apply allocator_fields. split; [by repeat (apply Forall_cons; split; [done || by_compute|])|].
  cbn in *. do 6 (split; [other_field F2|]). exact X6.
Qed.

#[export] Instance ex_allocator : BootAllocator ex_alloc ex_finalize 0x1000 0x2000.
Proof.
  split.
  - intros m self b size align Hb _ Hs Ha.
    destruct (ex_alloc_ok m self b size align Hb (proj1 Hs) (proj1 Ha)) as ([r m'] & H & Hr). by exists r, m'.
  - intros m self b Hb _. by apply ex_finalize_ok.
Qed.

Definition ex_pool : boot_allocator := {|
  ba_magic := BOOT_ALLOCATOR_MAGIC; ba_alloc := 0x1000; ba_finalize := 0x2000;
  ba_region_base := BOOT_ALLOCATOR_REGION_BASE; ba_region_len := BOOT_ALLOCATOR_REGION_SIZE;
  ba_used := 56; ba_finalized := 0 |}.

Lemma boot_allocator_safe_witness :
  exists rs m1 m2 rs' m3,
    let m := place 0x41880000 (words_bytes (allocator_words ex_pool)) ∅ in
    allocs ex_alloc 0x41880000 [(100, 0); (0x100000000, 8); (4096, 4096)] m = Ret (rs, m1) /\
    boot_allocator_finalize ex_finalize 0x41880000 m1 = Ret m2 /\
    allocs ex_alloc 0x41880000 [(0, 1)] m2 = Ret (rs', m3) /\ blocks rs' = [].
Proof.
  destruct (boot_allocator_safe ex_alloc ex_finalize 0x1000 0x2000 0x41880000
    (place 0x41880000 (words_bytes (allocator_words ex_pool)) ∅) ex_pool
    [(100, 0); (0x100000000, 8); (4096, 4096)] [(0, 1)])
    as (rs & m1 & m2 & rs' & m3 & H1 & _ & _ & _ & H2 & H3 & H4).
  - split; [by_compute|apply holds_place].
  - done.
  - done.
  - by_compute.
  - by_compute.
  - exists rs, m1, m2, rs', m3. split; [exact H1|]. split; [exact H2|]. split; [exact H3|exact H4].
Defined.
