(* ===== verification/EntryX86.v ===== *)
(** The x86_64 entry code, kernel/boot.S: from GRUB's handoff in 32-bit
    protected mode to the call of [kernel_boot] in 64-bit mode.

    An instruction is a function on the processor's state, under its
    mnemonic and with its operands in the AT&T order; code is a list of them.
    Segments are flat, as they are at the handoff.  The processor's checks
    that this code can run into are part of its instructions: a control
    register or MSR write that raises #GP, a segment descriptor that does not
    load, a translation that faults, a return to an address other than the
    caller's.  There is no IDT, so each of them ends the run, as [Fault].
    [call] pushes the return address; where the instructions lie is the
    assembler's choice and a parameter. *)
From S2P Require Import Prelude CMem PageTables.

(** * The processor *)

Inductive reg := EAX | EBX | ECX | EDX | EDI | SP.
Inductive creg := CR0 | CR3 | CR4.
Inductive sreg := DS | ES | SS | FS | GS.

Definition reg_eqb (a b : reg) : bool :=
  match a, b with
  | EAX, EAX | EBX, EBX | ECX, ECX | EDX, EDX | EDI, EDI | SP, SP => true
  | _, _ => false
  end.
Definition creg_eqb (a b : creg) : bool :=
  match a, b with CR0, CR0 | CR3, CR3 | CR4, CR4 => true | _, _ => false end.
Definition sreg_eqb (a b : sreg) : bool :=
  match a, b with DS, DS | ES, ES | SS, SS | FS, FS | GS, GS => true | _, _ => false end.

Record x86 := {
  regs : reg -> Z;
  cregs : creg -> Z;
  sregs : sreg -> Z;
  efer : Z;
  eflags_if : bool;
  gdtr : Z * Z;               (* base, limit *)
  cs_long : bool;             (* the L bit of the code segment *)
  mem : memory }.

Definition set_reg s r v := Build_x86 (fun x => if reg_eqb x r then v else regs s x) (cregs s) (sregs s) (efer s) (eflags_if s)
  (gdtr s) (cs_long s) (mem s).
Definition set_creg s r v := Build_x86 (regs s) (fun x => if creg_eqb x r then v else cregs s x) (sregs s) (efer s) (eflags_if s)
  (gdtr s) (cs_long s) (mem s).
Definition set_sreg s r v := Build_x86 (regs s) (cregs s) (fun x => if sreg_eqb x r then v else sregs s x) (efer s) (eflags_if s)
  (gdtr s) (cs_long s) (mem s).
Definition set_efer s v := Build_x86 (regs s) (cregs s) (sregs s) v (eflags_if s)
  (gdtr s) (cs_long s) (mem s).
Definition set_if s v := Build_x86 (regs s) (cregs s) (sregs s) (efer s) v
  (gdtr s) (cs_long s) (mem s).
Definition set_gdtr s v := Build_x86 (regs s) (cregs s) (sregs s) (efer s) (eflags_if s)
  v (cs_long s) (mem s).
Definition set_long s v := Build_x86 (regs s) (cregs s) (sregs s) (efer s) (eflags_if s)
  (gdtr s) v (mem s).
Definition set_mem s v := Build_x86 (regs s) (cregs s) (sregs s) (efer s) (eflags_if s)
  (gdtr s) (cs_long s) v.

(** Control bits (Intel SDM, volume 3, 2.2.1 and 2.5). *)
Definition CR0_PE := 0.
Definition CR0_PG := 31.
Definition CR4_PAE := 5.
Definition CR4_LA57 := 12.
Definition EFER_LME := 8.
Definition EFER_LMA := 10.
Definition MSR_EFER := 0xC0000080.

Definition paging s : bool := Z.testbit (cregs s CR0) CR0_PG.
Definition lma s : bool := Z.testbit (efer s) EFER_LMA.

(** 64-bit mode proper, not compatibility mode. *)
Definition mode64 s : bool := lma s && cs_long s.

(** The physical address behind a linear one.  The legacy paging modes and
    five-level paging are none this code runs in. *)
Definition xlate s (a : Z) : outcome Z :=
  if negb (paging s) then Ret a
  else if negb (lma s) || Z.testbit (cregs s CR4) CR4_LA57 then Fault a
  else
    pa ← page_walk (mem s) (Z.land (cregs s CR3) ((2 ^ 40 - 1) * 2 ^ 12)) a;
    match pa with Some pa => Ret pa | None => Fault a end.

(** Loads and stores, translated byte by byte. *)
Definition vrd s : reader := fun a => pa ← xlate s a; mem_rd (mem s) pa.

Fixpoint store s (a : Z) (bs : list Z) : outcome x86 :=
  match bs with
  | [] => Ret s
  | b :: bs' =>
      pa ← xlate s a;
      m ← mem_wr (mem s) pa b;
      store (set_mem s m) (a + 1) bs'
  end.

(** The processor goes on fetching at [a]. *)
Definition fetch (a : Z) s : outcome x86 := b ← xlate s a; Ret s.

(** * Instructions *)

Definition instr := x86 -> outcome x86.

Fixpoint run (code : list instr) : instr := fun s =>
  match code with
  | [] => Ret s
  | i :: code' => s ← i s; run code' s
  end.

(** [movl $v, %r], and to, from and through memory. *)
Definition movl_imm (v : Z) (r : reg) : instr := fun s => Ret (set_reg s r (u32 v)).
Definition movl_store (r : reg) (base : reg) (disp : Z) : instr := fun s =>
  store s (u32 (regs s base + disp)) (le_bytes 4 (regs s r)).
Definition movl_abs (r : reg) (a : Z) : instr := fun s => store s (u32 a) (le_bytes 4 (regs s r)).
Definition movl_imm_store (v : Z) (base : reg) (disp : Z) : instr := fun s =>
  store s (u32 (regs s base + disp)) (le_bytes 4 v).

Definition orl (v : Z) (r : reg) : instr := fun s => Ret (set_reg s r (Z.lor (regs s r) (u32 v))).
Definition addl (v : Z) (r : reg) : instr := fun s => Ret (set_reg s r (u32 (regs s r + v))).
Definition xorl_self (r : reg) : instr := fun s => Ret (set_reg s r 0).
Definition cli : instr := fun s => Ret (set_if s false).

(** [rep stosl] with the direction flag clear. *)
Fixpoint stosl_n (n : nat) s : outcome x86 :=
  match n with
  | O => Ret s
  | S n' =>
      s ← store s (regs s EDI) (le_bytes 4 (regs s EAX));
      stosl_n n' (set_reg (set_reg s EDI (u32 (regs s EDI + 4))) ECX (regs s ECX - 1))
  end.
Definition rep_stosl : instr := fun s => stosl_n (Z.to_nat (regs s ECX)) s.

(** [1: body; loop 1b], at most [fuel] times round. *)
Fixpoint loop_ (fuel : nat) (body : instr) s : outcome x86 :=
  match fuel with
  | O => NoFuel
  | S fuel' =>
      s ← body s;
      let s := set_reg s ECX (u32 (regs s ECX - 1)) in
      if regs s ECX =? 0 then Ret s else loop_ fuel' body s
  end.

(** [call f] from a site that is followed by [ra], to a [f] that ends in
    [ret]. *)
Definition call (ra : Z) (f : instr) : instr := fun s =>
  let s := set_reg s SP (u32 (regs s SP - 4)) in
  s ← store s (regs s SP) (le_bytes 4 ra);
  s ← f s;
  v ← rd_le32 (vrd s) (regs s SP);
  if v =? u32 ra then Ret (set_reg s SP (u32 (regs s SP + 4))) else Fault v.

Definition mov_from_cr (c : creg) (r : reg) : instr := fun s => Ret (set_reg s r (cregs s c)).

(** Moves to control registers: PAE may not be cleared in long mode; paging
    needs protection, and in long mode PAE, and activates long mode if that
    is enabled (SDM, 9.8.5).  After a change of the address space the next
    instruction is fetched through it; [ip] is where that lies. *)
Definition mov_to_cr (ip : Z) (r : reg) (c : creg) : instr := fun s =>
  let v := regs s r in
  match c with
  | CR3 => fetch ip (set_creg s CR3 v)
  | CR4 => if lma s && negb (Z.testbit v CR4_PAE) then Fault v else fetch ip (set_creg s CR4 v)
  | CR0 =>
      if Z.testbit v CR0_PG then
        if negb (Z.testbit v CR0_PE) then Fault v
        else if Z.testbit (efer s) EFER_LME then
          if negb (Z.testbit (cregs s CR4) CR4_PAE) then Fault v
          else fetch ip (set_creg (set_efer s (Z.setbit (efer s) EFER_LMA)) CR0 v)
        else fetch ip (set_creg s CR0 v)
      else if mode64 s then Fault v
      else fetch ip (set_creg (set_efer s (Z.clearbit (efer s) EFER_LMA)) CR0 v)
  end.

Definition rdmsr : instr := fun s =>
  if regs s ECX =? MSR_EFER
  then Ret (set_reg (set_reg s EAX (u32 (efer s))) EDX (efer s / 2 ^ 32))
  else Fault (regs s ECX).

(** [EFER.LME] may not change under paging; [EFER.LMA] is read-only. *)
Definition wrmsr : instr := fun s =>
  let v := regs s EDX * 2 ^ 32 + regs s EAX in
  if negb (regs s ECX =? MSR_EFER) then Fault (regs s ECX)
  else if paging s && negb (eqb (Z.testbit v EFER_LME) (Z.testbit (efer s) EFER_LME)) then Fault v
  else Ret (set_efer s (if lma s then Z.setbit v EFER_LMA else Z.clearbit v EFER_LMA)).

(** [lgdt] with a 32-bit operand size. *)
Definition lgdt (a : Z) : instr := fun s =>
  limit ← rd_le16 (vrd s) a;
  base ← rd_le32 (vrd s) (a + 2);
  Ret (set_gdtr s (base, limit)).

(** ** Segments *)

(** Fields of a segment descriptor (SDM, 3.4.5). *)
Definition DESC_WRITABLE := 41.
Definition DESC_CODE := 43.
Definition DESC_S := 44.
Definition DESC_PRESENT := 47.
Definition DESC_LONG := 53.
Definition DESC_DB := 54.

(** The descriptor a selector names, which must be present and not a system
    one, and pass [ok]; loading it marks it accessed. *)
Definition load_segment (sel : Z) (ok : Z -> bool) s : outcome (Z * x86) :=
  let i := 8 * (sel / 8) in
  if (gdtr s).2 <? i + 7 then Fault sel
  else
    let a := (gdtr s).1 + i in
    d ← rd_le64 (vrd s) a;
    if Z.testbit d DESC_PRESENT && Z.testbit d DESC_S && ok d then
      type ← vrd s (a + 5);
      s ← store s (a + 5) [Z.lor type 1];
      Ret (d, s)
    else Fault sel.

(** [ljmp $sel, $target]. *)
Definition ljmp (sel target : Z) : instr := fun s =>
  '(d, s) ← load_segment sel
     (fun d => Z.testbit d DESC_CODE &&
        negb (lma s && Z.testbit d DESC_LONG && Z.testbit d DESC_DB)) s;
  fetch target (set_long s (Z.testbit d DESC_LONG)).

Definition movw_imm (v : Z) (r : reg) : instr := fun s =>
  Ret (set_reg s r (regs s r - regs s r mod 2 ^ 16 + u16 v)).

(** [movw %ax, %sr], for a selector that is not null: any readable segment,
    and a writable data segment for the stack. *)
Definition mov_sreg (r : reg) (sr : sreg) : instr := fun s =>
  let sel := u16 (regs s r) in
  '(_, s) ← load_segment sel
     (fun d => match sr with
               | SS => negb (Z.testbit d DESC_CODE) && Z.testbit d DESC_WRITABLE
               | _ => negb (Z.testbit d DESC_CODE) || Z.testbit d DESC_WRITABLE
               end) s;
  Ret (set_sreg s sr sel).

Definition movabsq (v : Z) (r : reg) : instr := fun s => Ret (set_reg s r (u64 v)).

(** The push of [call] in 64-bit mode, and the jump. *)
Definition callq (ra target : Z) : instr := fun s =>
  let s := set_reg s SP (u64 (regs s SP - 8)) in
  s ← store s (regs s SP) (le_bytes 8 ra);
  fetch target s.

(** * The program *)

(** Where the assembler and the linker put things.  The six tables, the
    stack and the GDT follow one another from [_boot_pml4] on. *)
Record x86_layout := {
  _boot_pml4 : Z;
  _g_xnu_boot_args_addr : Z;
  long_mode_entry_at : Z;
  _kernel_boot_at : Z;
  ra_setup : Z;                 (* after [call setup_identity_map32] *)
  ra_fill : Z -> Z;             (* after the i-th [call fill_pd32] *)
  ra_boot : Z;                  (* after [call _kernel_boot] *)
  ip_cr4 : Z; ip_cr3 : Z; ip_cr0 : Z  (* after the control-register moves *) }.

Section Program.
Context (lay : x86_layout).

Definition boot_pdpt : Z := _boot_pml4 lay + 4096.
Definition boot_pd (i : Z) : Z := _boot_pml4 lay + 4096 * (2 + i).
Definition stack_bottom : Z := _boot_pml4 lay + 4096 * 6.
Definition _stack_top : Z := stack_bottom + 65536.
Definition gdt64 : Z := _stack_top.
Definition gdt64_pointer : Z := gdt64 + 24.

Definition gdt64_words : list Z := [0; 0x00AF9A000000FFFF; 0x00AF92000000FFFF].

(** The initialised data from [gdt64] on. *)
Definition gdt64_bytes : list Z :=
  words_bytes gdt64_words ++ le_bytes 2 (8 * Z.of_nat (length gdt64_words) - 1) ++ le_bytes 4 gdt64.

Definition fill_pd32 : instr := run [
  orl 0x83 EAX;
  movl_imm 512 ECX;
  loop_ 512 (run [
    movl_store EAX EDI 0;
    movl_imm_store 0 EDI 4;
    addl 0x200000 EAX;
    addl 8 EDI])].

Definition setup_identity_map32 : instr := run [
  movl_imm (_boot_pml4 lay) EDI;
  movl_imm 6144 ECX;
  xorl_self EAX;
  rep_stosl;

  movl_imm boot_pdpt EAX; orl 0x3 EAX; movl_abs EAX (_boot_pml4 lay);

  movl_imm (boot_pd 0) EAX; orl 0x3 EAX; movl_abs EAX boot_pdpt;
  movl_imm (boot_pd 1) EAX; orl 0x3 EAX; movl_abs EAX (boot_pdpt + 8);
  movl_imm (boot_pd 2) EAX; orl 0x3 EAX; movl_abs EAX (boot_pdpt + 16);
  movl_imm (boot_pd 3) EAX; orl 0x3 EAX; movl_abs EAX (boot_pdpt + 24);

  movl_imm (boot_pd 0) EDI; xorl_self EAX; call (ra_fill lay 0) fill_pd32;
  movl_imm (boot_pd 1) EDI; movl_imm 0x40000000 EAX; call (ra_fill lay 1) fill_pd32;
  movl_imm (boot_pd 2) EDI; movl_imm 0x80000000 EAX; call (ra_fill lay 2) fill_pd32;
  movl_imm (boot_pd 3) EDI; movl_imm 0xC0000000 EAX; call (ra_fill lay 3) fill_pd32].

Definition enter_long_mode : instr := run [
  mov_from_cr CR4 EAX; orl 0x20 EAX; mov_to_cr (ip_cr4 lay) EAX CR4;
  movl_imm (_boot_pml4 lay) EAX; mov_to_cr (ip_cr3 lay) EAX CR3;
  movl_imm MSR_EFER ECX; rdmsr; orl 0x100 EAX; wrmsr;
  mov_from_cr CR0 EAX; orl 0x80000000 EAX; mov_to_cr (ip_cr0 lay) EAX CR0;
  lgdt gdt64_pointer;
  ljmp 0x08 (long_mode_entry_at lay)].

Definition long_mode_entry : instr := run [
  movw_imm 0x10 EAX;
  mov_sreg EAX DS; mov_sreg EAX ES; mov_sreg EAX SS; mov_sreg EAX FS; mov_sreg EAX GS;
  movabsq _stack_top SP;
  callq (ra_boot lay) (_kernel_boot_at lay)].

(** Up to the first instruction of [kernel_boot]. *)
Definition _start : instr := run [
  movl_imm (_g_xnu_boot_args_addr lay) EBX;
  movl_store EAX EBX 0;
  cli;
  call (ra_setup lay) setup_identity_map32;
  enter_long_mode;
  long_mode_entry].

End Program.
