(* ===== verification/EntryX86Steps.v ===== *)
(** The x86_64 entry code step by step: the identity map it builds, the
    switch to long mode on it, and the segments and stack of 64-bit mode. *)
From S2P Require Import Prelude CMem PageTables EntryX86.

(** * Flat memory *)

(** While paging is off, a store is a store. *)
Lemma wp_store_flat bs : forall s a (P : x86 -> Prop),
  paging s = false -> mapped (mem s) a (Z.of_nat (length bs)) ->
  (forall m', holds (mem_rd m') a bs -> frame (fun q => a <= q < a + Z.of_nat (length bs)) (mem s) m' ->
    P (set_mem s m')) ->
  wp (store s a bs) P.
Proof.
  intros s a P Hp Hm HP.
  assert (forall bs s a, paging s = false -> store s a bs =
    (m ← wr_bytes (mem s) a bs; Ret (set_mem s m))) as E.
  { clear. induction bs as [|b bs IH]; intros s a Hp; simpl; [by destruct s|].
    unfold xlate. rewrite Hp. simpl. destruct (mem_wr (mem s) a b); simpl; [|done..]. by rewrite IH. }
  rewrite E by done. apply wp_bind. eapply wp_mono; [by apply wp_wr_bytes|].
  intros m' [Hh Hf]. by apply HP.
Qed.

Lemma vrd_flat s a : paging s = false -> vrd s a = mem_rd (mem s) a.
Proof. intros H. unfold vrd, xlate. by rewrite H. Qed.

Lemma holds_vrd_flat s a bs : paging s = false -> holds (mem_rd (mem s)) a bs -> holds (vrd s) a bs.
Proof. intros Hp H i b Hi. rewrite vrd_flat by done. by apply H. Qed.

(** A subroutine that leaves its return address alone comes back. *)
Lemma wp_call ra f s (Q : x86 -> Prop) :
  paging s = false -> 4 <= regs s SP < 2 ^ 32 -> mapped (mem s) (regs s SP - 4) 4 ->
  (forall m1, frame (fun q => regs s SP - 4 <= q < regs s SP) (mem s) m1 ->
    wp (f (set_mem (set_reg s SP (regs s SP - 4)) m1)) (fun s2 =>
      (exists P, frame P m1 (mem s2) /\ forall q, regs s SP - 4 <= q < regs s SP -> ~ P q) /\
      regs s2 SP = regs s SP - 4 /\ paging s2 = false /\ Q (set_reg s2 SP (regs s SP)))) ->
  wp (call ra f s) Q.
Proof.
  intros Hp Hsp Hm H. unfold call. cbv zeta. cbn [regs set_reg reg_eqb].
  rewrite (u32_small (regs s SP - 4)) by ulia. set (s1 := set_reg s SP (regs s SP - 4)) in *.
  apply wp_bind, wp_store_flat; [done|by rewrite length_le_bytes|].
  rewrite length_le_bytes. change (Z.of_nat 4) with 4. intros m1 Hh Hf.
  replace (regs s SP - 4 + 4) with (regs s SP) in Hf by lia.
  apply wp_bind. eapply wp_mono; [by apply (H m1)|].
  intros s2 ((P & HP & Hq) & Esp & Hp2 & HQ). rewrite Esp.
  assert (rd_le32 (vrd s2) (regs s SP - 4) = Ret (u32 ra)) as ->.
  { assert (holds (vrd s2) (regs s SP - 4) (le_bytes 4 ra)) as Hr.
    { apply holds_vrd_flat; [done|]. eapply frame_holds; [exact HP|exact Hh|].
      rewrite length_le_bytes. intros q Hq4. apply Hq. lia. }
    apply rd_bytes_holds in Hr. rewrite length_le_bytes in Hr.
    unfold rd_le32. by rewrite Hr, ret_bind, le_val_bytes. }
  rewrite ret_bind, Z.eqb_refl. apply wp_ret. rewrite (u32_small (_ + 4)) by ulia.
  by replace (regs s SP - 4 + 4) with (regs s SP) by lia.
Qed.

(** [s'] is [s] but for memory and the registers in [clob]. *)
Record same_cpu (clob : list reg) (s s' : x86) : Prop := {
  sc_regs : forall r, r ∉ clob -> regs s' r = regs s r;
  sc_cregs : cregs s' = cregs s;
  sc_sregs : sregs s' = sregs s;
  sc_efer : efer s' = efer s;
  sc_if : eflags_if s' = eflags_if s;
  sc_gdtr : gdtr s' = gdtr s;
  sc_long : cs_long s' = cs_long s }.

#[export] Instance same_cpu_preorder clob : PreOrder (same_cpu clob).
Proof.
  split; [by split|]. intros a b c [H1 ?????? ] [G1 ??????].
  split; [intros r Hr; rewrite G1, H1; done|congruence..].
Qed.

(** Only registers in the list were set. *)
Ltac clobbered := split; [intros [] Hr; cbn; first [done|exfalso; apply Hr; repeat first [left|right]]|done..].

Lemma same_cpu_paging clob s s' : same_cpu clob s s' -> paging s' = paging s.
Proof. intros [_ H _ _ _ _ _]. unfold paging. by rewrite H. Qed.

Lemma wp_run_cons i code s P : wp (i s) (fun s' => wp (run code s') P) -> wp (run (i :: code) s) P.
Proof. apply wp_bind. Qed.

(** * The tables *)

Section Tables.
Context (base : Z).
Hypothesis Hbase : 0 <= base /\ base + 24576 <= 2 ^ 32.
Hypothesis Halign : base mod 4096 = 0.

(** The six tables as one array of words. *)
Definition tbl (m : memory) (f : Z -> Z) : Prop :=
  forall k, 0 <= k < 3072 -> word_in m (base + 8 * k) (f k).

Definition in_tables (q : Z) : Prop := base <= q < base + 24576.

Lemma tbl_ext m f g : (forall k, 0 <= k < 3072 -> f k = g k) -> tbl m f -> tbl m g.
Proof. intros E H k Hk. rewrite <- E by done. by apply H. Qed.

Lemma tbl_frame P m m' f : frame P m m' -> (forall q, in_tables q -> ~ P q) -> tbl m f -> tbl m' f.
Proof.
  intros Hf HP H k Hk. eapply frame_word; [exact Hf|by apply H|].
  intros q Hq. apply HP. unfold in_tables. lia.
Qed.

Lemma tbl_mapped m f p n : tbl m f -> base <= p -> p + n <= base + 24576 -> mapped m p n.
Proof.
  intros H Hp Hn q Hq. set (k := (q - base) / 8).
  assert (0 <= k < 3072 /\ 0 <= q - (base + 8 * k) < 8) as [Hk Ho]
    by (subst k; Z.to_euclidean_division_equations; lia).
  apply (holds_mapped _ _ _ (H k Hk)). rewrite length_le_bytes. lia.
Qed.

(** A word with its high half clear, in halves. *)
Lemma word_halves m p w :
  is_u32 w -> word_in m p w <-> holds (mem_rd m) p (le_bytes 4 w) /\ holds (mem_rd m) (p + 4) (le_bytes 4 0).
Proof.
  intros Hw. unfold word_in. change 8%nat with (4 + 4)%nat. rewrite le_bytes_app, holds_app, length_le_bytes.
  change (8 * Z.of_nat 4) with 32. by rewrite Z.div_small by ulia.
Qed.

Definition fupd (f : Z -> Z) (k v : Z) : Z -> Z := fun j => if j =? k then v else f j.

Lemma tbl_low m m' f k v :
  tbl m f -> 0 <= k < 3072 -> is_u32 (f k) -> is_u32 v ->
  holds (mem_rd m') (base + 8 * k) (le_bytes 4 v) ->
  frame (fun q => base + 8 * k <= q < base + 8 * k + 4) m m' -> tbl m' (fupd f k v).
Proof.
  intros H Hk Hf Hv Hh Hfr j Hj. unfold fupd. destruct (Z.eqb_spec j k) as [->|].
  - apply word_halves; [done|]. split; [done|].
    pose proof (proj2 (proj1 (word_halves _ _ _ Hf) (H k Hk))) as Hhi.
    eapply frame_holds; [exact Hfr|exact Hhi|]. rewrite length_le_bytes. intros; simpl in *; lia.
  - eapply frame_word; [exact Hfr|by apply H|]. intros; simpl in *; lia.
Qed.

Lemma tbl_high m m' f k :
  tbl m f -> 0 <= k < 3072 -> is_u32 (f k) ->
  holds (mem_rd m') (base + 8 * k + 4) (le_bytes 4 0) ->
  frame (fun q => base + 8 * k + 4 <= q < base + 8 * k + 4 + 4) m m' -> tbl m' f.
Proof.
  intros H Hk Hf Hh Hfr j Hj. destruct (decide (j = k)) as [->|].
  - apply word_halves; [done|]. split; [|done].
    pose proof (proj1 (proj1 (word_halves _ _ _ Hf) (H k Hk))) as Hlo.
    eapply frame_holds; [exact Hfr|exact Hlo|]. rewrite length_le_bytes. intros; simpl in *; lia.
  - eapply frame_word; [exact Hfr|by apply H|]. intros; simpl in *; lia.
Qed.

(** [movl %eax, a] into a table. *)
Lemma wp_movl_abs s f k v (P : x86 -> Prop) :
  paging s = false -> tbl (mem s) f -> 0 <= k < 3072 -> is_u32 (f k) -> regs s EAX = v -> is_u32 v ->
  (forall m', tbl m' (fupd f k v) -> frame in_tables (mem s) m' -> P (set_mem s m')) ->
  wp (movl_abs EAX (base + 8 * k) s) P.
Proof.
  intros Hp Ht Hk Hf Hr Hv HP. unfold movl_abs. rewrite u32_small by ulia.
  apply wp_store_flat; [done|rewrite length_le_bytes; eapply tbl_mapped; [exact Ht|lia..]|].
  rewrite length_le_bytes, Hr. intros m' Hh Hfr. apply HP.
  - by eapply tbl_low.
  - eapply frame_mono; [exact Hfr|]. intros q Hq. unfold in_tables. simpl in Hq. lia.
Qed.

Definition fill_body : instr := run [
  movl_store EAX EDI 0; movl_imm_store 0 EDI 4; addl 0x200000 EAX; addl 8 EDI].

Definition filled_pd (d lo : Z) (f : Z -> Z) (i : Z) : Z -> Z := fun k =>
  if (512 * d + i <=? k) && (k <? 512 * d + 512) then lo + (k - 512 * d) * 2 ^ 21 + 131 else f k.

Section Fill.
Context (d lo : Z).
Hypothesis Hd : 0 <= d < 6.
Hypothesis Hlo : 0 <= lo /\ lo + 2 ^ 30 <= 2 ^ 32.

(** Once round: entry [i] of directory [d]. *)
Lemma wp_fill_body i s f (P : x86 -> Prop) :
  0 <= i < 512 -> paging s = false -> tbl (mem s) f -> is_u32 (f (512 * d + i)) ->
  regs s EDI = base + 4096 * d + 8 * i -> regs s EAX = lo + i * 2 ^ 21 + 131 ->
  (forall m', tbl m' (fupd f (512 * d + i) (lo + i * 2 ^ 21 + 131)) -> frame in_tables (mem s) m' ->
    P (set_reg (set_reg (set_mem s m') EAX (u32 (lo + (i + 1) * 2 ^ 21 + 131)))
         EDI (u32 (base + 4096 * d + 8 * (i + 1))))) ->
  wp (fill_body s) P.
Proof.
  intros Hi Hp Ht Hf Edi Eax HP. set (k := 512 * d + i) in *.
  assert (base + 4096 * d + 8 * i = base + 8 * k) as Ea by lia.
  assert (is_u32 (lo + i * 2 ^ 21 + 131)) as Hv by ulia.
  unfold fill_body. apply wp_run_cons. unfold movl_store. rewrite Edi, Eax, Ea, Z.add_0_r, u32_small by ulia.
  apply wp_store_flat; [done|rewrite length_le_bytes; eapply tbl_mapped; [exact Ht|lia..]|].
  rewrite length_le_bytes. intros m1 H1 F1. pose proof (tbl_low _ _ _ k _ Ht ltac:(lia) Hf Hv H1 F1) as Ht1.
  apply wp_run_cons. unfold movl_imm_store. cbn [set_mem regs]. rewrite Edi, Ea, u32_small by ulia.
  apply wp_store_flat; [done|rewrite length_le_bytes; eapply tbl_mapped; [exact Ht1|lia..]|].
  rewrite length_le_bytes. intros m2 H2 F2.
  assert (is_u32 (fupd f k (lo + i * 2 ^ 21 + 131) k)) as Hk' by (unfold fupd; by rewrite Z.eqb_refl).
  pose proof (tbl_high _ _ _ k Ht1 ltac:(lia) Hk' H2 F2) as Ht2.
  cbn. rewrite Eax, Edi.
  replace (lo + i * 2 ^ 21 + 131 + 0x200000) with (lo + (i + 1) * 2 ^ 21 + 131) by lia.
  replace (base + 4096 * d + 8 * i + 8) with (base + 4096 * d + 8 * (i + 1)) by lia.
  apply (HP m2 Ht2).
  eapply frame_trans; [exact F1|exact F2|..]; intros q Hq; unfold in_tables; simpl in Hq; lia.
Qed.

Lemma fill_loop n : forall i s f,
  0 <= i -> i + Z.of_nat (S n) = 512 -> paging s = false -> tbl (mem s) f -> (forall k, is_u32 (f k)) ->
  regs s ECX = Z.of_nat (S n) ->
  regs s EDI = base + 4096 * d + 8 * i -> regs s EAX = lo + i * 2 ^ 21 + 131 ->
  wp (loop_ (S n) fill_body s) (fun s' =>
    tbl (mem s') (filled_pd d lo f i) /\ frame in_tables (mem s) (mem s') /\
    same_cpu [EAX; ECX; EDI] s s').
Proof.
  induction n as [|n IH]; intros i s f Hi Hn Hp Ht Hf Ecx Edi Eax.
  all: cbn [loop_]; apply wp_bind, (wp_fill_body i s f); [lia|done..|].
  all: intros m1 Ht1 F1; cbv zeta; cbn [set_reg set_mem regs reg_eqb]; rewrite Ecx.
  - change (u32 (Z.of_nat 1 - 1) =? 0) with true. apply wp_ret. split; [|split; [done|clobbered]].
    eapply tbl_ext; [|exact Ht1]. intros k Hk. unfold fupd, filled_pd.
    destruct (Z.eqb_spec k (512 * d + i)); case_if; breflect; lia.
  - rewrite u32_small by ulia. destruct (Z.eqb_spec (Z.of_nat (S (S n)) - 1) 0); [lia|].
    eapply wp_mono; [apply (IH (i + 1) _ (fupd f (512 * d + i) (lo + i * 2 ^ 21 + 131)))|].
    all: cbn [set_reg set_mem regs reg_eqb mem]; try done; try lia.
    + intros k. unfold fupd. case_if; [ulia|done].
    + rewrite u32_small; [done|ulia].
    + rewrite u32_small; [done|ulia].
    + intros s' (Ht' & F' & Hs). split; [|split].
      * eapply tbl_ext; [|exact Ht']. intros k Hk. unfold fupd, filled_pd.
        destruct (Z.eqb_spec k (512 * d + i)); repeat case_if; breflect; lia.
      * etransitivity; [exact F1|exact F'].
      * etransitivity; [|exact Hs]. clobbered.
Qed.

Lemma wp_fill_pd32 s f (P : x86 -> Prop) :
  paging s = false -> tbl (mem s) f -> (forall k, is_u32 (f k)) ->
  regs s EDI = base + 4096 * d -> regs s EAX = lo -> lo mod 256 = 0 ->
  (forall s', tbl (mem s') (filled_pd d lo f 0) -> frame in_tables (mem s) (mem s') ->
    same_cpu [EAX; ECX; EDI] s s' -> P s') ->
  wp (fill_pd32 s) P.
Proof.
  intros Hp Ht Hf Edi Eax Hm HP. unfold fill_pd32. do 2 (apply wp_run_cons; apply wp_ret).
  apply wp_run_cons. eapply wp_mono; [apply (fill_loop 511 0 _ f)|]; try done.
  - cbn. rewrite Edi. lia.
  - cbn. rewrite Eax. change (u32 131) with 131.
    pose proof (Z.div_mod lo 256 ltac:(lia)). replace lo with (Z.shiftl (lo / 256) 8) at 1
      by (rewrite Z.shiftl_mul_pow2; lia). rewrite lor_shiftl by lia. lia.
  - intros s' (Ht' & F' & Hs). apply wp_ret, HP; [done|done|].
    etransitivity; [|exact Hs]. clobbered.
Qed.
End Fill.

(** [rep stosl] of zeros over the tables. *)
Lemma stosl_zero n : forall a s,
  base <= a -> a + 4 * Z.of_nat n = base + 24576 -> paging s = false ->
  mapped (mem s) base 24576 -> regs s EDI = u32 a -> regs s EAX = 0 -> regs s ECX = Z.of_nat n ->
  wp (stosl_n n s) (fun s' =>
    (forall q, a <= q < base + 24576 -> mem s' !! q = Some 0) /\
    frame (fun q => a <= q < base + 24576) (mem s) (mem s') /\ same_cpu [ECX; EDI] s s').
Proof.
  induction n as [|n IH]; intros a s Ha Hn Hp Hm Edi Eax Ecx; cbn [stosl_n].
  { apply wp_ret. split; [lia|]. split; [apply frame_refl|reflexivity]. }
  rewrite Edi, Eax, u32_small by ulia. apply wp_bind, wp_store_flat; [done| |].
  { simpl. eapply mapped_mono; [exact Hm|lia..]. }
  change (le_bytes 4 0) with [0; 0; 0; 0]. change (Z.of_nat (length [0; 0; 0; 0])) with 4. intros m1 H1 F1.
  eapply wp_mono; [apply (IH (a + 4))|]; cbn [set_reg set_mem regs reg_eqb mem]; try done; try lia.
  - by eapply frame_mapped.
  - by rewrite Edi, (u32_small a) by ulia.
  - intros s' (Hz & F & Hs). split; [|split].
    + intros q Hq. destruct (decide (q < a + 4)); [|apply Hz; lia].
      rewrite (fr_out _ _ _ F) by lia. apply mem_rd_Some.
      replace q with (a + Z.of_nat (Z.to_nat (q - a))) by lia. apply H1.
      assert (Z.to_nat (q - a) < 4)%nat as Hb by lia. revert Hb. generalize (Z.to_nat (q - a)).
      intros k Hk. do 4 (destruct k as [|k]; [done|]). lia.
    + eapply frame_trans; [exact F1|exact F|..]; intros q Hq; simpl in Hq; lia.
    + etransitivity; [|exact Hs]. clobbered.
Qed.

Lemma zeroed_tbl m : (forall q, in_tables q -> m !! q = Some 0) -> tbl m (fun _ => 0).
Proof.
  intros Hz k Hk i b Hi. change (le_bytes 8 0) with (replicate 8 0) in Hi.
  apply lookup_replicate in Hi as [-> Hi]. apply mem_rd_Some, Hz. unfold in_tables. lia.
Qed.

Lemma lor_flags x k : 0 <= x -> x mod 4096 = 0 -> 0 <= k < 4096 -> Z.lor x k = x + k.
Proof.
  intros Hx Hm Hk. pose proof (Z.div_mod x 4096 ltac:(lia)).
  replace x with (Z.shiftl (x / 4096) 12) at 1 by (rewrite Z.shiftl_mul_pow2; lia).
  rewrite lor_shiftl by lia. lia.
Qed.

(** An entry that names the table at [v]. *)
Lemma wp_entry k v code s f (P : x86 -> Prop) :
  paging s = false -> tbl (mem s) f -> (forall k, is_u32 (f k)) -> 0 <= k < 3072 ->
  0 <= v -> v + 4096 <= 2 ^ 32 -> v mod 4096 = 0 ->
  (forall s', tbl (mem s') (fupd f k (v + 3)) -> frame in_tables (mem s) (mem s') ->
    same_cpu [EAX; ECX; EDI] s s' -> wp (run code s') P) ->
  wp (run (movl_imm v EAX :: orl 0x3 EAX :: movl_abs EAX (base + 8 * k) :: code) s) P.
Proof.
  intros Hp Ht Hf Hk Hv Hv' Hm HP. do 2 (apply wp_run_cons, wp_ret). apply wp_run_cons.
  apply (wp_movl_abs _ f k (v + 3)); [done|done|done|done| |ulia|].
  - cbn. rewrite u32_small by ulia. change (u32 3) with 3. apply lor_flags; lia.
  - intros m' Ht' F'. apply HP; [done|done|clobbered].
Qed.

(** A filled directory, and the return address used on the way. *)
Definition slot s (q : Z) : Prop := regs s SP - 4 <= q < regs s SP.

Lemma wp_fill_call ra d lo s f (P : x86 -> Prop) :
  0 <= d < 6 -> 0 <= lo -> lo + 2 ^ 30 <= 2 ^ 32 -> lo mod 256 = 0 ->
  paging s = false -> tbl (mem s) f -> (forall k, is_u32 (f k)) ->
  4 <= regs s SP < 2 ^ 32 -> mapped (mem s) (regs s SP - 4) 4 -> (forall q, slot s q -> ~ in_tables q) ->
  regs s EDI = base + 4096 * d -> regs s EAX = lo ->
  (forall s', tbl (mem s') (filled_pd d lo f 0) -> frame (fun q => in_tables q \/ slot s q) (mem s) (mem s') ->
    same_cpu [EAX; ECX; EDI] s s' -> P s') ->
  wp (call ra fill_pd32 s) P.
Proof.
  intros Hd Hl Hl' Hlm Hp Ht Hf Hsp Hm Hdis Edi Eax HP. apply wp_call; [done..|].
  intros m1 F1. apply (wp_fill_pd32 d lo Hd ltac:(lia) _ f); [done| |done..|].
  { cbn. eapply tbl_frame; [exact F1| |done]. intros q Hq Hs. by apply (Hdis q). }
  intros s' Ht' F' Hs. split; [|split; [|split]].
  - exists in_tables. by split.
  - by rewrite (sc_regs _ _ _ Hs) by (intros Hr; repeat (apply elem_of_cons in Hr as [?|Hr]; [done|]); by apply elem_of_nil in Hr).
  - rewrite (same_cpu_paging _ _ _ Hs). done.
  - apply HP; [done| |].
    + cbn. eapply frame_trans; [exact F1|exact F'|unfold slot; tauto|tauto].
    + destruct Hs as [Hr ? ? ? ? ? ?]. split; [|done..]. intros r Hn. cbn.
      destruct r; cbn; try done; by rewrite Hr.
Qed.

(** The tables at the end: word [k] of the six. *)
Definition boot_map (k : Z) : Z :=
  if k =? 0 then base + 4096 + 3
  else if k <? 512 then 0
  else if k <? 516 then base + 4096 * (2 + (k - 512)) + 3
  else if k <? 1024 then 0
  else (k - 1024) * 2 ^ 21 + 131.

Section Setup.
Context (s0 : x86).
Hypothesis Hp0 : paging s0 = false.
Hypothesis Hsp0 : 4 <= regs s0 SP < 2 ^ 32.
Hypothesis Hslot0 : mapped (mem s0) (regs s0 SP - 4) 4.
Hypothesis Hdis0 : forall q, slot s0 q -> ~ in_tables q.

(** On the way from [s0]: the tables hold [f]. *)
Record building (f : Z -> Z) (s : x86) : Prop := {
  bu_tbl : tbl (mem s) f;
  bu_u32 : forall k, is_u32 (f k);
  bu_frame : frame (fun q => in_tables q \/ slot s0 q) (mem s0) (mem s);
  bu_cpu : same_cpu [EAX; ECX; EDI] s0 s }.

Lemma building_sp f s : building f s -> regs s SP = regs s0 SP.
Proof.
  intros [_ _ _ H]. apply (sc_regs _ _ _ H). intros Hr.
  repeat (apply elem_of_cons in Hr as [?|Hr]; [done|]). by apply elem_of_nil in Hr.
Qed.

Lemma building_flat f s : building f s -> paging s = false.
Proof. intros [_ _ _ H]. by rewrite (same_cpu_paging _ _ _ H). Qed.

Lemma building_entry k v code s f (P : x86 -> Prop) :
  building f s -> 0 <= k < 3072 -> 0 <= v -> v + 4096 <= 2 ^ 32 -> v mod 4096 = 0 ->
  (forall s', building (fupd f k (v + 3)) s' -> wp (run code s') P) ->
  wp (run (movl_imm v EAX :: orl 0x3 EAX :: movl_abs EAX (base + 8 * k) :: code) s) P.
Proof.
  intros Hb Hk Hv Hv' Hm HP. pose proof (building_flat _ _ Hb) as Hp. destruct Hb as [Ht Hu F Hs].
  apply (wp_entry k v code s f); [done..|]. intros s' Ht' F' Hs'. apply HP. split; [done| | |].
  - intros j. unfold fupd. case_if; [ulia|done].
  - eapply frame_trans; [exact F|exact F'|tauto|tauto].
  - by etransitivity.
Qed.

Lemma building_fill ra d lo i code s f (P : x86 -> Prop) :
  building f s -> 0 <= d < 6 -> 0 <= lo -> lo + 2 ^ 30 <= 2 ^ 32 -> lo mod 256 = 0 ->
  (forall s, exists s', i s = Ret s' /\ s' = set_reg s EAX lo) ->
  (forall s', building (filled_pd d lo f 0) s' -> wp (run code s') P) ->
  wp (run (movl_imm (base + 4096 * d) EDI :: i :: call ra fill_pd32 :: code) s) P.
Proof.
  intros Hb Hd Hl Hl' Hm Hi HP. pose proof (building_flat _ _ Hb) as Hp.
  pose proof (building_sp _ _ Hb) as Hsp. destruct Hb as [Ht Hu F Hs].
  apply wp_run_cons, wp_ret. apply wp_run_cons.
  destruct (Hi (set_reg s EDI (u32 (base + 4096 * d)))) as (? & -> & ->). apply wp_ret, wp_run_cons.
  apply (wp_fill_call ra d lo _ f); [done..| | | | | |].
  - cbn. by rewrite Hsp.
  - cbn. rewrite Hsp. by eapply frame_mapped.
  - unfold slot. cbn. rewrite Hsp. exact Hdis0.
  - cbn. apply u32_small. ulia.
  - done.
  - intros s' Ht' F' Hs'. apply HP. split; [done| | |].
    + intros k. unfold filled_pd. case_if; [|done]. breflect. ulia.
    + eapply frame_trans; [exact F|exact F'|tauto|]. unfold slot. cbn. rewrite Hsp. tauto.
    + etransitivity; [exact Hs|]. etransitivity; [|exact Hs']. clobbered.
Qed.

End Setup.

Lemma wp_setup lay s (P : x86 -> Prop) :
  _boot_pml4 lay = base -> paging s = false -> 4 <= regs s SP < 2 ^ 32 ->
  mapped (mem s) base 24576 -> mapped (mem s) (regs s SP - 4) 4 -> (forall q, slot s q -> ~ in_tables q) ->
  (forall s', tbl (mem s') boot_map -> frame (fun q => in_tables q \/ slot s q) (mem s) (mem s') ->
    same_cpu [EAX; ECX; EDI] s s' -> P s') ->
  wp (setup_identity_map32 lay s) P.
Proof.
  intros El Hp Hsp Hm Hsl Hdis HP. unfold setup_identity_map32, boot_pdpt, boot_pd. rewrite El.
  do 3 (apply wp_run_cons, wp_ret). apply wp_run_cons. unfold rep_stosl.
  eapply wp_mono; [apply (stosl_zero (Z.to_nat 6144) base)|]; try done; try lia.
  intros s1 (Hz & F1 & Hs1).
  assert (building s (fun _ => 0) s1) as Hb.
  { split; [by apply zeroed_tbl|done| |].
    - eapply frame_mono; [exact F1|]. unfold in_tables. tauto.
    - destruct Hs1 as [Hr ??????]. split; [|done..]. intros r Hn. rewrite Hr by (intros Hi; apply Hn; by right).
      cbn. destruct r; try done; exfalso; apply Hn; repeat first [left|right]. }
  assert (base mod 4096 = 0 -> forall k, (base + 4096 * k) mod 4096 = 0) as Hal
    by (intros H k; Z.to_euclidean_division_equations; lia).
  replace base with (base + 8 * 0) at 2 by lia. replace (base + 4096) with (base + 4096 * 1) by lia.
  replace (base + 4096 * 1 + 8) with (base + 8 * 513) by lia.
  replace (base + 4096 * 1 + 16) with (base + 8 * 514) by lia.
  replace (base + 4096 * 1 + 24) with (base + 8 * 515) by lia.
  replace (movl_abs EAX (base + 4096 * 1)) with (movl_abs EAX (base + 8 * 512)) by (f_equal; lia).
  do 5 (eapply (building_entry s Hp Hsp); [exact Hb|lia|lia|lia|by apply Hal|clear Hb; intros ? Hb]).
  assert (forall ra d lo i code f s1, building s f s1 -> 2 <= d < 6 -> lo = (d - 2) * 2 ^ 30 ->
    (forall s2, exists s3, i s2 = Ret s3 /\ s3 = set_reg s2 EAX lo) ->
    (forall s', building s (filled_pd d lo f 0) s' -> wp (run code s') P) ->
    wp (run (movl_imm (base + 4096 * d) EDI :: i :: call ra fill_pd32 :: code) s1) P) as Hfill.
  { intros ra d lo i code f s2 Hb' Hd -> Hi H. by apply (building_fill s Hp Hsp Hsl Hdis ra d ((d - 2) * 2 ^ 30) i code s2 f);
      [|lia|lia|lia|Z.to_euclidean_division_equations; lia|..]. }
  apply (Hfill _ (2 + 0) 0 _ _ _ _ Hb); [lia|done|by eexists|clear Hb; intros ? Hb].
  apply (Hfill _ (2 + 1) 0x40000000 _ _ _ _ Hb); [lia|done|by eexists|clear Hb; intros ? Hb].
  apply (Hfill _ (2 + 2) 0x80000000 _ _ _ _ Hb); [lia|done|by eexists|clear Hb; intros ? Hb].
  apply (Hfill _ (2 + 3) 0xC0000000 _ _ _ _ Hb); [lia|done|by eexists|clear Hb; intros ? Hb].
  destruct Hb as [Ht _ F Hs]. apply wp_ret, HP; [|done|done].
  eapply tbl_ext; [|exact Ht]. intros k Hk. unfold filled_pd, fupd, boot_map.
  repeat case_if; breflect; lia.
Qed.

(** ** The walk *)

Section Walk.
Context (m : memory).
Hypothesis Htbl : tbl m boot_map.

(** The entry for [va] in table number [t]. *)
Lemma walk_tbl t va shift :
  0 <= t < 6 -> is_u32 (boot_map (512 * t + (va / 2 ^ shift) mod 512)) ->
  walk_entry m (base + 4096 * t) va shift =
    Ret (if pte_present (boot_map (512 * t + (va / 2 ^ shift) mod 512))
         then Some (boot_map (512 * t + (va / 2 ^ shift) mod 512)) else None).
Proof.
  intros Ht Hu. apply walk_word; [ulia|]. pose proof (Z.mod_pos_bound (va / 2 ^ shift) 512 ltac:(lia)).
  replace (base + 4096 * t + 8 * ((va / 2 ^ shift) mod 512))
    with (base + 8 * (512 * t + (va / 2 ^ shift) mod 512)) by lia.
  apply Htbl. lia.
Qed.

Lemma base_pte k :
  0 <= k < 6 -> pte_present (base + 4096 * k + 3) = true /\ pte_huge (base + 4096 * k + 3) = false /\
    pte_addr 12 (base + 4096 * k + 3) = base + 4096 * k.
Proof. intros Hk. apply table_pte_at; [lia|]. Z.to_euclidean_division_equations; lia. Qed.

Lemma walk_boot_pml4 va :
  0 <= va < 2 ^ 48 ->
  walk_entry m base va 39 = Ret (if va <? 2 ^ 39 then Some (base + 4096 * 1 + 3) else None).
Proof.
  intros Hva. replace base with (base + 4096 * 0) at 1 by lia.
  assert (boot_map (512 * 0 + (va / 2 ^ 39) mod 512) = if va <? 2 ^ 39 then base + 4096 * 1 + 3 else 0) as E.
  { unfold boot_map. repeat case_if; breflect; Z.to_euclidean_division_equations; lia. }
  rewrite walk_tbl; rewrite ?E; [|lia|case_if; ulia].
  destruct (va <? 2 ^ 39); [by rewrite (proj1 (base_pte 1 ltac:(lia)))|done].
Qed.

Lemma walk_boot_pdpt va :
  0 <= va < 2 ^ 39 ->
  walk_entry m (base + 4096 * 1) va 30 =
    Ret (if va <? 2 ^ 32 then Some (base + 4096 * (2 + va / 2 ^ 30) + 3) else None).
Proof.
  intros Hva.
  assert (boot_map (512 * 1 + (va / 2 ^ 30) mod 512) =
    if va <? 2 ^ 32 then base + 4096 * (2 + va / 2 ^ 30) + 3 else 0) as E.
  { unfold boot_map. repeat case_if; breflect; Z.to_euclidean_division_equations; lia. }
  rewrite walk_tbl; rewrite ?E; [|lia|].
  - destruct (Z.ltb_spec va (2 ^ 32)); [|done].
    by rewrite (proj1 (base_pte (2 + va / 2 ^ 30) ltac:(Z.to_euclidean_division_equations; lia))).
  - case_if; [|ulia]. breflect. assert (0 <= va / 2 ^ 30 < 4) by (Z.to_euclidean_division_equations; lia). ulia.
Qed.

Lemma boot_walk va : 0 <= va < 2 ^ 32 -> page_walk m base va = Ret (Some va).
Proof.
  intros Hva. assert (0 <= va / 2 ^ 30 < 4) as Hi by (Z.to_euclidean_division_equations; lia).
  unfold page_walk. rewrite walk_boot_pml4, ret_bind, (proj2 (Z.ltb_lt _ _)) by lia.
  rewrite (proj2 (proj2 (base_pte 1 ltac:(lia)))), walk_boot_pdpt, ret_bind, (proj2 (Z.ltb_lt _ _)) by lia.
  destruct (base_pte (2 + va / 2 ^ 30)) as (_ & -> & ->); [lia|].
  destruct (walk_pd m (base + 4096 * (2 + va / 2 ^ 30)) (va / 2 ^ 30 * 2 ^ 30) va) as (e & -> & He & Hsum).
  - apply Z.mod_mul. lia.
  - lia.
  - Z.to_euclidean_division_equations; lia.
  - intros j Hj. pose proof (Htbl (512 * (2 + va / 2 ^ 30) + j) ltac:(lia)) as Hw. unfold boot_map in Hw.
    replace (base + 8 * (512 * (2 + va / 2 ^ 30) + j)) with (base + 4096 * (2 + va / 2 ^ 30) + 8 * j) in Hw by lia.
    revert Hw. repeat case_if; breflect; try lia. by replace (_ * 2 ^ 21 + 131)
      with (va / 2 ^ 30 * 2 ^ 30 + j * 2 ^ 21 + 131) by lia.
  - by rewrite ret_bind, He, Hsum.
Qed.

Lemma boot_walk_fault va : 2 ^ 32 <= va < 2 ^ 48 -> page_walk m base va = Ret None.
Proof.
  intros Hva. unfold page_walk. rewrite walk_boot_pml4, ret_bind by lia. case_if; [|done]. breflect.
  rewrite (proj2 (proj2 (base_pte 1 ltac:(lia)))), walk_boot_pdpt, ret_bind by lia.
  by rewrite (proj2 (Z.ltb_ge _ _)) by lia.
Qed.

End Walk.

(** * Under the new tables *)

(** Long mode on the boot tables. *)
Record on_tables (s : x86) : Prop := {
  ot_paging : paging s = true;
  ot_lma : lma s = true;
  ot_levels : Z.testbit (cregs s CR4) CR4_LA57 = false;
  ot_cr3 : cregs s CR3 = base;
  ot_tbl : tbl (mem s) boot_map }.

Lemma xlate_tables s a : on_tables s -> 0 <= a < 2 ^ 32 -> xlate s a = Ret a.
Proof.
  intros [Hp Hl H5 H3 Ht] Ha. unfold xlate. rewrite Hp, Hl, H5, H3. simpl.
  assert (Z.land base ((2 ^ 40 - 1) * 2 ^ 12) = base) as Eb.
  { rewrite land_field by lia. rewrite (Z.mod_small (base / 2 ^ 12)) by (Z.to_euclidean_division_equations; lia).
    Z.to_euclidean_division_equations; lia. }
  change (Z.land base _) with (Z.land base ((2 ^ 40 - 1) * 2 ^ 12)).
  by rewrite Eb, boot_walk, ret_bind by done.
Qed.

Lemma holds_vrd_tables s a bs :
  on_tables s -> 0 <= a -> a + Z.of_nat (length bs) <= 2 ^ 32 ->
  holds (mem_rd (mem s)) a bs -> holds (vrd s) a bs.
Proof.
  intros Hs Ha Hl H i b Hi. pose proof (lookup_lt_Some _ _ _ Hi). unfold vrd.
  rewrite xlate_tables, ret_bind by (done || lia). by apply H.
Qed.

Lemma on_tables_mem P s m' :
  on_tables s -> frame P (mem s) m' -> (forall q, in_tables q -> ~ P q) -> on_tables (set_mem s m').
Proof. intros [] Hf HP. split; [done..|]. by eapply tbl_frame. Qed.

Lemma store_tables bs : forall s a,
  on_tables s -> 0 <= a -> a + Z.of_nat (length bs) <= 2 ^ 32 ->
  mapped (mem s) a (Z.of_nat (length bs)) ->
  (forall q, in_tables q -> ~ (a <= q < a + Z.of_nat (length bs))) ->
  store s a bs = (m ← wr_bytes (mem s) a bs; Ret (set_mem s m)).
Proof.
  induction bs as [|b bs IH]; intros s a Hs Ha Hl Hm Hd; simpl; [by destruct s|]. simpl length in *.
  rewrite xlate_tables, ret_bind, (mem_wr_mapped _ _ _ _ _ Hm), !ret_bind by (done || lia).
  apply IH; [|lia|lia| |].
  - eapply (on_tables_mem (fun q => q = a)); [done| |intros q Hq ->; apply (Hd a Hq); lia]. split.
    + intros q Hq. by apply lookup_insert_ne.
    + intros q Hq. rewrite lookup_insert_is_Some. destruct (decide (a = q)); auto.
  - apply mapped_insert. eapply mapped_mono; [exact Hm|lia..].
  - intros q Hq ?. apply (Hd q Hq). lia.
Qed.

Lemma wp_store_tables bs s a (P : x86 -> Prop) :
  on_tables s -> 0 <= a -> a + Z.of_nat (length bs) <= 2 ^ 32 ->
  mapped (mem s) a (Z.of_nat (length bs)) ->
  (forall q, in_tables q -> ~ (a <= q < a + Z.of_nat (length bs))) ->
  (forall m', holds (mem_rd m') a bs -> frame (fun q => a <= q < a + Z.of_nat (length bs)) (mem s) m' ->
    on_tables (set_mem s m') -> P (set_mem s m')) ->
  wp (store s a bs) P.
Proof.
  intros Hs Ha Hl Hm Hd HP. rewrite store_tables by done. apply wp_bind.
  eapply wp_mono; [by apply wp_wr_bytes|]. intros m' [Hh Hf]. apply wp_ret, HP; [done..|].
  by eapply on_tables_mem.
Qed.

Lemma holds_set m m' p bs i b :
  holds (mem_rd m) p bs -> frame (fun q => p + Z.of_nat i <= q < p + Z.of_nat i + 1) m m' ->
  holds (mem_rd m') (p + Z.of_nat i) [b] -> (i < length bs)%nat -> holds (mem_rd m') p (<[i := b]> bs).
Proof.
  intros H Hf Hb Hi j x Hj. apply mem_rd_Some. destruct (decide (i = j)) as [->|].
  - rewrite list_lookup_insert_eq in Hj by done. simplify_eq. apply mem_rd_Some.
    specialize (Hb 0%nat x eq_refl). by rewrite Z.add_0_r in Hb.
  - rewrite list_lookup_insert_ne in Hj by done. rewrite (fr_out _ _ _ Hf) by lia. by apply mem_rd_Some, H.
Qed.

(** A segment is loaded from a descriptor outside the tables. *)
Lemma wp_load_segment sel ok s g lim d d' (P : Z * x86 -> Prop) :
  on_tables s -> gdtr s = (g, lim) -> 0 <= sel -> 8 * (sel / 8) + 7 <= lim ->
  0 <= g -> g + 8 * (sel / 8) + 8 <= 2 ^ 32 -> base + 24576 <= g ->
  is_u64 d -> word_in (mem s) (g + 8 * (sel / 8)) d ->
  Z.testbit d DESC_PRESENT && Z.testbit d DESC_S && ok d = true ->
  (exists t, le_bytes 8 d !! 5%nat = Some t /\ le_bytes 8 d' = <[5%nat := Z.lor t 1]> (le_bytes 8 d)) ->
  (forall m', word_in m' (g + 8 * (sel / 8)) d' ->
    frame (fun q => g + 8 * (sel / 8) <= q < g + 8 * (sel / 8) + 8) (mem s) m' ->
    on_tables (set_mem s m') -> P (d, set_mem s m')) ->
  wp (load_segment sel ok s) P.
Proof.
  intros Hs Hg Hsel Hlim Hg0 Hg1 Hgb Hd Hw Hok (t & Ht & Ed') HP. unfold load_segment. rewrite Hg. cbn [fst snd].
  assert (0 <= sel / 8) as Hi by (apply Z.div_pos; lia).
  rewrite (proj2 (Z.ltb_ge _ _)) by lia. revert Hw Hg1 HP. generalize (sel / 8) Hi. clear Hlim Hi. intros n Hn.
  set (a := g + 8 * n). intros Hw Hg1 HP.
  assert (holds (vrd s) a (le_bytes 8 d)) as Hv
    by (apply holds_vrd_tables; [done|lia|rewrite length_le_bytes; lia|done]).
  rewrite (rd_le64_holds _ _ _ Hd Hv), ret_bind, Hok.
  pose proof (Hv 5%nat t Ht) as E5. change (Z.of_nat 5) with 5 in E5. rewrite E5, ret_bind.
  apply wp_bind, wp_store_tables; [done|lia|simpl; lia| | |].
  - eapply mapped_mono; [by apply (holds_mapped _ a (le_bytes 8 d))|lia|rewrite length_le_bytes; simpl; lia].
  - intros q Hq. unfold in_tables in Hq. lia.
  - simpl length. change (Z.of_nat 1) with 1. intros m' Hh F' Hs'. apply wp_ret, HP; [|  |done].
    + unfold word_in. rewrite Ed'. eapply holds_set; [exact Hw|exact F'|exact Hh|rewrite length_le_bytes; lia].
    + eapply frame_mono; [exact F'|]. intros q Hq. simpl in Hq. lia.
Qed.

(** The GDT and its pointer, field by field. *)
Lemma gdt_fields lay m :
  holds (mem_rd m) (gdt64 lay) (gdt64_bytes lay) ->
  word_in m (gdt64 lay + 8) 0x00AF9A000000FFFF /\ word_in m (gdt64 lay + 16) 0x00AF92000000FFFF /\
  holds (mem_rd m) (gdt64_pointer lay) (le_bytes 2 23) /\
  holds (mem_rd m) (gdt64_pointer lay + 2) (le_bytes 4 (gdt64 lay)).
Proof.
  unfold gdt64_bytes, gdt64_words, words_bytes, gdt64_pointer, word_in. cbn [fmap list_fmap concat].
  rewrite !holds_app, !length_app, !length_le_bytes. generalize (gdt64 lay) as g. intros g.
  change (Z.of_nat 8) with 8. rewrite <- !Z.add_assoc. simpl. tauto.
Qed.

Lemma efer_or e : is_u64 e -> e / 2 ^ 32 * 2 ^ 32 + Z.lor (u32 e) 0x100 = Z.lor e 0x100.
Proof.
  intros He. rewrite <- lor_shiftl; [|lia|apply lor_bound; [apply u32_range|lia]].
  rewrite Z.lor_assoc. f_equal. rewrite lor_shiftl; [|lia|apply u32_range]. unfold u32.
  pose proof (Z.div_mod e (2 ^ 32) ltac:(lia)). lia.
Qed.

Lemma rd_le16_tables s a v :
  on_tables s -> 0 <= a -> a + 2 <= 2 ^ 32 -> is_u16 v ->
  holds (mem_rd (mem s)) a (le_bytes 2 v) -> rd_le16 (vrd s) a = Ret v.
Proof.
  intros Hs Ha Hl Hv H. apply holds_vrd_tables in H; [|done|done|by rewrite length_le_bytes].
  apply rd_bytes_holds in H. rewrite length_le_bytes in H. unfold rd_le16.
  rewrite H, ret_bind, le_val_bytes. f_equal. by apply Z.mod_small.
Qed.

Lemma rd_le32_tables s a v :
  on_tables s -> 0 <= a -> a + 4 <= 2 ^ 32 -> is_u32 v ->
  holds (mem_rd (mem s)) a (le_bytes 4 v) -> rd_le32 (vrd s) a = Ret v.
Proof.
  intros Hs Ha Hl Hv H. apply holds_vrd_tables in H; [|done|done|by rewrite length_le_bytes].
  apply rd_bytes_holds in H. rewrite length_le_bytes in H. unfold rd_le32.
  rewrite H, ret_bind, le_val_bytes. f_equal. by apply Z.mod_small.
Qed.

(** The transition, instruction by instruction. *)
Lemma mov_cr3_flat ip r s : paging s = false -> mov_to_cr ip r CR3 s = Ret (set_creg s CR3 (regs s r)).
Proof. intros Hp. cbn [mov_to_cr]. unfold fetch, xlate. change (paging (set_creg s CR3 _)) with (paging s). by rewrite Hp. Qed.

Lemma mov_cr4_flat ip r s :
  paging s = false -> lma s = false -> mov_to_cr ip r CR4 s = Ret (set_creg s CR4 (regs s r)).
Proof.
  intros Hp Hl. cbn [mov_to_cr]. rewrite Hl. cbn [andb]. unfold fetch, xlate.
  change (paging (set_creg s CR4 _)) with (paging s). by rewrite Hp.
Qed.

Lemma rdmsr_efer s : regs s ECX = MSR_EFER ->
  rdmsr s = Ret (set_reg (set_reg s EAX (u32 (efer s))) EDX (efer s / 2 ^ 32)).
Proof. intros E. unfold rdmsr. by rewrite E. Qed.

Lemma wrmsr_flat s : regs s ECX = MSR_EFER -> paging s = false -> lma s = false ->
  wrmsr s = Ret (set_efer s (Z.clearbit (regs s EDX * 2 ^ 32 + regs s EAX) EFER_LMA)).
Proof. intros E Hp Hl. unfold wrmsr. by rewrite E, Hp, Hl. Qed.

Lemma mov_cr0_long ip r s :
  Z.testbit (regs s r) CR0_PG = true -> Z.testbit (regs s r) CR0_PE = true ->
  Z.testbit (efer s) EFER_LME = true -> Z.testbit (cregs s CR4) CR4_PAE = true ->
  mov_to_cr ip r CR0 s =
    fetch ip (set_creg (set_efer s (Z.setbit (efer s) EFER_LMA)) CR0 (regs s r)).
Proof. intros H1 H2 H3 H4. cbn [mov_to_cr]. by rewrite H1, H2, H3, H4. Qed.

(** The control registers, up to the first fetch through the new tables. *)
Lemma wp_switch lay code s (P : x86 -> Prop) :
  paging s = false -> Z.testbit (cregs s CR0) CR0_PE = true ->
  Z.testbit (cregs s CR4) CR4_LA57 = false -> lma s = false -> is_u64 (efer s) ->
  tbl (mem s) boot_map -> 0 <= ip_cr0 lay < 2 ^ 32 ->
  (forall s', on_tables s' -> mem s' = mem s -> eflags_if s' = eflags_if s -> wp (run code s') P) ->
  wp (run (mov_from_cr CR4 EAX :: orl 0x20 EAX :: mov_to_cr (ip_cr4 lay) EAX CR4 ::
    movl_imm base EAX :: mov_to_cr (ip_cr3 lay) EAX CR3 ::
    movl_imm MSR_EFER ECX :: rdmsr :: orl 0x100 EAX :: wrmsr ::
    mov_from_cr CR0 EAX :: orl 0x80000000 EAX :: mov_to_cr (ip_cr0 lay) EAX CR0 :: code) s) P.
Proof.
  intros Hp Hpe H57 Hlma He Ht Hip HP.
  do 2 (apply wp_run_cons, wp_ret). apply wp_run_cons. rewrite mov_cr4_flat by done.
  apply wp_ret, wp_run_cons, wp_ret, wp_run_cons. rewrite mov_cr3_flat by done.
  apply wp_ret, wp_run_cons, wp_ret, wp_run_cons. rewrite rdmsr_efer by done.
  apply wp_ret, wp_run_cons, wp_ret, wp_run_cons. rewrite wrmsr_flat by done.
  apply wp_ret. do 2 (apply wp_run_cons, wp_ret). apply wp_run_cons.
  match goal with |- wp (mov_to_cr _ _ _ ?x) _ => set (s1 := x) end.
  assert (regs s1 EAX = Z.lor (cregs s CR0) 0x80000000 /\
    efer s1 = Z.clearbit (Z.lor (efer s) 0x100) EFER_LMA /\
    cregs s1 CR4 = Z.lor (cregs s CR4) 0x20 /\ cregs s1 CR3 = base /\ mem s1 = mem s /\
    eflags_if s1 = eflags_if s) as (E1 & E2 & E3 & E4 & E5 & E6).
  { subst s1. cbn [set_reg set_creg set_efer regs cregs efer reg_eqb creg_eqb mem eflags_if].
    change (u32 256) with 0x100. rewrite efer_or by done. repeat split. apply u32_small. ulia. }
  rewrite mov_cr0_long; rewrite ?E1, ?E2, ?E3.
  2: by rewrite Z.lor_spec, orb_true_r.
  2: by rewrite Z.lor_spec, Hpe.
  2: { rewrite Z.clearbit_neq by done. by rewrite Z.lor_spec, orb_true_r. }
  2: by rewrite Z.lor_spec, orb_true_r.
  match goal with |- wp (fetch _ ?x) _ => set (s2 := x) end.
  assert (on_tables s2) as Hs2.
  { split.
    - unfold paging, s2. cbn [set_creg cregs creg_eqb]. by rewrite Z.lor_spec, orb_true_r.
    - unfold lma, s2. cbn [set_creg set_efer efer]. by rewrite Z.setbit_eq.
    - unfold s2. cbn [set_creg set_efer cregs creg_eqb]. rewrite E3, Z.lor_spec. by rewrite H57.
    - done.
    - unfold s2. cbn [set_creg set_efer mem]. by rewrite E5. }
  unfold fetch. rewrite xlate_tables, ret_bind by done. by apply wp_ret, HP.
Qed.

Lemma wp_enter lay s (P : x86 -> Prop) :
  _boot_pml4 lay = base -> paging s = false -> Z.testbit (cregs s CR0) CR0_PE = true ->
  Z.testbit (cregs s CR4) CR4_LA57 = false -> lma s = false -> is_u64 (efer s) ->
  tbl (mem s) boot_map -> holds (mem_rd (mem s)) (gdt64 lay) (gdt64_bytes lay) ->
  gdt64 lay + 30 <= 2 ^ 32 -> 0 <= ip_cr0 lay < 2 ^ 32 -> 0 <= long_mode_entry_at lay < 2 ^ 32 ->
  (forall s', on_tables s' -> mode64 s' = true -> gdtr s' = (gdt64 lay, 23) ->
    word_in (mem s') (gdt64 lay + 16) 0x00AF92000000FFFF ->
    frame (fun q => gdt64 lay + 8 <= q < gdt64 lay + 16) (mem s) (mem s') ->
    eflags_if s' = eflags_if s -> P s') ->
  wp (enter_long_mode lay s) P.
Proof.
  intros El Hp Hpe H57 Hlma He Ht Hg Hgb Hip Hlm HP.
  destruct (gdt_fields _ _ Hg) as (Hc & Hd & Hl & Hb).
  unfold enter_long_mode. rewrite El. apply wp_switch; [done..|]. intros s2 Hs2 M2 I2. apply wp_run_cons.
  assert (gdt64 lay = base + 90112) as Eg by (unfold gdt64, _stack_top, stack_bottom; lia).
  unfold lgdt. rewrite (rd_le16_tables s2 _ 23), ret_bind, (rd_le32_tables s2 _ (gdt64 lay)), ret_bind;
    [|done|unfold gdt64_pointer; lia|unfold gdt64_pointer; lia|ulia|by rewrite M2
     |done|unfold gdt64_pointer; lia|unfold gdt64_pointer; lia|ulia|by rewrite M2].
  apply wp_ret, wp_run_cons. unfold ljmp. apply wp_bind.
  apply (wp_load_segment 8 _ _ (gdt64 lay) 23 0x00AF9A000000FFFF 0x00AF9B000000FFFF).
  - by destruct Hs2.
  - done.
  - lia.
  - by vm_compute.
  - lia.
  - change (8 / 8) with 1. lia.
  - lia.
  - by_compute.
  - cbn [mem set_gdtr]. rewrite M2. exact Hc.
  - change (lma (set_gdtr s2 _)) with (lma s2). rewrite (ot_lma _ Hs2). by vm_compute.
  - exists 0x9A. by vm_compute.
  - intros m' Hw F' Hs'. cbn [mem set_gdtr] in F'. rewrite M2 in F'. change (8 * (8 / 8)) with 8 in F'.
    unfold fetch. rewrite xlate_tables, ret_bind; [|by destruct Hs'|done]. apply wp_ret. cbn [run].
    apply wp_ret, HP; [by destruct Hs'| |done| | |exact I2].
    + unfold mode64. apply andb_true_intro. split; [apply (ot_lma _ Hs')|done].
    + eapply frame_word; [exact F'|exact Hd|]. intros q Hq Hq'. simpl in Hq'. lia.
    + eapply frame_mono; [exact F'|]. intros q Hq. simpl in Hq. lia.
Qed.

(** The data descriptor, before and after its first load. *)
Definition data_desc (m : memory) (a : Z) : Prop :=
  exists d, (d = 0x00AF92000000FFFF \/ d = 0x00AF93000000FFFF) /\ word_in m a d.

(** In 64-bit code: on the tables, with the GDT loaded and the data selector
    in %ax. *)
Record in_long lay (s : x86) : Prop := {
  il_tables : on_tables s;
  il_mode : mode64 s = true;
  il_gdtr : gdtr s = (gdt64 lay, 23);
  il_data : data_desc (mem s) (gdt64 lay + 16);
  il_ax : u16 (regs s EAX) = 0x10 }.

Lemma wp_mov_sreg lay sr s (P : x86 -> Prop) :
  _boot_pml4 lay = base -> gdt64 lay + 30 <= 2 ^ 32 -> in_long lay s ->
  (forall s', in_long lay s' -> eflags_if s' = eflags_if s ->
    sregs s' = (fun x => if sreg_eqb x sr then 0x10 else sregs s x) ->
    frame (fun q => gdt64 lay + 16 <= q < gdt64 lay + 24) (mem s) (mem s') -> P s') ->
  wp (mov_sreg EAX sr s) P.
Proof.
  intros El Hgb [Hs Hm Hg (d & Hd & Hw) Hax] HP. unfold mov_sreg. rewrite Hax.
  assert (gdt64 lay = base + 90112) as Eg by (unfold gdt64, _stack_top, stack_bottom; lia).
  apply wp_bind. apply (wp_load_segment 16 _ s (gdt64 lay) 23 d 0x00AF93000000FFFF);
    change (8 * (16 / 8)) with 16; try done; try lia.
  - destruct Hd as [->| ->]; by_compute.
  - destruct Hd as [->| ->]; by destruct sr; vm_compute.
  - destruct Hd as [->| ->]; [by exists 0x92; vm_compute|by exists 0x93; vm_compute].
  - intros m' Hw' F' Hs'. apply wp_ret, HP; [|done|done|].
    + split; [by destruct Hs'|done|done|by exists 0x00AF93000000FFFF; auto|done].
    + eapply frame_mono; [exact F'|]. intros q Hq. simpl in Hq. lia.
Qed.

Lemma u16_movw x v : is_u16 v -> u16 (x - x mod 2 ^ 16 + u16 v) = v.
Proof.
  intros Hv. rewrite (u16_small v) by done. unfold u16, is_u16 in *.
  pose proof (Z.div_mod x (2 ^ 16) ltac:(lia)).
  replace (x - x mod 2 ^ 16 + v) with (v + x / 2 ^ 16 * 2 ^ 16) by lia.
  rewrite Z.mod_add by lia. by apply Z.mod_small.
Qed.

Lemma wp_long_mode_entry lay s (P : x86 -> Prop) :
  _boot_pml4 lay = base -> gdt64 lay + 30 <= 2 ^ 32 -> 0 <= _kernel_boot_at lay < 2 ^ 32 ->
  on_tables s -> mode64 s = true -> gdtr s = (gdt64 lay, 23) ->
  word_in (mem s) (gdt64 lay + 16) 0x00AF92000000FFFF ->
  mapped (mem s) (_stack_top lay - 8) 8 ->
  (forall s', on_tables s' -> mode64 s' = true -> eflags_if s' = eflags_if s ->
    (forall sr, sregs s' sr = 0x10) -> regs s' SP = _stack_top lay - 8 ->
    word_in (mem s') (_stack_top lay - 8) (ra_boot lay) ->
    frame (fun q => gdt64 lay + 16 <= q < gdt64 lay + 24 \/ _stack_top lay - 8 <= q < _stack_top lay)
      (mem s) (mem s') -> P s') ->
  wp (long_mode_entry lay s) P.
Proof.
  intros El Hgb Hkb Hs Hm Hg Hw Hst HP. unfold long_mode_entry.
  assert (_stack_top lay = base + 90112) as Es by (unfold _stack_top, stack_bottom; lia).
  apply wp_run_cons, wp_ret.
  match goal with |- wp (run _ ?x) _ => set (s1 := x) end.
  assert (in_long lay s1) as H1.
  { split; [by destruct Hs|done|done|by eexists; eauto|]. cbn. by apply u16_movw. }
  apply wp_run_cons, (wp_mov_sreg lay); [done..|]. intros s2 H2 I2 S2 F2.
  apply wp_run_cons, (wp_mov_sreg lay); [done..|]. intros s3 H3 I3 S3 F3.
  apply wp_run_cons, (wp_mov_sreg lay); [done..|]. intros s4 H4 I4 S4 F4.
  apply wp_run_cons, (wp_mov_sreg lay); [done..|]. intros s5 H5 I5 S5 F5.
  apply wp_run_cons, (wp_mov_sreg lay); [done..|]. intros s6 H6 I6 S6 F6.
  assert (frame (fun q => gdt64 lay + 16 <= q < gdt64 lay + 24) (mem s) (mem s6)) as F
    by (change (mem s) with (mem s1); do 4 (etransitivity; [eassumption|]); done).
  apply wp_run_cons, wp_ret, wp_run_cons. unfold callq. cbn [set_reg regs reg_eqb].
  rewrite (u64_small (_stack_top lay)), (u64_small (_ - 8)) by ulia.
  apply wp_bind, wp_store_tables; rewrite ?length_le_bytes; change (Z.of_nat 8) with 8.
  - by destruct (il_tables _ _ H6).
  - lia.
  - unfold gdt64 in Hgb. lia.
  - by apply (frame_mapped _ _ _ _ _ F).
  - intros q Hq. unfold in_tables in Hq. lia.
  - cbn [set_reg mem]. intros m' Hh F' Hs'. unfold fetch. rewrite xlate_tables, ret_bind by done.
    apply wp_ret, HP; [done|by apply (il_mode _ _ H6)| | |done|done|].
    + cbn. by rewrite I6, I5, I4, I3, I2.
    + intros sr. cbn. rewrite S6, S5, S4, S3, S2. by destruct sr.
    + eapply frame_trans; [exact F|exact F'|..]; intros q Hq; simpl in *; lia.
Qed.

End Tables.
