(* ===== verification/EntryArm64.v ===== *)
(** The AArch64 entry code, arch/boot_aarch64.S: its four entry points, each
    up to the first instruction of the C function it branches to.

    Instructions are functions on the registers the code uses, the stack
    pointer and memory; the MMU is off, so addresses are physical.  [ldr xN,
    =sym] loads from a literal pool the linker fills and is modelled by the
    address itself.  Branches are the structure of the definitions, with one
    definition per label. *)
From S2P Require Import Prelude CMem Fdt SmpLayout.

(** * The processor *)

Inductive xreg := X0 | X1 | X2 | X9 | X10 | X11 | X12 | X19.

Definition xreg_eqb (a b : xreg) : bool :=
  match a, b with
  | X0, X0 | X1, X1 | X2, X2 | X9, X9 | X10, X10 | X11, X11 | X12, X12 | X19, X19 => true
  | _, _ => false
  end.

Record a64 := { xregs : xreg -> Z; a_sp : Z; a_mem : memory }.

Definition set_x s r v := Build_a64 (fun x => if xreg_eqb x r then v else xregs s x) (a_sp s) (a_mem s).
Definition set_sp s v := Build_a64 (xregs s) v (a_mem s).
Definition set_amem s m := Build_a64 (xregs s) (a_sp s) m.

Definition a64_instr := a64 -> outcome a64.

Fixpoint exec (code : list a64_instr) : a64_instr := fun s =>
  match code with
  | [] => Ret s
  | i :: code' => s ← i s; exec code' s
  end.

(** * Instructions *)

Definition ldr_sym (r : xreg) (sym : Z) : a64_instr := fun s => Ret (set_x s r (u64 sym)).
Definition mov_x (d n : xreg) : a64_instr := fun s => Ret (set_x s d (xregs s n)).
Definition mov_sp (n : xreg) : a64_instr := fun s => Ret (set_sp s (xregs s n)).
Definition add_imm (d n : xreg) (imm shift : Z) : a64_instr := fun s =>
  Ret (set_x s d (u64 (xregs s n + Z.shiftl imm shift))).

Definition str_x (r base : xreg) : a64_instr := fun s =>
  m ← wr_le64 (a_mem s) (xregs s base) (xregs s r); Ret (set_amem s m).
Definition str_xzr (base : xreg) : a64_instr := fun s =>
  m ← wr_le64 (a_mem s) (xregs s base) 0; Ret (set_amem s m).
Definition ldr_x (r base : xreg) : a64_instr := fun s =>
  v ← rd_le64 (mem_rd (a_mem s)) (xregs s base); Ret (set_x s r v).

(** A load of 32 bits clears the upper half. *)
Definition ldr_w (r base : xreg) (off : Z) : a64_instr := fun s =>
  v ← rd_le32 (mem_rd (a_mem s)) (u64 (xregs s base + off)); Ret (set_x s r v).
Definition movz_w (r : xreg) (imm : Z) : a64_instr := fun s => Ret (set_x s r imm).
Definition movk_w (r : xreg) (imm shift : Z) : a64_instr := fun s =>
  let v := u32 (xregs s r) in
  Ret (set_x s r (Z.lor (Z.ldiff v (Z.shiftl 0xFFFF shift)) (Z.shiftl imm shift))).
Definition rev_w (d n : xreg) : a64_instr := fun s =>
  Ret (set_x s d (le_val (rev (le_bytes 4 (xregs s n))))).

(** [strb wzr, [x9], #1]. *)
Definition strb_wzr_post (base : xreg) : a64_instr := fun s =>
  m ← mem_wr (a_mem s) (xregs s base) 0;
  Ret (set_x (set_amem s m) base (u64 (xregs s base + 1))).

(** * The program *)

(** Where the linker put the file's data and the ends of the sections; the
    variables follow one another from [g_fdt_blob_phys] on, and the stack
    them, at the next multiple of sixteen. *)
Record a64_layout := { at_g_fdt_blob_phys : Z; _edata : Z; _end : Z }.

Definition at_g_fdt_blob_size lay : Z := at_g_fdt_blob_phys lay + 8.
Definition at_g_boot_x0 lay : Z := at_g_fdt_blob_phys lay + 16.
Definition at_g_init_description_phys lay : Z := at_g_fdt_blob_phys lay + 24.
Definition at_g_init_entry_phys lay : Z := at_g_fdt_blob_phys lay + 32.
Definition a_stack_bottom lay : Z := (at_g_fdt_blob_phys lay + 40 + 15) / 16 * 16.
Definition a_stack_top lay : Z := a_stack_bottom lay + 16384.

Section Program.
Context (lay : a64_layout).

(** The loop over .bss: [1: cmp x9, x10; b.hs 2f; strb wzr, [x9], #1; b 1b],
    at most [fuel] times round. *)
Fixpoint bss_loop (fuel : nat) (s : a64) : outcome a64 :=
  match fuel with
  | O => NoFuel
  | S fuel' =>
      if xregs s X10 <=? xregs s X9 then Ret s
      else s ← strb_wzr_post X9 s; bss_loop fuel' s
  end.

Definition zero_bss : a64_instr := exec [
  ldr_sym X9 (_edata lay);
  ldr_sym X10 (_end lay);
  bss_loop (S (Z.to_nat (_end lay - _edata lay)))].

Definition fdt_ok : a64_instr := exec [
  zero_bss;
  ldr_sym X9 (a_stack_top lay);
  mov_sp X9].

Definition no_fdt : a64_instr := exec [
  ldr_sym X9 (at_g_fdt_blob_phys lay);
  str_xzr X9;
  ldr_sym X9 (at_g_fdt_blob_size lay);
  str_xzr X9].

(** Up to [b.ne no_fdt]: the first word, and what it is compared with. *)
Definition check_magic : a64_instr := exec [
  ldr_w X10 X0 0;
  movz_w X11 0xfeed;
  movk_w X11 0xd00d 16;
  rev_w X10 X10].

Definition take_size : a64_instr := exec [
  ldr_w X12 X0 4;
  rev_w X12 X12;
  ldr_sym X9 (at_g_fdt_blob_size lay);
  str_x X12 X9].

Definition capture_fdt : a64_instr := fun s =>
  if xregs s X0 =? 0 then no_fdt s
  else
    s ← check_magic s;
    if negb (u32 (xregs s X10) =? u32 (xregs s X11)) then no_fdt s else take_size s.

Definition real_start : a64_instr := exec [
  ldr_sym X9 (at_g_boot_x0 lay);
  str_x X0 X9;
  ldr_sym X9 (at_g_fdt_blob_phys lay);
  str_x X0 X9;
  capture_fdt;
  fdt_ok].

Definition boot_protocol_start : a64_instr := exec [
  ldr_sym X9 (at_g_boot_x0 lay);
  str_x X0 X9;
  ldr_sym X9 (at_g_fdt_blob_phys lay);
  str_x X0 X9;
  ldr_sym X9 (at_g_init_entry_phys lay);
  str_x X1 X9;
  ldr_sym X9 (at_g_init_description_phys lay);
  str_x X2 X9;
  zero_bss].

(** [kernel_boot_ap]: x0, the region, is passed on. *)
Definition ap_start : a64_instr := exec [
  add_imm X9 X0 0x380 12;
  mov_sp X9].

(** [kernel_boot_ap_shared]: x0, the handoff block, is passed on. *)
Definition ap_shared_start : a64_instr := exec [
  mov_x X19 X0;
  ldr_x X9 X19;
  mov_sp X9;
  mov_x X0 X19].

(** The image header of the arm64 boot protocol, as [_start] lays it out;
    [code0] is the branch over it. *)
Definition image_header (code0 text_offset image_size : Z) : list Z :=
  le_bytes 4 code0 ++ le_bytes 4 0 ++ le_bytes 8 text_offset ++ le_bytes 8 image_size ++
  le_bytes 8 0xa ++ le_bytes 8 0 ++ le_bytes 8 0 ++ le_bytes 8 0 ++
  [65; 82; 77; 0x64] ++ le_bytes 4 0.

End Program.

(** The header has the fields of the arm64 boot protocol where a loader looks
    for them, and the code behind it starts right after. *)
Lemma image_header_fields code0 text_offset image_size :
  is_u64 text_offset -> is_u64 image_size ->
  let hdr := of_bytes (image_header code0 text_offset image_size) in
  length (image_header code0 text_offset image_size) = 64%nat /\
  rd_le64 hdr 8 = Ret text_offset /\ rd_le64 hdr 16 = Ret image_size /\
  rd_le64 hdr 24 = Ret 0xa /\ rd_le32 hdr 56 = Ret 0x644d5241.
Proof.
  intros Ht Hi hdr. unfold image_header in *. split; [by rewrite !length_app, !length_le_bytes|].
  assert (holds hdr 0 (image_header code0 text_offset image_size)) as H.
  { pose proof (holds_of_bytes [] (image_header code0 text_offset image_size) []) as H. by rewrite app_nil_r in H. }
  unfold image_header in H. rewrite !holds_app, !length_le_bytes in H.
  destruct H as (_ & _ & H8 & H16 & H24 & _ & _ & _ & H56 & _).
  split; [by apply rd_le64_holds|]. split; [by apply rd_le64_holds|]. split; [by apply rd_le64_holds|].
  unfold rd_le32. by rewrite (rd_bytes_holds _ _ _ H56 : rd_bytes hdr 56 4 = _).
Qed.

(** * Steps *)

Lemma wp_exec_cons i code s P : wp (i s) (fun s' => wp (exec code s') P) -> wp (exec (i :: code) s) P.
Proof. apply wp_bind. Qed.

(** [ldr xB, =p; str xR, [xB]]: the word at [p] is set, and nothing else. *)
Lemma wp_set_var p r code s (P : a64 -> Prop) :
  is_u64 p -> r <> X9 -> mapped (a_mem s) p 8 ->
  (forall m', word_in m' p (xregs s r) -> frame (fun q => p <= q < p + 8) (a_mem s) m' ->
    wp (exec code (set_amem (set_x s X9 p) m')) P) ->
  wp (exec (ldr_sym X9 p :: str_x r X9 :: code) s) P.
Proof.
  intros Hp Hr Hm H. apply wp_exec_cons, wp_ret, wp_exec_cons. unfold str_x.
  assert (xregs (set_x s X9 (u64 p)) r = xregs s r) as -> by by destruct r.
  change (xregs (set_x s X9 (u64 p)) X9) with (u64 p). rewrite (u64_small p Hp).
  apply wp_bind. eapply wp_mono; [by apply wp_wr_le64|]. intros m' [Hw Hf]. by apply wp_ret, H.
Qed.

Lemma wp_zero_var p code s (P : a64 -> Prop) :
  is_u64 p -> mapped (a_mem s) p 8 ->
  (forall m', word_in m' p 0 -> frame (fun q => p <= q < p + 8) (a_mem s) m' ->
    wp (exec code (set_amem (set_x s X9 p) m')) P) ->
  wp (exec (ldr_sym X9 p :: str_xzr X9 :: code) s) P.
Proof.
  intros Hp Hm H. apply wp_exec_cons, wp_ret, wp_exec_cons. unfold str_xzr.
  change (xregs (set_x s X9 (u64 p)) X9) with (u64 p). rewrite (u64_small p Hp).
  apply wp_bind. eapply wp_mono; [by apply wp_wr_le64|]. intros m' [Hw Hf]. by apply wp_ret, H.
Qed.

(** The loop ends, having cleared exactly what lies between. *)
Lemma wp_bss_loop n : forall a s (P : a64 -> Prop),
  xregs s X9 = a -> 0 <= a -> xregs s X10 = a + Z.of_nat n -> a + Z.of_nat n < 2 ^ 64 ->
  mapped (a_mem s) a (Z.of_nat n) ->
  (forall s', (forall q, a <= q < a + Z.of_nat n -> a_mem s' !! q = Some 0) ->
    frame (fun q => a <= q < a + Z.of_nat n) (a_mem s) (a_mem s') ->
    a_sp s' = a_sp s -> (forall r, r <> X9 -> xregs s' r = xregs s r) -> P s') ->
  wp (bss_loop (S n) s) P.
Proof.
  induction n as [|n IH]; intros a s P E9 Ha E10 Hhi Hm HP.
  all: cbn [bss_loop]; rewrite E9, E10.
  - rewrite (proj2 (Z.leb_le _ _)) by lia. apply wp_ret, HP; [lia|apply frame_refl|done..].
  - rewrite (proj2 (Z.leb_gt _ _)) by lia. unfold strb_wzr_post. rewrite E9.
    rewrite (mem_wr_mapped _ _ _ _ _ Hm), !ret_bind by lia.
    apply (IH (a + 1)); cbn [set_x set_amem xregs a_mem a_sp xreg_eqb]; [apply u64_small; ulia|lia|lia|lia| |].
    { apply mapped_insert. eapply mapped_mono; [exact Hm|lia..]. }
    intros s' Hz Hf Hsp Hr. apply HP; [| |done|].
    + intros q Hq. destruct (decide (q = a)) as [->|]; [|apply Hz; lia].
      rewrite (fr_out _ _ _ Hf) by lia. apply lookup_insert_eq.
    + eapply (frame_trans (fun q => q = a)); [|exact Hf|intros q Hq; simpl in *; lia..]. split.
      * intros q Hq. by apply lookup_insert_ne.
      * intros q Hq. rewrite lookup_insert_is_Some. destruct (decide (a = q)); auto.
    + intros r Hne. rewrite Hr by done. by destruct r.
Qed.

(** * The first core *)

(** What the entry code makes of x0 and the eight bytes behind it: the tree's
    address and its size, or nothing. *)
Definition captured (x0 : Z) (bs : list Z) : Z * Z :=
  if negb (x0 =? 0) && (be_val (take 4 bs) =? FDT_MAGIC) then (x0, be_val (drop 4 bs)) else (0, 0).

(** A link that keeps the variables below .bss, and storage behind both. *)
Record a64_placed (lay : a64_layout) (m : memory) : Prop := {
  ap_data : 0 <= at_g_fdt_blob_phys lay;
  ap_order : a_stack_top lay <= _edata lay <= _end lay;
  ap_end : _end lay < 2 ^ 64;
  ap_vars : mapped m (at_g_fdt_blob_phys lay) 40;
  ap_bss : mapped m (_edata lay) (_end lay - _edata lay) }.

Definition in_vars lay (q : Z) : Prop := at_g_fdt_blob_phys lay <= q < at_g_fdt_blob_phys lay + 40.
Definition in_bss lay (q : Z) : Prop := _edata lay <= q < _end lay.

Section First.
Context (lay : a64_layout).

Lemma vars_below : at_g_fdt_blob_phys lay + 40 <= a_stack_bottom lay.
Proof. unfold a_stack_bottom. Z.to_euclidean_division_equations; lia. Qed.

Lemma wp_zero_bss m s code (P : a64 -> Prop) :
  a64_placed lay m -> mapped (a_mem s) (_edata lay) (_end lay - _edata lay) ->
  (forall s', (forall q, in_bss lay q -> a_mem s' !! q = Some 0) -> frame (in_bss lay) (a_mem s) (a_mem s') ->
    a_sp s' = a_sp s -> wp (exec code s') P) ->
  wp (exec (zero_bss lay :: code) s) P.
Proof.
  intros Hl Hb H. pose proof vars_below as Hv. destruct Hl as [Hd Ho He _ _]. unfold a_stack_top in Ho.
  apply wp_exec_cons. unfold zero_bss. do 2 (apply wp_exec_cons, wp_ret). apply wp_exec_cons.
  apply (wp_bss_loop _ (_edata lay)); cbn [set_x xregs a_mem xreg_eqb].
  - apply u64_small. ulia.
  - lia.
  - rewrite u64_small by ulia. lia.
  - lia.
  - by rewrite Z2Nat.id by lia.
  - rewrite Z2Nat.id by lia. replace (_edata lay + (_end lay - _edata lay)) with (_end lay) by lia.
    intros s' Hz Hf Hsp _. apply wp_ret. by apply H.
Qed.

(** The word at [x0 + off], as the code reads and reverses it. *)
Lemma wp_ldr_rev r off bs s code (P : a64 -> Prop) :
  is_u64 (xregs s X0 + off) -> bytes_ok bs -> length bs = 4%nat ->
  holds (mem_rd (a_mem s)) (xregs s X0 + off) bs ->
  wp (exec code (set_x s r (le_val bs))) P ->
  wp (exec (ldr_w r X0 off :: code) s) P.
Proof.
  intros Hu Hok Hl Hh H. apply wp_exec_cons. unfold ldr_w, rd_le32. rewrite u64_small by done.
  apply rd_bytes_holds in Hh. rewrite Hl in Hh. by rewrite Hh, !ret_bind.
Qed.

Lemma rev_be bs : bytes_ok bs -> length bs = 4%nat -> le_val (rev (le_bytes 4 (le_val bs))) = be_val bs.
Proof. intros Hok Hl. rewrite <- Hl, le_bytes_val by done. done. Qed.

Lemma be_val_u32 bs : bytes_ok bs -> length bs = 4%nat -> is_u32 (be_val bs).
Proof. intros Hok Hl. pose proof (be_val_range bs Hok) as H. by rewrite Hl in H. Qed.

Lemma wp_no_fdt s s1 (P : a64 -> Prop) :
  0 <= at_g_fdt_blob_phys lay -> at_g_fdt_blob_phys lay + 40 < 2 ^ 64 ->
  mapped (a_mem s) (at_g_fdt_blob_phys lay) 40 -> a_mem s1 = a_mem s ->
  (forall s', word_in (a_mem s') (at_g_fdt_blob_phys lay) 0 -> word_in (a_mem s') (at_g_fdt_blob_size lay) 0 ->
    frame (fun q => at_g_fdt_blob_phys lay <= q < at_g_fdt_blob_phys lay + 16) (a_mem s) (a_mem s') -> P s') ->
  wp (no_fdt lay s1) P.
Proof.
  intros Hd Hd' Hm E HP. unfold no_fdt, at_g_fdt_blob_size in *.
  apply wp_zero_var; [ulia|rewrite E; eapply mapped_mono; [exact Hm|lia..]|]. intros m1 W1 F1. rewrite E in F1.
  apply wp_zero_var; [ulia| |].
  { cbn. eapply frame_mapped; [exact F1|]. eapply mapped_mono; [exact Hm|lia..]. }
  cbn [set_amem set_x a_mem]. intros m2 W2 F2. apply wp_ret, HP; cbn [set_amem a_mem].
  - eapply frame_word; [exact F2|exact W1|]. intros q Hq Hq'. simpl in Hq'. lia.
  - done.
  - eapply frame_trans; [exact F1|exact F2|..]; intros q Hq; simpl in Hq; lia.
Qed.

(** After the capture. *)
Lemma wp_capture s bs (P : a64 -> Prop) :
  0 <= at_g_fdt_blob_phys lay -> at_g_fdt_blob_phys lay + 40 < 2 ^ 64 ->
  mapped (a_mem s) (at_g_fdt_blob_phys lay) 40 ->
  word_in (a_mem s) (at_g_fdt_blob_phys lay) (xregs s X0) ->
  (xregs s X0 = 0 \/ 0 < xregs s X0 < 2 ^ 64 - 8 /\ bytes_ok bs /\ length bs = 8%nat /\
    holds (mem_rd (a_mem s)) (xregs s X0) bs) ->
  (forall s', word_in (a_mem s') (at_g_fdt_blob_phys lay) (captured (xregs s X0) bs).1 ->
    word_in (a_mem s') (at_g_fdt_blob_size lay) (captured (xregs s X0) bs).2 ->
    frame (fun q => at_g_fdt_blob_phys lay <= q < at_g_fdt_blob_phys lay + 16) (a_mem s) (a_mem s') -> P s') ->
  wp (capture_fdt lay s) P.
Proof.
  intros Hd Hd' Hm Hw Hx HP. unfold capture_fdt.
  assert (forall s1, a_mem s1 = a_mem s -> captured (xregs s X0) bs = (0, 0) -> wp (no_fdt lay s1) P) as Hno
    by (intros s1 E Ec; rewrite Ec in HP; by apply (wp_no_fdt s)).
  destruct (Z.eqb_spec (xregs s X0) 0) as [E0|Hn0].
  { apply Hno; [done|]. unfold captured. by rewrite E0. }
  destruct Hx as [?|(Hx & Hok & Hl & Hh)]; [done|].
  rewrite <- (take_drop 4 bs) in Hok, Hh. apply Forall_app in Hok as [Ok1 Ok2].
  apply holds_app in Hh as [Hh1 Hh2].
  assert (length (take 4 bs) = 4%nat /\ length (drop 4 bs) = 4%nat) as [L1 L2]
    by (rewrite length_take, length_drop; lia).
  rewrite L1 in Hh2. change (Z.of_nat 4) with 4 in Hh2.
  apply wp_bind. unfold check_magic. apply (wp_ldr_rev X10 0 (take 4 bs)); [ulia|done|done|by rewrite Z.add_0_r|].
  do 3 (apply wp_exec_cons, wp_ret). apply wp_ret. cbn [set_x xregs xreg_eqb].
  rewrite rev_be by done. rewrite (u32_small (be_val _)) by by apply be_val_u32.
  change (u32 (Z.lor _ _)) with FDT_MAGIC.
  destruct (Z.eqb_spec (be_val (take 4 bs)) FDT_MAGIC) as [Em|Hm']; cbn [negb].
  2: { apply Hno; [done|]. unfold captured.
       by rewrite (proj2 (Z.eqb_neq _ _) Hn0), (proj2 (Z.eqb_neq _ _) Hm'). }
  assert (captured (xregs s X0) bs = (xregs s X0, be_val (drop 4 bs))) as Ec.
  { unfold captured. by rewrite (proj2 (Z.eqb_neq _ _) Hn0), (proj2 (Z.eqb_eq _ _) Em). }
  rewrite Ec in HP. unfold take_size. apply (wp_ldr_rev X12 4 (drop 4 bs)); [cbn; ulia|done|done|done|].
  apply wp_exec_cons, wp_ret. unfold at_g_fdt_blob_size in *.
  apply wp_set_var; [ulia|done|cbn; eapply mapped_mono; [exact Hm|lia..]|].
  cbn [set_x xregs xreg_eqb a_mem]. rewrite rev_be by done. intros m' W' F'. apply wp_ret, HP; cbn [set_amem a_mem].
  - eapply frame_word; [exact F'|exact Hw|]. intros q Hq Hq'. simpl in Hq'. lia.
  - done.
  - eapply frame_mono; [exact F'|]. intros q Hq. simpl in Hq. lia.
Qed.

(** What the first core's entry code leaves behind: its variables, a cleared
    .bss, and everything else as it was. *)
Record entered (s s' : a64) (vars : list (Z * Z)) : Prop := {
  en_vars : Forall (fun v => word_in (a_mem s') v.1 v.2) vars;
  en_bss : forall q, in_bss lay q -> a_mem s' !! q = Some 0;
  en_frame : frame (fun q => in_vars lay q \/ in_bss lay q) (a_mem s) (a_mem s') }.

(** Any sequence that only set variables, followed by the clearing of .bss. *)
Lemma finish_bss m s0 s code vars (P : a64 -> Prop) :
  a64_placed lay m -> mapped (a_mem s0) (_edata lay) (_end lay - _edata lay) ->
  frame (in_vars lay) (a_mem s0) (a_mem s) ->
  Forall (fun v => word_in (a_mem s) v.1 v.2 /\
    at_g_fdt_blob_phys lay <= v.1 /\ v.1 + 8 <= at_g_fdt_blob_phys lay + 40) vars ->
  (forall s', entered s0 s' vars -> a_sp s' = a_sp s -> wp (exec code s') P) ->
  wp (exec (zero_bss lay :: code) s) P.
Proof.
  intros Hl Hb F Hv HP. pose proof vars_below as Hvb. apply (wp_zero_bss m); [done|by eapply frame_mapped|].
  intros s' Hz F' Hsp. apply HP; [|done]. destruct Hl as [_ Ho _ _ _]. unfold a_stack_top in Ho. split; [|done|].
  - eapply Forall_impl; [exact Hv|]. intros [p w] (Hw & Hlo & Hhi). simpl in *.
    eapply frame_word; [exact F'|exact Hw|]. intros q Hq Hq'. unfold in_bss in Hq'. lia.
  - eapply frame_trans; [exact F|exact F'|tauto|tauto].
Qed.

Lemma real_start_enters s bs :
  a64_placed lay (a_mem s) -> is_u64 (xregs s X0) ->
  (xregs s X0 = 0 \/ 0 < xregs s X0 < 2 ^ 64 - 8 /\ bytes_ok bs /\ length bs = 8%nat /\
    holds (outside (at_g_fdt_blob_phys lay) 40 (mem_rd (a_mem s))) (xregs s X0) bs) ->
  wp (real_start lay s) (fun s' => a_sp s' = a_stack_top lay /\
    entered s s' [(at_g_boot_x0 lay, xregs s X0);
      (at_g_fdt_blob_phys lay, (captured (xregs s X0) bs).1);
      (at_g_fdt_blob_size lay, (captured (xregs s X0) bs).2)]).
Proof.
  intros Hl Hx0 Hb. pose proof vars_below as Hvb. pose proof Hl as [Hd Ho He Hv Hbs]. unfold a_stack_top in *.
  unfold real_start. unfold at_g_boot_x0 in *.
  apply wp_set_var; [ulia|done|eapply mapped_mono; [exact Hv|lia..]|]. intros m1 W1 F1.
  apply wp_set_var; [ulia|done| |].
  { cbn. eapply frame_mapped; [exact F1|]. eapply mapped_mono; [exact Hv|lia..]. }
  cbn [set_amem set_x a_mem xregs xreg_eqb]. intros m2 W2 F2.
  assert (frame (in_vars lay) (a_mem s) m2) as F12
    by (eapply frame_trans; [exact F1|exact F2|..]; intros q Hq; unfold in_vars; simpl in Hq; lia).
  apply wp_exec_cons, (wp_capture _ bs); cbn [set_amem set_x a_mem xregs xreg_eqb]; [lia|lia| |done| |].
  { by eapply frame_mapped. }
  { destruct Hb as [?|(? & ? & ? & Hh)]; [by left|right]. do 3 (split; [done|]).
    eapply holds_ext; [apply extends_outside, frame_same_outside; exact F12|exact Hh]. }
  intros s3 W3 W3' F3. apply wp_exec_cons. unfold fdt_ok.
  apply (finish_bss (a_mem s) s s3 _ [(at_g_fdt_blob_phys lay + 16, xregs s X0);
      (at_g_fdt_blob_phys lay, (captured (xregs s X0) bs).1);
      (at_g_fdt_blob_size lay, (captured (xregs s X0) bs).2)]); [done|done| | |].
  - eapply frame_trans; [exact F12|exact F3|done|]. intros q Hq. unfold in_vars. simpl in Hq. lia.
  - unfold at_g_fdt_blob_size in *. repeat (apply Forall_cons; split; [cbn [fst snd]|]);
      [|split; [done|lia]|split; [done|lia]|by apply Forall_nil].
    split; [|lia]. eapply frame_word; [exact F3|eapply frame_word; [exact F2|exact W1|]|];
      intros q Hq Hq'; simpl in Hq'; lia.
  - intros s4 Hent _. do 2 (apply wp_exec_cons, wp_ret). apply wp_ret. split; [apply u64_small; unfold a_stack_top; ulia|].
    by destruct Hent.
Qed.

(** The other entry of the first core stores its three registers, keeps the
    caller's stack, and never sets the tree's size. *)
Lemma boot_protocol_start_enters s size :
  a64_placed lay (a_mem s) -> word_in (a_mem s) (at_g_fdt_blob_size lay) size ->
  wp (boot_protocol_start lay s) (fun s' => a_sp s' = a_sp s /\
    entered s s' [(at_g_boot_x0 lay, xregs s X0);
      (at_g_fdt_blob_phys lay, xregs s X0); (at_g_fdt_blob_size lay, size);
      (at_g_init_entry_phys lay, xregs s X1); (at_g_init_description_phys lay, xregs s X2)]).
Proof.
  intros Hl Hsz. pose proof vars_below as Hvb. pose proof Hl as [Hd Ho He Hv Hbs]. unfold a_stack_top in *.
  unfold boot_protocol_start, at_g_boot_x0, at_g_fdt_blob_size, at_g_init_entry_phys, at_g_init_description_phys in *.
  apply wp_set_var; [ulia|done|eapply mapped_mono; [exact Hv|lia..]|]. intros m1 W1 F1.
  pose proof (frame_mapped _ _ _ _ _ F1 Hv) as Hv1.
  apply wp_set_var; cbn [set_amem set_x a_mem xregs xreg_eqb];
    [ulia|done|eapply mapped_mono; [exact Hv1|lia..]|]. intros m2 W2 F2.
  pose proof (frame_mapped _ _ _ _ _ F2 Hv1) as Hv2.
  apply wp_set_var; cbn [set_amem set_x a_mem xregs xreg_eqb];
    [ulia|done|eapply mapped_mono; [exact Hv2|lia..]|]. intros m3 W3 F3.
  pose proof (frame_mapped _ _ _ _ _ F3 Hv2) as Hv3.
  apply wp_set_var; cbn [set_amem set_x a_mem xregs xreg_eqb];
    [ulia|done|eapply mapped_mono; [exact Hv3|lia..]|]. intros m4 W4 F4.
  apply (finish_bss (a_mem s) s _ _ [(at_g_fdt_blob_phys lay + 16, xregs s X0);
      (at_g_fdt_blob_phys lay, xregs s X0); (at_g_fdt_blob_phys lay + 8, size);
      (at_g_fdt_blob_phys lay + 32, xregs s X1); (at_g_fdt_blob_phys lay + 24, xregs s X2)]); [done|done| | |];
    cbn [set_amem set_x a_mem].
  - transitivity m3; [transitivity m2; [transitivity m1|]|];
      (eapply frame_mono; [eassumption|intros q Hq; unfold in_vars; simpl in Hq; lia]).
  - repeat (apply Forall_cons; split; [cbn [fst snd]; split; [|lia]|]); [..|by apply Forall_nil].
    all: repeat first [assumption
      | eapply frame_word; [exact F4| |intros q Hq Hq'; simpl in Hq'; lia]
      | eapply frame_word; [exact F3| |intros q Hq Hq'; simpl in Hq'; lia]
      | eapply frame_word; [exact F2| |intros q Hq Hq'; simpl in Hq'; lia]
      | eapply frame_word; [exact F1| |intros q Hq Hq'; simpl in Hq'; lia] ].
  - intros s' Hent Hsp. by apply wp_ret.
Qed.

End First.

(** * The other cores *)

(** The stack an application processor starts on is the top of the one its
    region reserves. *)
Lemma ap_start_stack s :
  0 <= xregs s X0 -> xregs s X0 + CORE_REGION_SIZE <= 2 ^ 64 ->
  exists s', ap_start s = Ret s' /\ xregs s' X0 = xregs s X0 /\ a_mem s' = a_mem s /\
    a_sp s' = xregs s X0 + CORE_STACK_OFFSET + CORE_STACK_SIZE.
Proof.
  intros H0 H. eexists. split; [reflexivity|]. split; [done|]. split; [done|]. cbn.
  unfold CORE_REGION_SIZE, CORE_STACK_OFFSET, CORE_STACK_SIZE in *. change (Z.shiftl 0x380 12) with 0x380000.
  rewrite u64_small by ulia. lia.
Qed.

(** A shared-image processor starts on the stack its handoff block names. *)
Lemma ap_shared_start_stack s top :
  is_u64 top -> word_in (a_mem s) (xregs s X0) top ->
  exists s', ap_shared_start s = Ret s' /\ xregs s' X0 = xregs s X0 /\ a_mem s' = a_mem s /\ a_sp s' = top.
Proof.
  intros Ht Hw. apply wp_inv. unfold ap_shared_start. apply wp_exec_cons, wp_ret, wp_exec_cons.
  unfold ldr_x. cbn [set_x xregs xreg_eqb a_mem]. rewrite (rd_word_in _ _ _ Ht Hw), ret_bind.
  do 2 (apply wp_ret, wp_exec_cons). by repeat apply wp_ret.
Qed.
