(* ===== verification/Boot.v ===== *)
(** Booting: [kernel_boot] and [kernel_boot_ap] of kernel/kernel.c (x86_64)
    and the five functions of kernel/kernel_boot_aarch64.c.

    A boot function ends by entering init with a boot-information block, or
    by halting.  Init never returns to the kernel, so the run modelled here
    stops at that call; what follows it in the code is a message and a halt.
    The machine is physical memory, the capability layer's state, and the
    globals the boot code keeps.  The embedded init image is read from
    memory as it was before the load, which is what the code reads as long
    as no segment is loaded over the image itself.  The choice of the
    console's UART is part of booting on AArch64, where it walks the device
    tree; on x86_64 [serial_init] touches only the UART (Uart.v).  The
    console is the sequence of calls of [kprintf]; Console.v says what each
    sends. *)
From stdpp Require Import strings.
From S2P Require Import Prelude CMem Console Schema Capnp Validate Cap Fdt Uart Macho Efi SmpLayout PageTables.

(** * Data *)

(** [struct init_boot_info], the block init is entered with; pointers are
    addresses. *)
Record init_boot_info := {
  bi_caps : initial_capabilities_t;
  bi_kernel_invoke : Z;
  bi_kernel_load_base : Z;
  bi_kernel_boot_ap_addr : Z;
  bi_pml4_phys : Z;
  bi_init_image_addr : Z;
  bi_init_image_len : Z;
  bi_kernel_image_addr : Z;
  bi_kernel_image_len : Z;
  bi_bsp_kernel_invoke_addr : Z;
  bi_mutex_manager_handle : Z;
  bi_memory_manager_handle : Z;
  bi_hardware_mutex_id : Z;
  bi_lapic_calibration_count : Z;
  bi_cluster_scheduler_handle : Z;
  bi_serial_resource_handle : Z;
  bi_early_rsdp_phys : Z;
  bi_fdt_blob_phys : Z;
  bi_ram_size : Z;
  bi_init_description_phys : Z;
  bi_init_entry_addr : Z;
  bi_ap_core_state_phys : Z }.

(** [struct init_ap_handoff]. *)
Record init_ap_handoff := { stack_top : Z; init_entry : Z; boot_info : init_boot_info }.

(** The blocks in memory: every field is eight bytes, in the order of the
    declaration. *)
Definition boot_info_words (b : init_boot_info) : list Z := [
  count (bi_caps b); factory_handle (bi_caps b); bi_kernel_invoke b; bi_kernel_load_base b;
  bi_kernel_boot_ap_addr b; bi_pml4_phys b; bi_init_image_addr b; bi_init_image_len b;
  bi_kernel_image_addr b; bi_kernel_image_len b; bi_bsp_kernel_invoke_addr b;
  bi_mutex_manager_handle b; bi_memory_manager_handle b; bi_hardware_mutex_id b;
  bi_lapic_calibration_count b; bi_cluster_scheduler_handle b; bi_serial_resource_handle b;
  bi_early_rsdp_phys b; bi_fdt_blob_phys b; bi_ram_size b; bi_init_description_phys b;
  bi_init_entry_addr b; bi_ap_core_state_phys b].
Definition handoff_words (h : init_ap_handoff) : list Z :=
  stack_top h :: init_entry h :: boot_info_words (boot_info h).

Definition HANDOFF_INIT_ENTRY : Z := 8.
Definition HANDOFF_BOOT_INFO : Z := 16.
Definition BOOT_INFO_KERNEL_INVOKE : Z := 16.
Definition BOOT_INFO_AP_CORE_STATE : Z := 176.

Definition rd_boot_info (rd : reader) (p : Z) : outcome init_boot_info :=
  let word i := rd_le64 rd (p + 8 * i) in
  w0 ← word 0; w1 ← word 1; w2 ← word 2; w3 ← word 3; w4 ← word 4; w5 ← word 5; w6 ← word 6;
  w7 ← word 7; w8 ← word 8; w9 ← word 9; w10 ← word 10; w11 ← word 11; w12 ← word 12;
  w13 ← word 13; w14 ← word 14; w15 ← word 15; w16 ← word 16; w17 ← word 17; w18 ← word 18;
  w19 ← word 19; w20 ← word 20; w21 ← word 21; w22 ← word 22;
  Ret {|
    bi_caps := {| count := w0; factory_handle := w1 |}; bi_kernel_invoke := w2;
    bi_kernel_load_base := w3; bi_kernel_boot_ap_addr := w4; bi_pml4_phys := w5;
    bi_init_image_addr := w6; bi_init_image_len := w7; bi_kernel_image_addr := w8;
    bi_kernel_image_len := w9; bi_bsp_kernel_invoke_addr := w10; bi_mutex_manager_handle := w11;
    bi_memory_manager_handle := w12; bi_hardware_mutex_id := w13;
    bi_lapic_calibration_count := w14; bi_cluster_scheduler_handle := w15;
    bi_serial_resource_handle := w16; bi_early_rsdp_phys := w17; bi_fdt_blob_phys := w18;
    bi_ram_size := w19; bi_init_description_phys := w20; bi_init_entry_addr := w21;
    bi_ap_core_state_phys := w22 |}.

(** Addresses the linker fixes. *)
Record symbols := {
  g_embedded_init_start : Z;
  g_embedded_init_end : Z;
  sym_start : Z;
  sym_end : Z;
  sym_kernel_invoke : Z;
  sym_kernel_boot_ap : Z;
  sym_kernel_boot_ap_shared : Z;
  boot_pml4 : Z }.

(** What the entry code captured before any C ran. *)
Record boot_inputs := {
  g_xnu_boot_args_addr : Z;
  g_boot_x0 : Z;
  g_init_description_phys : Z;
  g_init_entry_phys : Z }.

Record machine (W : Type) := {
  mc_mem : memory;
  mc_k : kstate W;
  g_init_image_addr : Z;
  g_fdt_blob_phys : Z;
  g_fdt_blob_size : Z;
  g_rsdp_phys : Z;
  mc_cr3 : Z;
  mc_uart : uart_globals;
  mc_out : list kcall }.
Arguments mc_mem {W} _.
Arguments mc_k {W} _.
Arguments g_init_image_addr {W} _.
Arguments g_fdt_blob_phys {W} _.
Arguments g_fdt_blob_size {W} _.
Arguments g_rsdp_phys {W} _.
Arguments mc_cr3 {W} _.
Arguments mc_uart {W} _.
Arguments mc_out {W} _.
Arguments Build_machine {W} _ _ _ _ _ _ _ _ _.

Inductive boot_end := Halted | Entered (entry : Z) (info : init_boot_info).

(** * Shared pieces *)

Section Boot.
Context {W : Type} (sym : symbols) (img : image) (inp : boot_inputs).
(** Bounds the device-tree searches for the console's UART. *)
Context (search : nat).
Implicit Types mc : machine W.

Definition with_mem mc m : machine W :=
  Build_machine m (mc_k mc) (g_init_image_addr mc) (g_fdt_blob_phys mc) (g_fdt_blob_size mc)
    (g_rsdp_phys mc) (mc_cr3 mc) (mc_uart mc) (mc_out mc).
Definition with_k mc k : machine W :=
  Build_machine (mc_mem mc) k (g_init_image_addr mc) (g_fdt_blob_phys mc) (g_fdt_blob_size mc)
    (g_rsdp_phys mc) (mc_cr3 mc) (mc_uart mc) (mc_out mc).
Definition with_init_image mc x : machine W :=
  Build_machine (mc_mem mc) (mc_k mc) x (g_fdt_blob_phys mc) (g_fdt_blob_size mc)
    (g_rsdp_phys mc) (mc_cr3 mc) (mc_uart mc) (mc_out mc).
Definition with_fdt mc phys size : machine W :=
  Build_machine (mc_mem mc) (mc_k mc) (g_init_image_addr mc) phys size (g_rsdp_phys mc)
    (mc_cr3 mc) (mc_uart mc) (mc_out mc).
Definition with_rsdp mc x : machine W :=
  Build_machine (mc_mem mc) (mc_k mc) (g_init_image_addr mc) (g_fdt_blob_phys mc)
    (g_fdt_blob_size mc) x (mc_cr3 mc) (mc_uart mc) (mc_out mc).
Definition with_cr3 mc x : machine W :=
  Build_machine (mc_mem mc) (mc_k mc) (g_init_image_addr mc) (g_fdt_blob_phys mc)
    (g_fdt_blob_size mc) (g_rsdp_phys mc) x (mc_uart mc) (mc_out mc).
Definition with_uart mc x : machine W :=
  Build_machine (mc_mem mc) (mc_k mc) (g_init_image_addr mc) (g_fdt_blob_phys mc)
    (g_fdt_blob_size mc) (g_rsdp_phys mc) (mc_cr3 mc) x (mc_out mc).
Definition with_out mc x : machine W :=
  Build_machine (mc_mem mc) (mc_k mc) (g_init_image_addr mc) (g_fdt_blob_phys mc)
    (g_fdt_blob_size mc) (g_rsdp_phys mc) (mc_cr3 mc) (mc_uart mc) x.

(** [kprintf("<s>\n", args...)]. *)
Definition say mc (s : string) (args : list varg) : machine W :=
  with_out mc (mc_out mc ++ [line s args]).
#[local] Arguments say mc s%_string args.

(** A string literal as an argument, and an [unsigned]. *)
Definition lit (s : string) : varg := VStr (bytes_of s ++ [0]).
#[local] Arguments lit s%_string.
Definition uns (z : Z) : varg := VInt (u32 z).

(** The object at a physical address. *)
Definition at_phys mc (p : Z) : reader := shift_rd (mem_rd (mc_mem mc)) p.

(** [macho_load(image, target_base)] on this machine's memory. *)
Definition load_init (a : arch) mc (image target_base : Z) : outcome (Z * machine W) :=
  '(entry, m, log) ← macho_load a (at_phys mc image) target_base (mc_mem mc) (mc_out mc);
  Ret (entry, with_out (with_mem mc m) log).

Definition bootstrap (a : arch) mc : outcome (initial_capabilities_t * machine W) :=
  '(caps, k) ← kernel_cap_bootstrap a img (mc_k mc);
  Ret (caps, with_k mc k).

(** [discovery[OFF / 8]] for the record in the region at [region_base]. *)
Definition discovery mc (region_base off : Z) : outcome Z :=
  rd_le64 (mem_rd (mc_mem mc)) (region_base + CORE_DISCOVERY_OFFSET + 8 * (off / 8)).

(** * x86_64 *)

Definition MIB : Z := 1024 * 1024.

Definition kernel_boot mc : outcome (boot_end * machine W) :=
  let mc := say mc "[kernel] abstraction layer initialized" [] in
  let init_len := u64 (g_embedded_init_end sym - g_embedded_init_start sym) in
  let mc := say mc "[kernel] embedded init image: %u bytes" [uns init_len] in
  '(entry, mc) ← load_init X86_64 mc (g_embedded_init_start sym) 0;
  if entry =? 0 then Ret (Halted, say mc "[kernel] PANIC: failed to Mach-O-load init" [])
  else
    let mc := say mc "[kernel] init entry point: 0x%X" [VInt entry] in
    let mc := with_init_image mc (u32 (g_embedded_init_start sym)) in
    '(caps, mc) ← bootstrap X86_64 mc;
    image_len ← macho_image_size X86_64 (at_phys mc (KERNEL_LOAD_BASE X86_64));
    let mc :=
      if image_len =? 0 then
        say mc "[kernel] WARNING: couldn't determine this kernel's own image size -- SMP bring-up will not be possible this boot" []
      else
        say mc "[kernel] this kernel's own image: 0x%X bytes, for SMP bring-up" [uns image_len] in
    let phys := mem_rd (mc_mem mc) in
    let args := g_xnu_boot_args_addr inp in
    ram ← xnu_boot_args_ram_size phys args;
    let mc := say mc "[kernel] xnu boot_args: %s (addr 0x%X), ram_size %s (%u MiB)"
      [lit (if args =? 0 then "not captured" else "captured"); uns args;
       lit (if ram =? 0 then "unknown" else "known"); uns (ram / MIB)] in
    rsdp ← xnu_boot_args_find_rsdp phys args;
    let mc := say mc "[kernel] ACPI RSDP via EFI config table: %s (0x%X)"
      [lit (if rsdp =? 0 then "not found" else "found"); uns rsdp] in
    free ← xnu_boot_args_find_largest_free phys args (KERNEL_LOAD_BASE X86_64);
    let mc :=
      match free with
      | Some (free_base, free_size) =>
          say mc "[kernel] largest free region (>= 0x%X, from GRUB's real EFI memory map): base 0x%X, size 0x%X (%u MiB)"
            [uns (KERNEL_LOAD_BASE X86_64); uns free_base; uns free_size; uns (free_size / MIB)]
      | None =>
          say mc "[kernel] no free region discoverable from boot_args -- falling back to this project's own fixed layout" []
      end in
    let mc := say mc "[kernel] handing off to init -- kernel does not run again after this" [] in
    Ret (Entered entry {|
      bi_caps := caps;
      bi_kernel_invoke := sym_kernel_invoke sym;
      bi_kernel_load_base := KERNEL_LOAD_BASE X86_64;
      bi_kernel_boot_ap_addr := sym_kernel_boot_ap sym;
      bi_pml4_phys := boot_pml4 sym;
      bi_init_image_addr := g_embedded_init_start sym;
      bi_init_image_len := init_len;
      bi_kernel_image_addr := KERNEL_LOAD_BASE X86_64;
      bi_kernel_image_len := image_len;
      bi_bsp_kernel_invoke_addr := 0;
      bi_mutex_manager_handle := 0;
      bi_memory_manager_handle := 0;
      bi_hardware_mutex_id := 0;
      bi_lapic_calibration_count := 0;
      bi_cluster_scheduler_handle := 0;
      bi_serial_resource_handle := 0;
      bi_early_rsdp_phys := rsdp;
      bi_fdt_blob_phys := 0;
      bi_ram_size := ram;
      bi_init_description_phys := 0;
      bi_init_entry_addr := 0;
      bi_ap_core_state_phys := 0 |}, mc).

(** The page tables are switched before anything else; the target address
    of init's copy is [region_base + CORE_INIT_OFFSET]. *)
Definition kernel_boot_ap mc (region_base : Z) : outcome (boot_end * machine W) :=
  let mc := say mc "[kernel] AP core booting, region base 0x%X" [uns region_base] in
  '(pml4, m) ← build_ap_page_tables region_base (mc_mem mc);
  let mc := with_cr3 (with_mem mc m) pml4 in
  let mc := say mc "[kernel] AP switched to its own independent page tables (pml4 at 0x%X)" [uns pml4] in
  '(entry, mc) ← load_init X86_64 mc (g_init_image_addr mc) (u64 (region_base + CORE_INIT_OFFSET));
  if entry =? 0 then Ret (Halted, say mc "[kernel] AP PANIC: failed to Mach-O-load init copy" [])
  else
    '(caps, mc) ← bootstrap X86_64 mc;
    invoke ← discovery mc region_base CORE_DISCOVERY_BSP_INVOKE_OFF;
    mutex ← discovery mc region_base CORE_DISCOVERY_MUTEX_MGR_OFF;
    memory_mgr ← discovery mc region_base CORE_DISCOVERY_MEM_MGR_OFF;
    hw_mutex ← discovery mc region_base CORE_DISCOVERY_HW_MUTEX_ID_OFF;
    lapic ← discovery mc region_base CORE_DISCOVERY_LAPIC_CALIBRATION_OFF;
    sched ← discovery mc region_base CORE_DISCOVERY_CLUSTER_SCHED_OFF;
    serial ← discovery mc region_base CORE_DISCOVERY_SERIAL_RESOURCE_OFF;
    rsdp ← discovery mc region_base CORE_DISCOVERY_RSDP_OFF;
    let mc := say mc "[kernel] AP handing off to its own init copy" [] in
    Ret (Entered entry {|
      bi_caps := caps;
      bi_kernel_invoke := sym_kernel_invoke sym;
      bi_kernel_load_base := KERNEL_LOAD_BASE X86_64;
      bi_kernel_boot_ap_addr := sym_kernel_boot_ap sym;
      bi_pml4_phys := pml4;
      bi_init_image_addr := 0;
      bi_init_image_len := 0;
      bi_kernel_image_addr := 0;
      bi_kernel_image_len := 0;
      bi_bsp_kernel_invoke_addr := invoke;
      bi_mutex_manager_handle := mutex;
      bi_memory_manager_handle := memory_mgr;
      bi_hardware_mutex_id := hw_mutex;
      bi_lapic_calibration_count := lapic;
      bi_cluster_scheduler_handle := sched;
      bi_serial_resource_handle := serial;
      bi_early_rsdp_phys := rsdp;
      bi_fdt_blob_phys := 0;
      bi_ram_size := 0;
      bi_init_description_phys := 0;
      bi_init_entry_addr := 0;
      bi_ap_core_state_phys := 0 |}, mc).

(** * AArch64: finding the machine description *)

Definition EFI_FDT_GUID_LO : Z := 0x41A5F19CB1B621D5.
Definition EFI_FDT_GUID_HI : Z := 0xE0AA692C15D90B83.
Definition EFI_ACPI20_GUID_LO : Z := 0x11D3E4F18868E871.
Definition EFI_ACPI20_GUID_HI : Z := 0x81883CC7800022BC.

(** The loop over the configuration tables at [ct], [n] to go. *)
Fixpoint find_table_loop (mem : reader) (ct guid_lo guid_hi : Z) (n : nat) (i : Z) : outcome Z :=
  match n with
  | O => Ret 0
  | S n' =>
      let e := ct + i * 24 in
      lo ← rd_le64 mem e;
      if negb (lo =? guid_lo) then find_table_loop mem ct guid_lo guid_hi n' (i + 1)
      else
        hi ← rd_le64 mem (e + 8);
        if negb (hi =? guid_hi) then find_table_loop mem ct guid_lo guid_hi n' (i + 1)
        else rd_le64 mem (e + 16)
  end.

Definition efi_find_table mc (system_table guid_lo guid_hi : Z) : outcome (Z * machine W) :=
  let mem := mem_rd (mc_mem mc) in
  if system_table =? 0 then Ret (0, mc)
  else
    n ← rd_le64 mem (system_table + 104);
    ct ← rd_le64 mem (system_table + 112);
    if (ct =? 0) || (256 <? n) then
      Ret (0, say mc "[kernel] EFI system table at 0x%X: implausible config table (%u entries at 0x%X)"
                [uns system_table; uns n; uns ct])
    else
      t ← find_table_loop mem ct guid_lo guid_hi (Z.to_nat n) 0;
      Ret (t, mc).

Definition be32_at (mem : reader) (addr : Z) : outcome Z := rd_be32 mem addr.

Definition resolve_xnu_boot_params mc : outcome (machine W) :=
  let mem := mem_rd (mc_mem mc) in
  if negb (g_fdt_blob_phys mc =? 0) || (g_boot_x0 inp =? 0) then Ret mc
  else
    v ← ba16 mem (g_boot_x0 inp) vermajor;
    if negb (v =? 2) then Ret mc
    else
      let mc := say mc "[kernel] x0 = xnu boot params v2 (GRUB xnu_kernel64)" [] in
      st ← ba32 mem (g_boot_x0 inp) efi_system_table;
      '(fdt, mc) ← efi_find_table mc st EFI_FDT_GUID_LO EFI_FDT_GUID_HI;
      if fdt =? 0 then
        '(rsdp, mc) ← efi_find_table mc st EFI_ACPI20_GUID_LO EFI_ACPI20_GUID_HI;
        let mc := with_rsdp mc rsdp in
        Ret (if negb (rsdp =? 0) then
               say mc "[kernel] ACPI RSDP via EFI configuration table: 0x%X (firmware describes this machine with ACPI, not a DTB)"
                 [uns rsdp]
             else
               say mc "[kernel] EFI configuration table holds neither an FDT nor an ACPI RSDP (efi_system_table=0x%X)"
                 [uns st])
      else
        magic ← be32_at mem fdt;
        if negb (magic =? FDT_MAGIC) then
          Ret (say mc "[kernel] EFI config-table FDT at 0x%X has bad magic" [uns fdt])
        else
          size ← be32_at mem (fdt + 4);
          Ret (say (with_fdt mc fdt size) "[kernel] DTB found via EFI configuration table" []).

(** * AArch64: the entry points *)

(** The device tree as the walker sees it; [g_fdt_blob_phys] is not 0. *)
Definition fdt_blob mc : option reader := Some (at_phys mc (g_fdt_blob_phys mc)).

(** [serial_init] picks the console's UART from the device tree the entry
    code captured; what it writes to the UART itself is not memory. *)
Definition boot_blob mc : option reader := if g_fdt_blob_phys mc =? 0 then None else fdt_blob mc.
Definition serial_init mc : outcome (machine W) :=
  f ← uart_probe search (boot_blob mc) (g_fdt_blob_size mc);
  Ret (with_uart mc (uart_adopt (mc_uart mc) f)).

(** The description of the machine, as printed before init is loaded: the
    blob is walked for its memory banks. *)
Definition bank_lines mc (r : fdt_range_t) : machine W :=
  let mc := say mc "[kernel]   memory: base 0x%X size 0x%X"
    [uns (Z.shiftr (r_base r) 32); uns (Z.land (r_base r) 0xFFFFFFFF)] in
  say mc "[kernel]           (low 0x%X, size 0x%X)"
    [uns (Z.land (r_base r) 0xFFFFFFFF); uns (r_size r)].

Definition report_memory mc : outcome (machine W) :=
  if (g_fdt_blob_phys mc =? 0) && negb (g_rsdp_phys mc =? 0) then
    Ret (say mc "[kernel] machine description: ACPI (RSDP 0x%X), no DTB" [uns (g_rsdp_phys mc)])
  else if g_fdt_blob_phys mc =? 0 then
    Ret (say mc "[kernel] no DTB: the boot stub found no valid device tree" [])
  else
    ok ← fdt_valid (fdt_blob mc) (g_fdt_blob_size mc);
    if ok =? 0 then
      Ret (say mc "[kernel] DTB at 0x%X failed full validation" [uns (g_fdt_blob_phys mc)])
    else
      let mc := say mc "[kernel] DTB at 0x%X, %u bytes, valid"
        [uns (g_fdt_blob_phys mc); uns (g_fdt_blob_size mc)] in
      ranges ← fdt_memory_ranges (fdt_blob mc) 8;
      let mc := foldl bank_lines mc ranges in
      Ret (if (length ranges =? 0)%nat then say mc "[kernel]   memory: none declared" [] else mc).

(** [boot_info.ram_size]: from the boot parameters when there is no device
    tree, else the sum of its memory banks. *)
Definition boot_ram_size mc : outcome Z :=
  let mem := mem_rd (mc_mem mc) in
  ram ←
    (if negb (g_boot_x0 inp =? 0) && (g_fdt_blob_phys mc =? 0) then
       v ← ba16 mem (g_boot_x0 inp) vermajor;
       if v =? 2 then ba64 mem (g_boot_x0 inp) ram_size else Ret 0
     else Ret 0);
  if (ram =? 0) && negb (g_fdt_blob_phys mc =? 0) then
    ok ← fdt_valid (fdt_blob mc) (g_fdt_blob_size mc);
    if ok =? 0 then Ret ram
    else
      ranges ← fdt_memory_ranges (fdt_blob mc) 8;
      Ret (foldl (fun acc r => u64 (acc + r_size r)) ram ranges)
  else Ret ram.

Definition kernel_boot_aarch64 mc : outcome (boot_end * machine W) :=
  mc ← serial_init mc;
  let mc := say mc "[kernel] aarch64 boot" [] in
  mc ← resolve_xnu_boot_params mc;
  mc ← report_memory mc;
  let start := g_embedded_init_start sym in
  let init_len := u64 (g_embedded_init_end sym - start) in
  let mc := say mc "[kernel] embedded init image: %u bytes" [uns init_len] in
  '(entry, mc) ← load_init AARCH64 mc start 0;
  if entry =? 0 then Ret (Halted, say mc "[kernel] PANIC: failed to Mach-O-load init" [])
  else
    let mc := say mc "[kernel] init entry point: 0x%X" [uns entry] in
    '(caps, mc) ← bootstrap AARCH64 mc;
    let image_len := u64 (sym_end sym - sym_start sym) in
    footprint ← macho_image_size AARCH64 (at_phys mc start);
    let fits := (image_len <=? CORE_KERNEL_MAX_SIZE) && negb (footprint =? 0) &&
                (footprint <=? CORE_INIT_MAX_SIZE) in
    let mc :=
      if fits then
        say mc "[kernel] AP image: %u bytes, init footprint %u bytes, entry 0x%X"
          [uns image_len; uns footprint; uns (sym_kernel_boot_ap sym)]
      else
        say mc "[kernel] AP images do not fit assigned region (kernel %u/%u, init %u/%u bytes); SMP disabled"
          [uns image_len; uns CORE_KERNEL_MAX_SIZE; uns footprint; uns CORE_INIT_MAX_SIZE] in
    ram ← boot_ram_size mc;
    let mc := say mc "[kernel] init boot info: fdt 0x%X, rsdp 0x%X, ram %u MiB"
      [uns (g_fdt_blob_phys mc); uns (g_rsdp_phys mc); uns (ram / MIB)] in
    let mc := say mc "[kernel] handing off to init -- kernel does not run again after this" [] in
    Ret (Entered entry {|
      bi_caps := caps;
      bi_kernel_invoke := sym_kernel_invoke sym;
      bi_kernel_load_base := sym_start sym;
      bi_kernel_boot_ap_addr := if fits then sym_kernel_boot_ap sym else 0;
      bi_pml4_phys := 0;
      bi_init_image_addr := start;
      bi_init_image_len := init_len;
      bi_kernel_image_addr := if fits then sym_start sym else 0;
      bi_kernel_image_len := if fits then image_len else 0;
      bi_bsp_kernel_invoke_addr := 0;
      bi_mutex_manager_handle := 0;
      bi_memory_manager_handle := 0;
      bi_hardware_mutex_id := 0;
      bi_lapic_calibration_count := 0;
      bi_cluster_scheduler_handle := 0;
      bi_serial_resource_handle := 0;
      bi_early_rsdp_phys := g_rsdp_phys mc;
      bi_fdt_blob_phys := g_fdt_blob_phys mc;
      bi_ram_size := ram;
      bi_init_description_phys := 0;
      bi_init_entry_addr := 0;
      bi_ap_core_state_phys := 0 |}, mc).

Definition kernel_boot_aarch64_boot_protocol mc : outcome (boot_end * machine W) :=
  mc ← serial_init mc;
  let mc := say mc "[kernel] aarch64 boot (new boot protocol)" [] in
  let mc := say mc "[kernel] forwarding raw DTB 0x%X to init unread" [uns (g_fdt_blob_phys mc)] in
  if g_init_entry_phys inp =? 0 then
    Ret (Halted, say mc "[kernel] PANIC: loader gave no init entry point" [])
  else
    '(caps, mc) ← bootstrap AARCH64 mc;
    let mc := say mc "[kernel] init boot info: fdt 0x%X, init_description 0x%X"
      [uns (g_fdt_blob_phys mc); uns (g_init_description_phys inp)] in
    let mc := say mc "[kernel] handing off to init at 0x%X -- kernel does not run again after this"
      [uns (g_init_entry_phys inp)] in
    Ret (Entered (g_init_entry_phys inp) {|
      bi_caps := caps;
      bi_kernel_invoke := sym_kernel_invoke sym;
      bi_kernel_load_base := sym_start sym;
      bi_kernel_boot_ap_addr := sym_kernel_boot_ap_shared sym;
      bi_pml4_phys := 0;
      bi_init_image_addr := 0;
      bi_init_image_len := 0;
      bi_kernel_image_addr := 0;
      bi_kernel_image_len := 0;
      bi_bsp_kernel_invoke_addr := 0;
      bi_mutex_manager_handle := 0;
      bi_memory_manager_handle := 0;
      bi_hardware_mutex_id := 0;
      bi_lapic_calibration_count := 0;
      bi_cluster_scheduler_handle := 0;
      bi_serial_resource_handle := 0;
      bi_early_rsdp_phys := 0;
      bi_fdt_blob_phys := g_fdt_blob_phys mc;
      bi_ram_size := 0;
      bi_init_description_phys := g_init_description_phys inp;
      bi_init_entry_addr := g_init_entry_phys inp;
      bi_ap_core_state_phys := 0 |}, mc).

(** The handoff block is in memory, at the address given, and is init's; the
    kernel stores the two fields of it that are its own, and passes init the
    address of the boot information in it.  [Entered] carries what is there
    at that call. *)
Definition kernel_boot_ap_shared_aarch64 mc (handoff : Z) : outcome (boot_end * machine W) :=
  mc ← serial_init mc;
  let field mc off := rd_le64 (mem_rd (mc_mem mc)) (handoff + off) in
  complete ←
    (if handoff =? 0 then Ret false
     else
       entry ← field mc HANDOFF_INIT_ENTRY;
       if entry =? 0 then Ret false
       else
         core_state ← field mc (HANDOFF_BOOT_INFO + BOOT_INFO_AP_CORE_STATE);
         Ret (negb (core_state =? 0)));
  if negb complete then Ret (Halted, say mc "[kernel] shared AP PANIC: invalid handoff" [])
  else
    '(caps, mc) ← bootstrap AARCH64 mc;
    m ← wr_le64 (mc_mem mc) (handoff + HANDOFF_BOOT_INFO) (count caps);
    m ← wr_le64 m (handoff + HANDOFF_BOOT_INFO + 8) (factory_handle caps);
    m ← wr_le64 m (handoff + HANDOFF_BOOT_INFO + BOOT_INFO_KERNEL_INVOKE) (sym_kernel_invoke sym);
    let mc := with_mem mc m in
    entry ← field mc HANDOFF_INIT_ENTRY;
    let mc := say mc "[kernel] AP entering shared init at 0x%X" [uns entry] in
    entry ← field mc HANDOFF_INIT_ENTRY;
    info ← rd_boot_info (mem_rd (mc_mem mc)) (handoff + HANDOFF_BOOT_INFO);
    Ret (Entered entry info, mc).

(** The slide from where init's image says it lives to this region's slot. *)
Definition kernel_boot_ap_aarch64 mc (region_base : Z) : outcome (boot_end * machine W) :=
  mc ← serial_init mc;
  let mc := say mc "[kernel] AP core booting at region 0x%X" [uns region_base] in
  let slide := u64 (region_base + CORE_INIT_OFFSET - BSP_INIT_LOAD_BASE AARCH64) in
  '(entry, mc) ← load_init AARCH64 mc (g_embedded_init_start sym) slide;
  if entry =? 0 then Ret (Halted, say mc "[kernel] AP PANIC: failed to Mach-O-load init" [])
  else
    '(caps, mc) ← bootstrap AARCH64 mc;
    invoke ← discovery mc region_base CORE_DISCOVERY_BSP_INVOKE_OFF;
    mutex ← discovery mc region_base CORE_DISCOVERY_MUTEX_MGR_OFF;
    memory_mgr ← discovery mc region_base CORE_DISCOVERY_MEM_MGR_OFF;
    hw_mutex ← discovery mc region_base CORE_DISCOVERY_HW_MUTEX_ID_OFF;
    lapic ← discovery mc region_base CORE_DISCOVERY_LAPIC_CALIBRATION_OFF;
    sched ← discovery mc region_base CORE_DISCOVERY_CLUSTER_SCHED_OFF;
    serial ← discovery mc region_base CORE_DISCOVERY_SERIAL_RESOURCE_OFF;
    rsdp ← discovery mc region_base CORE_DISCOVERY_RSDP_OFF;
    core_state ← discovery mc region_base CORE_DISCOVERY_AP_CORE_STATE_OFF;
    let mc := say mc "[kernel] AP handing off to its own init copy at 0x%X" [uns entry] in
    Ret (Entered entry {|
      bi_caps := caps;
      bi_kernel_invoke := sym_kernel_invoke sym;
      bi_kernel_load_base := KERNEL_LOAD_BASE AARCH64;
      bi_kernel_boot_ap_addr := sym_kernel_boot_ap sym;
      bi_pml4_phys := 0;
      bi_init_image_addr := 0;
      bi_init_image_len := 0;
      bi_kernel_image_addr := 0;
      bi_kernel_image_len := 0;
      bi_bsp_kernel_invoke_addr := invoke;
      bi_mutex_manager_handle := mutex;
      bi_memory_manager_handle := memory_mgr;
      bi_hardware_mutex_id := hw_mutex;
      bi_lapic_calibration_count := lapic;
      bi_cluster_scheduler_handle := sched;
      bi_serial_resource_handle := serial;
      bi_early_rsdp_phys := rsdp;
      bi_fdt_blob_phys := g_fdt_blob_phys mc;
      bi_ram_size := 0;
      bi_init_description_phys := 0;
      bi_init_entry_addr := 0;
      bi_ap_core_state_phys := core_state |}, mc).

End Boot.
