(* ===== verification/BootProps.v ===== *)
(** What booting does: where an additional core's init lands, what it is
    told, and which machine description wins. *)
From stdpp Require Import strings.
From S2P Require Import CLayout.
From S2P Require Import Prelude CMem Schema Capnp Validate Cap CapProps CapInvoke CapBoot.
From S2P Require Import Fdt Uart Macho MachoProps Efi EfiProps SmpLayout PageTables Boot.

(** * Loading init for a core *)

(** An init image linked for [BSP_INIT_LOAD_BASE]: its backed segments fit
    the span an init image may take there, and its entry point is in one. *)
Record init_image (a : arch) (bs : list Z) (slice : Z) (cs : list lcmd) (off : Z) : Prop := {
  ii_bytes : bytes_ok bs;
  ii_native : native_image a (of_bytes bs) slice cs;
  ii_entry : entry_of cs = Some off;
  ii_files : file_ranges_ok cs;
  ii_span : Forall (fun s => loadable s ->
    BSP_INIT_LOAD_BASE a <= vmaddr s /\
    vmaddr s + vmsize s <= BSP_INIT_LOAD_BASE a + CORE_INIT_MAX_SIZE /\
    0 <= filesize s <= vmsize s /\
    readable (of_bytes bs) (slice + fileoff s) (slice + fileoff s + filesize s)) (segments cs);
  ii_found : exists s, entry_segment (segments cs) off = Some s /\ loadable s }.

Lemma entry_segment_in ss off s :
  entry_segment ss off = Some s -> s ∈ ss /\ fileoff s <= off < fileoff s + filesize s.
Proof.
  induction ss as [|x ss IH]; simpl; [done|]. intros H.
  destruct ((fileoff x <=? off) && (off <? fileoff x + filesize x)) eqn:E.
  - simplify_eq. breflect. split; [by left|lia].
  - apply IH in H as [? ?]. split; [by right|done].
Qed.

(** Loaded with displacement [tb], the image stays in the span that starts
    [tb] above its link address, and so does the entry point. *)
Lemma load_init_spec {W} (mc : machine W) a img_at bs slice cs off tb :
  init_image a bs slice cs off -> holds (mem_rd (mc_mem mc)) img_at bs ->
  0 <= tb -> tb + BSP_INIT_LOAD_BASE a + CORE_INIT_MAX_SIZE < 2 ^ 64 ->
  exists entry m' log, load_init a mc img_at tb = Ret (entry, with_out (with_mem mc m') log) /\
    tb + BSP_INIT_LOAD_BASE a <= entry < tb + BSP_INIT_LOAD_BASE a + CORE_INIT_MAX_SIZE /\
    same_outside (tb + BSP_INIT_LOAD_BASE a) CORE_INIT_MAX_SIZE (mc_mem mc) m' /\
    loaded (at_phys mc img_at) slice tb (segments cs) (mc_mem mc) m'.
Proof.
  intros [Hbs Hnat He Hfr Hsp (s & Hs & Hl)] Hh Htb Hend.
  pose proof (extends_holds _ _ _ Hh) as Hext.
  assert (0 < BSP_INIT_LOAD_BASE a) as Hpos by by destruct a.
  destruct (macho_load_spec a (at_phys mc img_at) slice tb Htb cs (mc_mem mc) (mc_out mc) off)
    as (m' & Hm' & Hld); [by eapply native_image_ext|done| |done|].
  { eapply Forall_impl; [exact Hsp|]. intros s' H Hl'. destruct (H Hl') as (H1 & H2 & H3 & H4).
    split; [lia|done|lia|]. by eapply readable_ext. }
  unfold entry_addr, entry_at in Hm'. rewrite Hs in Hm'. cbn [option_map default from_option id] in Hm'.
  apply entry_segment_in in Hs as [Hin Hoff].
  rewrite Forall_forall in Hsp. destruct (Hsp s Hin Hl) as (Hlo & Hhi & Hfs & _).
  rewrite u64_small in Hm' by ulia.
  eexists _, m', _. unfold load_init, at_phys in *. rewrite Hm'. split; [done|].
  split; [lia|]. split; [|done]. destruct Hld as [_ Hout]. intros q Hq. apply Hout.
  intros s' Hin' Hl' Hc. destruct (Hsp s' Hin' Hl') as (? & ? & _). unfold covers in Hc. lia.
Qed.

(** What was loaded is the image's own bytes. *)
Lemma loaded_image a bs slice cs off rd tb m m' :
  init_image a bs slice cs off -> extends (of_bytes bs) rd ->
  loaded rd slice tb (segments cs) m m' -> loaded (of_bytes bs) slice tb (segments cs) m m'.
Proof.
  intros Himg Hext [Hin Hout]. split; [|exact Hout]. intros pre s post Hss Hl Hno.
  destruct (Hin pre s post Hss Hl Hno) as [Hf Hz]. split; [|exact Hz]. intros i Hi.
  destruct (Hf i Hi) as (x & Hx & Hm). exists x. split; [|exact Hm].
  assert (s ∈ segments cs) as Hs by (rewrite Hss; set_solver).
  destruct (proj1 (Forall_forall _ _) (ii_span _ _ _ _ _ Himg) s Hs Hl) as (_ & _ & _ & Hr).
  destruct (wp_inv _ _ (Hr (slice + fileoff s + i) ltac:(lia))) as (y & Hy & _).
  rewrite Hy. apply Hext in Hy. congruence.
Qed.

(** * The discovery record *)

(** The words of a core's discovery record. *)
Definition discovery_at (m : memory) (region : Z) (ds : list Z) : Prop :=
  length ds = 9%nat /\ Forall is_u64 ds /\
  holds (mem_rd m) (region + CORE_DISCOVERY_OFFSET) (words_bytes ds).

Lemma discovery_word {W} (mc : machine W) region ds k w :
  discovery_at (mc_mem mc) region ds -> ds !! k = Some w ->
  discovery mc region (8 * Z.of_nat k) = Ret w.
Proof.
  intros (_ & Hok & Hh) Hk. unfold discovery.
  rewrite (Z.mul_comm 8 (Z.of_nat k)), Z.div_mul by lia.
  by eapply rd_le64_words.
Qed.

(** Every field of the record reads. *)
Lemma discovery_reads {W} (mc : machine W) region ds off :
  discovery_at (mc_mem mc) region ds -> 0 <= off <= 64 ->
  exists w, discovery mc region off = Ret w.
Proof.
  intros Hds Hoff. pose proof Hds as (Hl & _).
  destruct (lookup_lt_is_Some_2 ds (Z.to_nat (off / 8))) as [w Hw].
  { Z.to_euclidean_division_equations; lia. }
  exists w. rewrite <- (discovery_word _ _ _ _ _ Hds Hw). unfold discovery. f_equal.
  rewrite Z2Nat.id by (Z.to_euclidean_division_equations; lia).
  Z.to_euclidean_division_equations; lia.
Qed.

Lemma discovery_outside m m' region ds p n :
  discovery_at m region ds -> same_outside p n m m' ->
  disjoint_ranges (region + CORE_DISCOVERY_OFFSET, DISCOVERY_SIZE) (p, n) ->
  discovery_at m' region ds.
Proof.
  intros (Hl & Hok & Hh) Hs Hd. split; [done|]. split; [done|].
  eapply holds_same_outside; [exact Hs|exact Hh|].
  rewrite length_words_bytes, Hl. unfold disjoint_ranges in Hd. simpl in *.
  change DISCOVERY_SIZE with 72 in Hd. lia.
Qed.

Lemma discovery_kept m m' region ds :
  discovery_at m region ds ->
  same_outside (region + CORE_INIT_OFFSET) CORE_INIT_MAX_SIZE m m' -> discovery_at m' region ds.
Proof.
  intros H Hs. eapply discovery_outside; [exact H|exact Hs|].
  unfold disjoint_ranges, CORE_DISCOVERY_OFFSET, CORE_INIT_OFFSET, CORE_INIT_MAX_SIZE. simpl. lia.
Qed.

(** The discovered fields of a boot-information block, in record order. *)
Definition discovered (b : init_boot_info) : list Z := [
  bi_bsp_kernel_invoke_addr b; bi_mutex_manager_handle b; bi_memory_manager_handle b;
  bi_hardware_mutex_id b; bi_lapic_calibration_count b; bi_cluster_scheduler_handle b;
  bi_serial_resource_handle b; bi_early_rsdp_phys b; bi_ap_core_state_phys b].

(** * The handoff block *)

(** The block [h] lies in memory at [p]. *)
Definition handoff_at (m : memory) (p : Z) (h : init_ap_handoff) : Prop :=
  p <> 0 /\ Forall is_u64 (handoff_words h) /\ holds (mem_rd m) p (words_bytes (handoff_words h)).

(** The offsets in use are the compiler's. *)
Lemma handoff_offsets :
  offsetof init_ap_handoff_fields "init_entry" = HANDOFF_INIT_ENTRY /\
  offsetof init_ap_handoff_fields "boot_info" = HANDOFF_BOOT_INFO /\
  offsetof init_boot_info_fields "kernel_invoke" = BOOT_INFO_KERNEL_INVOKE /\
  offsetof init_boot_info_fields "ap_core_state_phys" = BOOT_INFO_AP_CORE_STATE /\
  offsetof initial_capabilities_fields "factory" = 8.
Proof. by vm_compute. Qed.

Section Handoff.
Context (m : memory) (p : Z) (h : init_ap_handoff) (Hat : handoff_at m p h).

Lemma handoff_word i w :
  handoff_words h !! i = Some w -> rd_le64 (mem_rd m) (p + 8 * Z.of_nat i) = Ret w.
Proof. destruct Hat as (_ & Hok & Hh). by apply rd_le64_words. Qed.

Lemma handoff_stack : word_in m p (stack_top h).
Proof.
  destruct Hat as (_ & _ & Hh). unfold handoff_words in Hh. rewrite words_bytes_cons, holds_app in Hh.
  apply Hh.
Qed.

Lemma handoff_entry : rd_le64 (mem_rd m) (p + HANDOFF_INIT_ENTRY) = Ret (init_entry h).
Proof. exact (handoff_word 1 _ eq_refl). Qed.

Lemma handoff_state :
  rd_le64 (mem_rd m) (p + (HANDOFF_BOOT_INFO + BOOT_INFO_AP_CORE_STATE)) =
    Ret (bi_ap_core_state_phys (boot_info h)).
Proof. exact (handoff_word 24 _ eq_refl). Qed.

Lemma handoff_info : rd_boot_info (mem_rd m) (p + HANDOFF_BOOT_INFO) = Ret (boot_info h).
Proof.
  assert (forall i w, boot_info_words (boot_info h) !! i = Some w ->
    rd_le64 (mem_rd m) (p + HANDOFF_BOOT_INFO + 8 * Z.of_nat i) = Ret w) as Hw.
  { intros i w Hi. rewrite <- (handoff_word (S (S i)) w Hi). f_equal. unfold HANDOFF_BOOT_INFO. lia. }
  unfold rd_boot_info. cbv zeta.
  do 23 (match goal with |- context [rd_le64 _ (_ + _ + 8 * ?i)] =>
    rewrite (Hw (Z.to_nat i) _ eq_refl : rd_le64 _ (_ + 8 * i) = _), ret_bind end).
  by destruct (boot_info h) as [[]].
Qed.

End Handoff.

(** Storing one word of a run of words. *)
Lemma wp_wr_word m p ws i w :
  holds (mem_rd m) p (words_bytes ws) -> (i < length ws)%nat ->
  wp (wr_le64 m (p + 8 * Z.of_nat i) w) (fun m' =>
    holds (mem_rd m') p (words_bytes (<[i := w]> ws)) /\
    frame (fun q => p + 8 * Z.of_nat i <= q < p + 8 * Z.of_nat i + 8) m m').
Proof.
  intros Hh Hi. destruct (lookup_lt_is_Some_2 ws i Hi) as [x Hx].
  assert (length (take i ws) = i) as Hlen by (rewrite length_take; lia).
  rewrite <- (take_drop_middle ws i x Hx), words_bytes_app, words_bytes_cons in Hh.
  rewrite !holds_app, length_words_bytes, length_le_bytes, Hlen in Hh. destruct Hh as (H1 & H2 & H3).
  replace (Z.of_nat (8 * i)) with (8 * Z.of_nat i) in * by lia.
  eapply wp_mono; [apply wp_wr_le64; exact (holds_mapped _ _ _ H2)|]. intros m' [Hw Hf].
  split; [|exact Hf]. rewrite insert_take_drop, words_bytes_app, words_bytes_cons by done.
  rewrite !holds_app, length_words_bytes, length_le_bytes, Hlen.
  replace (Z.of_nat (8 * i)) with (8 * Z.of_nat i) by lia.
  split; [|split; [exact Hw|]]; (eapply frame_holds; [exact Hf|done|]); intros q Hq; cbv beta.
  - rewrite length_words_bytes, Hlen in Hq. lia.
  - lia.
Qed.

Section Boot.
Context {W : Type} (sym : symbols) (img : image) (inp : boot_inputs) (search : nat).
Implicit Types mc : machine W.

(** The search for the console's UART ends, with [f]. *)
Definition console_found mc (f : uart_found) : Prop :=
  uart_probe search (boot_blob mc) (g_fdt_blob_size mc) = Ret f.

Lemma serial_init_found mc f :
  console_found mc f -> serial_init search mc = Ret (with_uart mc (uart_adopt (mc_uart mc) f)).
Proof. intros H. unfold serial_init. by rewrite H. Qed.

(** Finding the same console twice changes nothing the second time. *)
Lemma serial_init_again mc f g :
  console_found mc f -> mc_uart mc = uart_adopt g f -> serial_init search mc = Ret mc.
Proof.
  intros H Hu. rewrite (serial_init_found _ _ H). f_equal.
  assert (uart_adopt (mc_uart mc) f = mc_uart mc) as -> by (rewrite Hu; by destruct f).
  by destruct mc.
Qed.

(** A copied image's statics, not yet its own: what [kernel_cap_bootstrap]
    rebinds. *)
Definition copied_statics (k : kstate W) : Prop :=
  exists r t, recs k !! g_factory_record_at img = Some r /\
    tables k !! g_factory_table_at img = Some t /\ already_bound img r t = false.

Lemma bootstrap_copied a mc :
  copied_statics (mc_k mc) ->
  bootstrap img a mc = Ret (CapBoot.caps img, with_k mc (rebound img (mc_k mc))).
Proof.
  intros (r & t & Hr & Ht & Hb). unfold bootstrap.
  by rewrite (bootstrap_rebinds a img _ _ _ Hr Ht Hb).
Qed.

(** An AArch64 application processor's init starts in its own slot and
    knows what the boot core discovered: on core [i]'s region, with an init
    image linked for its usual address embedded in the kernel and a
    discovery record written by the boot core, the core enters init at an
    address inside the region's init slot, every byte of memory outside
    that slot (the stack, the record, other cores) is as it was, its boot
    information carries the record word for word, and its factory is its own
    image's. *)
Lemma ap_boot_aarch64_correct mc i bs slice cs off ds f :
  1 <= i <= 64 ->
  init_image AARCH64 bs slice cs off ->
  holds (mem_rd (mc_mem mc)) (g_embedded_init_start sym) bs ->
  discovery_at (mc_mem mc) (core_region_base AARCH64 i) ds ->
  copied_statics (mc_k mc) -> console_found mc f ->
  let slot := core_region_base AARCH64 i + CORE_INIT_OFFSET in
  exists entry info mc',
    kernel_boot_ap_aarch64 sym img search mc (core_region_base AARCH64 i) = Ret (Entered entry info, mc') /\
    slot <= entry < slot + CORE_INIT_MAX_SIZE /\
    same_outside slot CORE_INIT_MAX_SIZE (mc_mem mc) (mc_mem mc') /\
    discovered info = ds /\
    factory_handle (bi_caps info) = g_factory_record_at img.
Proof.
  intros Hi Himg Hh Hds Hst Hf slot.
  unfold kernel_boot_ap_aarch64. rewrite (serial_init_found _ _ Hf), ret_bind.
  set (mc0 := say (with_uart mc _) _ _). change (mc_mem mc) with (mc_mem mc0) in *.
  change (mc_k mc) with (mc_k mc0) in Hst. clearbody mc0. clear Hf mc. rename mc0 into mc.
  assert (0 <= slot - BSP_INIT_LOAD_BASE AARCH64 < 2 ^ 63) as Hslide
    by (subst slot; unfold core_region_base, CORE_REGION_SIZE, CORE_INIT_OFFSET; simpl; lia).
  destruct (load_init_spec mc AARCH64 _ bs slice cs off (slot - BSP_INIT_LOAD_BASE AARCH64)
    Himg Hh) as (entry & m' & log & Hld & He & Hs & _); [lia|simpl in *; unfold CORE_INIT_MAX_SIZE; lia|].
  rewrite Z.sub_add in He, Hs.
  fold slot. rewrite u64_small by ulia.
  rewrite Hld, ret_bind. destruct (Z.eqb_spec entry 0) as [->|Hne].
  { subst slot. unfold core_region_base, CORE_REGION_SIZE, CORE_INIT_OFFSET in He. simpl in He. lia. }
  rewrite bootstrap_copied, ret_bind by done.
  pose proof (discovery_kept _ _ _ _ Hds Hs) as Hds'.
  destruct ds as [|d0 [|d1 [|d2 [|d3 [|d4 [|d5 [|d6 [|d7 [|d8 []]]]]]]]]]; try (by destruct Hds).
  set (mc2 := with_k _ _).
  assert (forall k w, _ -> discovery mc2 _ _ = Ret w) as Hd
    by exact (fun k w => discovery_word mc2 _ _ k w Hds').
  rewrite (Hd 0%nat d0 eq_refl : discovery _ _ CORE_DISCOVERY_BSP_INVOKE_OFF = _), ret_bind,
    (Hd 1%nat d1 eq_refl : discovery _ _ CORE_DISCOVERY_MUTEX_MGR_OFF = _), ret_bind,
    (Hd 2%nat d2 eq_refl : discovery _ _ CORE_DISCOVERY_MEM_MGR_OFF = _), ret_bind,
    (Hd 3%nat d3 eq_refl : discovery _ _ CORE_DISCOVERY_HW_MUTEX_ID_OFF = _), ret_bind,
    (Hd 4%nat d4 eq_refl : discovery _ _ CORE_DISCOVERY_LAPIC_CALIBRATION_OFF = _), ret_bind,
    (Hd 5%nat d5 eq_refl : discovery _ _ CORE_DISCOVERY_CLUSTER_SCHED_OFF = _), ret_bind,
    (Hd 6%nat d6 eq_refl : discovery _ _ CORE_DISCOVERY_SERIAL_RESOURCE_OFF = _), ret_bind,
    (Hd 7%nat d7 eq_refl : discovery _ _ CORE_DISCOVERY_RSDP_OFF = _), ret_bind,
    (Hd 8%nat d8 eq_refl : discovery _ _ CORE_DISCOVERY_AP_CORE_STATE_OFF = _), ret_bind.
  eexists _, _, _. split; [reflexivity|].
  split; [exact He|]. split; [exact Hs|]. split; reflexivity.
Qed.

(** C40. On x86_64 the same arrangement does not hold: [kernel_boot_ap] passes
    the slot's address where a displacement is expected, so an init image
    linked for its usual 24 MiB is loaded into, and entered in, the init slot
    of the core six places up.  Once the core's page tables are built ([m1]),
    every byte the load writes lies in that other slot, the image's backed
    segments are there, file bytes and zero fill, at the displacement the
    caller gave, and the entry point is inside it; the core's own init slot
    is not written at all. *)
Theorem ap_boot_x86_loads_in_other_region mc i bs slice cs off ds :
  1 <= i <= 64 ->
  init_image X86_64 bs slice cs off ->
  holds (mem_rd (mc_mem mc)) (g_init_image_addr mc) bs ->
  (g_init_image_addr mc + Z.of_nat (length bs) <= core_region_base X86_64 i \/
   core_region_base X86_64 i + CORE_REGION_SIZE <= g_init_image_addr mc) ->
  mapped (mc_mem mc) (core_region_base X86_64 i + CORE_PGTABLE_OFFSET) PGTABLE_SIZE ->
  discovery_at (mc_mem mc) (core_region_base X86_64 i) ds ->
  copied_statics (mc_k mc) ->
  let own := core_region_base X86_64 i + CORE_INIT_OFFSET in
  let other := core_region_base X86_64 (i + 6) + CORE_INIT_OFFSET in
  exists pml4 m1 entry info mc',
    build_ap_page_tables (core_region_base X86_64 i) (mc_mem mc) = Ret (pml4, m1) /\
    kernel_boot_ap sym img mc (core_region_base X86_64 i) = Ret (Entered entry info, mc') /\
    other <= entry < other + CORE_INIT_MAX_SIZE /\
    loaded (of_bytes bs) slice own (segments cs) m1 (mc_mem mc') /\
    (forall s addr, s ∈ segments cs -> loadable s -> covers own s addr ->
       other <= addr < other + CORE_INIT_MAX_SIZE) /\
    same_outside other CORE_INIT_MAX_SIZE m1 (mc_mem mc') /\
    (forall q, own <= q < own + CORE_INIT_MAX_SIZE -> mc_mem mc' !! q = mc_mem mc !! q).
Proof.
  intros Hi Himg Hh Hdis Hmap Hds Hst own other.
  set (region := core_region_base X86_64 i) in *.
  assert (0 <= region < 2 ^ 40 /\ region mod 4096 = 0) as [Hr Hal].
  { subst region. unfold core_region_base, CORE_REGION_SIZE. simpl.
    split; [lia|Z.to_euclidean_division_equations; lia]. }
  pose proof (ap_tables_built region (mc_mem mc)) as Ht.
  apply wp_inv in Ht as ([pml4 m1] & Hpt & _ & _ & Hout); [|lia|done|unfold CORE_REGION_SIZE; lia|done].
  simpl in Hout. change PGTABLE_SIZE with 0x4000 in Hout.
  unfold kernel_boot_ap. change (mc_mem (say mc _ _)) with (mc_mem mc). rewrite Hpt, ret_bind.
  set (mc1 := say _ _ [uns pml4]).
  assert (holds (mem_rd (mc_mem mc1)) (g_init_image_addr mc1) bs) as Hh1.
  { eapply holds_same_outside; [exact Hout|exact Hh|].
    unfold CORE_REGION_SIZE, CORE_PGTABLE_OFFSET in *. simpl. lia. }
  assert (discovery_at (mc_mem mc1) region ds) as Hds1.
  { eapply discovery_outside; [exact Hds|exact Hout|].
    unfold disjoint_ranges, CORE_DISCOVERY_OFFSET, CORE_PGTABLE_OFFSET, DISCOVERY_SIZE,
      CORE_DISCOVERY_AP_CORE_STATE_OFF. simpl. lia. }
  destruct (load_init_spec mc1 X86_64 _ bs slice cs off (region + CORE_INIT_OFFSET) Himg Hh1)
    as (entry & m' & log & Hld & He & Hs & Hseg);
    [unfold CORE_INIT_OFFSET; lia|unfold CORE_INIT_OFFSET, CORE_INIT_MAX_SIZE; simpl; lia|].
  rewrite (u64_small (region + CORE_INIT_OFFSET)) by (unfold CORE_INIT_OFFSET; ulia).
  rewrite Hld, ret_bind. destruct (Z.eqb_spec entry 0) as [->|Hne].
  { unfold CORE_INIT_OFFSET in He. simpl in He. lia. }
  rewrite bootstrap_copied, ret_bind by done.
  set (mc2 := with_k _ _).
  assert (discovery_at (mc_mem mc2) region ds) as Hds2.
  { eapply discovery_outside; [exact Hds1|exact Hs|].
    unfold disjoint_ranges, CORE_DISCOVERY_OFFSET, CORE_INIT_OFFSET, DISCOVERY_SIZE,
      CORE_DISCOVERY_AP_CORE_STATE_OFF. simpl. lia. }
  repeat match goal with |- context [discovery mc2 region ?off] =>
    destruct (discovery_reads mc2 region ds off Hds2 ltac:(done)) as [? ->]; rewrite ret_bind
  end.
  assert (region + CORE_INIT_OFFSET + BSP_INIT_LOAD_BASE X86_64 = other) as Heq
    by (subst region other; unfold core_region_base, CORE_REGION_SIZE; simpl; lia).
  rewrite Heq in He, Hs. exists pml4, m1. eexists _, _, _. split; [done|]. split; [reflexivity|].
  split; [exact He|]. split; [exact (loaded_image _ _ _ _ _ _ _ _ _ Himg (extends_holds _ _ _ Hh1) Hseg)|].
  split; [|split; [exact Hs|]].
  - intros s addr Hin Hl Hc. pose proof (proj1 (Forall_forall _ _) (ii_span _ _ _ _ _ Himg) s Hin Hl)
      as (? & ? & _). unfold covers in Hc. subst own. fold region in Hc. lia.
  - intros q Hq. transitivity (m1 !! q).
    + apply Hs. subst own other region.
      unfold core_region_base, CORE_REGION_SIZE, CORE_INIT_OFFSET, CORE_INIT_MAX_SIZE in *. simpl in *. lia.
    + apply Hout. subst own. fold region in Hq.
      unfold CORE_PGTABLE_OFFSET, CORE_INIT_OFFSET, CORE_INIT_MAX_SIZE in *. lia.
Qed.

(** * One image for every core *)

(** The first core on the shared-image protocol: init is entered with the
    factory's capability, a fresh image's statics are bound, nothing else of
    the records, tables or memory changes, and from then on [serial_init]
    finds the console it has, whatever the rest of memory becomes. *)
Lemma first_core_boots mc f :
  console_found mc f -> copied_statics (mc_k mc) -> g_factory_table_at img <> 0 ->
  g_init_entry_phys inp <> 0 ->
  exists info mc1,
    kernel_boot_aarch64_boot_protocol sym img inp search mc =
      Ret (Entered (g_init_entry_phys inp) info, mc1) /\
    bi_caps info = CapBoot.caps img /\ bi_kernel_invoke info = sym_kernel_invoke sym /\
    bi_fdt_blob_phys info = g_fdt_blob_phys mc /\
    bi_init_description_phys info = g_init_description_phys inp /\
    bootstrapped img (mc_k mc1) /\ mc_mem mc1 = mc_mem mc /\
    mc_uart mc1 = uart_adopt (mc_uart mc) f /\
    (forall k m, console_found (with_mem mc m) f ->
       serial_init search (with_mem (with_k mc1 k) m) = Ret (with_mem (with_k mc1 k) m)) /\
    (forall p, p <> g_factory_record_at img -> recs (mc_k mc1) !! p = recs (mc_k mc) !! p) /\
    (forall p, p <> g_factory_table_at img -> tables (mc_k mc1) !! p = tables (mc_k mc) !! p).
Proof.
  intros Hf Hst Hnz He. unfold kernel_boot_aarch64_boot_protocol.
  rewrite (serial_init_found _ _ Hf), ret_bind.
  rewrite (proj2 (Z.eqb_neq _ _) He), bootstrap_copied, ret_bind by done.
  set (mc1 := say _ _ [uns (g_init_entry_phys inp)]).
  eexists _, mc1. split; [reflexivity|]. do 4 (split; [done|]).
  split; [constructor; [apply lookup_insert_eq..|done|done]|].
  do 2 (split; [done|]). split; [|split; intros p Hp; by apply lookup_insert_ne].
  intros k m Hm. exact (serial_init_again (with_mem (with_k mc1 k) m) f _ Hm eq_refl).
Qed.

(** The linker's addresses the kernel hands out. *)
Definition granted_u64 : Prop := is_u64 (sym_kernel_invoke sym) /\ is_u64 (g_factory_record_at img).

(** The block an application processor hands to init: the caller's, with the
    two fields that are the kernel's. *)
Definition completed (h : init_ap_handoff) : init_ap_handoff :=
  let b := boot_info h in {|
  stack_top := stack_top h; init_entry := init_entry h;
  boot_info := {|
    bi_caps := CapBoot.caps img; bi_kernel_invoke := sym_kernel_invoke sym;
    bi_kernel_load_base := bi_kernel_load_base b;
    bi_kernel_boot_ap_addr := bi_kernel_boot_ap_addr b; bi_pml4_phys := bi_pml4_phys b;
    bi_init_image_addr := bi_init_image_addr b; bi_init_image_len := bi_init_image_len b;
    bi_kernel_image_addr := bi_kernel_image_addr b; bi_kernel_image_len := bi_kernel_image_len b;
    bi_bsp_kernel_invoke_addr := bi_bsp_kernel_invoke_addr b;
    bi_mutex_manager_handle := bi_mutex_manager_handle b;
    bi_memory_manager_handle := bi_memory_manager_handle b;
    bi_hardware_mutex_id := bi_hardware_mutex_id b;
    bi_lapic_calibration_count := bi_lapic_calibration_count b;
    bi_cluster_scheduler_handle := bi_cluster_scheduler_handle b;
    bi_serial_resource_handle := bi_serial_resource_handle b;
    bi_early_rsdp_phys := bi_early_rsdp_phys b; bi_fdt_blob_phys := bi_fdt_blob_phys b;
    bi_ram_size := bi_ram_size b; bi_init_description_phys := bi_init_description_phys b;
    bi_init_entry_addr := bi_init_entry_addr b;
    bi_ap_core_state_phys := bi_ap_core_state_phys b |} |}.

(** The three stores complete the block, and touch nothing else. *)
Lemma handoff_completed m p h :
  handoff_at m p h -> granted_u64 ->
  wp (m ← wr_le64 m (p + HANDOFF_BOOT_INFO) (count (CapBoot.caps img));
      m ← wr_le64 m (p + HANDOFF_BOOT_INFO + 8) (factory_handle (CapBoot.caps img));
      wr_le64 m (p + HANDOFF_BOOT_INFO + BOOT_INFO_KERNEL_INVOKE) (sym_kernel_invoke sym))
     (fun m' => handoff_at m' p (completed h) /\ same_outside (p + HANDOFF_BOOT_INFO) 24 m m').
Proof.
  intros (Hp & Hok & Hh) [Hk Hr]. apply wp_bind.
  eapply wp_mono; [apply (wp_wr_word m p _ 2 _ Hh); simpl; lia|]. intros m1 [Hh1 F1]. apply wp_bind.
  eapply wp_mono; [rewrite <- Z.add_assoc; apply (wp_wr_word m1 p _ 3 _ Hh1); simpl; lia|]. intros m2 [Hh2 F2].
  eapply wp_mono; [rewrite <- Z.add_assoc; apply (wp_wr_word m2 p _ 4 _ Hh2); simpl; lia|]. intros m3 [Hh3 F3].
  split; [split; [done|split; [|exact Hh3]]|].
  - unfold handoff_words, boot_info_words in *. rewrite !Forall_cons in *. cbn. repeat split; tauto || ulia.
  - intros q Hq. unfold HANDOFF_BOOT_INFO in Hq.
    rewrite (fr_out _ _ _ F3), (fr_out _ _ _ F2), (fr_out _ _ _ F1) by (simpl; lia). done.
Qed.

(** Every application processor of a shared image joins the capability world
    the first core made: with a block at [p], it enters init where the block
    says with the block completed in place, and the rest of the machine is as
    it was but for a line on the console; an incomplete block halts it with
    all of memory untouched. *)
Lemma ap_joins mc p h :
  serial_init search mc = Ret mc -> bootstrapped img (mc_k mc) -> granted_u64 ->
  handoff_at (mc_mem mc) p h ->
  exists r m' c,
    kernel_boot_ap_shared_aarch64 sym img search mc p =
      Ret (r, with_out (with_mem mc m') (mc_out mc ++ [c])) /\
    if decide (init_entry h <> 0 /\ bi_ap_core_state_phys (boot_info h) <> 0) then
      r = Entered (init_entry h) (boot_info (completed h)) /\
      handoff_at m' p (completed h) /\ same_outside (p + HANDOFF_BOOT_INFO) 24 (mc_mem mc) m'
    else r = Halted /\ m' = mc_mem mc.
Proof.
  intros Hser [Hr Ht _ Hl] Hg Hat. unfold kernel_boot_ap_shared_aarch64. rewrite Hser, ret_bind. cbv zeta.
  rewrite (proj2 (Z.eqb_neq _ _) (proj1 Hat)), (handoff_entry _ _ _ Hat), ret_bind, (handoff_state _ _ _ Hat).
  assert (with_mem mc (mc_mem mc) = mc) as Emc by (by destruct mc).
  destruct (Z.eqb_spec (init_entry h) 0).
  { eexists _, (mc_mem mc), _. rewrite ret_bind, Emc, decide_False by tauto. done. }
  rewrite !ret_bind. destruct (Z.eqb_spec (bi_ap_core_state_phys (boot_info h)) 0).
  { eexists _, (mc_mem mc), _. rewrite Emc, decide_False by tauto. done. }
  cbn [negb]. unfold bootstrap.
  rewrite (bootstrap_bound AARCH64 img _ _ _ Hr Ht (bound_already img) Hl), !ret_bind.
  destruct (wp_inv _ _ (handoff_completed _ _ _ Hat Hg)) as (m3 & H3 & Hat3 & Hout).
  apply bind_ret_inv in H3 as (m1 & H1 & H3). apply bind_ret_inv in H3 as (m2 & H2 & H3).
  change (mc_mem (with_k mc (mc_k mc))) with (mc_mem mc).
  rewrite H1, ret_bind, H2, ret_bind, H3, ret_bind. cbn [mc_mem with_mem say with_out].
  rewrite (handoff_entry _ _ _ Hat3), !ret_bind, (handoff_info _ _ _ Hat3), ret_bind.
  eexists _, m3, _. rewrite decide_True by done. split; [reflexivity|done].
Qed.

(** * The machine description *)

(** A configuration table as AArch64 reads it: two halves of the GUID and
    the table's address. *)
Definition entries_words (es : list (Z * Z * Z)) : list Z :=
  concat ((fun e => [e.1.1; e.1.2; e.2]) <$> es).

Definition find_entry (es : list (Z * Z * Z)) (lo hi : Z) : Z :=
  match list_find (fun e => e.1 = (lo, hi)) es with Some (_, e) => e.2 | None => 0 end.

Lemma find_entry_cons e es lo hi :
  find_entry (e :: es) lo hi = if decide (e.1 = (lo, hi)) then e.2 else find_entry es lo hi.
Proof. unfold find_entry. simpl. case_decide; [done|]. by destruct (list_find _ es) as [[]|]. Qed.

Lemma find_table_loop_spec m ct lo hi es : forall i,
  Forall is_u64 (entries_words es) ->
  holds (mem_rd m) (ct + i * 24) (words_bytes (entries_words es)) ->
  find_table_loop (mem_rd m) ct lo hi (length es) i = Ret (find_entry es lo hi).
Proof.
  induction es as [|[[l h] t] es IH]; intros i Hok Hh; [done|].
  rewrite find_entry_cons. cbn [length find_table_loop]. cbv zeta.
  pose proof (fun k w => rd_le64_words _ _ _ k w Hh Hok) as Hw.
  pose proof (Hw 0%nat l eq_refl) as H0. pose proof (Hw 1%nat h eq_refl) as H1.
  pose proof (Hw 2%nat t eq_refl) as H2. clear Hw.
  change (8 * Z.of_nat 0) with 0 in H0. rewrite Z.add_0_r in H0.
  change (8 * Z.of_nat 1) with 8 in H1. change (8 * Z.of_nat 2) with 16 in H2.
  assert (find_table_loop (mem_rd m) ct lo hi (length es) (i + 1) = Ret (find_entry es lo hi)) as Hrec.
  { change (entries_words ((l, h, t) :: es)) with ([l; h; t] ++ entries_words es) in *.
    apply Forall_app in Hok as [_ Hok]. rewrite words_bytes_app, holds_app in Hh. destruct Hh as [_ Hh].
    rewrite length_words_bytes in Hh. change (Z.of_nat (8 * length [l; h; t])) with 24 in Hh.
    apply IH; [done|]. by replace (ct + (i + 1) * 24) with (ct + i * 24 + 24) by lia. }
  rewrite H0, ret_bind. destruct (Z.eqb_spec l lo) as [->|]; simpl.
  - rewrite H1, ret_bind. destruct (Z.eqb_spec h hi) as [->|]; simpl.
    + by rewrite decide_True.
    + rewrite decide_False by naive_solver. done.
  - rewrite decide_False by naive_solver. done.
Qed.

(** The system table at [st] has the configuration tables [es]. *)
Record config_tables (m : memory) (st : Z) (es : list (Z * Z * Z)) : Prop := {
  ct_st : st <> 0;
  ct_count : rd_le64 (mem_rd m) (st + 104) = Ret (Z.of_nat (length es));
  ct_few : (length es <= 256)%nat;
  ct_ok : Forall is_u64 (entries_words es);
  ct_at : exists ct, rd_le64 (mem_rd m) (st + 112) = Ret ct /\ ct <> 0 /\
    holds (mem_rd m) ct (words_bytes (entries_words es)) }.

Lemma efi_find_table_spec mc st es lo hi :
  config_tables (mc_mem mc) st es -> efi_find_table mc st lo hi = Ret (find_entry es lo hi, mc).
Proof.
  intros [Hst Hn Hf Hok (ct & Hct & Hnz & Hh)]. unfold efi_find_table.
  rewrite (proj2 (Z.eqb_neq _ _) Hst), Hn, ret_bind, Hct, ret_bind.
  rewrite (proj2 (Z.eqb_neq _ _) Hnz), (proj2 (Z.ltb_ge _ _)) by lia. simpl orb. cbv iota.
  rewrite Nat2Z.id, (find_table_loop_spec _ _ _ _ es); [done..|]. by rewrite Z.add_0_r.
Qed.

(** Which description of the machine wins: a device tree that arrived in
    the register is kept; otherwise, with version-2 boot parameters, the
    device tree the firmware's configuration tables name is adopted with the
    size its own header states, and ACPI's root pointer is used only when
    they name no device tree. *)
Theorem machine_description mc st es :
  g_boot_x0 inp <> 0 -> ba16 (mem_rd (mc_mem mc)) (g_boot_x0 inp) vermajor = Ret 2 ->
  ba32 (mem_rd (mc_mem mc)) (g_boot_x0 inp) efi_system_table = Ret st ->
  config_tables (mc_mem mc) st es ->
  let fdt := find_entry es EFI_FDT_GUID_LO EFI_FDT_GUID_HI in
  let rsdp := find_entry es EFI_ACPI20_GUID_LO EFI_ACPI20_GUID_HI in
  (g_fdt_blob_phys mc <> 0 -> resolve_xnu_boot_params inp mc = Ret mc) /\
  (g_fdt_blob_phys mc = 0 -> fdt = 0 ->
     exists log, resolve_xnu_boot_params inp mc = Ret (with_out (with_rsdp mc rsdp) log)) /\
  (g_fdt_blob_phys mc = 0 -> fdt <> 0 -> forall magic size,
     rd_be32 (mem_rd (mc_mem mc)) fdt = Ret magic ->
     rd_be32 (mem_rd (mc_mem mc)) (fdt + 4) = Ret size ->
     exists log, resolve_xnu_boot_params inp mc =
       Ret (with_out (if magic =? FDT_MAGIC then with_fdt mc fdt size else mc) log)).
Proof.
  intros Hx Hv Hst Hct. cbv zeta. unfold resolve_xnu_boot_params. cbv zeta.
  rewrite (proj2 (Z.eqb_neq _ _) Hx), Hv, orb_false_r, ret_bind, Hst, ret_bind. change (2 =? 2) with true. cbn [negb].
  rewrite !(efi_find_table_spec (say mc _ _) st es) by done. rewrite !ret_bind. split; [|split].
  - intros H. by rewrite (proj2 (Z.eqb_neq _ _) H).
  - intros -> ->. change (0 =? 0) with true. cbn [negb].
    rewrite (efi_find_table_spec (say mc _ _) st es), ret_bind by done.
    match goal with |- context [if negb ?b then _ else _] => destruct b end; by eexists.
  - intros -> H magic size Hm Hs. rewrite (proj2 (Z.eqb_neq _ _) H). unfold be32_at.
    rewrite Hm, ret_bind, Hs, ret_bind. destruct (magic =? FDT_MAGIC); by eexists.
Qed.

End Boot.

(** * Machines *)

(** An init image for either target: __PAGEZERO, and twelve bytes at the
    address init is linked for, entered at the third. *)
Definition ex_init_zero (a : arch) : segment :=
  {| segname := name_zero; vmaddr := 0; vmsize := BSP_INIT_LOAD_BASE a; fileoff := 0; filesize := 0 |}.
Definition ex_init_text (a : arch) : segment :=
  {| segname := name_text; vmaddr := BSP_INIT_LOAD_BASE a; vmsize := 12; fileoff := 200; filesize := 8 |}.

Definition ex_init (a : arch) : list Z :=
  le_bytes 4 MH_MAGIC_64 ++ le_bytes 4 (CPU_TYPE_NATIVE a) ++ replicate 8 0 ++
  le_bytes 4 3 ++ replicate 12 0 ++
  enc_segment (ex_init_zero a) ++
  le_bytes 4 LC_MAIN ++ le_bytes 4 24 ++ le_bytes 8 202 ++ replicate 8 0 ++
  enc_segment (ex_init_text a) ++ [1; 2; 3; 4; 5; 6; 7; 8].

Definition ex_init_cmds (a : arch) : list lcmd :=
  [LSegment (ex_init_zero a); LMain 202; LSegment (ex_init_text a)].

Lemma ex_init_image a : init_image a (ex_init a) 0 (ex_init_cmds a) 202.
Proof.
  split.
  - destruct a; by_compute.
  - split; try (destruct a; vm_compute; (reflexivity || discriminate)).
    eapply cmds_segment; [destruct a; vm_compute; reflexivity..|].
    eapply cmds_main; [destruct a; vm_compute; reflexivity..|].
    eapply cmds_segment; [destruct a; vm_compute; reflexivity..|]. constructor.
  - reflexivity.
  - repeat constructor; destruct a; by_compute.
  - apply List.Forall_cons; [by intros [_ []]|]. apply List.Forall_cons; [|apply List.Forall_nil].
    intros _. split; [done|]. split; [destruct a; by_compute|]. split; [done|].
    eapply readable_mono; [apply (readable_of_bytes (ex_init a)); destruct a; by_compute|done|].
    destruct a; by_compute.
  - exists (ex_init_text a). split; [reflexivity|]. by split.
Qed.

Definition ex_record : list Z := [1; 2; 3; 4; 5; 6; 7; 8; 9].

Definition ex_sym : symbols := {|
  g_embedded_init_start := 0x41020000; g_embedded_init_end := 0x41030000;
  sym_start := 0x41000000; sym_end := 0x41040000; sym_kernel_invoke := 0x41001000;
  sym_kernel_boot_ap := 0x41002000; sym_kernel_boot_ap_shared := 0x41003000; boot_pml4 := 0 |}.

(** Storage for the region's page tables, the embedded image and the
    discovery record. *)
Definition ex_memory (a : arch) (image_at region : Z) : memory :=
  place (region + CORE_DISCOVERY_OFFSET) (words_bytes ex_record)
    (place image_at (ex_init a) (filled (region + CORE_PGTABLE_OFFSET) PGTABLE_SIZE 0)).

Lemma ex_memory_init a image_at region :
  image_at + Z.of_nat (length (ex_init a)) <= region \/ region + CORE_REGION_SIZE <= image_at ->
  holds (mem_rd (ex_memory a image_at region)) image_at (ex_init a).
Proof.
  intros H. eapply holds_same_outside; [apply place_outside|apply holds_place|].
  rewrite length_words_bytes. simpl length.
  unfold CORE_REGION_SIZE, CORE_DISCOVERY_OFFSET in *. lia.
Qed.

Lemma ex_memory_record a image_at region : discovery_at (ex_memory a image_at region) region ex_record.
Proof. split; [done|]. split; [by_compute|]. apply holds_place. Qed.

Lemma ex_memory_mapped a image_at region :
  mapped (ex_memory a image_at region) (region + CORE_PGTABLE_OFFSET) PGTABLE_SIZE.
Proof. apply mapped_place, mapped_place, mapped_filled. Qed.

Definition ex_machine_at (m : memory) (image_at : Z) : machine unit :=
  Build_machine m (ex_cold dead_record) image_at 0 0 0 0 uart_globals0 [].

Lemma ex_statics m image_at : copied_statics ex_img (mc_k (ex_machine_at m image_at)).
Proof. exists dead_record, null_table. by repeat split. Qed.

Lemma ap_boot_x86_loads_in_other_region_witness :
  exists entry info mc',
    kernel_boot_ap ex_sym ex_img
      (ex_machine_at (ex_memory X86_64 0x1020000 (core_region_base X86_64 1)) 0x1020000)
      (core_region_base X86_64 1) =
      Ret (Entered entry info, mc') /\ 0x5900000 <= entry < 0x5C00000 /\
    mc_mem mc' !! 0x5900002 = Some 3.
Proof.
  destruct (ap_boot_x86_loads_in_other_region ex_sym ex_img
    (ex_machine_at (ex_memory X86_64 0x1020000 (core_region_base X86_64 1)) 0x1020000) 1 (ex_init X86_64) 0
    (ex_init_cmds X86_64) 202 ex_record) as (pml4 & m1 & entry & info & mc' & _ & H & He & [Hld _] & _).
  - lia.
  - apply ex_init_image.
  - cbn [mc_mem ex_machine_at g_embedded_init_start ex_sym g_init_image_addr].
    apply (ex_memory_init X86_64 0x1020000 (core_region_base X86_64 1)). left. by vm_compute.
  - left. cbn [ex_machine_at g_init_image_addr]. by vm_compute.
  - cbn [mc_mem ex_machine_at]. apply ex_memory_mapped.
  - cbn [mc_mem ex_machine_at]. apply ex_memory_record.
  - apply ex_statics.
  - exists entry, info, mc'. split; [exact H|]. split.
    { revert He. unfold core_region_base, CORE_REGION_SIZE, CORE_INIT_OFFSET, CORE_INIT_MAX_SIZE.
      simpl. lia. }
    clear - Hld. destruct (Hld [ex_init_zero X86_64] (ex_init_text X86_64) []) as [Hf _];
      [reflexivity|split; discriminate|intros ? ? _ Hin; inversion Hin|].
    destruct (Hf 2 ltac:(by_compute)) as (x & Hx & Hm). vm_compute in Hx. injection Hx as <-. exact Hm.
Defined.

Definition ex_inputs : boot_inputs := {|
  g_xnu_boot_args_addr := 0; g_boot_x0 := 0x3000; g_init_description_phys := 0x41880000;
  g_init_entry_phys := 0x40200000 |}.

(** Boot parameters at 0x3000, the system table at 0x5000 with ACPI and then
    a device tree among its configuration tables, and the tree's header. *)
Definition ex_tables : list (Z * Z * Z) := [
  (EFI_ACPI20_GUID_LO, EFI_ACPI20_GUID_HI, 0x7F014); (EFI_FDT_GUID_LO, EFI_FDT_GUID_HI, 0x9000)].

Definition ex_efi_memory : memory :=
  place 0x3002 [2; 0] (place 0x3450 (le_bytes 4 0x5000)
    (place 0x5068 (le_bytes 8 2 ++ le_bytes 8 0x6000)
       (place 0x6000 (words_bytes (entries_words ex_tables))
          (place 0x9000 (be_bytes 4 FDT_MAGIC ++ be_bytes 4 1024) ∅)))).

Lemma machine_description_witness :
  exists log, resolve_xnu_boot_params ex_inputs (ex_machine_at ex_efi_memory 0) =
    Ret (with_out (with_fdt (ex_machine_at ex_efi_memory 0) 0x9000 1024) log).
Proof.
  apply (fun H1 H2 H3 H4 => proj2 (proj2 (machine_description ex_inputs
    (ex_machine_at ex_efi_memory 0) 0x5000 ex_tables H1 H2 H3 H4))) with (magic := FDT_MAGIC);
    try done; try (vm_compute; reflexivity).
  split; [done|vm_compute; reflexivity|by_compute|by_compute|].
  exists 0x6000. split; [vm_compute; reflexivity|]. split; [done|].
  apply rd_bytes_holds_inv. vm_compute. reflexivity.
Defined.
