(* ===== verification/BootService.v ===== *)
(** From boot to service: the boot path and the capability layer put
    together.

    The first core boots on the shared-image protocol, init publishes an
    object through the factory capability its boot block carries, a second
    core boots into the same image and uses that object, and revokes it.
    Each step is the real function run on the state the one before it left;
    the only things supplied from outside are the firmware's inputs, the
    service's own code and the messages. *)
From S2P Require Import Prelude CMem Schema Capnp Validate ValidateSpec Cap CapProps CapInvoke.
From S2P Require Import CapBoot Uart Boot BootProps.

Section Service.
Context {W : Type} (sym : symbols) (img : image) (inp : boot_inputs) (search : nat).
Context (code : handlers W).
Implicit Types mc : machine W.

(** * Lemmas *)

(** A request the schema accepts, answered by a handler whose response the
    schema accepts. *)
Lemma invoke_answers a fuel (s : kstate W) target id bs len r cap rec t m g buf out :
  g_cap_lock s = 0 -> table_wf t -> is_u64 len -> readable (of_bytes bs) 0 len ->
  0 <= schema_index rec -> resolves s target id rec t m ->
  conforms_to t (param_schema m) (of_bytes bs) len ->
  handler rec <> factory_handler_at img -> code (handler rec) = Some g ->
  g (data rec) id (Some bs) len (Some r) cap = HDone (Some buf) out ->
  is_u64 out -> readable (of_bytes buf) 0 out -> conforms_to t (result_schema m) (of_bytes buf) out ->
  kernel_invoke a img code (S fuel) s target id (Some bs) len (Some r) cap = Ret (1, Some buf, out, s).
Proof.
  intros Hl Hwf Hlen Hrd Hi Hres Hc Hh Hg Hd Hout Hrd' Hc'.
  rewrite (invoke_dispatch a img code fuel s target id bs len (Some r) cap rec t m) by done.
  unfold call_handler. rewrite (proj2 (Z.eqb_neq _ _) Hh), Hg, Hd. simpl run_handler. rewrite ret_bind.
  assert (is_u16 (result_schema m)) as Hm.
  { destruct Hres as (_ & _ & _ & _ & Hm). eapply declares_method_wf in Hm; [apply Hm|done]. }
  destruct (Z.eqb_spec (result_schema m) SCHEMA_IDX_NONE); [done|].
  destruct (validate_conforms_to (of_bytes buf) out t (result_schema m)) as (b & Hb & Hbc); [done..|].
  simpl fmap. rewrite Hb, ret_bind. by apply Hbc in Hc' as ->.
Qed.

(** * The chain *)

(** What init asks the factory for: an object with handler [h], data [d]
    and schema [i] of the table at [t], in storage [st], whose method [id]
    is [m]. *)
Record publishable (k : kstate W) (h d t i st : Z) (tab : schema_table_t) (id : Z)
    (m : method_schema_t) : Prop := {
  pub_words : Forall is_u64 [h; d; t; i; st];
  pub_storage : st <> 0 /\ st <> g_factory_record_at img /\ is_Some (recs k !! st);
  pub_table : t <> 0 /\ t <> g_factory_table_at img /\ tables k !! t = Some tab /\ table_wf tab;
  pub_method : declares_method tab (u16 i) id m;
  pub_handler : h <> factory_handler_at img }.

(** The service's code answers [bs] with [buf], both as the schema has them. *)
Record answers (h d id : Z) (tab : schema_table_t) (m : method_schema_t) (bs r buf : list Z)
    (cap out : Z) : Prop := {
  ans_request : bytes_ok bs /\ is_u64 (Z.of_nat (length bs)) /\
    conforms_to tab (param_schema m) (of_bytes bs) (Z.of_nat (length bs));
  ans_code : exists g, code h = Some g /\
    g d id (Some bs) (Z.of_nat (length bs)) (Some r) cap = HDone (Some buf) out;
  ans_response : bytes_ok buf /\ 0 <= out <= Z.of_nat (length buf) /\ is_u64 out /\
    conforms_to tab (result_schema m) (of_bytes buf) out }.

Lemma bootstrapped_flags (k : kstate W) fl : bootstrapped img k -> bootstrapped img (with_flags k fl).
Proof. by intros [? ? ? ?]. Qed.

(** C16. A service crosses cores.  The first core boots an image with fresh
    statics on the shared-image protocol; init creates an object through the
    factory handle in its boot block; then another core, with whatever flags,
    boots into the same image with a complete handoff block at [p] of what
    memory ([m']) has become, in which the same console is found.  It is given
    the same factory, in the block it passes to its init, its invocation of the object's handle runs the service's
    code and returns its answer, and when it destroys the object through its
    own grant, the first core's next invocation is refused without running
    anything. *)
Theorem service_across_cores fuel mc f m' p hand h d t i st tab id m bs r buf cap out q fl0 fl1 :
  console_found search mc f -> copied_statics img (mc_k mc) -> g_factory_table_at img <> 0 ->
  g_init_entry_phys inp <> 0 -> granted_u64 sym img -> console_found search (with_mem mc m') f ->
  handoff_at m' p hand -> init_entry hand <> 0 -> bi_ap_core_state_phys (boot_info hand) <> 0 ->
  publishable (mc_k mc) h d t i st tab id m -> length q = 24%nat -> bytes_ok q ->
  answers h d id tab m bs r buf cap out ->
  let invoke := kernel_invoke AARCH64 img code (S fuel) in
  exists info0 mc1 k1 info1 mc2 k2,
    kernel_boot_aarch64_boot_protocol sym img inp search mc =
      Ret (Entered (g_init_entry_phys inp) info0, mc1) /\
    invoke (mc_k mc1) (factory_handle (bi_caps info0)) FACTORY_METHOD_CREATE
      (Some (create_request h d t i st)) 56 (Some q) 24 = Ret (1, Some (create_response st), 24, k1) /\
    kernel_boot_ap_shared_aarch64 sym img search (with_mem (with_k mc1 (with_flags k1 fl1)) m') p =
      Ret (Entered (init_entry hand) info1, mc2) /\
    bi_caps info1 = bi_caps info0 /\ bi_kernel_invoke info1 = bi_kernel_invoke info0 /\
    invoke (mc_k mc2) st id (Some bs) (Z.of_nat (length bs)) (Some r) cap =
      Ret (1, Some buf, out, mc_k mc2) /\
    invoke (mc_k mc2) (factory_handle (bi_caps info1)) FACTORY_METHOD_DESTROY
      (Some (destroy_request st)) 24 None 0 = Ret (1, None, 0, k2) /\
    invoke (with_flags k2 fl0) st id (Some bs) (Z.of_nat (length bs)) (Some r) cap =
      Ret (0, Some r, 0, kprintf (with_flags k2 fl0) (D_invalid_capability (u32 st))).
Proof.
  intros Hf Hcs Hnz He Hg64 Hf' Hat He1 Hs1 [Hu (Hst & Hnf & Hsome) (Ht0 & Htf & Htab & Hwf) Hm Hh] Hq Hqb
    [(Hbs & Hlen & Hc) (g & Hg & Hd) (Hbuf & Hout & Hout64 & Hc')] invoke.
  destruct (first_core_boots sym img inp search mc f Hf Hcs Hnz He)
    as (info0 & mc1 & Hboot & Hcaps & Hki & _ & _ & Hb & _ & _ & Hser & Hrecs & Htabs).
  assert (is_u64 st) as Hst64 by (rewrite !Forall_cons in Hu; apply Hu).
  set (k1 := created (mc_k mc1) h d t i st).
  assert (bootstrapped img (with_flags k1 fl1)) as Hb1
    by (apply bootstrapped_flags, bootstrapped_recs; done).
  destruct (ap_joins sym img search (with_mem (with_k mc1 (with_flags k1 fl1)) m') p hand
    (Hser _ _ Hf') Hb1 Hg64 Hat) as (r1 & m2 & c & Hap & Hend).
  rewrite decide_True in Hend by done. destruct Hend as (-> & _ & _).
  set (info1 := boot_info _) in Hap. set (mc2 := with_out _ _) in Hap.
  assert (mc_k mc2 = with_flags k1 fl1) as Hk2 by done.
  assert (recs (mc_k mc2) !! st = Some (new_record h d t i)) as Hrec
    by (rewrite Hk2; apply lookup_insert_eq).
  assert (tables (mc_k mc2) !! t = Some tab) as Htab2 by (rewrite Hk2; simpl; by rewrite Htabs).
  assert (bootstrapped img (mc_k mc2)) as Hb2 by (by rewrite Hk2).
  exists info0, mc1, k1, info1, mc2, (destroyed (mc_k mc2) st).
  split; [done|]. change (bi_caps info1) with (caps img). rewrite Hcaps, Hki. split.
  { unfold invoke. simpl factory_handle. rewrite create_invoke; try done.
    - rewrite drop_ge, app_nil_r by lia. done.
    - by rewrite Hrecs.
    - lia. }
  do 3 (split; [done|]). split; [|split].
  - eapply invoke_answers with (rec := new_record h d t i) (t := tab) (m := m) (g := g); try done.
    + apply Hb2.
    + by apply readable_of_bytes.
    + simpl. unfold u16. apply Z.mod_pos_bound. lia.
    + eapply readable_mono; [by apply readable_of_bytes|lia|lia].
  - unfold invoke. simpl factory_handle. rewrite destroy_invoke by done. unfold load_record.
    by rewrite (proj2 (Z.eqb_neq _ _) Hnf), Hrec, ret_bind.
  - apply (invoke_not_live _ _ _ _ _ _ _ _ _ _ _ dead_record); [apply Hb2|apply lookup_insert_eq|done].
Qed.

End Service.

(** * An example *)

(** The machine of the boot examples with a free slot at 0x8000 and a table
    of init's at 0x3000; the service's code is at 0x7000 and answers every
    request with a handle. *)
Definition ex_service_machine : machine unit :=
  Build_machine ∅
    (Build_kstate {[0x1000 := dead_record; 0x8000 := dead_record]}
      {[0x1100 := null_table; 0x3000 := bound_factory_table ex_bsp_img]} 1 0 [] tt)
    0 0 0 0 0 uart_globals0 [].

Definition ex_service : handlers unit := fun p =>
  if p =? 0x7000 then Some (fun d _ _ _ _ _ => HDone (Some (create_response d)) 24) else None.

Definition ex_service_inputs : boot_inputs := {|
  g_xnu_boot_args_addr := 0; g_boot_x0 := 0; g_init_description_phys := 0x41880000;
  g_init_entry_phys := 0x41800000 |}.

Definition ex_service_info : init_boot_info :=
  Build_init_boot_info (caps ex_img) 0 0 0 0 0 0 0 0 0 0 0 0 0 0 0 0 0 0 0 0 0x41900000.
Definition ex_service_handoff : init_ap_handoff := {|
  stack_top := 0x41A00000; init_entry := 0x41800000; boot_info := ex_service_info |}.

(** The block, where init put it. *)
Definition ex_service_memory : memory :=
  place 0x41980000 (words_bytes (handoff_words ex_service_handoff)) ∅.

Lemma service_across_cores_witness :
  exists mc1 k1 info1 mc2 k2,
    kernel_boot_ap_shared_aarch64 ex_sym ex_img 1 (with_mem (with_k mc1 (with_flags k1 0x80)) ex_service_memory)
      0x41980000 = Ret (Entered 0x41800000 info1, mc2) /\
    kernel_invoke AARCH64 ex_img ex_service 1 (mc_k mc2) 0x8000 0
      (Some (create_request 1 2 3 4 5)) 56 (Some []) 0
      = Ret (1, Some (create_response 9), 24, mc_k mc2) /\
    kernel_invoke AARCH64 ex_img ex_service 1 (with_flags k2 0) 0x8000 0
      (Some (create_request 1 2 3 4 5)) 56 (Some []) 0
      = Ret (0, Some [], 0, kprintf (with_flags k2 0) (D_invalid_capability 0x8000)).
Proof.
  destruct (service_across_cores ex_sym ex_img ex_service_inputs 1 ex_service 0 ex_service_machine
    FoundNone ex_service_memory 0x41980000 ex_service_handoff 0x7000 9 0x3000 0 0x8000 (bound_factory_table ex_bsp_img) 0
    {| method_id := 0; param_schema := 0; result_schema := 1 |}
    (create_request 1 2 3 4 5) [] (create_response 9) 0 24 (replicate 24 0) 0 0x80)
    as (info0 & mc1 & k1 & info1 & mc2 & k2 & _ & _ & H3 & _ & _ & H5 & _ & H7);
    [reflexivity| |by_compute|by_compute|split; by_compute|reflexivity| |by_compute|by_compute| |reflexivity|by_compute| |].
  - exists dead_record, null_table. by repeat split.
  - split; [done|]. split; [by_compute|apply holds_place].
  - split; [by_compute| | | |by_compute].
    + split; [by_compute|]. split; [by_compute|]. by eexists.
    + split; [by_compute|]. split; [by_compute|]. split; [reflexivity|]. apply bound_factory_table_wf.
    + by apply factory_declares.
  - split.
    + split; [by_compute|]. split; [by_compute|].
      pose proof (flat_conforms (bound_factory_table ex_bsp_img) 0 _ [1; 2; 3; 4; 5] []
        (factory_struct ex_bsp_img 0 _ eq_refl ltac:(done)) eq_refl ltac:(by_compute)
        ltac:(by_compute) ltac:(by_compute)) as Hf. rewrite app_nil_r in Hf. exact Hf.
    + by eexists.
    + split; [by_compute|]. split; [by_compute|]. split; [by_compute|].
      pose proof (flat_conforms (bound_factory_table ex_bsp_img) 1 _ [9] []
        (factory_struct ex_bsp_img 1 _ eq_refl ltac:(done)) eq_refl ltac:(by_compute)
        ltac:(by_compute) ltac:(by_compute)) as Hf. rewrite app_nil_r in Hf. exact Hf.
  - exists mc1, k1, info1, mc2, k2. split; [exact H3|]. split; [exact H5|exact H7].
Defined.
