(* ===== verification/BootBsp.v ===== *)
(** The first core, from what firmware and loader left in memory to the block
    init is entered with: [kernel_boot_aarch64] of
    kernel/kernel_boot_aarch64.c, which starts from a device tree, and
    [kernel_boot] of kernel/kernel.c, which starts from the boot arguments
    and the EFI tables behind them. *)
From S2P Require Import Prelude CMem Schema Capnp Validate Cap CapProps CapInvoke CapBoot.
From S2P Require Import Fdt FdtTree FdtBlob FdtSearch FdtReg FdtEdge Uart UartTree.
From S2P Require Import Macho MachoProps Efi EfiProps SmpLayout PageTables Boot BootProps.

(** The memory [ranges] add up to, as a [uint64_t]. *)
Definition total_ram (ranges : list fdt_range_t) : Z :=
  foldl (fun acc r => u64 (acc + r_size r)) 0 ranges.

Lemma total_ram_sum ranges : total_ram ranges = u64 (foldr (fun r acc => r_size r + acc) 0 ranges).
Proof.
  unfold total_ram. assert (forall acc, u64 acc = acc ->
    foldl (fun acc r => u64 (acc + r_size r)) acc ranges = u64 (acc + foldr (fun r acc => r_size r + acc) 0 ranges))
    as H; [|by rewrite H].
  induction ranges as [|r ranges IH]; intros acc Ha; simpl; [by rewrite Z.add_0_r|].
  rewrite IH by (unfold u64; by rewrite Z.mod_mod). unfold u64.
  rewrite Z.add_mod_idemp_l by lia. f_equal. lia.
Qed.

Section Bsp.
Context {W : Type} (sym : symbols) (img : image) (inp : boot_inputs) (search : nat).
Context (root : tree) (strings : list Z) (rs : list fdt_range_t) (names : Z -> list Z) (pad : list Z).
Implicit Types mc : machine W.

(** The machine's device tree is in memory at [g_fdt_blob_phys], with at
    least sixteen bytes mapped after it. *)
Record tree_at (phys : Z) (m : memory) : Prop := {
  ta_de : described root strings rs names;
  ta_holds : holds (mem_rd m) phys (enc_blob root strings rs ++ pad);
  ta_pad : bytes_ok pad;
  ta_slack : (16 <= length pad)%nat }.

Lemma tree_at_phys mc phys :
  tree_at phys (mc_mem mc) -> holds (at_phys mc phys) 0 (enc_blob root strings rs ++ pad).
Proof. intros H. apply holds_shift. rewrite Z.add_0_r. apply H. Qed.

Lemma tree_survives phys m m' p n :
  tree_at phys m -> same_outside p n m m' ->
  phys + total_len root strings rs + Z.of_nat (length pad) <= p \/ p + n <= phys -> tree_at phys m'.
Proof.
  intros [Hde Hh Hp Hs] Hso Hd. split; try done. eapply holds_same_outside; [exact Hso|exact Hh|].
  rewrite length_app. rewrite <- blen_blob in Hd. unfold blen in Hd. lia.
Qed.

Lemma console_of_tree mc :
  tree_at (g_fdt_blob_phys mc) (mc_mem mc) -> g_fdt_blob_phys mc <> 0 ->
  (tree_size root <= search)%nat -> total_len root strings rs <= g_fdt_blob_size mc ->
  console_found search mc (tree_console names root (40 + rsv_len rs)).
Proof.
  intros Ht Hnz Hf Hsz. unfold console_found, boot_blob. rewrite (proj2 (Z.eqb_neq _ _) Hnz).
  apply (probe_exact root strings rs names _ pad); [by apply tree_at_phys|apply Ht..|done|done].
Qed.

Lemma bank_lines_out (rs0 : list fdt_range_t) : forall mc,
  exists log, foldl bank_lines mc rs0 = with_out mc log.
Proof.
  induction rs0 as [|r0 rs0 IH]; intros mc; [exists (mc_out mc); by destruct mc|].
  simpl. destruct (IH (bank_lines mc r0)) as [log ->]. by exists log.
Qed.

Lemma report_memory_ok mc :
  tree_at (g_fdt_blob_phys mc) (mc_mem mc) -> g_fdt_blob_phys mc <> 0 ->
  total_len root strings rs <= g_fdt_blob_size mc ->
  exists log, report_memory mc = Ret (with_out mc log).
Proof.
  intros Ht Hnz Hsz. unfold report_memory. rewrite (proj2 (Z.eqb_neq _ _) Hnz). cbn [andb].
  unfold fdt_blob.
  rewrite (image_valid root strings rs names _ pad); [|by apply tree_at_phys|apply Ht..|done].
  rewrite ret_bind. change (1 =? 0) with false. cbv iota zeta.
  rewrite (image_memory root strings rs names _ pad) by (by apply tree_at_phys || apply Ht || lia).
  rewrite ret_bind.
  match goal with |- context [foldl bank_lines ?m ?l] => destruct (bank_lines_out l m) as [log ->] end.
  case_if; by eexists.
Qed.

Lemma boot_ram_size_ok mc :
  tree_at (g_fdt_blob_phys mc) (mc_mem mc) -> g_fdt_blob_phys mc <> 0 ->
  total_len root strings rs <= g_fdt_blob_size mc ->
  boot_ram_size inp mc = Ret (total_ram (take 8 (memory_banks names root))).
Proof.
  intros Ht Hnz Hsz. unfold boot_ram_size. rewrite (proj2 (Z.eqb_neq _ _) Hnz), andb_false_r, ret_bind.
  cbn [Z.eqb andb negb]. unfold fdt_blob.
  rewrite (image_valid root strings rs names _ pad); [|by apply tree_at_phys|apply Ht..|done].
  rewrite ret_bind. simpl Z.eqb. cbv iota.
  by rewrite (image_memory root strings rs names _ pad) by (by apply tree_at_phys || apply Ht || lia).
Qed.

(** The first core boots what the device tree describes: with the tree at
    [g_fdt_blob_phys] and an init image linked for its usual address, both
    clear of the memory init is loaded into, [kernel_boot_aarch64] enters
    init inside that memory and changes none outside it; the console is the
    UART the tree names, the block carries the tree's address, the total of
    its first eight memory banks and the embedded image, and the capability
    layer is up with its own factory. *)
Lemma bsp_boot_aarch64_correct mc bs slice cs off :
  tree_at (g_fdt_blob_phys mc) (mc_mem mc) -> g_fdt_blob_phys mc <> 0 ->
  (tree_size root <= search)%nat -> total_len root strings rs <= g_fdt_blob_size mc ->
  init_image AARCH64 bs slice cs off ->
  Forall (fun s => is_u64 (vmaddr s) /\ is_u64 (vmaddr s + vmsize s)) (segments cs) ->
  holds (mem_rd (mc_mem mc)) (g_embedded_init_start sym) bs ->
  let span := (BSP_INIT_LOAD_BASE AARCH64, CORE_INIT_MAX_SIZE) in
  disjoint_ranges (g_fdt_blob_phys mc, total_len root strings rs + Z.of_nat (length pad)) span ->
  disjoint_ranges (g_embedded_init_start sym, Z.of_nat (length bs)) span ->
  copied_statics img (mc_k mc) -> g_factory_table_at img <> 0 ->
  exists entry info mc',
    kernel_boot_aarch64 sym img inp search mc = Ret (Entered entry info, mc') /\
    span.1 <= entry < span.1 + span.2 /\
    same_outside span.1 span.2 (mc_mem mc) (mc_mem mc') /\
    mc_uart mc' = uart_adopt (mc_uart mc) (tree_console names root (40 + rsv_len rs)) /\
    bi_fdt_blob_phys info = g_fdt_blob_phys mc /\
    bi_ram_size info = u64 (foldr (fun r acc => r_size r + acc) 0 (take 8 (memory_banks names root))) /\
    bi_init_image_addr info = g_embedded_init_start sym /\
    bi_kernel_invoke info = sym_kernel_invoke sym /\
    factory_handle (bi_caps info) = g_factory_record_at img /\
    bootstrapped img (mc_k mc').
Proof.
  intros Ht Hnz Hf Hsz Himg Hu Hh span Hd1 Hd2 Hst Hft. unfold kernel_boot_aarch64.
  rewrite (serial_init_found _ _ _ (console_of_tree mc Ht Hnz Hf Hsz)), ret_bind.
  set (mc0 := say (with_uart mc _) _ _). unfold resolve_xnu_boot_params.
  change (g_fdt_blob_phys mc0) with (g_fdt_blob_phys mc). rewrite (proj2 (Z.eqb_neq _ _) Hnz).
  cbn [negb orb]. rewrite ret_bind. destruct (report_memory_ok mc0 Ht Hnz Hsz) as [log0 Hrep].
  rewrite Hrep, ret_bind. set (mc0' := say (with_out mc0 log0) _ _).
  destruct (load_init_spec mc0' AARCH64 _ bs slice cs off 0 Himg Hh)
    as (entry & m' & log & Hld & He & Hs & _); [lia|by_compute|].
  rewrite Z.add_0_l in He, Hs. rewrite Hld, ret_bind.
  destruct (Z.eqb_spec entry 0) as [->|Hne]; [simpl in He; lia|].
  rewrite bootstrap_copied, ret_bind by done. set (mc1 := with_k _ _).
  assert (holds (mem_rd (mc_mem mc1)) (g_embedded_init_start sym) bs) as Hh1.
  { eapply holds_same_outside; [exact Hs|exact Hh|]. unfold disjoint_ranges, span in Hd2. cbn [fst snd] in Hd2. lia. }
  rewrite (image_size_exact AARCH64 (at_phys mc1 _) slice cs), ret_bind;
    [|eapply native_image_ext; [by apply extends_holds|apply Himg]|done].
  assert (tree_at (g_fdt_blob_phys mc1) (mc_mem mc1)) as Ht1.
  { change (g_fdt_blob_phys mc1) with (g_fdt_blob_phys mc).
    eapply tree_survives; [exact Ht|exact Hs|]. unfold disjoint_ranges, span in Hd1. cbn [fst snd] in Hd1. lia. }
  match goal with |- context [boot_ram_size inp ?m] => set (mc2 := m) end.
  assert (g_fdt_blob_phys mc2 = g_fdt_blob_phys mc /\ g_fdt_blob_size mc2 = g_fdt_blob_size mc /\
    mc_mem mc2 = mc_mem mc1 /\ mc_k mc2 = mc_k mc1 /\ mc_uart mc2 = mc_uart mc1) as (E1 & E2 & E3 & E4 & E5)
    by (subst mc2; by case_if).
  rewrite (boot_ram_size_ok mc2) by (rewrite ?E1, ?E2, ?E3; done). rewrite ret_bind, total_ram_sum.
  eexists _, _, _. split; [reflexivity|]. cbn [fst snd].
  split; [exact He|]. unfold say, with_out. cbn [mc_mem mc_k mc_uart].
  split; [rewrite E3; exact Hs|].
  split; [by rewrite E5|]. split; [exact E1|].
  repeat (split; [reflexivity|]).
  rewrite E4.
  constructor; [apply lookup_insert_eq..|done|done].
Qed.

End Bsp.

(** A machine with the sample tree at 0x48000000 and the init image at
    0x41020000. *)
Definition ex_dtb : list Z := enc_blob ex_bus_root ex_bus_strings [] ++ replicate 16 0.

Definition ex_bsp_memory : memory := place 0x48000000 ex_dtb (place 0x41020000 (ex_init AARCH64) ∅).

Definition ex_bsp : machine unit :=
  Build_machine ex_bsp_memory (ex_cold dead_record) 0 0x48000000 4096 0 0 uart_globals0 [].

(** * x86_64 *)

(** What the loader and the firmware left behind the boot arguments at
    [args]: the memory map [ds], the memory size and the configuration
    tables [es]. *)
Record firmware_at (rd : reader) (args : Z) (ds : list desc) (es : list (efi_guid * Z)) (ram : Z) : Prop := {
  fw_args : boot_args_at rd args ds;
  fw_ram : ba64 rd args ram_size = Ret ram;
  fw_tables : exists st, ba32 rd args efi_system_table = Ret st /\ st <> 0 /\
    translate ds st <> 0 /\ system_table_at rd ds (translate ds st) es }.

Lemma firmware_at_ext rd rd' args ds es ram :
  extends rd rd' -> firmware_at rd args ds es ram -> firmware_at rd' args ds es ram.
Proof.
  intros Hext [Ha Hr (st & Hst & H0 & Htr & Hsys)].
  split; [by eapply boot_args_at_ext|by eapply ba64_ext|].
  exists st. split; [by eapply ba32_ext|]. split_and!; [done..|]. by eapply system_table_at_ext.
Qed.

(** The three questions the boot path asks of the boot arguments. *)
Lemma firmware_answers rd args ds es ram min :
  firmware_at rd args ds es ram ->
  xnu_boot_args_ram_size rd args = Ret ram /\
  xnu_boot_args_find_rsdp rd args = Ret (acpi_root ds es) /\
  exists r, xnu_boot_args_find_largest_free rd args min = Ret r.
Proof.
  intros [Ha Hr (st & Hst & H0 & Htr & Hsys)]. split; [|split].
  - unfold xnu_boot_args_ram_size.
    by rewrite (proj2 (Z.eqb_neq _ _) (bg_addr _ _ _ Ha)), (bg_version _ _ _ Ha).
  - by eapply find_rsdp_spec.
  - destruct (largest_free_spec rd args ds min Ha) as (r & H & _). by exists r.
Qed.

Section BspX86.
Context {W : Type} (sym : symbols) (img : image) (inp : boot_inputs).
Implicit Types mc : machine W.

(** The first core on x86_64 enters init where init was linked and tells it
    about this machine.  Suppose the embedded init image is linked for its
    usual address, and outside the memory it is loaded into lie the running
    kernel's own Mach-O image at [KERNEL_LOAD_BASE] and the firmware's
    tables.  Then [kernel_boot] enters init inside that memory and changes
    none outside it; the block carries the memory size from the boot
    arguments, the ACPI root pointer from the configuration tables, the
    kernel image's address and extent for starting other cores, and the
    factory of a capability layer that is up; and the address of the init
    image is kept for the cores that are started later. *)
Lemma bsp_boot_x86_64_correct mc bs slice cs off kslice kcs ds es ram :
  init_image X86_64 bs slice cs off ->
  holds (mem_rd (mc_mem mc)) (g_embedded_init_start sym) bs ->
  let span := (BSP_INIT_LOAD_BASE X86_64, CORE_INIT_MAX_SIZE) in
  let rest := outside span.1 span.2 (mem_rd (mc_mem mc)) in
  native_image X86_64 (shift_rd rest (KERNEL_LOAD_BASE X86_64)) kslice kcs ->
  Forall (fun s => is_u64 (vmaddr s) /\ is_u64 (vmaddr s + vmsize s)) (segments kcs) ->
  firmware_at rest (g_xnu_boot_args_addr inp) ds es ram ->
  copied_statics img (mc_k mc) -> g_factory_table_at img <> 0 ->
  exists entry info mc',
    kernel_boot sym img inp mc = Ret (Entered entry info, mc') /\
    span.1 <= entry < span.1 + span.2 /\
    same_outside span.1 span.2 (mc_mem mc) (mc_mem mc') /\
    bi_ram_size info = ram /\
    bi_early_rsdp_phys info = acpi_root ds es /\
    bi_kernel_image_addr info = KERNEL_LOAD_BASE X86_64 /\
    bi_kernel_image_len info = image_span (segments kcs) /\
    bi_kernel_boot_ap_addr info = sym_kernel_boot_ap sym /\
    bi_kernel_invoke info = sym_kernel_invoke sym /\
    g_init_image_addr mc' = u32 (g_embedded_init_start sym) /\
    (bi_pml4_phys info = boot_pml4 sym /\ mc_cr3 mc' = mc_cr3 mc) /\
    factory_handle (bi_caps info) = g_factory_record_at img /\
    bootstrapped img (mc_k mc').
Proof.
  intros Himg Hh span rest Hk Hu Hfw Hst Hft. unfold kernel_boot.
  set (mc0 := say (say mc _ _) _ _).
  destruct (load_init_spec mc0 X86_64 _ bs slice cs off 0 Himg Hh)
    as (entry & m' & log & Hld & He & Hs & _); [lia|by_compute|].
  rewrite Z.add_0_l in He, Hs. rewrite Hld, ret_bind.
  destruct (Z.eqb_spec entry 0) as [->|Hne]; [simpl in He; lia|].
  rewrite bootstrap_copied, ret_bind by done. set (mc1 := with_k _ _).
  pose proof (extends_outside _ _ _ _ Hs) as Hext. fold rest in Hext.
  rewrite (image_size_exact X86_64 (at_phys mc1 _) kslice kcs), ret_bind;
    [|eapply native_image_ext; [by apply extends_shift, Hext|done]|done].
  destruct (firmware_answers (mem_rd m') (g_xnu_boot_args_addr inp) ds es ram (KERNEL_LOAD_BASE X86_64))
    as (Hram & Hrsdp & r & Hfree); [by eapply firmware_at_ext|].
  match goal with |- context [xnu_boot_args_ram_size (mem_rd (mc_mem ?m))] => set (mc2 := m) end.
  assert (mc_mem mc2 = m' /\ mc_k mc2 = mc_k mc1 /\ g_init_image_addr mc2 = g_init_image_addr mc1 /\
    mc_cr3 mc2 = mc_cr3 mc) as (E1 & E2 & E3 & E4) by (subst mc2; by case_if).
  rewrite E1, Hram, ret_bind, Hrsdp, ret_bind, Hfree, ret_bind.
  match goal with |- context [say ?m ?s []] => set (mc3 := m) end.
  assert (mc_mem mc3 = m' /\ mc_k mc3 = mc_k mc1 /\ g_init_image_addr mc3 = g_init_image_addr mc1 /\
    mc_cr3 mc3 = mc_cr3 mc) as (F1 & F2 & F3 & F4) by (subst mc3; by destruct r as [[]|]).
  eexists _, _, _. split; [reflexivity|]. cbn [fst snd].
  split; [exact He|]. split; [change (mc_mem (say mc3 _ _)) with (mc_mem mc3); rewrite F1; exact Hs|].
  repeat (split; [reflexivity|]). split; [exact F3|].
  split; [split; [reflexivity|exact F4]|]. split; [reflexivity|].
  change (mc_k (say mc3 _ _)) with (mc_k mc3). rewrite F2.
  constructor; [apply lookup_insert_eq..|done|done].
Qed.

End BspX86.

(** A machine with the kernel's Mach-O header at its load address, the init
    image inside it, and the sample firmware tables. *)
Definition ex_sym_x86 : symbols := {|
  g_embedded_init_start := 0x1020000; g_embedded_init_end := 0x1030000;
  sym_start := 0x1000000; sym_end := 0x1040000; sym_kernel_invoke := 0x1001000;
  sym_kernel_boot_ap := 0x1002000; sym_kernel_boot_ap_shared := 0; boot_pml4 := 0x1040000 |}.

Definition ex_inputs_x86 : boot_inputs := {|
  g_xnu_boot_args_addr := 4096; g_boot_x0 := 0; g_init_description_phys := 0;
  g_init_entry_phys := 0 |}.

Definition ex_regions_x86 : list (Z * list Z) := [
  (0x1000000, ex_init X86_64); (0x1020000, ex_init X86_64);
  (4098, [2; 0]);
  (5128, le_bytes 4 8192 ++ le_bytes 4 144 ++ le_bytes 4 48);
  (4096 + offset_in ram_size xnu_boot_args_v2, le_bytes 8 0x40000000);
  (5200, le_bytes 4 0x1206018);
  (8192, concat (desc_bytes <$> ex_descs));
  (0x1F5EC018, le_bytes 8 EFI_SYSTEM_TABLE_SIGNATURE);
  (0x1F5EC080, le_bytes 8 2 ++ le_bytes 8 0x12060A0);
  (0x1F5EC0A0, concat ((fun e => guid_bytes e.1 ++ le_bytes 8 e.2) <$> ex_entries))].

Definition ex_bsp_x86 : machine unit :=
  Build_machine (foldr (fun r m => place r.1 r.2 m) ∅ ex_regions_x86) (ex_cold dead_record)
    0 0 0 0 0 uart_globals0 [].

Definition ex_rest_x86 : reader :=
  outside (BSP_INIT_LOAD_BASE X86_64) CORE_INIT_MAX_SIZE (mem_rd (mc_mem ex_bsp_x86)).

Lemma ex_firmware_x86 : firmware_at ex_rest_x86 4096 ex_descs ex_entries 0x40000000.
Proof.
  split.
  - split; [done|vm_compute; reflexivity| |].
    + exists 8192, 48, 144. do 6 (split; [by vm_compute|]). repeat split; vm_compute; reflexivity.
    + repeat (apply List.Forall_cons; [split; simpl; unfold d_size; simpl; ulia|]).
      apply List.Forall_nil.
  - vm_compute. reflexivity.
  - exists 0x1206018. split; [vm_compute; reflexivity|]. split; [done|]. split; [by vm_compute|].
    split; [vm_compute; reflexivity..|].
    exists 0x12060A0. split; [vm_compute; reflexivity|]. split; [done|]. split; [by vm_compute|].
    repeat (split; [split; by_compute|]; split; [by_compute|];
            split; [apply rd_bytes_holds_inv; vm_compute; reflexivity|]).
    exact I.
Qed.
