(* ===== verification/BootConsole.v ===== *)
(** What the console shows of a boot: every entry point of kernel/kernel.c
    and kernel/kernel_boot_aarch64.c, with the loader's own messages, on any
    machine at all; and the text of the capability layer's diagnostics. *)
From stdpp Require Import strings.
From S2P Require Import Prelude CMem Console Schema Capnp Validate Cap Fdt Uart Macho Efi SmpLayout PageTables CapInvoke Boot BootProps.

(** * Definitions *)

(** The entry points, with what they are given. *)
Inductive boot_path :=
| Boot_x86
| Boot_ap_x86 (region_base : Z)
| Boot_aarch64
| Boot_protocol_aarch64
| Boot_ap_shared (handoff : Z)
| Boot_ap_aarch64 (region_base : Z).

Section Path.
Context {W : Type} (sym : symbols) (img : image) (inp : boot_inputs) (search : nat).

Definition boot (p : boot_path) (mc : machine W) : outcome (boot_end * machine W) :=
  match p with
  | Boot_x86 => kernel_boot sym img inp mc
  | Boot_ap_x86 region => kernel_boot_ap sym img mc region
  | Boot_aarch64 => kernel_boot_aarch64 sym img inp search mc
  | Boot_protocol_aarch64 => kernel_boot_aarch64_boot_protocol sym img inp search mc
  | Boot_ap_shared h => kernel_boot_ap_shared_aarch64 sym img search mc h
  | Boot_ap_aarch64 region => kernel_boot_ap_aarch64 sym img search mc region
  end.
End Path.

Fixpoint starts_with (p l : list Z) : bool :=
  match p, l with
  | [], _ => true
  | x :: p', y :: l' => (x =? y) && starts_with p' l'
  | _ :: _, [] => false
  end.

Fixpoint occurs (p l : list Z) : bool :=
  starts_with p l || match l with [] => false | _ :: l' => occurs p l' end.

(** A message that says the kernel has given up. *)
Definition panic (c : kcall) : bool := occurs (bytes_of "PANIC") (k_fmt c).

(** A message that prints, and is not one of those. *)
Definition quiet (c : kcall) : bool := fmt_ok (k_fmt c) (k_args c) && negb (panic c).

(** The [kprintf] of cap.c each diagnostic of Cap.v stands for. *)
Definition diag_call (d : diag) : kcall :=
  match d with
  | D_create_no_storage => line "[kernel] factory: create failed, no record storage supplied" []
  | D_created h => line "[kernel] factory: created handle 0x%X" [uns h]
  | D_destroy_factory => line "[kernel] factory: destroy refused for the factory object's own handle" []
  | D_destroy_not_live h =>
      line "[kernel] factory: destroy refused for handle 0x%X, not a live capability" [uns h]
  | D_destroying h => line "[kernel] factory: destroying handle 0x%X" [uns h]
  | D_unknown_method m => line "[kernel] factory: unknown method %u" [uns m]
  | D_invalid_capability h => line "[kernel] kernel_invoke: invalid capability 0x%X" [uns h]
  | D_no_method h m => line "[kernel] kernel_invoke: handle 0x%X has no method %u" [uns h; uns m]
  | D_request_rejected h m =>
      line "[kernel] kernel_invoke: request to handle %u method %u failed structural validation, REJECTED before dispatch"
        [uns h; uns m]
  | D_response_discarded h m =>
      line "[kernel] kernel_invoke: response from handle %u method %u failed structural validation -- object claimed a shape it did not deliver, response DISCARDED"
        [uns h; uns m]
  end.

(** From [mc] to [mc'], only such messages. *)
Definition chats {W} (mc mc' : machine W) : Prop :=
  exists log, mc_out mc' = mc_out mc ++ log /\ Forall (fun c => quiet c = true) log.

(** What holds of the result, if there is one. *)
Definition upto {A} (o : outcome A) (P : A -> Prop) : Prop :=
  match o with Ret x => P x | _ => True end.

(** * Lemmas *)

Lemma upto_bind {A B} (o : outcome A) (k : A -> outcome B) P :
  upto o (fun x => upto (k x) P) -> upto (o ≫= k) P.
Proof. by destruct o. Qed.

Lemma upto_any {A} (o : outcome A) : upto o (fun _ => True).
Proof. by destruct o. Qed.

Lemma upto_mono {A} (o : outcome A) (P Q : A -> Prop) :
  upto o P -> (forall x, P x -> Q x) -> upto o Q.
Proof. destruct o; simpl; auto. Qed.

Lemma upto_ignore {A B} (o : outcome A) (k : A -> outcome B) P :
  (forall x, upto (k x) P) -> upto (o ≫= k) P.
Proof. intros H. apply upto_bind. eapply upto_mono; [apply upto_any|auto]. Qed.

#[export] Instance chats_preorder {W} : PreOrder (@chats W).
Proof.
  split.
  - intros mc. exists []. by rewrite app_nil_r.
  - intros x y z (l1 & H1 & Q1) (l2 & H2 & Q2). exists (l1 ++ l2).
    split; [by rewrite H2, H1, app_assoc|by apply Forall_app].
Qed.

Lemma chats_out {W} (mc mc' mc'' : machine W) : mc_out mc'' = mc_out mc' -> chats mc mc' -> chats mc mc''.
Proof. intros E (l & H & Q). exists l. by rewrite E. Qed.

Lemma chats_say {W} (mc mc' : machine W) s args :
  quiet (line s args) = true -> chats mc mc' -> chats mc (say mc' s args).
Proof.
  intros Hq H. transitivity mc'; [done|]. exists [line s args]. split; [done|]. by apply Forall_singleton.
Qed.

(** ** The loader *)

Lemma run_length (m : memory) p n :
  (forall i, 0 <= i < n -> is_Some (m !! (p + i))) -> n <= Z.of_nat (size m).
Proof.
  intros H. destruct (decide (0 <= n)); [|lia].
  assert (list_to_set (seqZ p n) ⊆ dom m) as Hsub.
  { intros q Hq. apply elem_of_list_to_set, elem_of_seqZ in Hq. apply elem_of_dom.
    replace q with (p + (q - p)) by lia. apply H. lia. }
  apply subseteq_size in Hsub. rewrite size_list_to_set in Hsub by apply NoDup_seqZ.
  rewrite length_seqZ, size_dom in Hsub. lia.
Qed.

Lemma copy_in_reads image src dst n : forall b m m',
  copy_in image src dst n b m = Ret m' ->
  forall i, b <= i < b + Z.of_nat n -> exists x, image (src + i) = Ret x.
Proof.
  induction n as [|n IH]; intros b m m' H i Hi; simpl in H; [lia|].
  apply bind_ret_inv in H as (x & Hx & H). destruct (decide (i = b)) as [->|]; [by exists x|].
  eapply IH; [exact H|lia].
Qed.

(** A name that runs on is stopped by the high byte of a size no larger than
    memory. *)
Lemma segname_ends s : 0 <= filesize s < 2 ^ 56 -> existsb (fun c => c =? 0) (segname_str s) = true.
Proof.
  intros H. unfold segname_str. rewrite !existsb_app.
  assert (existsb (fun c => c =? 0) (le_bytes 8 (filesize s)) = true) as ->; [|by rewrite !orb_true_r].
  rewrite (le_bytes_app 7 1), existsb_app, Z.div_small by (change (8 * Z.of_nat 7) with 56; lia).
  apply orb_true_r.
Qed.

(** Memory as hardware has it: bytes, and fewer than 2^56 of them. *)
Record memory_sane (m : memory) : Prop := {
  ms_bytes : map_Forall (fun _ => is_u8) m;
  ms_size : Z.of_nat (size m) < 2 ^ 56 }.

Lemma upto_rd_le64 rd p : (forall q, upto (rd q) is_u8) -> upto (rd_le64 rd p) is_u64.
Proof.
  intros Hrd. unfold rd_le64. apply upto_bind.
  assert (forall n p, upto (rd_bytes rd p n) (fun l => bytes_ok l /\ length l = n)) as H.
  { clear p. induction n as [|n IH]; intros p; simpl; [by split; [apply Forall_nil|]|].
    apply upto_bind. eapply upto_mono; [apply Hrd|]. intros b Hb.
    apply upto_bind. eapply upto_mono; [apply IH|]. intros l [Hl <-]. split; [|done].
    by apply Forall_cons. }
  eapply upto_mono; [apply H|]. intros l [Hl Hn]. simpl.
  pose proof (le_val_range l Hl) as Hr. by rewrite Hn in Hr.
Qed.

Lemma quiet_segment s dest :
  existsb (fun c => c =? 0) (segname_str s) = true -> quiet (msg_segment s dest) = true.
Proof.
  intros H. unfold msg_segment. generalize (u32 dest), (u32 (filesize s)), (u32 (vmsize s)).
  intros x y z. revert H. generalize (segname_str s). intros str H.
  transitivity (existsb (fun c => c =? 0) str && true && true); [vm_compute; reflexivity|].
  by rewrite H.
Qed.

Lemma wr_le64_sane m p w : memory_sane m -> upto (wr_le64 m p w) memory_sane.
Proof.
  unfold wr_le64. pose proof (le_bytes_ok 8 w) as Hb. revert Hb. generalize (le_bytes 8 w).
  intros bs Hb. revert m p. induction Hb as [|b bs Hb _ IH]; intros m p Hm; [done|]. simpl.
  apply upto_bind. unfold mem_wr. destruct (m !! p) as [x|] eqn:Hx; [|done]. apply IH. split.
  - apply map_Forall_insert_2; [done|apply Hm].
  - rewrite map_size_insert_Some by (by eexists). apply Hm.
Qed.

Lemma fill2_sane a b fa fb n : forall i m,
  memory_sane m -> upto (fill2 a b fa fb n i m) memory_sane.
Proof.
  induction n as [|n IH]; intros i m Hm; [done|]. cbn [fill2].
  do 2 (apply upto_bind; eapply upto_mono; [by apply wr_le64_sane|clear Hm; intros ? Hm]).
  by apply IH.
Qed.

Lemma tables_sane region m :
  memory_sane m -> upto (build_ap_page_tables region m) (fun r => memory_sane r.2).
Proof.
  intros Hm. unfold build_ap_page_tables. cbv zeta.
  apply upto_bind; eapply upto_mono; [by apply fill2_sane|clear Hm; intros ? Hm; cbv beta].
  do 3 (apply upto_bind; eapply upto_mono; [by apply wr_le64_sane|clear Hm; intros ? Hm; cbv beta]).
  apply upto_bind; eapply upto_mono; [by apply fill2_sane|done].
Qed.

Section Loader.
Context (a : arch) (m0 : memory) (at_ : Z) (Hm : memory_sane m0).
Let image : reader := shift_rd (mem_rd m0) at_.

Lemma upto_segment p : upto (rd_segment image p) (fun s => is_u64 (filesize s)).
Proof.
  unfold rd_segment. do 4 (apply upto_ignore; intros ?). apply upto_bind.
  eapply upto_mono; [apply upto_rd_le64|by intros].
  intros q. subst image. unfold shift_rd, mem_rd. destruct (m0 !! _) eqn:E; [|done].
  exact (ms_bytes _ Hm _ _ E).
Qed.

Lemma load_loop_chats slice tb n : forall p m log e,
  upto (load_loop image slice tb n p m log e)
    (fun '(_, log', _) => exists l, log' = log ++ l /\ Forall (fun c => quiet c = true) l).
Proof.
  induction n as [|n IH]; intros p m log e; cbn [load_loop].
  { exists []. by rewrite app_nil_r. }
  do 2 (apply upto_ignore; intros ?). case_if; [|case_if; [apply upto_ignore; intros ?|]; apply IH].
  apply upto_bind. eapply upto_mono; [apply upto_segment|]. intros s Hs. cbv beta zeta.
  case_if; [apply IH|].
  destruct (copy_in _ _ _ _ _ _) as [m1| | |] eqn:Hc; simpl; try done.
  eapply upto_mono; [apply IH|]. intros [[m2 log'] e'] (l & -> & Hl).
  exists (msg_segment s (u64 (tb + vmaddr s)) :: l). split; [by rewrite <- app_assoc|].
  apply Forall_cons. split; [|done].
  assert (filesize s <= Z.of_nat (size m0)) as Hsz.
  { apply (run_length m0 (at_ + (slice + fileoff s))). intros i Hi.
    destruct (copy_in_reads _ _ _ _ _ _ _ Hc i) as [y Hx]; [unfold is_u64 in Hs; lia|].
    subst image. unfold shift_rd, mem_rd in Hx. rewrite Z.add_assoc in Hx.
    destruct (m0 !! _) eqn:Ey; [by eexists|done]. }
  pose proof (ms_size _ Hm). apply quiet_segment, segname_ends. unfold is_u64 in Hs. lia.
Qed.

Lemma macho_load_chats tb m log :
  upto (macho_load a image tb m log)
    (fun '(_, _, log') => exists l, log' = log ++ l /\ Forall (fun c => quiet c = true) l).
Proof.
  assert (forall c, quiet c = true -> exists l, log ++ [c] = log ++ l /\ Forall (fun c => quiet c = true) l)
    as Hone by (intros c Hc; exists [c]; split; [done|by apply Forall_singleton]).
  unfold macho_load. apply upto_ignore. intros slice. case_if; [by apply Hone|].
  apply upto_ignore. intros magic. case_if; [by apply Hone|].
  apply upto_ignore. intros cpu. case_if; [by apply Hone|].
  apply upto_ignore. intros ncmds. cbv zeta. apply upto_bind.
  eapply upto_mono; [apply load_loop_chats|]. intros [[m' log'] e] (l & -> & Hl).
  assert (forall c, quiet c = true -> exists l0, (log ++ l) ++ [c] = log ++ l0 /\ Forall (fun c => quiet c = true) l0)
    as Hend by (intros c Hc; exists (l ++ [c]); split; [by rewrite app_assoc|by apply Forall_app; split; [|apply Forall_singleton]]).
  destruct e as [off|]; [|by apply Hend].
  apply upto_ignore. intros [addr|]; [by exists l|by apply Hend].
Qed.
End Loader.

(** ** The entry points *)

(** What a boot path's end says: the console has grown by messages that
    print; the last one is a panic if the kernel halts, and none is if init
    is entered. *)
Definition announces {W} (mc : machine W) (r : boot_end * machine W) : Prop :=
  match r.1 with
  | Halted => exists mc1 s args, chats mc mc1 /\ r.2 = say mc1 s args /\
      fmt_ok (k_fmt (line s args)) args = true /\ panic (line s args) = true
  | Entered _ _ => chats mc r.2
  end.

(** Runs of messages, as they appear in the code. *)
Ltac chat :=
  repeat (apply chats_say; [vm_compute; reflexivity|]);
  first [assumption | reflexivity | by (eapply chats_out; [|eassumption])].

Section Boot_chats.
Context {W : Type} (sym : symbols) (img : image) (inp : boot_inputs) (search : nat).
Implicit Types mc : machine W.

Lemma halts_with mc mc1 s args :
  chats mc mc1 -> fmt_ok (k_fmt (line s args)) args = true -> panic (line s args) = true ->
  announces mc (Halted, say mc1 s args).
Proof. intros. by exists mc1, s, args. Qed.

Lemma load_init_chats a mc mc1 p tb :
  memory_sane (mc_mem mc1) -> chats mc mc1 -> upto (load_init a mc1 p tb) (fun r => chats mc r.2).
Proof.
  intros Hm H. unfold load_init. apply upto_bind.
  eapply upto_mono; [by apply macho_load_chats|]. intros [[entry m'] log] (l & -> & Hl).
  simpl. transitivity mc1; [done|]. by exists l.
Qed.

Lemma bootstrap_chats a mc mc1 :
  chats mc mc1 -> upto (bootstrap img a mc1) (fun r => chats mc r.2).
Proof.
  intros H. unfold bootstrap. apply upto_ignore. intros [caps k]. simpl. by eapply chats_out.
Qed.

Lemma serial_init_chats mc mc1 :
  chats mc mc1 -> upto (serial_init search mc1) (fun mc' => chats mc mc' /\ mc_mem mc' = mc_mem mc1).
Proof.
  intros H. unfold serial_init. apply upto_ignore. intros f. split; [|done]. by eapply chats_out.
Qed.

Lemma find_table_chats mc mc1 st lo hi :
  chats mc mc1 ->
  upto (efi_find_table mc1 st lo hi) (fun r => chats mc r.2 /\ mc_mem r.2 = mc_mem mc1).
Proof.
  intros H. unfold efi_find_table. case_if; [done|]. do 2 (apply upto_ignore; intros ?).
  case_if; [split; [chat|done]|]. apply upto_ignore. done.
Qed.

Lemma resolve_chats mc mc1 :
  chats mc mc1 ->
  upto (resolve_xnu_boot_params inp mc1) (fun mc' => chats mc mc' /\ mc_mem mc' = mc_mem mc1).
Proof.
  intros H. unfold resolve_xnu_boot_params. cbv zeta. case_if; [done|].
  apply upto_ignore. intros v. case_if; [done|]. apply upto_ignore. intros st.
  apply upto_bind. eapply upto_mono; [apply (find_table_chats mc); chat|].
  intros [fdt mc2] [H2 M2]. simpl in H2, M2. case_if.
  - apply upto_bind. eapply upto_mono; [by apply (find_table_chats mc)|].
    intros [rsdp mc3] [H3 M3]. simpl in H3, M3. case_if; (split; [chat|by simpl; rewrite M3]).
  - apply upto_ignore. intros magic. case_if; [split; [chat|done]|].
    apply upto_ignore. intros size. split; [chat|done].
Qed.

Lemma banks_chat (rs : list fdt_range_t) : forall mc mc1,
  chats mc mc1 ->
  chats mc (foldl bank_lines mc1 rs) /\ mc_mem (foldl bank_lines mc1 rs) = mc_mem mc1.
Proof.
  induction rs as [|r rs IH]; intros mc mc1 H; [done|]. simpl.
  apply (IH mc (bank_lines mc1 r)). unfold bank_lines. chat.
Qed.

Lemma report_chats mc mc1 :
  chats mc mc1 -> upto (report_memory mc1) (fun mc' => chats mc mc' /\ mc_mem mc' = mc_mem mc1).
Proof.
  intros H. unfold report_memory. case_if; [split; [chat|done]|]. case_if; [split; [chat|done]|].
  apply upto_ignore. intros ok. case_if; [split; [chat|done]|]. cbv zeta. apply upto_ignore.
  intros rs. edestruct (banks_chat rs mc) as [H' M']; [|case_if; (split; [|exact M'])]; [chat|chat|done].
Qed.

Lemma kernel_boot_chats mc :
  memory_sane (mc_mem mc) -> upto (kernel_boot sym img inp mc) (announces mc).
Proof.
  intros Hm. unfold kernel_boot. cbv zeta. apply upto_bind. eapply upto_mono.
  { apply (load_init_chats X86_64 mc); [done|]. chat. }
  intros [entry mc1] H1. simpl in H1. case_if; [by apply halts_with|].
  apply upto_bind. eapply upto_mono; [apply (bootstrap_chats X86_64 mc)|].
  { eapply chats_out; [reflexivity|]. apply chats_say; [vm_compute; reflexivity|exact H1]. }
  intros [caps mc2] H2. simpl in H2. apply upto_ignore. intros len.
  apply upto_ignore. intros ram. apply upto_ignore. intros rsdp. apply upto_ignore. intros free.
  simpl. apply chats_say; [vm_compute; reflexivity|].
  assert (forall mc3, chats mc mc3 -> chats mc (match free with
    | Some (b, sz) => say mc3 "[kernel] largest free region (>= 0x%X, from GRUB's real EFI memory map): base 0x%X, size 0x%X (%u MiB)"
        [uns (KERNEL_LOAD_BASE X86_64); uns b; uns sz; uns (sz / MIB)]
    | None => say mc3 "[kernel] no free region discoverable from boot_args -- falling back to this project's own fixed layout" []
    end)) as Hfree by (intros mc3 H3; destruct free as [[b sz]|]; chat).
  apply Hfree. destruct (rsdp =? 0), (g_xnu_boot_args_addr inp =? 0), (ram =? 0), (len =? 0); chat.
Qed.

(** Reading the nine or ten words of the discovery record says nothing. *)
Ltac no_word := repeat (apply upto_ignore; intros ?).

Lemma kernel_boot_ap_chats mc region :
  memory_sane (mc_mem mc) -> upto (kernel_boot_ap sym img mc region) (announces mc).
Proof.
  intros Hm. unfold kernel_boot_ap. cbv zeta. apply upto_bind. eapply upto_mono.
  { apply tables_sane. exact Hm. }
  intros [pml4 m1] Hm1. simpl in Hm1. apply upto_bind. eapply upto_mono.
  { apply (load_init_chats X86_64 mc); [exact Hm1|].
    apply chats_say; [vm_compute; reflexivity|]. eapply chats_out; [reflexivity|]. chat. }
  intros [entry mc1] H1. simpl in H1. case_if; [by apply halts_with|].
  apply upto_bind. eapply upto_mono; [by apply (bootstrap_chats X86_64 mc)|].
  intros [caps mc2] H2. simpl in H2. no_word. simpl. chat.
Qed.

Lemma kernel_boot_aarch64_chats mc :
  memory_sane (mc_mem mc) -> upto (kernel_boot_aarch64 sym img inp search mc) (announces mc).
Proof.
  intros Hm. unfold kernel_boot_aarch64. cbv zeta.
  apply upto_bind. eapply upto_mono; [by apply (serial_init_chats mc mc)|]. intros mc1 [H1 M1].
  apply upto_bind. eapply upto_mono; [apply (resolve_chats mc); chat|]. intros mc2 [H2 M2].
  apply upto_bind. eapply upto_mono; [by apply (report_chats mc)|]. intros mc3 [H3 M3].
  apply upto_bind. eapply upto_mono; [apply (load_init_chats AARCH64 mc); [|chat]|].
  { simpl. rewrite M3, M2. simpl. by rewrite M1. }
  intros [entry mc4] H4. simpl in H4. case_if; [by apply halts_with|].
  apply upto_bind. eapply upto_mono; [apply (bootstrap_chats AARCH64 mc); chat|].
  intros [caps mc5] H5. simpl in H5. no_word. simpl. case_if; chat.
Qed.

Lemma boot_protocol_chats mc :
  upto (kernel_boot_aarch64_boot_protocol sym img inp search mc) (announces mc).
Proof.
  unfold kernel_boot_aarch64_boot_protocol. cbv zeta.
  apply upto_bind. eapply upto_mono; [by apply (serial_init_chats mc mc)|]. intros mc1 [H1 _].
  case_if; [apply halts_with; [chat|done|done]|].
  apply upto_bind. eapply upto_mono; [apply (bootstrap_chats AARCH64 mc); chat|].
  intros [caps mc2] H2. simpl in H2 |- *. chat.
Qed.

Lemma ap_shared_chats mc handoff :
  upto (kernel_boot_ap_shared_aarch64 sym img search mc handoff) (announces mc).
Proof.
  unfold kernel_boot_ap_shared_aarch64. cbv zeta.
  apply upto_bind. eapply upto_mono; [by apply (serial_init_chats mc mc)|]. intros mc1 [H1 _].
  apply upto_ignore. intros complete. case_if; [by apply halts_with|].
  apply upto_bind. eapply upto_mono; [by apply (bootstrap_chats AARCH64 mc)|].
  intros [caps mc2] H2. simpl in H2. do 5 (apply upto_ignore; intros ?).
  apply upto_ignore. intros info. simpl. apply chats_say; [vm_compute; reflexivity|].
  by eapply chats_out.
Qed.

Lemma ap_aarch64_chats mc region :
  memory_sane (mc_mem mc) -> upto (kernel_boot_ap_aarch64 sym img search mc region) (announces mc).
Proof.
  intros Hm. unfold kernel_boot_ap_aarch64. cbv zeta.
  apply upto_bind. eapply upto_mono; [by apply (serial_init_chats mc mc)|]. intros mc1 [H1 M1].
  apply upto_bind. eapply upto_mono; [apply (load_init_chats AARCH64 mc); [|chat]|].
  { simpl. by rewrite M1. }
  intros [entry mc2] H2. simpl in H2. case_if; [by apply halts_with|].
  apply upto_bind. eapply upto_mono; [by apply (bootstrap_chats AARCH64 mc)|].
  intros [caps mc3] H3. simpl in H3. no_word. simpl. chat.
Qed.

End Boot_chats.

(** * What a boot says *)

(** The end of a boot and the messages it printed: a halt is announced by
    the last message and by no other, and init is entered without one. *)
Definition tells (e : boot_end) (log : list kcall) : Prop :=
  match e with
  | Halted => exists before c, log = before ++ [c] /\ panic c = true /\
      Forall (fun c => panic c = false) before
  | Entered _ _ => Forall (fun c => panic c = false) log
  end.

Lemma quiet_spec c : quiet c = true <-> call_ok c /\ panic c = false.
Proof. unfold quiet, call_ok. by rewrite andb_true_iff, negb_true_iff. Qed.

Lemma announces_tells {W} (mc : machine W) e mc' :
  announces mc (e, mc') ->
  exists log, mc_out mc' = mc_out mc ++ log /\ Forall call_ok log /\ tells e log.
Proof.
  assert (forall l, Forall (fun c => quiet c = true) l ->
    Forall call_ok l /\ Forall (fun c => panic c = false) l) as Hsplit.
  { intros l Hl. apply Forall_and. eapply Forall_impl; [exact Hl|]. intros c. apply quiet_spec. }
  unfold announces. destruct e; cbn [fst snd].
  - intros (mc1 & s & args & (l & E & Hl) & -> & Hok & Hp). apply Hsplit in Hl as [Ho Hq].
    exists (l ++ [line s args]). split; [simpl; by rewrite E, app_assoc|]. split.
    + apply Forall_app. split; [done|]. by apply Forall_singleton.
    + by exists l, (line s args).
  - intros (l & E & Hl). apply Hsplit in Hl as [Ho Hq]. by exists l.
Qed.

Lemma boot_announces {W} sym img inp search p (mc : machine W) :
  memory_sane (mc_mem mc) -> upto (boot sym img inp search p mc) (announces mc).
Proof.
  intros Hm. destruct p.
  - by apply kernel_boot_chats.
  - by apply kernel_boot_ap_chats.
  - by apply kernel_boot_aarch64_chats.
  - apply boot_protocol_chats.
  - apply ap_shared_chats.
  - by apply ap_aarch64_chats.
Qed.

(** C33. Whichever way a core is booted, on any machine whatever its memory
    holds, what it says on the console is well formed: every message has the
    arguments its format asks for, so that the whole of it is sent, and the
    log is only ever extended.  If the kernel halts instead of entering init,
    the last message is a panic and none before it is; if it enters init, none
    is. *)
Theorem boot_console {W} sym img inp search p (mc : machine W) e mc' :
  memory_sane (mc_mem mc) ->
  boot sym img inp search p mc = Ret (e, mc') ->
  exists log out,
    mc_out mc' = mc_out mc ++ log /\ Forall call_ok log /\
    transcript log = Ret out /\ tells e log.
Proof.
  intros Hm H. pose proof (boot_announces sym img inp search p mc Hm) as Ha. rewrite H in Ha.
  apply announces_tells in Ha as (log & E & Hok & Ht).
  destruct (transcript_total log Hok) as [out Hout]. by exists log, out.
Qed.

Lemma diags_print (ds : list diag) : exists out, transcript (diag_call <$> ds) = Ret out.
Proof.
  apply transcript_total, Forall_fmap, Forall_true. intros d. by destruct d; vm_compute.
Qed.

(** * An example: a loader that gave no entry point *)

Definition ex_no_entry : boot_inputs := {|
  g_xnu_boot_args_addr := 0; g_boot_x0 := 0; g_init_description_phys := 0x41880000;
  g_init_entry_phys := 0 |}.

Lemma boot_console_witness :
  exists mc' log out,
    boot ex_sym ex_img ex_no_entry 1 Boot_protocol_aarch64 (ex_machine_at ∅ 0) = Ret (Halted, mc') /\
    mc_out mc' = log /\ transcript log = Ret out /\
    exists before c, log = before ++ [c] /\ panic c = true.
Proof.
  assert (memory_sane (mc_mem (ex_machine_at ∅ 0))) as Hm
    by (split; [apply map_Forall_empty|by vm_compute]).
  eassert (boot ex_sym ex_img ex_no_entry 1 Boot_protocol_aarch64 (ex_machine_at ∅ 0) = Ret (Halted, _))
    as H by reflexivity.
  destruct (boot_console ex_sym ex_img ex_no_entry 1 Boot_protocol_aarch64 (ex_machine_at ∅ 0) Halted _ Hm H)
    as (log & out & E & _ & Ht & before & c & El & Hp & _).
  eexists _, log, out. split; [exact H|]. split; [exact E|]. split; [exact Ht|]. by exists before, c.
Defined.
