(* ===== verification/EntryX86Boot.v ===== *)
(** Booting on x86_64 from the first instruction: what kernel/boot.S hands to
    [kernel_boot], and the two together up to init. *)
From S2P Require Import Prelude CMem Schema Capnp Validate Cap CapProps CapInvoke CapBoot.
From S2P Require Import Fdt Uart Macho MachoProps Efi EfiProps SmpLayout PageTables Boot BootProps BootBsp.
From S2P Require Import EntryX86 EntryX86Steps.

(** * The handoff *)

(** A link of the kernel below 4 GiB, the boot-arguments variable apart from
    the tables, the stack and the GDT. *)
Record placed (lay : x86_layout) : Prop := {
  pl_base : 0 <= _boot_pml4 lay;
  pl_align : _boot_pml4 lay mod 4096 = 0;
  pl_end : gdt64 lay + 30 <= 2 ^ 32;
  pl_args : 0 <= _g_xnu_boot_args_addr lay /\ _g_xnu_boot_args_addr lay + 4 <= 2 ^ 32;
  pl_apart : _g_xnu_boot_args_addr lay + 4 <= _boot_pml4 lay \/
    gdt64 lay + 30 <= _g_xnu_boot_args_addr lay;
  pl_cr0 : 0 <= ip_cr0 lay < 2 ^ 32;
  pl_long : 0 <= long_mode_entry_at lay < 2 ^ 32;
  pl_boot : 0 <= _kernel_boot_at lay < 2 ^ 32 }.

Definition args_var lay (q : Z) : Prop :=
  _g_xnu_boot_args_addr lay <= q < _g_xnu_boot_args_addr lay + 4.

(** The machine as GRUB hands it over: 32-bit protected mode without paging,
    the image loaded, and a stack that is none of the data the entry code
    works on. *)
Record handoff (lay : x86_layout) (s : x86) : Prop := {
  ho_flat : paging s = false;
  ho_protected : Z.testbit (cregs s CR0) CR0_PE = true;
  ho_levels : Z.testbit (cregs s CR4) CR4_LA57 = false;
  ho_lma : lma s = false;
  ho_efer : is_u64 (efer s);
  ho_eax : is_u32 (regs s EAX);
  ho_data : mapped (mem s) (_boot_pml4 lay) 90112;
  ho_gdt : holds (mem_rd (mem s)) (gdt64 lay) (gdt64_bytes lay);
  ho_args : mapped (mem s) (_g_xnu_boot_args_addr lay) 4;
  ho_sp : 8 <= regs s SP < 2 ^ 32;
  ho_stack : mapped (mem s) (regs s SP - 8) 8;
  ho_stack_apart : forall q, regs s SP - 8 <= q < regs s SP ->
    ~ in_tables (_boot_pml4 lay) q /\ ~ (gdt64 lay <= q < gdt64 lay + 30) /\ ~ args_var lay q }.

(** What the entry code writes, entered with the stack at [sp]. *)
Definition entry_writes lay (sp q : Z) : Prop :=
  in_tables (_boot_pml4 lay) q \/ args_var lay q \/ gdt64 lay + 8 <= q < gdt64 lay + 24 \/
  sp - 8 <= q < sp \/ _stack_top lay - 8 <= q < _stack_top lay.

(** What [kernel_boot] is called with. *)
Record called lay (s s' : x86) : Prop := {
  ca_mode : mode64 s' = true;
  ca_if : eflags_if s' = false;
  ca_segments : forall sr, sregs s' sr = 0x10;
  ca_sp : regs s' SP = _stack_top lay - 8 /\ regs s' SP mod 16 = 8;
  ca_return : word_in (mem s') (_stack_top lay - 8) (ra_boot lay);
  ca_args : rd_le32 (mem_rd (mem s')) (_g_xnu_boot_args_addr lay) = Ret (regs s EAX);
  ca_tables : on_tables (_boot_pml4 lay) s';
  ca_frame : frame (entry_writes lay (regs s SP)) (mem s) (mem s') }.

(** After the 32-bit part. *)
Record prepared lay (s s' : x86) : Prop := {
  pr_tbl : tbl (_boot_pml4 lay) (mem s') (boot_map (_boot_pml4 lay));
  pr_args : holds (mem_rd (mem s')) (_g_xnu_boot_args_addr lay) (le_bytes 4 (regs s EAX));
  pr_frame : frame (fun q => in_tables (_boot_pml4 lay) q \/ args_var lay q \/ regs s SP - 8 <= q < regs s SP)
    (mem s) (mem s');
  pr_cregs : cregs s' = cregs s;
  pr_efer : efer s' = efer s;
  pr_if : eflags_if s' = false }.

Section Entry.
Context (lay : x86_layout) (s : x86) (Hlay : placed lay) (Hs : handoff lay s).

Lemma gdt64_val : gdt64 lay = _boot_pml4 lay + 90112.
Proof. unfold gdt64, _stack_top, stack_bottom. lia. Qed.

Lemma placed_base : 0 <= _boot_pml4 lay /\ _boot_pml4 lay + 24576 <= 2 ^ 32.
Proof. pose proof gdt64_val. destruct Hlay. lia. Qed.

Lemma wp_early (Q : x86 -> Prop) :
  (forall s', prepared lay s s' -> wp (run [enter_long_mode lay; long_mode_entry lay] s') Q) ->
  wp (_start lay s) Q.
Proof.
  intros HQ. pose proof gdt64_val as Eg. pose proof placed_base as Hb. destruct Hlay, Hs. unfold args_var in *.
  rename ho_stack_apart0 into Hdis. unfold _start. apply wp_run_cons, wp_ret, wp_run_cons. unfold movl_store. cbn [set_reg regs reg_eqb].
  rewrite Z.add_0_r, !(u32_small (_g_xnu_boot_args_addr lay)) by ulia.
  apply wp_store_flat; [done|by rewrite length_le_bytes|]. rewrite length_le_bytes.
  change (Z.of_nat 4) with 4. cbn [set_reg mem]. intros m1 H1 F1.
  apply wp_run_cons, wp_ret, wp_run_cons. apply wp_call; [done|cbn; lia| |].
  { cbn. eapply frame_mapped; [exact F1|]. eapply mapped_mono; [exact ho_stack0|lia..]. }
  cbn [set_reg set_mem set_if mem regs reg_eqb]. intros m2 F2.
  apply (wp_setup (_boot_pml4 lay) Hb); [done|done|done|cbn; lia|..]; cbn [set_mem set_reg mem regs reg_eqb].
  - eapply frame_mapped; [exact F2|]. eapply frame_mapped; [exact F1|].
    eapply mapped_mono; [exact ho_data0|lia..].
  - eapply frame_mapped; [exact F2|]. eapply frame_mapped; [exact F1|].
    eapply mapped_mono; [exact ho_stack0|lia..].
  - intros q Hq. apply Hdis. unfold slot in Hq. cbn in Hq. lia.
  - intros s' Ht F3 Hc. unfold slot in F3. cbn in F3. split; [|split; [|split]].
    + eexists. split; [exact F3|]. intros q Hq [Hq'|Hq']; [|lia]. by destruct (Hdis q) as (? & ? & ?); [lia|].
    + by rewrite (sc_regs _ _ _ Hc) by (rewrite !elem_of_cons, elem_of_nil; intuition discriminate).
    + rewrite (same_cpu_paging _ _ _ Hc). done.
    + apply HQ. destruct Hc as [_ Ec _ Ee Ei _ _]. split; [done| | |done..]; cbn [set_reg mem].
      * eapply frame_holds; [exact F3|eapply frame_holds; [exact F2|exact H1|]|];
          rewrite length_le_bytes; intros q Hq Hq'; [destruct (Hdis q) as (? & ? & ?); lia|].
        destruct Hq' as [Hq'|Hq']; [unfold in_tables in Hq'; lia|]. destruct (Hdis q) as (? & ? & ?); lia.
      * transitivity m2; [transitivity m1|]; (eapply frame_mono; [eassumption|]); intros q Hq; simpl in Hq;
          unfold args_var; [lia|lia|destruct Hq; [tauto|lia]].
Qed.

Lemma entry_runs : wp (_start lay s) (called lay s).
Proof.
  apply wp_early. intros s1 [Ht Ha F Ec Ee Ei]. pose proof gdt64_val as Eg. pose proof placed_base as Hb.
  destruct Hlay, Hs. unfold args_var in *. rename ho_stack_apart0 into Hdis.
  apply wp_run_cons, (wp_enter (_boot_pml4 lay) Hb pl_align0); [done|..].
  1-5: unfold paging, lma in *; by rewrite ?Ec, ?Ee.
  - done.
  - eapply frame_holds; [exact F|exact ho_gdt0|]. intros q Hq.
    change (Z.of_nat (length (gdt64_bytes lay))) with 30 in Hq.
    intros [Hq'|[Hq'|Hq']]; [unfold in_tables in Hq'; lia|lia|]. destruct (Hdis q) as (? & ? & ?); lia.
  - done.
  - done.
  - done.
  - intros s2 Ht2 M2 G2 W2 F2 I2.
    apply wp_run_cons, (wp_long_mode_entry (_boot_pml4 lay) Hb pl_align0); [done..| |].
    { eapply frame_mapped; [exact F2|]. eapply frame_mapped; [exact F|].
      eapply mapped_mono; [exact ho_data0|unfold gdt64 in *; lia..]. }
    intros s3 Ht3 M3 I3 S3 P3 R3 F3. apply wp_ret. split; try done.
    + by rewrite I3, I2.
    + split; [done|]. rewrite P3. change (_stack_top lay) with (gdt64 lay). rewrite Eg.
      Z.to_euclidean_division_equations; lia.
    + assert (holds (mem_rd (mem s3)) (_g_xnu_boot_args_addr lay) (le_bytes 4 (regs s EAX))) as Ha3.
      { eapply frame_holds; [exact F3|eapply frame_holds; [exact F2|exact Ha|]|];
          rewrite length_le_bytes; intros q Hq Hq'; [|change (_stack_top lay) with (gdt64 lay) in Hq']; lia. }
      apply rd_bytes_holds in Ha3. rewrite length_le_bytes in Ha3. unfold rd_le32.
      rewrite Ha3, ret_bind, le_val_bytes. f_equal. by apply Z.mod_small.
    + transitivity (mem s2); [transitivity (mem s1)|]; (eapply frame_mono; [eassumption|]);
        intros q Hq; simpl in Hq; unfold entry_writes, args_var; [tauto|lia|lia].
Qed.

End Entry.

(** * From the first instruction to init *)

(** The entry code, then [kernel_boot] on the memory it leaves, with the boot
    arguments it saved. *)
Definition boot_x86_64 {W} (lay : x86_layout) (sym : symbols) (img : image) (s : x86) (mc : machine W)
    : outcome (boot_end * machine W) :=
  s ← _start lay s;
  args ← rd_le32 (mem_rd (mem s)) (_g_xnu_boot_args_addr lay);
  kernel_boot sym img {| g_xnu_boot_args_addr := args; g_boot_x0 := 0;
    g_init_description_phys := 0; g_init_entry_phys := 0 |} (with_cr3 (with_mem mc (mem s)) (cregs s CR3)).

#[export] Instance entry_writes_dec lay sp q : Decision (entry_writes lay sp q).
Proof. unfold entry_writes, in_tables, args_var. apply _. Defined.

(** What is readable and not written by the entry code. *)
Definition unwritten lay (s : x86) : reader := fun q =>
  if decide (entry_writes lay (regs s SP) q) then Fault q else mem_rd (mem s) q.

Lemma unwritten_after lay s m' :
  frame (entry_writes lay (regs s SP)) (mem s) m' -> extends (unwritten lay s) (mem_rd m').
Proof.
  intros Hf q b. unfold unwritten. case_decide; [done|]. unfold mem_rd. by rewrite (fr_out _ _ _ Hf).
Qed.

Lemma extends_outside_mono p n rd rd' : extends rd rd' -> extends (outside p n rd) (outside p n rd').
Proof. intros H q b. unfold outside. case_if; [done|apply H]. Qed.

(** C13. A core that GRUB starts at [_start], in 32-bit protected mode, ends up
    in init, in 64-bit mode, on a machine init can use.  Suppose the kernel is
    linked below 4 GiB, the boot arguments are behind EAX, and the init image,
    the kernel's own Mach-O image and the firmware's tables lie where neither
    the entry code nor the loader writes.  Then every instruction of the entry
    code goes through - no store, return, mode change, descriptor or fetch
    faults - and [kernel_boot] enters init inside the memory init was linked
    for.  Interrupts are off from the entry code on; the page tables in force
    are the ones init is told about, and they map the first 4 GiB, memory and
    devices alike, to themselves and nothing above; and the rest of the block
    describes this machine. *)
Theorem boot_x86_64_correct {W} lay sym img s (mc : machine W) bs slice cs off kslice kcs ds es ram :
  placed lay -> handoff lay s -> boot_pml4 sym = _boot_pml4 lay ->
  let span := (BSP_INIT_LOAD_BASE X86_64, CORE_INIT_MAX_SIZE) in
  (_boot_pml4 lay + 24576 <= span.1 \/ span.1 + span.2 <= _boot_pml4 lay) ->
  init_image X86_64 bs slice cs off -> holds (unwritten lay s) (g_embedded_init_start sym) bs ->
  let rest := outside span.1 span.2 (unwritten lay s) in
  native_image X86_64 (shift_rd rest (KERNEL_LOAD_BASE X86_64)) kslice kcs ->
  Forall (fun s => is_u64 (vmaddr s) /\ is_u64 (vmaddr s + vmsize s)) (segments kcs) ->
  firmware_at rest (regs s EAX) ds es ram ->
  copied_statics img (mc_k mc) -> g_factory_table_at img <> 0 ->
  exists s' entry info mc',
    _start lay s = Ret s' /\ called lay s s' /\
    boot_x86_64 lay sym img s mc = Ret (Entered entry info, mc') /\
    span.1 <= entry < span.1 + span.2 /\
    (mc_cr3 mc' = bi_pml4_phys info /\
     (forall va, 0 <= va < 2 ^ 32 -> page_walk (mc_mem mc') (bi_pml4_phys info) va = Ret (Some va)) /\
     (forall va, 2 ^ 32 <= va < 2 ^ 48 -> page_walk (mc_mem mc') (bi_pml4_phys info) va = Ret None)) /\
    bi_ram_size info = ram /\ bi_early_rsdp_phys info = acpi_root ds es /\
    bi_kernel_image_addr info = KERNEL_LOAD_BASE X86_64 /\
    bi_kernel_image_len info = image_span (segments kcs) /\
    g_init_image_addr mc' = u32 (g_embedded_init_start sym) /\
    factory_handle (bi_caps info) = g_factory_record_at img /\ bootstrapped img (mc_k mc').
Proof.
  intros Hlay Hs Epml span Hap Himg Hh rest Hk Hu Hfw Hst Hft.
  destruct (wp_inv _ _ (entry_runs lay s Hlay Hs)) as (s' & Hrun & Hc).
  pose proof (unwritten_after _ _ _ (ca_frame _ _ _ Hc)) as Hext.
  pose proof (extends_outside_mono span.1 span.2 _ _ Hext) as Hrest.
  set (inp := {| g_xnu_boot_args_addr := regs s EAX; g_boot_x0 := 0;
    g_init_description_phys := 0; g_init_entry_phys := 0 |}).
  destruct (bsp_boot_x86_64_correct sym img inp (with_cr3 (with_mem mc (mem s')) (cregs s' CR3))
    bs slice cs off kslice kcs ds es ram)
    as (entry & info & mc' & H & He & Hout & H1 & H2 & H3 & H4 & _ & _ & H5 & [H6 H6'] & H7 & H8).
  - done.
  - by eapply holds_ext.
  - eapply native_image_ext; [|exact Hk]. by apply extends_shift.
  - done.
  - by eapply firmware_at_ext.
  - done.
  - done.
  - exists s', entry, info, mc'. split; [done|]. split; [done|]. split.
    { unfold boot_x86_64. by rewrite Hrun, ret_bind, (ca_args _ _ _ Hc), ret_bind. }
    split; [done|]. split; [|done].
    assert (tbl (_boot_pml4 lay) (mc_mem mc') (boot_map (_boot_pml4 lay))) as Ht.
    { intros k Hk3. eapply holds_same_outside; [exact Hout|apply (ot_tbl _ _ (ca_tables _ _ _ Hc) k Hk3)|].
      rewrite length_le_bytes. simpl in *. lia. }
    rewrite H6, H6', Epml. split; [apply (ot_cr3 _ _ (ca_tables _ _ _ Hc))|].
    pose proof (placed_base lay Hlay) as Hb. pose proof (pl_align _ Hlay) as Hal.
    split; [by apply boot_walk|by apply boot_walk_fault].
Qed.

(** * An example *)

Definition ex_layout : x86_layout := {|
  _boot_pml4 := 0x1040000; _g_xnu_boot_args_addr := 0x1060000;
  long_mode_entry_at := 0x1001100; _kernel_boot_at := 0x1001200;
  ra_setup := 0x1001010; ra_fill := fun i => 0x1001080 + 16 * i; ra_boot := 0x1001130;
  ip_cr4 := 0x1001018; ip_cr3 := 0x1001020; ip_cr0 := 0x1001030 |}.

(** The sample machine of BootBsp.v, with storage for the kernel's data. *)
Definition ex_entry_memory : memory :=
  place (gdt64 ex_layout) (gdt64_bytes ex_layout)
    (mc_mem ex_bsp_x86 ∪ filled 0x1040000 0x30000 0).

Definition ex_handoff : x86 := {|
  regs r := match r with EAX => 4096 | SP => 0x1070000 | _ => 0 end;
  cregs c := match c with CR0 => 0x11 | _ => 0 end; sregs _ := 0x18;
  efer := 0; eflags_if := true; gdtr := (0, 0); cs_long := false; mem := ex_entry_memory |}.

Lemma ex_low q b : mc_mem ex_bsp_x86 !! q = Some b -> q < 0x1040000 \/ 0x1070000 <= q.
Proof.
  revert q b. change (map_Forall (fun q _ => q < 0x1040000 \/ 0x1070000 <= q) (mc_mem ex_bsp_x86)).
  refine (bool_decide_unpack _ _). vm_compute. exact I.
Qed.

Lemma ex_kept q b : mc_mem ex_bsp_x86 !! q = Some b -> ex_entry_memory !! q = Some b.
Proof.
  intros E. pose proof (ex_low _ _ E) as Hq. unfold ex_entry_memory. revert E.
  generalize (mc_mem ex_bsp_x86), (filled 0x1040000 0x30000 0). intros small big E.
  rewrite place_outside; [by apply lookup_union_Some_l|].
  change (gdt64 ex_layout) with 0x1056000. change (Z.of_nat (length _)) with 30. lia.
Qed.

Lemma ex_unwritten : extends (mem_rd (mc_mem ex_bsp_x86)) (unwritten ex_layout ex_handoff).
Proof.
  intros q b H. apply mem_rd_Some in H. pose proof (ex_low _ _ H) as Hq. unfold unwritten. rewrite decide_False.
  - apply mem_rd_Some, ex_kept, H.
  - unfold entry_writes, in_tables, args_var. change (gdt64 ex_layout) with 0x1056000.
    change (_stack_top ex_layout) with 0x1056000. cbn [_boot_pml4 _g_xnu_boot_args_addr ex_layout regs ex_handoff]. lia.
Qed.

Lemma ex_storage p n : 0x1040000 <= p -> p + n <= 0x1070000 -> mapped ex_entry_memory p n.
Proof.
  intros Hp Hn. apply mapped_place. intros q Hq. apply lookup_union_is_Some. right.
  apply mapped_filled. lia.
Qed.

Lemma ex_handoff_ok : handoff ex_layout ex_handoff.
Proof.
  split; unfold paging, lma; cbn [cregs efer regs mem ex_handoff];
    [reflexivity|reflexivity|reflexivity|reflexivity|by_compute|by_compute| | | |by_compute| |].
  - apply ex_storage; by_compute.
  - apply holds_place.
  - apply ex_storage; by_compute.
  - apply ex_storage; by_compute.
  - intros q Hq. unfold in_tables, args_var. change (gdt64 ex_layout) with 0x1056000.
    cbn [_boot_pml4 _g_xnu_boot_args_addr ex_layout]. lia.
Qed.

Lemma boot_x86_64_correct_witness :
  exists entry info mc', boot_x86_64 ex_layout ex_sym_x86 ex_img ex_handoff ex_bsp_x86 =
      Ret (Entered entry info, mc') /\
    page_walk (mc_mem mc') (mc_cr3 mc') 0xFEE00000 = Ret (Some 0xFEE00000) /\
    bi_ram_size info = 0x40000000 /\ bi_early_rsdp_phys info = 0x7F014.
Proof.
  destruct (boot_x86_64_correct ex_layout ex_sym_x86 ex_img ex_handoff ex_bsp_x86 (ex_init X86_64) 0
    (ex_init_cmds X86_64) 202 0 (ex_init_cmds X86_64) ex_descs ex_entries 0x40000000)
    as (s' & entry & info & mc' & _ & _ & H & _ & (Hcr & Hid & _) & Hram & Hrsdp & _).
  - split; by_compute || (vm_compute; right; discriminate).
  - apply ex_handoff_ok.
  - reflexivity.
  - left. by_compute.
  - apply ex_init_image.
  - eapply holds_ext; [exact ex_unwritten|]. apply rd_bytes_holds_inv. vm_compute. reflexivity.
  - eapply native_image_ext; [|apply (ex_init_image X86_64)].
    apply extends_holds. eapply holds_ext; [apply extends_outside_mono, ex_unwritten|].
    apply rd_bytes_holds_inv. vm_compute. reflexivity.
  - repeat constructor; by_compute.
  - eapply firmware_at_ext; [apply extends_outside_mono, ex_unwritten|apply ex_firmware_x86].
  - exists dead_record, null_table. by repeat split.
  - done.
  - exists entry, info, mc'. split; [exact H|]. split; [rewrite Hcr; apply Hid; by_compute|].
    split; [exact Hram|]. rewrite Hrsdp. by vm_compute.
Defined.
