(* ===== verification/EntryArm64Boot.v ===== *)
(** Booting on AArch64 from the first instruction: the entry points of
    arch/boot_aarch64.S and the C functions they branch to, together. *)
From S2P Require Import Prelude CMem Schema Capnp Validate Cap CapProps CapInvoke CapBoot.
From S2P Require Import Fdt FdtTree FdtBlob FdtSearch FdtReg FdtEdge Uart UartTree.
From S2P Require Import Macho MachoProps Efi EfiProps SmpLayout PageTables Boot BootProps BootBsp.
From S2P Require Import EntryArm64.

(** * The two together *)

Section Whole.
Context {W : Type} (lay : a64_layout) (sym : symbols) (img : image) (search : nat).
Implicit Types mc : machine W.

(** From [_start]; the C code reads the variables the entry code set. *)
Definition boot_from_start (s : a64) mc : outcome (boot_end * machine W) :=
  s ← real_start lay s;
  let var p := rd_le64 (mem_rd (a_mem s)) p in
  x0 ← var (at_g_boot_x0 lay);
  fdt ← var (at_g_fdt_blob_phys lay);
  size ← var (at_g_fdt_blob_size lay);
  kernel_boot_aarch64 sym img {| g_xnu_boot_args_addr := 0; g_boot_x0 := x0;
    g_init_description_phys := 0; g_init_entry_phys := 0 |} search (with_fdt (with_mem mc (a_mem s)) fdt size).

(** From [boot_protocol_start]. *)
Definition boot_from_protocol (s : a64) mc : outcome (boot_end * machine W) :=
  s ← boot_protocol_start lay s;
  let var p := rd_le64 (mem_rd (a_mem s)) p in
  x0 ← var (at_g_boot_x0 lay);
  fdt ← var (at_g_fdt_blob_phys lay);
  size ← var (at_g_fdt_blob_size lay);
  desc ← var (at_g_init_description_phys lay);
  entry ← var (at_g_init_entry_phys lay);
  kernel_boot_aarch64_boot_protocol sym img {| g_xnu_boot_args_addr := 0; g_boot_x0 := x0;
    g_init_description_phys := desc; g_init_entry_phys := entry |} search
    (with_fdt (with_mem mc (a_mem s)) fdt size).

(** From [kernel_boot_ap], in the core's own copy of the image. *)
Definition boot_from_ap (s : a64) mc : outcome (Z * (boot_end * machine W)) :=
  s ← ap_start s;
  r ← kernel_boot_ap_aarch64 sym img search mc (xregs s X0);
  Ret (a_sp s, r).

(** From [kernel_boot_ap_shared]: the entry code loads the stack pointer from
    the block behind x0, and C gets the same address. *)
Definition boot_from_ap_shared (s : a64) mc : outcome (Z * (boot_end * machine W)) :=
  s ← ap_shared_start s;
  r ← kernel_boot_ap_shared_aarch64 sym img search (with_mem mc (a_mem s)) (xregs s X0);
  Ret (a_sp s, r).

(** * From [_start] *)

(** What neither the entry code nor the loader writes. *)
Definition kept (m : memory) : reader := fun q =>
  if decide (in_vars lay q \/ in_bss lay q) then Fault q else mem_rd m q.

Lemma kept_after s s' vars : entered lay s s' vars -> extends (kept (a_mem s)) (mem_rd (a_mem s')).
Proof.
  intros [_ _ Hf] q b. unfold kept. case_decide; [done|]. unfold mem_rd. by rewrite (fr_out _ _ _ Hf).
Qed.

Lemma entered_var s s' vars p w :
  entered lay s s' vars -> (p, w) ∈ vars -> is_u64 w -> rd_le64 (mem_rd (a_mem s')) p = Ret w.
Proof.
  intros [Hv _ _] Hin Hw. rewrite Forall_forall in Hv. exact (rd_word_in _ _ _ Hw (Hv _ Hin)).
Qed.

Lemma kept_outside m : extends (kept m) (outside (at_g_fdt_blob_phys lay) 40 (mem_rd m)).
Proof.
  intros q b. unfold kept, outside. case_decide as Hq; [done|]. case_if; [|done]. breflect.
  exfalso. apply Hq. left. unfold in_vars. lia.
Qed.

Lemma captured_ok n : bytes_ok (be_bytes 4 FDT_MAGIC ++ be_bytes 4 n).
Proof. apply Forall_app. split; apply be_bytes_ok. Qed.

Section Tree.
Context (root : tree) (strings : list Z) (rs : list fdt_range_t) (names : Z -> list Z) (pad : list Z).

(** The header of an encoded tree is what the entry code looks for. *)
Lemma captured_tree x0 :
  x0 <> 0 -> described root strings rs names ->
  captured x0 (be_bytes 4 FDT_MAGIC ++ be_bytes 4 (total_len root strings rs)) =
    (x0, total_len root strings rs) /\ 0 <= total_len root strings rs < 2 ^ 32.
Proof.
  intros Hx Hde. assert (0 <= total_len root strings rs < 2 ^ 32) as Hb.
  { pose proof (bw_size _ _ _ (de_wf _ _ _ _ Hde)). rewrite <- blen_blob in *. unfold blen in *. lia. }
  split; [|done]. unfold captured. rewrite (proj2 (Z.eqb_neq _ _) Hx).
  rewrite take_app_length', drop_app_length' by by rewrite length_be_bytes.
  rewrite !be_val_bytes. change (FDT_MAGIC mod _ =? FDT_MAGIC) with true. cbn [negb andb].
  f_equal. by apply Z.mod_small.
Qed.

(** C14. The first AArch64 core boots what the device tree in x0 describes, from
    its first instruction.  Suppose a tree lies behind x0, and the tree and the
    embedded init image lie where neither the entry code nor the loader
    writes.  Then the entry code recognises the tree, takes its size from its
    header, clears .bss and starts C on the kernel's own stack; and
    [kernel_boot_aarch64] enters init inside the memory init was linked for,
    with the console the UART the tree names, the tree's address and the total
    of its first eight memory banks in the block, and the capability layer
    up. *)
Theorem boot_from_start_correct s mc bs slice cs off :
  a64_placed lay (a_mem s) -> 0 < xregs s X0 < 2 ^ 64 - 8 ->
  described root strings rs names -> bytes_ok pad -> (16 <= length pad)%nat -> (tree_size root <= search)%nat ->
  holds (kept (a_mem s)) (xregs s X0) (enc_blob root strings rs ++ pad) ->
  init_image AARCH64 bs slice cs off ->
  Forall (fun s => is_u64 (vmaddr s) /\ is_u64 (vmaddr s + vmsize s)) (segments cs) ->
  holds (kept (a_mem s)) (g_embedded_init_start sym) bs ->
  let span := (BSP_INIT_LOAD_BASE AARCH64, CORE_INIT_MAX_SIZE) in
  disjoint_ranges (xregs s X0, total_len root strings rs + Z.of_nat (length pad)) span ->
  disjoint_ranges (g_embedded_init_start sym, Z.of_nat (length bs)) span ->
  copied_statics img (mc_k mc) -> g_factory_table_at img <> 0 ->
  exists s' entry info mc',
    real_start lay s = Ret s' /\ a_sp s' = a_stack_top lay /\
    (forall q, in_bss lay q -> a_mem s' !! q = Some 0) /\
    boot_from_start s mc = Ret (Entered entry info, mc') /\
    span.1 <= entry < span.1 + span.2 /\
    same_outside span.1 span.2 (a_mem s') (mc_mem mc') /\
    mc_uart mc' = uart_adopt (mc_uart mc) (tree_console names root (40 + rsv_len rs)) /\
    bi_fdt_blob_phys info = xregs s X0 /\
    bi_ram_size info = u64 (foldr (fun r acc => r_size r + acc) 0 (take 8 (memory_banks names root))) /\
    bi_init_image_addr info = g_embedded_init_start sym /\
    factory_handle (bi_caps info) = g_factory_record_at img /\ bootstrapped img (mc_k mc').
Proof.
  intros Hl Hx Hde Hpad Hsl Hfuel Htree Himg Hu Hinit span Hd1 Hd2 Hst Hft.
  destruct (captured_tree (xregs s X0) ltac:(lia) Hde) as [Ecap Hlen].
  set (hd := be_bytes 4 FDT_MAGIC ++ be_bytes 4 (total_len root strings rs)) in *.
  assert (holds (outside (at_g_fdt_blob_phys lay) 40 (mem_rd (a_mem s))) (xregs s X0) hd) as Hhd.
  { eapply holds_ext; [apply kept_outside|]. unfold hd, enc_blob, enc_header in *.
    rewrite !holds_app in Htree. rewrite holds_app. tauto. }
  destruct (wp_inv _ _ (real_start_enters lay s hd Hl ltac:(ulia)
    (or_intror (conj Hx (conj (captured_ok _) (conj eq_refl Hhd)))))) as (s' & Hrun & Hsp & Hent).
  rewrite Ecap in Hent. cbn [fst snd] in Hent. pose proof (kept_after _ _ _ Hent) as Hext.
  set (inp := {| g_xnu_boot_args_addr := 0; g_boot_x0 := xregs s X0;
    g_init_description_phys := 0; g_init_entry_phys := 0 |}).
  destruct (bsp_boot_aarch64_correct sym img inp search root strings rs names pad
    (with_fdt (with_mem mc (a_mem s')) (xregs s X0) (total_len root strings rs)) bs slice cs off)
    as (entry & info & mc' & H & He & Ho & Hua & Hf & Hr & Hi & _ & Hfh & Hbo); try done.
  - split; [done|by eapply holds_ext|done|done].
  - cbn. lia.
  - by eapply holds_ext.
  - exists s', entry, info, mc'. do 2 (split; [done|]). split; [apply (en_bss _ _ _ _ Hent)|]. split; [|done].
    unfold boot_from_start. rewrite Hrun, ret_bind.
    rewrite (entered_var _ _ _ (at_g_boot_x0 lay) (xregs s X0) Hent), ret_bind by (ulia || set_solver).
    rewrite (entered_var _ _ _ (at_g_fdt_blob_phys lay) (xregs s X0) Hent), ret_bind by (ulia || set_solver).
    rewrite (entered_var _ _ _ (at_g_fdt_blob_size lay) (total_len root strings rs) Hent), ret_bind
      by (ulia || set_solver). exact H.
Qed.
End Tree.

(** * The new boot protocol *)

(** A size below a header's rejects any tree before reading it. *)
Lemma no_size_no_console mc : g_fdt_blob_size mc < 40 -> console_found search mc FoundNone.
Proof.
  intros H. unfold console_found, uart_probe, boot_blob, fdt_blob. case_if; [done|].
  unfold fdt_valid. by rewrite (proj2 (Z.ltb_lt _ _) H).
Qed.

(** C36. The new boot protocol, from the entry points of both kinds of core.  The
    first core passes the loader's three registers through to init unread and
    keeps the loader's stack; it enters init at the address in x1 with the
    capability layer up.  Since this path never sets the size of the tree in
    x0, the console stays the built-in one, whatever UART that tree names.
    From then on, whatever init has made of memory and of the capability layer
    short of unbinding the factory, every application processor started with a
    handoff block in memory at x0 runs on the stack the block names.  If the
    block is complete it enters init where the block says, with the block as
    its caller wrote it but for the kernel's two fields, which now hold the
    first core's factory and invoke entry: those 24 bytes of the block are all
    of memory that changes.  If not, it halts with memory as it was.  Either
    way the capability layer and the console's setting are untouched, and one
    message is printed. *)
Theorem boot_from_protocol_correct s mc :
  a64_placed lay (a_mem s) -> word_in (a_mem s) (at_g_fdt_blob_size lay) 0 ->
  is_u64 (xregs s X0) -> is_u64 (xregs s X1) -> is_u64 (xregs s X2) -> xregs s X1 <> 0 ->
  copied_statics img (mc_k mc) -> g_factory_table_at img <> 0 -> granted_u64 sym img ->
  exists s' info0 mc1,
    boot_protocol_start lay s = Ret s' /\ a_sp s' = a_sp s /\
    boot_from_protocol s mc = Ret (Entered (xregs s X1) info0, mc1) /\
    bootstrapped img (mc_k mc1) /\ mc_mem mc1 = a_mem s' /\ mc_uart mc1 = mc_uart mc /\
    bi_fdt_blob_phys info0 = xregs s X0 /\ bi_init_description_phys info0 = xregs s X2 /\
    forall cpu k h, bootstrapped img k -> handoff_at (a_mem cpu) (xregs cpu X0) h ->
      exists r m' c,
        boot_from_ap_shared cpu (with_k mc1 k) =
          Ret (stack_top h, (r, with_out (with_mem (with_k mc1 k) m') (mc_out mc1 ++ [c]))) /\
        if decide (init_entry h <> 0 /\ bi_ap_core_state_phys (boot_info h) <> 0) then
          exists info, r = Entered (init_entry h) info /\
            boot_info_words info =
              [count (bi_caps info0); factory_handle (bi_caps info0); bi_kernel_invoke info0] ++
              drop 3 (boot_info_words (boot_info h)) /\
            handoff_at m' (xregs cpu X0) {| stack_top := stack_top h; init_entry := init_entry h;
              boot_info := info |} /\
            same_outside (xregs cpu X0 + HANDOFF_BOOT_INFO) 24 (a_mem cpu) m'
        else r = Halted /\ m' = a_mem cpu.
Proof.
  intros Hl Hsz U0 U1 U2 Hne Hst Hft Hg.
  destruct (wp_inv _ _ (boot_protocol_start_enters lay s 0 Hl Hsz)) as (s' & Hrun & Hsp & Hent).
  set (inp := {| g_xnu_boot_args_addr := 0; g_boot_x0 := xregs s X0;
    g_init_description_phys := xregs s X2; g_init_entry_phys := xregs s X1 |}).
  set (mc0 := with_fdt (with_mem mc (a_mem s')) (xregs s X0) 0).
  destruct (first_core_boots sym img inp search mc0 FoundNone)
    as (info0 & mc1 & H & Hc & Hi & Hf & Hd & Hb & Hm & Hu & Hser & _); [by apply no_size_no_console|done..|].
  exists s', info0, mc1. do 2 (split; [done|]). split.
  { unfold boot_from_protocol. rewrite Hrun, ret_bind.
    rewrite (entered_var _ _ _ (at_g_boot_x0 lay) (xregs s X0) Hent), ret_bind by (done || set_solver).
    rewrite (entered_var _ _ _ (at_g_fdt_blob_phys lay) (xregs s X0) Hent), ret_bind by (done || set_solver).
    rewrite (entered_var _ _ _ (at_g_fdt_blob_size lay) 0 Hent), ret_bind by (ulia || set_solver).
    rewrite (entered_var _ _ _ (at_g_init_description_phys lay) (xregs s X2) Hent), ret_bind by (done || set_solver).
    rewrite (entered_var _ _ _ (at_g_init_entry_phys lay) (xregs s X1) Hent), ret_bind by (done || set_solver).
    exact H. }
  do 5 (split; [done|]). intros cpu k h Hk Hat.
  destruct (ap_shared_start_stack cpu (stack_top h)) as (cpu' & Hrun' & Hx & Hmem & Hsp');
    [apply (Forall_inv (proj1 (proj2 Hat)))|by eapply handoff_stack|].
  destruct (ap_joins sym img search (with_mem (with_k mc1 k) (a_mem cpu)) (xregs cpu X0) h)
    as (r & m' & c & Hr & Hres); [by apply Hser, no_size_no_console|done..|].
  exists r, m', c. split.
  { unfold boot_from_ap_shared. rewrite Hrun', ret_bind, Hmem, Hx, Hr, ret_bind, Hsp'. reflexivity. }
  rewrite Hc, Hi. case_decide; [|done]. destruct Hres as (-> & Hat' & Hout).
  eexists. split; [reflexivity|]. done.
Qed.

End Whole.

(** The block's address is used before C checks it: without storage at
    address 0 a missing block faults in the entry code. *)
Lemma ap_shared_null s : xregs s X0 = 0 -> a_mem s !! 0 = None -> ap_shared_start s = Fault 0.
Proof.
  intros H0 Hm. cbn. rewrite H0. unfold mem_rd. by rewrite Hm.
Qed.

(** * Examples *)

Definition ex_a64_layout : a64_layout := {|
  at_g_fdt_blob_phys := 0x41030000; _edata := 0x41035000; _end := 0x41035010 |}.

(** The sample machine of BootBsp.v, with the kernel's variables and an
    uncleared .bss. *)
Definition ex_a64_memory : memory :=
  place 0x41030000 (replicate 40 0) (place 0x41035000 (replicate 16 0xAA) ex_bsp_memory).

Definition ex_a64 (x0 x1 x2 : Z) : a64 := {|
  xregs r := match r with X0 => x0 | X1 => x1 | X2 => x2 | _ => 0 end;
  a_sp := 0x40100000; a_mem := ex_a64_memory |}.

Lemma ex_a64_placed : a64_placed ex_a64_layout ex_a64_memory.
Proof.
  split; [by_compute..| |].
  - exact (holds_mapped _ _ (replicate 40 0) (holds_place _ _ _)).
  - apply mapped_place. exact (holds_mapped _ _ (replicate 16 0xAA) (holds_place _ _ _)).
Qed.

Lemma boot_from_start_correct_witness :
  exists entry info mc',
    boot_from_start ex_a64_layout ex_sym ex_img 4 (ex_a64 0x48000000 0 0) ex_bsp = Ret (Entered entry info, mc') /\
    bi_fdt_blob_phys info = 0x48000000 /\ bi_ram_size info = 0x10000000.
Proof.
  destruct (boot_from_start_correct ex_a64_layout ex_sym ex_img 4 ex_bus_root ex_bus_strings [] ex_bus_names
    (replicate 16 0) (ex_a64 0x48000000 0 0) ex_bsp (ex_init AARCH64) 0 (ex_init_cmds AARCH64) 202)
    as (s' & entry & info & mc' & _ & _ & _ & H & _ & _ & _ & Hf & Hram & _).
  - apply ex_a64_placed.
  - by_compute.
  - split; [apply ex_bus_wf|apply ex_bus_named|by_compute|by_compute].
  - by_compute.
  - by_compute.
  - by_compute.
  - apply rd_bytes_holds_inv. vm_compute. reflexivity.
  - apply ex_init_image.
  - repeat constructor; by_compute.
  - apply rd_bytes_holds_inv. vm_compute. reflexivity.
  - by_compute.
  - by_compute.
  - exists dead_record, null_table. by repeat split.
  - done.
  - exists entry, info, mc'. split; [exact H|]. split; [exact Hf|]. rewrite Hram. reflexivity.
Defined.

(** A handoff block for an application processor, as init leaves it. *)
Definition ex_a64_handoff : init_ap_handoff := {|
  stack_top := 0x41A00000; init_entry := 0x40200000;
  boot_info := Build_init_boot_info {| count := 0; factory_handle := 0 |}
    0 1 2 3 4 5 6 7 8 9 10 11 12 13 14 15 16 17 18 19 0x41900000 |}.
Definition ex_a64_ap : a64 := {|
  xregs r := match r with X0 => 0x41980000 | _ => 0 end; a_sp := 0;
  a_mem := place 0x41980000 (words_bytes (handoff_words ex_a64_handoff)) ∅ |}.

Lemma boot_from_protocol_correct_witness :
  exists info0 mc1 info m' c,
    boot_from_protocol ex_a64_layout ex_sym ex_img 4 (ex_a64 0x48000000 0x40200000 0x41880000) ex_bsp =
      Ret (Entered 0x40200000 info0, mc1) /\
    bi_fdt_blob_phys info0 = 0x48000000 /\ mc_uart mc1 = uart_globals0 /\
    boot_from_ap_shared ex_sym ex_img 4 ex_a64_ap (with_k mc1 (mc_k mc1)) =
      Ret (0x41A00000, (Entered 0x40200000 info,
        with_out (with_mem (with_k mc1 (mc_k mc1)) m') (mc_out mc1 ++ [c]))) /\
    same_outside 0x41980010 24 (a_mem ex_a64_ap) m'.
Proof.
  destruct (boot_from_protocol_correct ex_a64_layout ex_sym ex_img 4
    (ex_a64 0x48000000 0x40200000 0x41880000) ex_bsp)
    as (s' & info0 & mc1 & _ & _ & H & Hb & _ & Hu & Hf & _ & Hap).
  - apply ex_a64_placed.
  - apply rd_bytes_holds_inv. vm_compute. reflexivity.
  - by_compute.
  - by_compute.
  - by_compute.
  - done.
  - exists dead_record, null_table. by repeat split.
  - done.
  - split; by_compute.
  - destruct (Hap ex_a64_ap (mc_k mc1) ex_a64_handoff Hb) as (r & m' & c & Hr & Hres).
    { clear. split; [done|]. split; [by_compute|apply holds_place]. }
    rewrite decide_True in Hres by (clear; split; discriminate).
    destruct Hres as (info & -> & _ & _ & Hout).
    exists info0, mc1, info, m', c. split; [exact H|]. split; [exact Hf|]. split; [exact Hu|].
    split; [exact Hr|exact Hout].
Defined.
