(* ===== verification/ApCores.v ===== *)
(** Every application processor of an AArch64 machine, in whatever order they
    are started: each runs [kernel_boot_ap] of arch/boot_aarch64.S and
    kernel/kernel_boot_aarch64.c in its own copy of the kernel image, with
    that copy's statics, on the one physical memory. *)
From S2P Require Import Prelude CMem Schema Capnp Validate Cap CapProps CapInvoke CapBoot.
From S2P Require Import Fdt FdtTree FdtBlob FdtSearch FdtReg FdtEdge Uart UartTree.
From S2P Require Import Macho MachoProps Efi EfiProps SmpLayout PageTables Boot BootProps BootBsp.
From S2P Require Import EntryArm64 EntryArm64Boot.

(** * Starting cores one after another *)

(** A core about to be started: its number, its copy's symbols and statics,
    its registers, and the globals of its copy. *)
Record ap (W : Type) := Ap {
  ap_core : Z;
  ap_sym : symbols;
  ap_img : image;
  ap_cpu : a64;
  ap_globals : machine W }.
Arguments Ap {W} _ _ _ _ _.
Arguments ap_core {W} _.
Arguments ap_sym {W} _.
Arguments ap_img {W} _.
Arguments ap_cpu {W} _.
Arguments ap_globals {W} _.

Section Cores.
Context {W : Type} (search : nat).

Definition start_ap (a : ap W) (m : memory) : outcome (Z * boot_end * memory) :=
  '(sp, (e, mc)) ← boot_from_ap (ap_sym a) (ap_img a) search (ap_cpu a) (with_mem (ap_globals a) m);
  Ret (sp, e, mc_mem mc).

(** One core after another, on the memory the ones before it left. *)
Fixpoint start_aps (l : list (ap W)) (m : memory) : outcome (list (Z * boot_end) * memory) :=
  match l with
  | [] => Ret ([], m)
  | a :: l' =>
      '(sp, e, m) ← start_ap a m;
      '(es, m) ← start_aps l' m;
      Ret ((sp, e) :: es, m)
  end.

(** * What each is given *)

Context (root : tree) (strings : list Z) (rs : list fdt_range_t) (names : Z -> list Z) (pad : list Z).
Context (bs : list Z) (slice : Z) (cs : list lcmd) (off : Z).
Context (Himg : init_image AARCH64 bs slice cs off).
Context (Hfuel : (tree_size root <= search)%nat).

Definition region (a : ap W) : Z := core_region_base AARCH64 (ap_core a).
Definition init_slot (a : ap W) : range := (region a + CORE_INIT_OFFSET, CORE_INIT_MAX_SIZE).
Definition kernel_copy (a : ap W) : range := (region a + CORE_KERNEL_OFFSET, CORE_KERNEL_MAX_SIZE).
Definition tree_range (a : ap W) : range :=
  (g_fdt_blob_phys (ap_globals a), total_len root strings rs + Z.of_nat (length pad)).

(** The core's region is assigned, its copy of the kernel, which holds the
    init image, is there, and so are the discovery record [ds] and, outside
    every region, the device tree. *)
Record ready (m : memory) (a : ap W) (ds : list Z) : Prop := {
  rd_core : 1 <= ap_core a <= 64;
  rd_x0 : xregs (ap_cpu a) X0 = region a;
  rd_init : holds (mem_rd m) (g_embedded_init_start (ap_sym a)) bs;
  rd_copy : inside (g_embedded_init_start (ap_sym a), Z.of_nat (length bs)) (kernel_copy a);
  rd_record : discovery_at m (region a) ds;
  rd_statics : copied_statics (ap_img a) (mc_k (ap_globals a));
  rd_tree : tree_at root strings rs names pad (g_fdt_blob_phys (ap_globals a)) m;
  rd_tree_set : g_fdt_blob_phys (ap_globals a) <> 0 /\
    total_len root strings rs <= g_fdt_blob_size (ap_globals a);
  rd_tree_apart : forall i, 1 <= i <= 64 -> disjoint_ranges (tree_range a) (core_region AARCH64 i) }.

(** What became of it: init entered in its own slot, on its own stack, with
    its own record and its own factory. *)
Definition up (a : ap W) (ds : list Z) (r : Z * boot_end) : Prop :=
  r.1 = region a + CORE_STACK_OFFSET + CORE_STACK_SIZE /\
  exists entry info, r.2 = Entered entry info /\
    (init_slot a).1 <= entry < (init_slot a).1 + (init_slot a).2 /\
    discovered info = ds /\ factory_handle (bi_caps info) = g_factory_record_at (ap_img a).

(** * Lemmas *)

Lemma start_ap_up m a ds :
  ready m a ds ->
  exists sp e m', start_ap a m = Ret (sp, e, m') /\ up a ds (sp, e) /\
    same_outside (init_slot a).1 (init_slot a).2 m m'.
Proof.
  intros [Hc Hx Hi Hcp Hr Hs Ht [Hnz Hsz] Hap]. set (mc := with_mem (ap_globals a) m).
  destruct (ap_start_stack (ap_cpu a)) as (s' & Hrun & Hx' & _ & Hsp).
  { rewrite Hx. unfold region, core_region_base, CORE_REGION_SIZE. simpl. lia. }
  { rewrite Hx. unfold region, core_region_base, CORE_REGION_SIZE. simpl. lia. }
  destruct (ap_boot_aarch64_correct (ap_sym a) (ap_img a) search mc (ap_core a) bs slice cs off ds
    (tree_console names root (40 + rsv_len rs))) as (entry & info & mc' & H & He & Ho & Hd & Hf); try done.
  { by apply (console_of_tree search root strings rs names pad). }
  exists (a_sp s'), (Entered entry info), (mc_mem mc'). split; [|split; [|exact Ho]].
  - unfold start_ap, boot_from_ap. rewrite Hrun, ret_bind, Hx', Hx.
    change (region a) with (core_region_base AARCH64 (ap_core a)). fold mc. by rewrite H.
  - split; [by rewrite Hsp, Hx|]. by exists entry, info.
Qed.

(** A core that is still waiting does not notice. *)
Lemma ready_still m m' a b ds :
  ready m b ds -> 1 <= ap_core a <= 64 -> ap_core a <> ap_core b ->
  same_outside (init_slot a).1 (init_slot a).2 m m' -> ready m' b ds.
Proof.
  intros [Hc Hx Hi Hcp Hr Hs Ht Hnz Hap] Ha Hab Ho.
  assert (inside (init_slot a) (core_region AARCH64 (ap_core a))) as Hin
    by (apply region_parts_inside; right; left; done).
  assert (forall r, r ∈ region_parts (region b) -> disjoint_ranges (init_slot a) r) as Hdis.
  { intros r Hr'. eapply disjoint_inside; [by apply (core_regions_disjoint AARCH64 _ _ Hab)|done|].
    by apply region_parts_inside. }
  split; try done.
  - eapply holds_same_outside; [exact Ho|exact Hi|].
    pose proof (Hdis (kernel_copy b) ltac:(left; done)) as Hk. unfold disjoint_ranges, inside in *. simpl in *. lia.
  - eapply discovery_outside; [exact Hr|exact Ho|]. apply disjoint_ranges_sym.
    apply (Hdis (region b + CORE_DISCOVERY_OFFSET, DISCOVERY_SIZE)). do 3 right. left.
  - eapply tree_survives; [exact Ht|exact Ho|].
    assert (disjoint_ranges (tree_range b) (init_slot a)) as Hd
      by (eapply disjoint_inside; [by apply (Hap (ap_core a))|split; reflexivity|done]).
    unfold disjoint_ranges, tree_range in Hd. simpl in *. lia.
Qed.

(** C35. Application processors do not disturb one another.  Start any number of
    them, one after another, in any order, each in its own region with its
    copy of the kernel, its discovery record and the device tree in place.
    Then every one of them enters init inside its own region's init slot, on
    its own region's stack, with its own record word for word and with its own
    copy's factory; and the only memory that has changed is their init
    slots. *)
Theorem start_aps_correct l dss m :
  NoDup (ap_core <$> l) -> Forall2 (ready m) l dss ->
  exists es m', start_aps l m = Ret (es, m') /\
    Forall2 (fun '(a, ds) r => up a ds r) (zip l dss) es /\
    (forall q, Forall (fun a => ~ ((init_slot a).1 <= q < (init_slot a).1 + (init_slot a).2)) l ->
      m' !! q = m !! q).
Proof.
  intros Hnd H. revert m H. revert dss Hnd.
  induction l as [|a l IH]; intros dss Hnd m H; apply Forall2_cons_inv_l in H || apply Forall2_nil_inv_l in H.
  { subst. exists [], m. split; [done|]. split; [by constructor|done]. }
  destruct H as (ds & dss' & Ha & Hl & ->). apply NoDup_cons in Hnd as [Hna Hnd].
  destruct (start_ap_up m a ds Ha) as (sp & e & m1 & H1 & Hup & Ho).
  destruct (IH dss' Hnd m1) as (es & m' & H2 & Hups & Hout).
  { apply Forall2_same_length_lookup in Hl as Hlk. apply Forall2_same_length_lookup. split; [apply Hlk|].
    intros i b ds' Hb Hd. eapply ready_still; [by eapply Hlk|apply Ha| |exact Ho].
    intros Heq. apply Hna. rewrite Heq. apply list_elem_of_fmap. exists b. split; [done|].
    by eapply list_elem_of_lookup_2. }
  exists ((sp, e) :: es), m'. split; [cbn [start_aps]; by rewrite H1, ret_bind, H2|]. split.
  - by constructor.
  - intros q Hq. apply Forall_cons in Hq as [Hqa Hql]. rewrite Hout by done. by apply Ho.
Qed.

End Cores.

(** * An example: the second core, then the first *)

Definition ex_copy (i : Z) : Z := core_region_base AARCH64 i + CORE_KERNEL_OFFSET + 0x20000.

Definition ex_ap (i : Z) : ap unit := {|
  ap_core := i;
  ap_sym := {| g_embedded_init_start := ex_copy i; g_embedded_init_end := ex_copy i + 0x10000;
    sym_start := 0; sym_end := 0; sym_kernel_invoke := 0; sym_kernel_boot_ap := 0;
    sym_kernel_boot_ap_shared := 0; boot_pml4 := 0 |};
  ap_img := ex_img;
  ap_cpu := {| xregs r := match r with X0 => core_region_base AARCH64 i | _ => 0 end;
    a_sp := 0; a_mem := ∅ |};
  ap_globals := Build_machine ∅ (ex_cold dead_record) 0 0x70000000 4096 0 0 uart_globals0 [] |}.

Definition ex_ap_regions (i : Z) : list (Z * list Z) := [
  (ex_copy i, ex_init AARCH64);
  (core_region_base AARCH64 i + CORE_DISCOVERY_OFFSET, words_bytes ex_record)].

Definition ex_ap_memory : memory :=
  foldr (fun r m => place r.1 r.2 m) ∅ ((0x70000000, ex_dtb) :: ex_ap_regions 1 ++ ex_ap_regions 2).

Lemma ex_ap_ready i : i = 1 \/ i = 2 ->
  ready ex_bus_root ex_bus_strings [] ex_bus_names (replicate 16 0) (ex_init AARCH64) ex_ap_memory (ex_ap i) ex_record.
Proof.
  intros Hi. split.
  - cbn. lia.
  - done.
  - apply rd_bytes_holds_inv. destruct Hi as [->| ->]; vm_compute; reflexivity.
  - destruct Hi as [->| ->]; by_compute.
  - split; [done|]. split; [by_compute|]. apply rd_bytes_holds_inv. destruct Hi as [->| ->]; vm_compute; reflexivity.
  - exists dead_record, null_table. by repeat split.
  - split; [split; [apply ex_bus_wf|apply ex_bus_named|by_compute|by_compute]| |by_compute|by_compute].
    apply rd_bytes_holds_inv. vm_compute. reflexivity.
  - split; [done|by_compute].
  - intros j Hj. right. unfold tree_range, core_region, core_region_base, CORE_REGION_SIZE. cbn. lia.
Qed.

Lemma start_aps_correct_witness :
  exists sp1 sp2 e1 e2 m', start_aps 4 [ex_ap 2; ex_ap 1] ex_ap_memory = Ret ([(sp2, e2); (sp1, e1)], m') /\
    up (ex_ap 1) ex_record (sp1, e1) /\ up (ex_ap 2) ex_record (sp2, e2).
Proof.
  destruct (start_aps_correct 4 ex_bus_root ex_bus_strings [] ex_bus_names (replicate 16 0)
    (ex_init AARCH64) 0 (ex_init_cmds AARCH64) 202 (ex_init_image AARCH64) ltac:(by_compute)
    [ex_ap 2; ex_ap 1] [ex_record; ex_record] ex_ap_memory) as (es & m' & H & Hup & _).
  - by_compute.
  - constructor; [by apply ex_ap_ready; right|]. constructor; [by apply ex_ap_ready; left|constructor].
  - simpl in Hup. apply Forall2_cons_inv_l in Hup as ([sp2 e2] & es' & H2 & Hup & ->).
    apply Forall2_cons_inv_l in Hup as ([sp1 e1] & es'' & H1 & Hup & ->).
    apply Forall2_nil_inv_l in Hup as ->. exists sp1, sp2, e1, e2, m'.
    split; [exact H|]. split; [exact H1|exact H2].
Defined.
